(* ===== verification/_CoqProject ===== *)
-Q . S2P
Prelude.v
RustStd.v
RustFloat.v
Common.v
Core.v
Config.v
Auth.v
Cluster.v
Replication.v
Fs.v
Observability.v
Metrics.v
Telemetry.v
Wal.v
Batch.v
Memory.v
Store.v
Engine.v
Recovery.v
Durability.v
Checkpoint.v
Clients.v
Snapshot.v
Backup.v
Index.v
Query.v
Traversal.v
Paths.v
Ranking.v
Executor.v
Database.v
Publish.v
Tracking.v
Views.v
Service.v
Handlers.v
Admission.v
Serving.v
Answers.v
Limits.v
Cli.v
Bench.v
BenchMain.v
Tree.v
Restore.v
PointInTime.v
Survival.v
UnitTests.v
StoreTests.v
IndexTests.v
QueryTests.v
ApiTests.v
