(* ===== verification/Prelude.v ===== *)
(** * UNDR9: a verification library for the graph memory database

    UNDR9 is an embedded graph and vector store with a write-ahead log, snapshot transactions,
    checkpoints, an in-memory index, a query executor, leader/follower replication and an HTTP
    service.  This library is a shallow embedding of the crates under src/crates: every
    definition is a translation of a function or type there, and the theorems are about those
    definitions.  A method with [&mut self] that returns a [Result] is a function in the state
    monad [sm] below, which keeps what was changed before an early return; the disk is the
    [Fs.World] of Fs.v.

    ** Parts

    - [Prelude], [RustStd], [RustFloat]: results, the state monad, ordered iteration of maps;
      strings, lines, integers with their wrap-around, parsing and printing of the Rust standard
      library; IEEE binary32/64 (the executable [SpecFloat]).
    - [Common] (crates/common): errors and identifiers.  [Core] (crates/core): values, records,
      batches.  [Config] (crates/config): records, defaults, environment, validation.  [Auth]
      (crates/auth).  [Cluster] (crates/cluster).  [Replication] (crates/replication).
    - [Fs]: files, directories and failing calls of [std::fs].
    - [Wal] (crates/wal): frames, segments, append and rotation, replay, reopening.
    - [Memory] (crates/memory): ranking weights and consolidation.
    - crates/storage is split: [Batch] (batches on the two maps of the graph, version history),
      [Store] (layout, manifest, snapshot and delta files), [Engine] ([StorageEngine]: writes and
      transactions), [Recovery] (open, recover, checkpoint, compact, repair), [Backup] (backup,
      restore, JSON lines).  [Durability], [Checkpoint], [Snapshot] and [Clients] hold theorems
      about them; [Tree] (copying, moving and removing directory trees), [Restore] (backup and
      restore end to end) and [PointInTime] (restore to an LSN) those about backups.
    - [Index] (crates/index): the graph index and its vector spaces.
    - crates/query is split: [Query] (requests, plans, views), [Traversal], [Paths], [Ranking],
      [Executor].
    - [Observability], [Metrics] and [Telemetry] (crates/observability and the counters of
      crates/api): the audit log; histograms, counters and their Prometheus text; the
      initialisation of tracing and of its exporter.
    - crates/api is split: [Database] ([Database] of api/src/lib.rs), [Service] ([ApiState],
      authorization, rate limit, budgets, streams, audit), [Handlers] (one definition per handler,
      the router and the metrics middleware).  [Publish], [Tracking] and [Views] hold theorems
      about the database; [Admission], [Serving], [Answers], [Limits] and [Survival] about the
      service.  [Serving.Frame] is the interface the service's theorems share: a relation that
      everything around the one call of the database keeps.
    - [Cli] (crates/cli/src/main.rs): one definition per command of [undr9], transaction plans and
      the recovery drill.  [Bench] (crates/cli/src/bin/undr9-bench.rs): workloads, scenarios and
      statistics of the benchmark.  [BenchMain]: its arguments, report and [main].
    - [UnitTests], [StoreTests], [IndexTests], [QueryTests] and [ApiTests]: the tests the crates
      have in their [mod tests], under their own names, as computations on the definitions above,
      with concrete encodings and an exact search for the graph library.  Each file ends in the
      theorem that all of its tests pass, so the definitions do what the program was tested to
      do, from the weights of the ranking to log shipping between two services on one disk.

    How they meet: a handler runs a method of [Database] on the disk and the service's state; the
    database runs the engine, then records the commit for replication, then applies a planned
    mutation to its indexes and to the snapshot it publishes; the engine appends to the log and
    applies the batch to its maps; queries run on a [Query.GraphView] of the published snapshot,
    or of it with the changes of a transaction on top.  What a view promises is [Query.view_of];
    the executor is verified against that interface and the index discharges it.

    ** Theorems

    - The service.  [Survival.acknowledged_requests_survive_crash]: what a run of requests
      acknowledged is what the store opens to afterwards.  [Answers.acknowledged_write_is_read]:
      an acknowledged write is exactly applied and read back.
      [Serving.service_keeps_published]: a request is at most one call of the database.  [Admission.only_permitted_changes], [Admission.served_errors_are_coded],
      [Answers.served_query_answers], [Answers.maintenance_reports_outcome],
      [Limits.stream_is_bounded], [Limits.rate_limit_burst].  [Cli.served_keys_are_configured]: a
      served deployment opens to the three keys of its environment and no other;
      [Cli.plan_is_all_or_nothing].  [Bench.streamed_workload_is_workload].
    - The database.  [Tracking.published_tracks_engine]: the snapshot queries read is the graph of
      the engine after every call.  [Views.transaction_view_is_snapshot].
    - Storage.  Acknowledged writes survive a crash between any two operations ([Clients]);
      snapshot isolation, no lost updates and atomic failed writes ([Engine]); checkpoints and segment files keep the
      graph ([Checkpoint], [Snapshot]); referential integrity ([Batch]); export and import
      ([Backup]).  A restored backup opens to the graph that was backed up
      ([Restore.backup_restores_graph]), or to the one of an earlier LSN
      ([PointInTime.restore_to_lsn_replays_prefix]).  The log replays what was appended, and of
      a torn segment the whole frames ([Wal]).
    - Queries.  The overlay of a transaction ([Query]); a rebuilt index agrees with the graph
      ([Index]); traversal is complete and ends, a shortest path is shortest, ranking is a sorted
      prefix, every request is answered ([Traversal], [Paths], [Ranking], [Executor]).
    - Configuration and keys, cluster topology, replication catch-up ([Config], [Auth], [Cluster],
      [Replication]); the audit log, histograms and error counters ([Observability], [Metrics]);
      tracing is initialized at most once ([Telemetry.initialized_once]).

    Behaviours the code has and does not mean to have are theorems too, stated as lemmas at the
    place they arise (for instance [Wal.torn_tail_hides_next_append],
    [Checkpoint.compaction_hides_next_write], [Views.moved_edge_is_lost],
    [Answers.unaudited_write_is_committed]).

    ** Bounds and fuel

    Rust integers are [N] or [Z] with the width written out where the code can reach it
    ([u64_add], [u64_max], saturating and checked operations).  Recursion that is not structural
    has fuel: the traversal has one turn for every node its limit lets it queue, the path search
    one level for every step of its depth, and a directory walk the number of directories on the
    disk, of which a path has no more than its depth.  [Traversal.traversal_terminates] and
    [Executor.execute_answers] show that a request always has its answer within them.

    ** Parameters

    serde_json, postcard, rkyv ([Wal.WalCodec], [Store.StorageCodec], [Index.IndexCodec],
    [Database.DatabaseCodec], [Observability.AuditCodec], [Service.FrameCodec]), crc32fast
    (in [WalCodec]), the HNSW and vector-store library ([Index.HnswLib]) and what tracing and
    opentelemetry answer ([Telemetry.TelemetryLib]) are type classes; the laws a theorem needs are named there, and each such theorem has a witness on a concrete
    instance.  Readings of the clock, process ids and environment variables are arguments.

    ** Not modelled

    - axum and tokio: decoding of requests, the body limit, the request timeout, the scheduling
      of handlers.  Requests are served one at a time; the interleavings that matter for the
      audit log, which no lock protects, are [Observability.record_interleaved].
    - What tracing does with the spans and events it is given, and the sending of spans.
    - clap: the command lines of crates/cli are modelled after they are parsed.
    - Of the unit tests: the checksum of a known text by crc32fast, the JSON text of events, the
      gRPC metadata, the headers of HTTP answers, the test that fills a service with 600 nodes
      (the kernel would take minutes) and the benchmark that the query crate ignores.
*)
From Stdlib Require Export ZArith NArith Lia Ascii Strings.Byte.
From stdpp Require Export base tactics option list gmap fin_maps fin_sets sets
  sorting strings pretty numbers.

#[global] Open Scope stdpp_scope.

(** ** Results and stateful computations

    [Result E A] is [std::result::Result<A, E>].  A method taking [&mut self]
    that returns a [Result] is a function of type [sm S E A]: it returns the
    outcome *and* the state it leaves, because an early [return Err(..)] keeps
    the mutations made before it. *)

Inductive Result (E A : Type) : Type :=
| Ok (a : A)
| Err (e : E).
Arguments Ok {E A} a.
Arguments Err {E A} e.

#[global] Instance result_ret {E} : MRet (Result E) := λ A a, Ok a.
#[global] Instance result_bind {E} : MBind (Result E) := λ A B f r,
  match r with Ok a => f a | Err e => Err e end.
#[global] Instance result_fmap {E} : FMap (Result E) := λ A B f r,
  match r with Ok a => Ok (f a) | Err e => Err e end.

Definition is_ok {E A} (r : Result E A) : bool :=
  match r with Ok _ => true | Err _ => false end.

(** [Result::map_err]. *)
Definition map_err {E F A} (f : E → F) (r : Result E A) : Result F A :=
  match r with Ok a => Ok a | Err e => Err (f e) end.

(** [Option::ok_or]. *)
Definition ok_or {E A} (o : option A) (e : E) : Result E A :=
  match o with Some a => Ok a | None => Err e end.

Definition sm (S E A : Type) : Type := S → Result E A * S.

#[global] Instance sm_ret {S E} : MRet (sm S E) := λ A a s, (Ok a, s).
#[global] Instance sm_bind {S E} : MBind (sm S E) := λ A B f m s,
  match m s with
  | (Ok a, s') => f a s'
  | (Err e, s') => (Err e, s')
  end.

Definition sm_get {S E} : sm S E S := λ s, (Ok s, s).
Definition sm_gets {S E A} (f : S → A) : sm S E A := λ s, (Ok (f s), s).
Definition sm_modify {S E} (f : S → S) : sm S E unit := λ s, (Ok tt, f s).
Definition sm_lift {S E A} (r : Result E A) : sm S E A := λ s, (r, s).
Definition sm_fail {S E A} (e : E) : sm S E A := λ s, (Err e, s).

(** Run a computation on a field of a larger state. *)
Definition sm_zoom {T S E A} (get : T → S) (set : S → T → T) (m : sm S E A) : sm T E A :=
  λ t, let '(r, s) := m (get t) in (r, set s t).

(** [for x in l { body }] in a fallible method. *)
Fixpoint sm_for {S E A} (l : list A) (body : A → sm S E unit) : sm S E unit :=
  match l with
  | [] => mret tt
  | x :: l => body x ;; sm_for l body
  end.

(** [iter.map(f).collect::<Result<Vec<_>, _>>()]: the first error wins. *)
Fixpoint result_collect {E A B} (f : A → Result E B) (l : list A) : Result E (list B) :=
  match l with
  | [] => Ok []
  | x :: l => y ← f x; ys ← result_collect f l; Ok (y :: ys)
  end.

(** A fold whose body may return early with an error. *)
Fixpoint result_foldl {E A B} (f : A → B → Result E A) (a : A) (l : list B) : Result E A :=
  match l with
  | [] => Ok a
  | x :: l => a' ← f a x; result_foldl f a' l
  end.

Lemma result_bind_Ok {E A B} (r : Result E A) (f : A → Result E B) b :
  (r ≫= f) = Ok b ↔ ∃ a, r = Ok a ∧ f a = Ok b.
Proof. destruct r; simpl; split; [eauto | by intros (? & [= ->] & ?) | done | by intros (? & ? & ?)]. Qed.

Lemma result_seq_Ok {E B} (r : Result E unit) (k : Result E B) b :
  (r ;; k) = Ok b ↔ r = Ok tt ∧ k = Ok b.
Proof. rewrite result_bind_Ok. split; [by intros ([] & ? & ?) | intros [? ?]; by exists tt]. Qed.

Lemma result_collect_Ok {E A B} (f : A → Result E B) l ys :
  result_collect f l = Ok ys ↔ Forall2 (λ x y, f x = Ok y) l ys.
Proof.
  revert ys. induction l as [|x l IH]; intros ys; simpl.
  - split; [intros [= <-]; constructor | by inversion 1].
  - destruct (f x) as [y|e] eqn:Hx; simpl.
    + destruct (result_collect f l) as [zs|e]; simpl.
      * split.
        -- intros [= <-]. constructor; [done | by apply IH].
        -- inversion 1 as [|???? Hy Hys]; subst.
           apply IH in Hys. congruence.
      * split; [done|]. inversion 1 as [|???? Hy Hys]; subst.
        apply IH in Hys. congruence.
    + split; [done|]. inversion 1; congruence.
Qed.

Lemma result_foldl_app {E A B} (f : A → B → Result E A) a l1 l2 :
  result_foldl f a (l1 ++ l2) = (a' ← result_foldl f a l1; result_foldl f a' l2).
Proof.
  revert a. induction l1 as [|x l1 IH]; intros a; simpl; [done|].
  destruct (f a x); simpl; [apply IH | done].
Qed.

(** Invert one step of a [sm] computation. *)
Lemma sm_bind_inv {S E A B} (m : sm S E A) (f : A → sm S E B) s res :
  (m ≫= f) s = res →
  (∃ a s', m s = (Ok a, s') ∧ f a s' = res) ∨ (∃ e s', m s = (Err e, s') ∧ res = (Err e, s')).
Proof.
  unfold mbind, sm_bind. destruct (m s) as [[a|e] s']; intros <-; [left|right]; eauto.
Qed.

Lemma sm_bind_Ok {S E A B} (m : sm S E A) (f : A → sm S E B) s b s'' :
  (m ≫= f) s = (Ok b, s'') → ∃ a s', m s = (Ok a, s') ∧ f a s' = (Ok b, s'').
Proof. intros [?|(? & ? & _ & ?)]%sm_bind_inv; [done|simplify_eq]. Qed.

Ltac sm_inv H :=
  let a := fresh "a" in let st := fresh "st" in let Hm := fresh "Hm" in
  apply sm_bind_inv in H as [(a & st & Hm & H)|(a & st & Hm & H)].
(** Read off a step that does not touch the state. *)
Ltac sm_pure H := unfold mret, sm_ret, sm_get, sm_gets, sm_lift, sm_modify, sm_fail in H; simplify_eq.

(** Invert the run of a [sm] computation or of a [Result] computation. *)
Ltac unfold_sm :=
  unfold mbind, mret, sm_bind, sm_ret, sm_get, sm_gets, sm_modify, sm_lift, sm_fail,
    sm_zoom, result_bind, result_ret in *; simpl in *.

Ltac destruct_result :=
  repeat match goal with
  | H : (_, _) = (_, _) |- _ => injection H as ? ?; subst
  | H : Ok _ = Ok _ |- _ => injection H as ?; subst
  | H : Err _ = Err _ |- _ => injection H as ?; subst
  | H : Ok _ = Err _ |- _ => discriminate H
  | H : Err _ = Ok _ |- _ => discriminate H
  | H : context [match ?x with _ => _ end] |- _ =>
      lazymatch type of H with _ = _ => destruct x eqn:? | _ ≠ _ => destruct x eqn:? end
  end.

(** ** Lists *)

Lemma StronglySorted_snoc {A} (R : relation A) l x :
  StronglySorted R l → Forall (λ y, R y x) l → StronglySorted R (l ++ [x]).
Proof.
  induction 1 as [|y l Hs IH Hy]; simpl; [repeat constructor|].
  rewrite list.Forall_cons. intros [Hyx Hl]. constructor; [by apply IH|].
  apply list.Forall_app. by repeat constructor.
Qed.

Lemma StronglySorted_filter {A} (R : relation A) (P : A → Prop) `{!∀ x, Decision (P x)} l :
  StronglySorted R l → StronglySorted R (filter P l).
Proof.
  induction 1 as [|x l Hs IH Hx]; [constructor|]. rewrite filter_cons. case_decide; [|done].
  constructor; [done|]. apply list.Forall_forall. intros y [_ Hy]%list_elem_of_filter.
  rewrite list.Forall_forall in Hx. auto.
Qed.

Lemma filter_none {A} (P : A → Prop) `{!∀ x, Decision (P x)} l :
  (∀ x, x ∈ l → ¬ P x) → filter P l = [].
Proof.
  induction l as [|x l IH]; intros Hl; [done|]. rewrite filter_cons, decide_False.
  - apply IH. intros y Hy. apply Hl. by right.
  - apply Hl. left.
Qed.

Lemma filter_all {A} (P : A → Prop) `{!∀ x, Decision (P x)} l : Forall P l → filter P l = l.
Proof. induction 1 as [|x l Hx _ IH]; [done|]. by rewrite filter_cons, decide_True, IH. Qed.

Lemma NoDup_omap_inj {A B} (f : A → option B) l : NoDup l →
  (∀ x y z, x ∈ l → y ∈ l → f x = Some z → f y = Some z → x = y) → NoDup (omap f l).
Proof.
  induction 1 as [|x l Hx _ IH]; intros Hf; [constructor|]. csimpl.
  assert (Hl : NoDup (omap f l)) by (apply IH; intros; eapply Hf; (by right) || done).
  destruct (f x) as [z|] eqn:Hz; [|done]. constructor; [|done].
  intros (y & Hy & Hyz)%list_elem_of_omap. apply Hx. by rewrite (Hf x y z ltac:(left) ltac:(by right) Hz Hyz).
Qed.

(** ** Machine integers

    [u64] values are [N]; arithmetic that can leave the width wraps, as release
    builds do. *)

Definition u64_modulus : N := 18446744073709551616.
Definition u64_max : N := 18446744073709551615.
Definition u64_add (a b : N) : N := ((a + b) mod u64_modulus)%N.
(** [u64::saturating_sub]. *)
Definition u64_saturating_sub (a b : N) : N := (a - b)%N.

Definition i64_min : Z := -9223372036854775808.
Definition i64_max : Z := 9223372036854775807.
Definition is_i64 (z : Z) : bool := ((i64_min <=? z) && (z <=? i64_max))%Z.

(** [i64] subtraction, wrapping. *)
Definition i64_sub (a b : Z) : Z :=
  let d := ((a - b) mod 18446744073709551616)%Z in
  if (d <=? i64_max)%Z then d else (d - 18446744073709551616)%Z.

Lemma i64_sub_small a b : is_i64 (a - b) = true → i64_sub a b = (a - b)%Z.
Proof.
  unfold is_i64, i64_sub, i64_min, i64_max. rewrite andb_true_iff, !Z.leb_le. intros [Hlo Hhi].
  destruct (Z.le_gt_cases 0 (a - b)).
  - rewrite Z.mod_small by lia. by destruct (Z.leb_spec (a - b) 9223372036854775807); [|lia].
  - replace ((a - b) mod 18446744073709551616)%Z with (a - b + 18446744073709551616)%Z.
    + destruct (Z.leb_spec (a - b + 18446744073709551616) 9223372036854775807); lia.
    + apply (Z.mod_unique_pos _ _ (-1)); lia.
Qed.

Lemma u64_add_small a b : (a + b < u64_modulus)%N → u64_add a b = (a + b)%N.
Proof. intros ?. unfold u64_add. by rewrite N.mod_small. Qed.

(** ** Ordered maps and sets

    A [BTreeMap<K, V>] is a [gmap K V] read in key order: [btree_entries],
    [btree_keys] and [btree_values] are its iterators, and [bset_elements] is the
    iterator of a [BTreeSet]. *)

Class OrdKey (K : Type) := {
  ord_le : relation K;
  ord_dec :: RelDecision ord_le;
  ord_trans :: Transitive ord_le;
  ord_total :: Total ord_le;
  ord_antisymm :: AntiSymm (=) ord_le;
}.

#[global] Instance ordkey_string : OrdKey string.
Proof. refine {| ord_le := String.le |}; apply _. Defined.

#[global] Instance ordkey_Z : OrdKey Z.
Proof. refine {| ord_le := Z.le |}; apply _. Defined.

(** Keys that are newtypes over an ordered type compare as that type. *)
Section ord_inj.
Context {A B : Type} `{OrdKey B} (f : A → B) `{!Inj (=) (=) f}.

Definition ordkey_inj : OrdKey A.
Proof.
  refine {| ord_le a1 a2 := ord_le (f a1) (f a2) |}.
  - intros a1 a2. apply _.
  - intros a1 a2 a3. apply transitivity.
  - intros a1 a2. apply (total ord_le).
  - intros a1 a2 ??. apply (inj f). by apply (anti_symm ord_le).
Defined.
End ord_inj.

(** Pairs compare lexicographically. *)
Section ord_prod.
Context {A B : Type} `{EqDecision A, OrdKey A, OrdKey B}.

Definition lex_le : relation (A * B) := λ p q,
  (p.1 ≠ q.1 ∧ ord_le p.1 q.1) ∨ (p.1 = q.1 ∧ ord_le p.2 q.2).

#[local] Instance lex_le_trans : Transitive lex_le.
Proof.
  intros [a b] [c d] [e g]. unfold lex_le; simpl.
  intros [[Hn1 H1]|[-> H1]] [[Hn2 H2]|[-> H2]].
  - left. split; [|by etrans]. intros ->. by destruct (anti_symm ord_le c e).
  - by left.
  - by left.
  - right. split; [done|by etrans].
Qed.

#[local] Instance lex_le_total : Total lex_le.
Proof.
  intros [a b] [c d]. unfold lex_le; simpl. destruct (decide (a = c)) as [->|].
  - destruct (total ord_le b d); [left|right]; by right.
  - destruct (total ord_le a c); [left|right]; by left.
Qed.

#[local] Instance lex_le_antisymm : AntiSymm (=) lex_le.
Proof.
  intros [a b] [c d]. unfold lex_le; simpl.
  intros [[Hn1 H1]|[-> H1]] [[Hn2 H2]|[Heq H2]]; try done.
  - by destruct (anti_symm ord_le a c).
  - f_equal. by apply (anti_symm ord_le).
Qed.

Definition ordkey_prod : OrdKey (A * B).
Proof.
  refine {| ord_le := lex_le |}. intros p q. unfold lex_le. apply _.
Defined.
End ord_prod.
#[global] Instance ordkey_string_pair : OrdKey (string * string) := ordkey_prod.

Section btree.
Context {K : Type} `{Countable K, OrdKey K}.

Definition entry_le {A} : relation (K * A) := λ p q, ord_le p.1 q.1.
#[global] Instance entry_le_dec {A} : RelDecision (entry_le (A := A)).
Proof. intros p q. unfold entry_le. apply _. Defined.
#[global] Instance entry_le_trans {A} : Transitive (entry_le (A := A)).
Proof. intros p q r. unfold entry_le. apply transitivity. Qed.
#[global] Instance entry_le_total {A} : Total (entry_le (A := A)).
Proof. intros p q. unfold entry_le. apply total, _. Qed.

Definition btree_entries {A} (m : gmap K A) : list (K * A) :=
  merge_sort entry_le (map_to_list m).
Definition btree_keys {A} (m : gmap K A) : list K := (btree_entries m).*1.
Definition btree_values {A} (m : gmap K A) : list A := (btree_entries m).*2.
Definition bset_elements (s : gset K) : list K := merge_sort ord_le (elements s).

Lemma btree_entries_perm {A} (m : gmap K A) : btree_entries m ≡ₚ map_to_list m.
Proof. apply merge_sort_Permutation. Qed.

Lemma elem_of_btree_entries {A} (m : gmap K A) k v :
  (k, v) ∈ btree_entries m ↔ m !! k = Some v.
Proof. rewrite btree_entries_perm. apply elem_of_map_to_list. Qed.

Lemma btree_keys_NoDup {A} (m : gmap K A) : NoDup (btree_keys m).
Proof. unfold btree_keys. rewrite btree_entries_perm. apply NoDup_fst_map_to_list. Qed.

Lemma elem_of_btree_keys {A} (m : gmap K A) k : k ∈ btree_keys m ↔ is_Some (m !! k).
Proof.
  unfold btree_keys. rewrite list_elem_of_fmap. split.
  - intros [[k' v] [-> Hin%elem_of_btree_entries]]. eauto.
  - intros [v Hv]. exists (k, v). by rewrite elem_of_btree_entries.
Qed.

Lemma elem_of_btree_values {A} (m : gmap K A) v :
  v ∈ btree_values m ↔ ∃ k, m !! k = Some v.
Proof.
  unfold btree_values. rewrite list_elem_of_fmap. split.
  - intros [[k v'] [-> Hin%elem_of_btree_entries]]. eauto.
  - intros [k Hv]. exists (k, v). by rewrite elem_of_btree_entries.
Qed.

Lemma elem_of_bset_elements (s : gset K) k : k ∈ bset_elements s ↔ k ∈ s.
Proof. unfold bset_elements. rewrite merge_sort_Permutation. apply elem_of_elements. Qed.

Lemma bset_elements_NoDup (s : gset K) : NoDup (bset_elements s).
Proof. unfold bset_elements. rewrite merge_sort_Permutation. apply NoDup_elements. Qed.

Lemma btree_entries_sorted {A} (m : gmap K A) : StronglySorted entry_le (btree_entries m).
Proof. apply StronglySorted_merge_sort; apply _. Qed.

Lemma bset_elements_sorted (s : gset K) : StronglySorted ord_le (bset_elements s).
Proof. apply StronglySorted_merge_sort; apply _. Qed.

Lemma length_btree_values {A} (m : gmap K A) : length (btree_values m) = size m.
Proof.
  unfold btree_values. rewrite length_fmap, btree_entries_perm. by rewrite length_map_to_list.
Qed.

(** Iterating a map and collecting it again gives the map back. *)
Lemma list_to_map_btree_entries {A} (m : gmap K A) :
  list_to_map (btree_entries m) =@{gmap K A} m.
Proof.
  transitivity (list_to_map (map_to_list m) : gmap K A); [|apply list_to_map_to_list].
  apply list_to_map_proper; [|apply btree_entries_perm].
  fold (btree_keys m). apply btree_keys_NoDup.
Qed.

Lemma btree_entries_empty {A} : btree_entries (∅ : gmap K A) = [].
Proof. unfold btree_entries. by rewrite map_to_list_empty. Qed.
End btree.
