(* ===== verification/RustStd.v ===== *)
(** * The parts of the Rust standard library the sources use on strings and bytes

    A [String] is a Rocq [string] holding its UTF-8 bytes, so that the derived
    ordering of identifiers (byte-lexicographic) is [String.le].  This file gives
    [str::trim], [str::split_once], [str::lines], [to_ascii_lowercase],
    [str::parse] for unsigned types, the [{:020}] format and the little-endian
    byte encoding of a [u64], with the laws the components rely on. *)
From S2P Require Import Prelude.

#[local] Open Scope string_scope.
#[local] Open Scope N_scope.
#[local] Open Scope list_scope.

(** ** Bytes *)

#[global] Instance byte_eq_dec : EqDecision Byte.byte := Byte.byte_eq_dec.

Definition byte_of_N (n : N) : Byte.byte := default Byte.x00 (Byte.of_N n).

Lemma byte_to_N_bound b : Byte.to_N b < 256.
Proof. destruct b; vm_compute; done. Qed.

Lemma byte_of_to_N b : byte_of_N (Byte.to_N b) = b.
Proof. unfold byte_of_N. by rewrite Byte.of_to_N. Qed.

Lemma byte_to_of_N n : n < 256 → Byte.to_N (byte_of_N n) = n.
Proof.
  intros Hn. unfold byte_of_N. destruct (Byte.of_N n) as [b|] eqn:Hb; simpl.
  - by apply Byte.to_of_N.
  - apply Byte.of_N_None_iff in Hb. lia.
Qed.

#[global] Program Instance byte_countable : Countable Byte.byte :=
  inj_countable' Byte.to_N byte_of_N byte_of_to_N.

(** [u64::to_le_bytes] and [u64::from_le_bytes] on [w] bytes. *)
Fixpoint le_bytes (w : nat) (x : N) : list Byte.byte :=
  match w with
  | O => []
  | S w => byte_of_N (x mod 256) :: le_bytes w (x / 256)
  end.

Fixpoint from_le (bs : list Byte.byte) : N :=
  match bs with
  | [] => 0
  | b :: bs => Byte.to_N b + 256 * from_le bs
  end.

Definition to_le_bytes (x : N) : list Byte.byte := le_bytes 8 x.

Lemma length_le_bytes w x : length (le_bytes w x) = w.
Proof. revert x. induction w as [|w IH]; intros x; simpl; [done|]. by rewrite IH. Qed.

Lemma from_le_bytes w x : x < 256 ^ N.of_nat w → from_le (le_bytes w x) = x.
Proof.
  revert x. induction w as [|w IH]; intros x Hx; simpl le_bytes; simpl from_le.
  - simpl in Hx. lia.
  - rewrite Nat2N.inj_succ, N.pow_succ_r' in Hx.
    rewrite byte_to_of_N by (apply N.mod_lt; lia).
    rewrite IH by (apply N.Div0.div_lt_upper_bound; lia).
    pose proof (N.div_mod x 256). lia.
Qed.

Lemma from_le_app bs1 bs2 :
  from_le (bs1 ++ bs2) = from_le bs1 + 256 ^ N.of_nat (length bs1) * from_le bs2.
Proof.
  induction bs1 as [|b bs1 IH]; simpl from_le; simpl length; simpl app.
  - simpl. lia.
  - rewrite IH, Nat2N.inj_succ, N.pow_succ_r'. lia.
Qed.

Lemma from_le_bound bs : from_le bs < 256 ^ N.of_nat (length bs).
Proof.
  induction bs as [|b bs IH]; simpl from_le; simpl length; [done|].
  rewrite Nat2N.inj_succ, N.pow_succ_r'. pose proof (byte_to_N_bound b). lia.
Qed.

(** ** Whitespace

    One leading character of Unicode [White_Space], removed from its UTF-8
    encoding of one, two or three bytes. *)
Definition strip_ws (s : string) : option string :=
  match s with
  | EmptyString => None
  | String c1 r1 =>
    let b1 := N_of_ascii c1 in
    if ((9 <=? b1) && (b1 <=? 13)) || (b1 =? 32) then Some r1 else
    match r1 with
    | EmptyString => None
    | String c2 r2 =>
      let b2 := N_of_ascii c2 in
      if (b1 =? 0xC2) && ((b2 =? 0x85) || (b2 =? 0xA0)) then Some r2 else
      match r2 with
      | EmptyString => None
      | String c3 r3 =>
        let b3 := N_of_ascii c3 in
        if ((b1 =? 0xE1) && (b2 =? 0x9A) && (b3 =? 0x80))
           || ((b1 =? 0xE2) && (b2 =? 0x80)
               && (((0x80 <=? b3) && (b3 <=? 0x8A))
                   || (b3 =? 0xA8) || (b3 =? 0xA9) || (b3 =? 0xAF)))
           || ((b1 =? 0xE2) && (b2 =? 0x81) && (b3 =? 0x9F))
           || ((b1 =? 0xE3) && (b2 =? 0x80) && (b3 =? 0x80))
        then Some r3 else None
      end
    end
  end.

Fixpoint trim_start_fuel (fuel : nat) (s : string) : string :=
  match fuel with
  | O => s
  | S fuel => match strip_ws s with Some r => trim_start_fuel fuel r | None => s end
  end.
Definition trim_start (s : string) : string := trim_start_fuel (String.length s) s.

(** [value.trim().is_empty()]: every character is whitespace. *)
Definition is_blank (s : string) : bool := String.eqb (trim_start s) "".

Fixpoint trim_end (s : string) : string :=
  if is_blank s then "" else
  match s with
  | EmptyString => ""
  | String c r => String c (trim_end r)
  end.

Definition trim (s : string) : string := trim_end (trim_start s).

(** ** Characters and substrings *)

Definition is_ascii_digit (c : ascii) : bool :=
  let b := N_of_ascii c in (48 <=? b) && (b <=? 57).
Definition is_ascii_alphanumeric (c : ascii) : bool :=
  let b := N_of_ascii c in
  ((48 <=? b) && (b <=? 57)) || ((65 <=? b) && (b <=? 90)) || ((97 <=? b) && (b <=? 122)).
Definition is_ascii_hexdigit (c : ascii) : bool :=
  let b := N_of_ascii c in
  ((48 <=? b) && (b <=? 57)) || ((65 <=? b) && (b <=? 70)) || ((97 <=? b) && (b <=? 102)).
Definition ascii_lower (c : ascii) : ascii :=
  let b := N_of_ascii c in if (65 <=? b) && (b <=? 90) then ascii_of_N (b + 32) else c.

(** [s.bytes().all(p)]; for the ASCII classes above this is [s.chars().all(p)],
    since no byte of a multi-byte character is in them. *)
Fixpoint str_all (p : ascii → bool) (s : string) : bool :=
  match s with EmptyString => true | String c r => p c && str_all p r end.

Fixpoint to_ascii_lowercase (s : string) : string :=
  match s with EmptyString => "" | String c r => String (ascii_lower c) (to_ascii_lowercase r) end.

(** [str::split_once(d)] for an ASCII delimiter. *)
Fixpoint split_once (d : ascii) (s : string) : option (string * string) :=
  match s with
  | EmptyString => None
  | String c r =>
    if decide (c = d) then Some ("", r)
    else match split_once d r with
         | Some (a, b) => Some (String c a, b)
         | None => None
         end
  end.

(** [str::split(d)]. *)
Fixpoint split_on (d : ascii) (s : string) : list string :=
  match s with
  | EmptyString => [""]
  | String c r =>
    if decide (c = d) then "" :: split_on d r
    else match split_on d r with
         | [] => [String c ""]
         | w :: ws => String c w :: ws
         end
  end.

Fixpoint str_contains (s sub : string) : bool :=
  String.prefix sub s ||
  match s with EmptyString => false | String _ r => str_contains r sub end.

Definition str_rev (s : string) : string :=
  String.string_of_list_ascii (rev (String.list_ascii_of_string s)).
Definition ends_with (s suffix : string) : bool := String.prefix (str_rev suffix) (str_rev s).

(** [value.parse::<uN>()] with [max] the largest value of the type: an optional
    [+], then at least one digit, no overflow. *)
Fixpoint parse_digits (max acc : N) (s : string) : option N :=
  match s with
  | EmptyString => Some acc
  | String c r =>
    if is_ascii_digit c then
      let acc' := acc * 10 + (N_of_ascii c - 48) in
      if acc' <=? max then parse_digits max acc' r else None
    else None
  end.
Definition parse_unsigned (max : N) (s : string) : option N :=
  match s with
  | EmptyString => None
  | String c r =>
    if decide (c = "+"%char) then
      match r with EmptyString => None | String _ _ => parse_digits max 0 r end
    else parse_digits max 0 s
  end.
Definition parse_u64 : string → option N := parse_unsigned u64_max.
(** [usize] is 64 bits wide on the targets the project ships. *)
Definition parse_usize : string → option N := parse_unsigned u64_max.

(** ** Fixed-width decimals: [format!("{n:020}")]

    Every [u64] has at most 20 decimal digits, so the zero-padded form has
    exactly 20. *)
Definition digit (n : N) : ascii := ascii_of_N (48 + n).
Fixpoint dec_fixed (w : nat) (n : N) : string :=
  match w with
  | O => ""
  | S w => String (digit (n / 10 ^ N.of_nat w)) (dec_fixed w (n mod 10 ^ N.of_nat w))
  end.
Definition fmt_020 (n : N) : string := dec_fixed 20 n.

Lemma N_of_digit n : n < 10 → N_of_ascii (digit n) = 48 + n.
Proof. intros ?. unfold digit. apply N_ascii_embedding. lia. Qed.

Lemma digit_is_digit n : n < 10 → is_ascii_digit (digit n) = true.
Proof. intros ?. unfold is_ascii_digit. rewrite N_of_digit by done.
  apply andb_true_intro. split; apply N.leb_le; lia. Qed.

Lemma pow10_succ w : 10 ^ N.of_nat (S w) = 10 * 10 ^ N.of_nat w.
Proof. by rewrite Nat2N.inj_succ, N.pow_succ_r'. Qed.

Lemma pow10_pos w : 0 < 10 ^ N.of_nat w.
Proof. apply N.neq_0_lt_0, N.pow_nonzero. lia. Qed.

Lemma div_pow10_lt w n : n < 10 ^ N.of_nat (S w) → n / 10 ^ N.of_nat w < 10.
Proof. rewrite pow10_succ. intros. apply N.Div0.div_lt_upper_bound. lia. Qed.

Lemma mod_pow10_lt w n : n mod 10 ^ N.of_nat w < 10 ^ N.of_nat w.
Proof. apply N.mod_lt. pose proof (pow10_pos w). lia. Qed.

(** A smaller number comes first, whatever follows the digits. *)
Lemma dec_fixed_lt w n m s t : n < 10 ^ N.of_nat w → m < 10 ^ N.of_nat w → n < m →
  String.compare (dec_fixed w n +:+ s) (dec_fixed w m +:+ t) = Lt.
Proof.
  revert n m. induction w as [|w IH]; intros n m Hn Hm Hlt; [simpl in Hn, Hm; lia|].
  simpl dec_fixed. simpl String.app. simpl String.compare. unfold Ascii.compare.
  set (P := 10 ^ N.of_nat w) in *.
  assert (0 < P) by apply pow10_pos.
  assert (n / P < 10) by (by apply div_pow10_lt).
  assert (m / P < 10) by (by apply div_pow10_lt).
  rewrite !N_of_digit by done.
  pose proof (N.div_mod n P ltac:(lia)) as En. pose proof (N.div_mod m P ltac:(lia)) as Em.
  pose proof (mod_pow10_lt w n) as Ln. pose proof (mod_pow10_lt w m) as Lm. fold P in Ln, Lm.
  clearbody P. generalize dependent (n / P). generalize dependent (m / P).
  generalize dependent (n mod P). generalize dependent (m mod P).
  intros mr Lm nr Ln mq ? Em nq ? En.
  destruct (48 + nq ?= 48 + mq) eqn:Hc; [|done|].
  - apply N.compare_eq in Hc. assert (nq = mq) as -> by lia. apply IH; lia.
  - apply (N.compare_gt_iff (48 + nq)) in Hc.
    pose proof (N.mul_le_mono_l (mq + 1) nq P ltac:(lia)). lia.
Qed.

(** Zero-padded numbers of the same width compare as the numbers do. *)
Lemma dec_fixed_compare w n m s :
  n < 10 ^ N.of_nat w → m < 10 ^ N.of_nat w →
  String.compare (dec_fixed w n +:+ s) (dec_fixed w m +:+ s) = (n ?= m).
Proof.
  revert n m. induction w as [|w IH]; intros n m Hn Hm.
  - simpl in Hn, Hm. assert (n = 0) as -> by lia. assert (m = 0) as -> by lia. simpl.
    clear. induction s as [|c s IH]; [done|]. simpl.
    unfold Ascii.compare. by rewrite N.compare_refl.
  - simpl dec_fixed. simpl String.app. simpl String.compare. unfold Ascii.compare.
    set (P := 10 ^ N.of_nat w) in *.
    assert (0 < P) by apply pow10_pos.
    assert (n / P < 10) by (by apply div_pow10_lt).
    assert (m / P < 10) by (by apply div_pow10_lt).
    rewrite !N_of_digit by done.
    pose proof (N.div_mod n P ltac:(lia)) as En. pose proof (N.div_mod m P ltac:(lia)) as Em.
    pose proof (mod_pow10_lt w n) as Ln. pose proof (mod_pow10_lt w m) as Lm. fold P in Ln, Lm.
    clearbody P. generalize dependent (n / P). generalize dependent (m / P).
    generalize dependent (n mod P). generalize dependent (m mod P).
    intros mr Lm nr Ln mq ? Em nq ? En.
    destruct (48 + nq ?= 48 + mq) eqn:Hc; symmetry.
    + apply N.compare_eq in Hc. rewrite IH by done. assert (nq = mq) as -> by lia.
      destruct (nr ?= mr) eqn:Hc2;
        [ apply N.compare_eq in Hc2; apply N.compare_eq_iff
        | change (nr < mr) in Hc2; apply N.compare_lt_iff
        | apply (N.compare_gt_iff nr mr) in Hc2; apply N.compare_gt_iff ]; lia.
    + change (48 + nq < 48 + mq) in Hc. apply N.compare_lt_iff.
      pose proof (N.mul_le_mono_l (nq + 1) mq P ltac:(lia)). lia.
    + apply (N.compare_gt_iff (48 + nq)) in Hc. apply N.compare_gt_iff.
      pose proof (N.mul_le_mono_l (mq + 1) nq P ltac:(lia)). lia.
Qed.

Lemma parse_digits_dec_fixed w n acc max :
  n < 10 ^ N.of_nat w → acc * 10 ^ N.of_nat w + n ≤ max →
  parse_digits max acc (dec_fixed w n) = Some (acc * 10 ^ N.of_nat w + n).
Proof.
  revert n acc. induction w as [|w IH]; intros n acc Hn Hmax; simpl dec_fixed; simpl parse_digits.
  - simpl in *. f_equal. lia.
  - pose proof (div_pow10_lt w n Hn) as Hd. rewrite digit_is_digit, N_of_digit by done.
    rewrite (N.add_comm 48), N.add_sub. rewrite pow10_succ in *.
    pose proof (mod_pow10_lt w n) as Ln. pose proof (pow10_pos w) as Hpos.
    pose proof (N.div_mod n (10 ^ N.of_nat w) ltac:(lia)) as En.
    specialize (IH (n mod 10 ^ N.of_nat w) (acc * 10 + n / 10 ^ N.of_nat w) Ln).
    revert IH Hd Hmax Ln Hpos En. generalize (n mod 10 ^ N.of_nat w) as r.
    generalize (n / 10 ^ N.of_nat w) as q. generalize (10 ^ N.of_nat w) as P.
    intros P q r IH Hd Hmax Ln Hpos En.
    destruct (N.leb_spec (acc * 10 + q) max); [|nia].
    rewrite IH by nia. f_equal. nia.
Qed.

Local Close Scope N_scope.

(** ** Text in files *)

(** [s.as_bytes()] and [String::from_utf8] of what is valid UTF-8. *)
Definition bytes_of_string (s : string) : list Byte.byte :=
  Ascii.byte_of_ascii <$> String.list_ascii_of_string s.
Definition string_of_bytes (bs : list Byte.byte) : string :=
  String.string_of_list_ascii (Ascii.ascii_of_byte <$> bs).

(** [str::lines] and [BufRead::lines]: lines end in ["\n"] or ["\r\n"]; the part after the
    last one is a line when it is not empty. *)
Definition strip_cr (line : string) : string :=
  match str_rev line with
  | String c r => if decide (c = "013"%char) then str_rev r else line
  | EmptyString => line
  end.
Definition lines_of (text : string) : list string :=
  let parts := split_on "010"%char text in
  match rev parts with
  | "" :: rest => strip_cr <$> rev rest
  | last :: rest => (strip_cr <$> rev rest) ++ [last]
  | [] => []
  end.

Definition not_newline (x : ascii) : bool := negb (bool_decide (x = "010"%char)).

Definition text_of (lines : list string) : string := foldr (λ l t, l +:+ String "010"%char t) "" lines.

Lemma string_of_bytes_of_string s : string_of_bytes (bytes_of_string s) = s.
Proof.
  unfold string_of_bytes, bytes_of_string. rewrite <-list_fmap_compose.
  rewrite <-(String.string_of_list_ascii_of_string s) at 2. f_equal.
  rewrite <-(list_fmap_id (String.list_ascii_of_string s)) at 2.
  apply list_fmap_ext. intros i x _. apply Ascii.ascii_of_byte_of_ascii.
Qed.

Lemma string_of_bytes_app a b : string_of_bytes (a ++ b) = string_of_bytes a +:+ string_of_bytes b.
Proof.
  unfold string_of_bytes. rewrite fmap_app. induction (Ascii.ascii_of_byte <$> a) as [|x l IH]; [done|].
  simpl. by rewrite IH.
Qed.

Lemma bytes_of_string_app s t : bytes_of_string (s +:+ t) = bytes_of_string s ++ bytes_of_string t.
Proof.
  unfold bytes_of_string. rewrite <-fmap_app. f_equal.
  induction s as [|x s IH]; [done|]. simpl. by rewrite <-IH.
Qed.

Lemma split_line line t : str_all not_newline line = true →
  split_on "010"%char (line +:+ String "010"%char t) = line :: split_on "010"%char t.
Proof.
  induction line as [|x line IH]; intros Hl; [done|]. simpl in Hl. apply andb_true_iff in Hl as [Hx Hl].
  change ((String x line +:+ String "010"%char t)) with (String x (line +:+ String "010"%char t)).
  cbn [split_on]. unfold not_newline in Hx. rewrite decide_False by (intros ->; done). by rewrite IH.
Qed.

Lemma lines_of_text lines :
  Forall (λ l, str_all not_newline l = true ∧ strip_cr l = l) lines → lines_of (text_of lines) = lines.
Proof.
  intros Hl. assert (Hsplit : split_on "010"%char (text_of lines) = lines ++ [""]).
  { induction Hl as [|l lines [Hn _] _ IH]; [done|]. cbn [text_of foldr]. rewrite split_line by done.
    fold (text_of lines). by rewrite IH. }
  unfold lines_of. rewrite Hsplit, rev_app_distr. simpl. rewrite rev_involutive. clear Hsplit.
  induction Hl as [|l lines [_ Hs] _ IH]; [done|]. csimpl. by rewrite Hs, IH.
Qed.


(** ** UTF-8

    [std::str::from_utf8]: what may follow the first byte of a character, as ranges of
    byte values. *)
Definition utf8_lead (b : Byte.byte) : option (list (N * N)) :=
  let n := Byte.to_N b in
  let tail : N * N := (128, 191)%N in
  if (n <? 128)%N then Some []
  else if (194 <=? n)%N && (n <=? 223)%N then Some [tail]
  else if (n =? 224)%N then Some [(160, 191)%N; tail]
  else if (n =? 237)%N then Some [(128, 159)%N; tail]
  else if (225 <=? n)%N && (n <=? 239)%N then Some [tail; tail]
  else if (n =? 240)%N then Some [(144, 191)%N; tail; tail]
  else if (241 <=? n)%N && (n <=? 243)%N then Some [tail; tail; tail]
  else if (n =? 244)%N then Some [(128, 143)%N; tail; tail]
  else None.
Fixpoint utf8_from (pending : list (N * N)) (bs : list Byte.byte) : bool :=
  match bs, pending with
  | [], [] => true
  | [], _ :: _ => false
  | b :: bs, (lo, hi) :: pending => (lo <=? Byte.to_N b)%N && (Byte.to_N b <=? hi)%N && utf8_from pending bs
  | b :: bs, [] => match utf8_lead b with Some pending => utf8_from pending bs | None => false end
  end.
Definition utf8_valid : list Byte.byte → bool := utf8_from [].

Lemma utf8_from_app a : ∀ pending b, utf8_from pending a = true → utf8_from pending (a ++ b) = utf8_from [] b.
Proof.
  induction a as [|x a IH]; intros [|[lo hi] pending] b; simpl; try done.
  - destruct (utf8_lead x); [apply IH|done].
  - rewrite andb_true_iff. intros [-> Ha]. by apply IH.
Qed.
Lemma utf8_valid_app a b : utf8_valid a = true → utf8_valid b = true → utf8_valid (a ++ b) = true.
Proof. unfold utf8_valid. intros Ha Hb. by rewrite utf8_from_app. Qed.

(** A line of text: valid UTF-8, without line breaks. *)
Definition one_line (line : string) : Prop :=
  str_all not_newline line = true ∧ strip_cr line = line ∧ utf8_valid (bytes_of_string line) = true.

Lemma lines_of_one_lines lines : Forall one_line lines → lines_of (text_of lines) = lines.
Proof. intros Hl. apply lines_of_text. eapply list.Forall_impl; [exact Hl|]. by intros l (? & ? & _). Qed.
Lemma utf8_text_of lines : Forall one_line lines → utf8_valid (bytes_of_string (text_of lines)) = true.
Proof.
  induction 1 as [|line lines (_ & _ & Hu) _ IH]; [done|]. cbn [text_of foldr].
  rewrite bytes_of_string_app. apply utf8_valid_app; [done|]. exact IH.
Qed.
Lemma string_app_assoc (a b c : string) : (a +:+ b) +:+ c = a +:+ (b +:+ c).
Proof. induction a as [|x a IH]; [done|]. exact (f_equal (String x) IH). Qed.

Lemma text_of_app l1 l2 : text_of (l1 ++ l2) = text_of l1 +:+ text_of l2.
Proof.
  induction l1 as [|line l1 IH]; [done|]. cbn [app text_of foldr]. fold (text_of (l1 ++ l2)) (text_of l1).
  by rewrite IH, string_app_assoc.
Qed.
(** [lines.join("\n")], with a line break at the end. *)
Lemma concat_lines lines : lines ≠ [] → String.concat (String "010"%char "") lines +:+ String "010"%char "" = text_of lines.
Proof.
  induction lines as [|line lines IH]; [done|]. intros _. destruct lines as [|line' lines]; [done|].
  change (String.concat (String "010"%char "") (line :: line' :: lines)) with
    (line +:+ String "010"%char "" +:+ String.concat (String "010"%char "") (line' :: lines)).
  rewrite !string_app_assoc, IH by done. done.
Qed.
