(* ===== verification/RustFloat.v ===== *)
(** * IEEE-754 arithmetic of the [f32] and [f64] values

    Floats are the [spec_float]s of the standard library, at binary32 and binary64
    precision; every operation rounds to nearest, ties to even.  A [spec_float] has
    one NaN: the sign and payload of a NaN are not observable here. *)
From S2P Require Import Prelude.
From Stdlib Require Export SpecFloat.

#[local] Open Scope Z_scope.

#[global] Instance spec_float_eq_dec : EqDecision spec_float.
Proof. solve_decision. Defined.

#[global] Program Instance spec_float_countable : Countable spec_float :=
  inj_countable'
    (λ f, match f with
          | S754_zero s => inl (inl s)
          | S754_infinity s => inl (inr s)
          | S754_nan => inr (inl tt)
          | S754_finite s m e => inr (inr (s, m, e))
          end)
    (λ x, match x with
          | inl (inl s) => S754_zero s
          | inl (inr s) => S754_infinity s
          | inr (inl _) => S754_nan
          | inr (inr (s, m, e)) => S754_finite s m e
          end) _.
Next Obligation. by intros []. Qed.

Abbreviation f32 := spec_float (only parsing).
Abbreviation f64 := spec_float (only parsing).

Module F32.
Definition prec : Z := 24.
Definition emax : Z := 128.
Definition add : f32 → f32 → f32 := SFadd prec emax.
Definition mul : f32 → f32 → f32 := SFmul prec emax.
Definition div : f32 → f32 → f32 := SFdiv prec emax.
Definition sqrt : f32 → f32 := SFsqrt prec emax.
Definition of_Z (z : Z) : f32 := binary_normalize prec emax z 0 false.
(** A decimal literal [n/d] whose numerator and denominator are exact. *)
Definition lit (n d : Z) : f32 := div (of_Z n) (of_Z d).
Definition zero : f32 := S754_zero false.
Definition one : f32 := of_Z 1.
End F32.

Module F64.
Definition prec : Z := 53.
Definition emax : Z := 1024.
Definition add : f64 → f64 → f64 := SFadd prec emax.
Definition sub : f64 → f64 → f64 := SFsub prec emax.
Definition mul : f64 → f64 → f64 := SFmul prec emax.
Definition div : f64 → f64 → f64 := SFdiv prec emax.
Definition of_Z (z : Z) : f64 := binary_normalize prec emax z 0 false.
End F64.

(** [x as f32] and [x as f64] between the float types. *)
Definition f64_as_f32 (x : f64) : f32 :=
  match x with
  | S754_finite s m e => binary_normalize F32.prec F32.emax (cond_Zopp s (Zpos m)) e s
  | _ => x
  end.
Definition f32_as_f64 (x : f32) : f64 :=
  match x with
  | S754_finite s m e => binary_normalize F64.prec F64.emax (cond_Zopp s (Zpos m)) e s
  | _ => x
  end.

(** [x as i64]: truncation towards zero, saturating, NaN to 0. *)
Definition f64_as_i64 (x : f64) : Z :=
  match x with
  | S754_nan | S754_zero _ => 0
  | S754_infinity true => i64_min
  | S754_infinity false => i64_max
  | S754_finite s m e =>
    let mag := if 0 <=? e then Zpos m * 2 ^ e else Zpos m / 2 ^ (- e) in
    Z.max i64_min (Z.min i64_max (cond_Zopp s mag))
  end.

(** [PartialOrd], [==], [<], [>=] of the float types. *)
Definition f_partial_cmp (a b : spec_float) : option comparison := SFcompare a b.
Definition f_eq (a b : spec_float) : bool := SFeqb a b.
Definition f_lt (a b : spec_float) : bool := SFltb a b.

(** [f32::clamp(lo, hi)] for [lo <= hi]. *)
Definition f_clamp (x lo hi : spec_float) : spec_float :=
  if f_lt x lo then lo else if f_lt hi x then hi else x.

(** [f64::min]: a NaN operand is ignored. *)
Definition f_min (a b : spec_float) : spec_float :=
  match a, b with
  | S754_nan, _ => b
  | _, S754_nan => a
  | _, _ => if f_lt b a then b else a
  end.

(** [f32::total_cmp] on the values above.  The sign of a NaN is not part of the
    model; it is placed above every number, which is where a positive NaN goes. *)
Definition f_total_cmp (a b : spec_float) : comparison :=
  match a, b with
  | S754_nan, S754_nan => Eq
  | S754_nan, _ => Gt
  | _, S754_nan => Lt
  | S754_zero true, S754_zero false => Lt
  | S754_zero false, S754_zero true => Gt
  | _, _ => default Eq (SFcompare a b)
  end.

Definition is_nan (x : spec_float) : bool := match x with S754_nan => true | _ => false end.

Lemma SFcompare_None a b : SFcompare a b = None ↔ a = S754_nan ∨ b = S754_nan.
Proof.
  destruct a as [[]|[]| |[] ? e1], b as [[]|[]| |[] ? e2]; simpl;
    try (destruct (e1 ?= e2)); intuition congruence.
Qed.

Lemma SFcompare_refl a : a ≠ S754_nan → SFcompare a a = Some Eq.
Proof.
  destruct a as [[]|[]| |[] m e]; simpl; try done; intros _;
    rewrite Z.compare_refl; change (Pcompare m m Eq) with (Pos.compare m m);
    by rewrite Pos.compare_refl.
Qed.

Lemma SFcompare_swap a b : SFcompare b a = CompOpp <$> SFcompare a b.
Proof.
  destruct a as [[]|[]| |[] m1 e1], b as [[]|[]| |[] m2 e2]; simpl; try done;
    rewrite (Z.compare_antisym e1 e2); destruct (e1 ?= e2) eqn:?; simpl; try done;
    change (Pcompare m1 m2 Eq) with (Pos.compare m1 m2);
    change (Pcompare m2 m1 Eq) with (Pos.compare m2 m1);
    rewrite (Pos.compare_antisym m1 m2); by destruct (Pos.compare m1 m2).
Qed.

Lemma f_eq_refl a : a ≠ S754_nan → f_eq a a = true.
Proof. intros Ha. unfold f_eq, SFeqb. by rewrite SFcompare_refl. Qed.

Lemma f_clamp_bounds x lo hi :
  x ≠ S754_nan → f_lt hi lo = false → lo ≠ S754_nan → hi ≠ S754_nan →
  f_lt (f_clamp x lo hi) lo = false ∧ f_lt hi (f_clamp x lo hi) = false.
Proof.
  intros Hx Hlh Hlo Hhi. unfold f_clamp.
  assert (∀ a, a ≠ S754_nan → f_lt a a = false) as Hirr.
  { intros a Ha. unfold f_lt, SFltb. by rewrite SFcompare_refl. }
  destruct (f_lt x lo) eqn:H1; [by rewrite Hirr|].
  destruct (f_lt hi x) eqn:H2; [by rewrite Hirr|done].
Qed.
