(* ===== verification/Common.v ===== *)
(** * [crates/common]: errors and typed identifiers

    The error type every crate returns, the three identifier newtypes and the
    validation their constructors run.  [crc32] is the third-party [crc32fast]
    hasher; the components that call it take it as a parameter. *)
From S2P Require Import Prelude RustStd.

#[local] Open Scope string_scope.

Inductive Undr9Error : Type :=
| Validation (message : string)
| Conflict (message : string)
| Io (message : string)
| Serialization (message : string)
| NotFound (message : string)
| Corruption (message : string).

#[global] Instance Undr9Error_eq_dec : EqDecision Undr9Error.
Proof. solve_decision. Defined.

Abbreviation Res := (Result Undr9Error).

(** The [Display] form [thiserror] derives for the error. *)
Definition error_to_string (e : Undr9Error) : string :=
  match e with
  | Validation m => "validation error: " +:+ m
  | Conflict m => "conflict detected: " +:+ m
  | Io m => "io error: " +:+ m
  | Serialization m => "serialization error: " +:+ m
  | NotFound m => "not found: " +:+ m
  | Corruption m => "corruption detected: " +:+ m
  end.

Record NodeId := mkNodeId { node_id_str : string }.
Record EdgeId := mkEdgeId { edge_id_str : string }.
Record TransactionId := mkTransactionId { transaction_id_str : string }.

#[global] Instance NodeId_eq_dec : EqDecision NodeId.
Proof. solve_decision. Defined.
#[global] Instance EdgeId_eq_dec : EqDecision EdgeId.
Proof. solve_decision. Defined.
#[global] Instance TransactionId_eq_dec : EqDecision TransactionId.
Proof. solve_decision. Defined.

#[global] Program Instance NodeId_countable : Countable NodeId :=
  inj_countable' node_id_str mkNodeId _.
Next Obligation. by intros []. Qed.
#[global] Program Instance EdgeId_countable : Countable EdgeId :=
  inj_countable' edge_id_str mkEdgeId _.
Next Obligation. by intros []. Qed.
#[global] Program Instance TransactionId_countable : Countable TransactionId :=
  inj_countable' transaction_id_str mkTransactionId _.
Next Obligation. by intros []. Qed.

#[global] Instance node_id_str_inj : Inj (=) (=) node_id_str.
Proof. by intros [?] [?] [= ->]. Qed.
#[global] Instance edge_id_str_inj : Inj (=) (=) edge_id_str.
Proof. by intros [?] [?] [= ->]. Qed.
#[global] Instance transaction_id_str_inj : Inj (=) (=) transaction_id_str.
Proof. by intros [?] [?] [= ->]. Qed.

#[global] Instance NodeId_ord : OrdKey NodeId := ordkey_inj node_id_str.
#[global] Instance EdgeId_ord : OrdKey EdgeId := ordkey_inj edge_id_str.
#[global] Instance TransactionId_ord : OrdKey TransactionId := ordkey_inj transaction_id_str.

Definition is_identifier_char (c : ascii) : bool :=
  is_ascii_alphanumeric c
  || bool_decide (c = "-"%char) || bool_decide (c = "_"%char) || bool_decide (c = ":"%char).

Definition validate_identifier (kind value : string) : Res unit :=
  if is_blank value then
    Err (Validation (kind +:+ " identifier cannot be empty"))
  else if negb (str_all is_identifier_char value) then
    Err (Validation (kind +:+
      " identifier may only contain ASCII letters, digits, '-', '_' or ':'"))
  else Ok tt.

Definition NodeId_new (value : string) : Res NodeId :=
  validate_identifier "node" value ;; mret (mkNodeId value).
Definition EdgeId_new (value : string) : Res EdgeId :=
  validate_identifier "edge" value ;; mret (mkEdgeId value).
Definition TransactionId_new (value : string) : Res TransactionId :=
  validate_identifier "transaction" value ;; mret (mkTransactionId value).

(** Identifiers that the constructors accept. *)
Definition valid_identifier (value : string) : bool :=
  negb (String.eqb value "") && str_all is_identifier_char value.

Lemma identifier_char_not_ws c r : is_identifier_char c = true → strip_ws (String c r) = None.
Proof.
  intros Hc.
  assert (∃ n, (n < 256)%N ∧ c = ascii_of_N n) as (n & Hn & ->).
  { exists (N_of_ascii c). split; [apply N_ascii_bounded|]. by rewrite ascii_N_embedding. }
  unfold strip_ws, is_identifier_char, is_ascii_alphanumeric in *.
  rewrite N_ascii_embedding in * by done.
  assert (n < 128)%N as Hlt.
  { destruct (N.lt_ge_cases n 128) as [|Hge]; [done|exfalso].
    repeat rewrite orb_true_iff in Hc. repeat rewrite andb_true_iff in Hc.
    repeat rewrite N.leb_le in Hc. repeat rewrite bool_decide_eq_true in Hc.
    assert (∀ d : ascii, (N_of_ascii d < 128)%N → ascii_of_N n ≠ d) as Hd.
    { intros d Hd <-. rewrite N_ascii_embedding in Hd by done. lia. }
    destruct Hc as [[[Hc|Hc]|Hc]|Hc];
      [lia | by apply Hd in Hc | by apply Hd in Hc | by apply Hd in Hc]. }
  assert (n ≠ 32%N ∧ ¬ (9 ≤ n ∧ n ≤ 13)%N) as [H32 H9].
  { split; [intros -> | intros [? ?]]; [by vm_compute in Hc|].
    assert (n = 9 ∨ n = 10 ∨ n = 11 ∨ n = 12 ∨ n = 13)%N as Hcases by lia.
    destruct Hcases as [->|[->|[->|[->| ->]]]]; by vm_compute in Hc. }
  assert (((9 <=? n) && (n <=? 13) || (n =? 32)) = false)%N as ->.
  { apply orb_false_iff. rewrite andb_false_iff, !N.leb_gt, N.eqb_neq. lia. }
  destruct r as [|c2 r2]; [done|].
  assert ((n =? 0xC2)%N = false) as -> by (apply N.eqb_neq; lia).
  destruct r2 as [|c3 r3]; [done|].
  assert ((n =? 0xE1)%N = false) as -> by (apply N.eqb_neq; lia).
  assert ((n =? 0xE2)%N = false) as -> by (apply N.eqb_neq; lia).
  assert ((n =? 0xE3)%N = false) as -> by (apply N.eqb_neq; lia). done.
Qed.

Lemma validate_identifier_spec kind value :
  validate_identifier kind value = Ok tt ↔ valid_identifier value = true.
Proof.
  unfold validate_identifier, valid_identifier.
  destruct value as [|c r]; [done|].
  assert (String.eqb (String c r) "" = false) as -> by done. rewrite andb_true_l.
  destruct (str_all is_identifier_char (String c r)) eqn:Hall.
  - assert (is_blank (String c r) = false) as ->; [|split; intros _; reflexivity].
    simpl in Hall. apply andb_true_iff in Hall as [Hc _].
    unfold is_blank, trim_start. cbn [String.length trim_start_fuel].
    by rewrite identifier_char_not_ws.
  - destruct (is_blank (String c r)); split; discriminate.
Qed.

Lemma NodeId_new_Ok value : valid_identifier value = true → NodeId_new value = Ok (mkNodeId value).
Proof.
  intros H. unfold NodeId_new. apply (validate_identifier_spec "node") in H. by rewrite H.
Qed.
Lemma EdgeId_new_Ok value : valid_identifier value = true → EdgeId_new value = Ok (mkEdgeId value).
Proof.
  intros H. unfold EdgeId_new. apply (validate_identifier_spec "edge") in H. by rewrite H.
Qed.

Lemma strip_ws_identifier s : str_all is_identifier_char s = true → strip_ws s = None.
Proof.
  destruct s as [|c r]; [done|]. simpl. intros [Hc _]%andb_true_iff.
  by apply identifier_char_not_ws.
Qed.

(** Identifier text has no whitespace to trim. *)
Lemma trim_identifier s : str_all is_identifier_char s = true → trim s = s.
Proof.
  assert (∀ r, str_all is_identifier_char r = true → trim_start r = r) as Hstart.
  { intros r Hr. unfold trim_start. destruct r as [|c r]; [done|].
    cbn [String.length trim_start_fuel]. by rewrite (strip_ws_identifier _ Hr). }
  intros Hs. unfold trim. rewrite Hstart by done.
  induction s as [|c r IH]; [done|]. unfold trim_end; fold trim_end.
  unfold is_blank. rewrite Hstart by done. simpl in *.
  apply andb_true_iff in Hs as [_ Hr]. by rewrite IH.
Qed.

Lemma str_all_app p s1 s2 : str_all p (s1 +:+ s2) = str_all p s1 && str_all p s2.
Proof. induction s1 as [|c s1 IH]; simpl; [done|]. by rewrite IH, andb_assoc. Qed.

(** ** Properties *)

(** A node identifier is accepted exactly when it is not empty and every
    character is an ASCII letter, digit, dash, underscore or colon; the accepted
    identifier is the text itself, and every refusal is a validation error. *)
Theorem NodeId_new_accepts value :
  (valid_identifier value = true → NodeId_new value = Ok (mkNodeId value)) ∧
  (valid_identifier value = false → ∃ msg, NodeId_new value = Err (Validation msg)).
Proof.
  split; [apply NodeId_new_Ok|]. intros Hv.
  assert (Hn : validate_identifier "node" value ≠ Ok tt)
    by (rewrite validate_identifier_spec; congruence).
  unfold NodeId_new, validate_identifier in *.
  destruct (is_blank value); [by eexists|].
  destruct (negb (str_all is_identifier_char value)); [by eexists|done].
Qed.

Lemma NodeId_new_accepts_witness :
  (valid_identifier "a b" = true → NodeId_new "a b" = Ok (mkNodeId "a b")) ∧
  (valid_identifier "a b" = false → ∃ msg, NodeId_new "a b" = Err (Validation msg)).
Proof. apply (NodeId_new_accepts "a b"). Defined.
