(* ===== verification/Core.v ===== *)
(** * [crates/core]: records, batches and transaction data

    The property graph records, the write batch every mutation is expressed as and
    the transaction vocabulary.  [BTreeMap]s are [gmap]s, integers are [Z] in the
    [i64] range or [N] for [u64], floats are [f32]/[f64].  The derived [PartialEq]
    compares floats with [==] (so NaN differs from itself and [0.0 == -0.0]); it is
    [NodeRecord_eq] and friends, distinct from Leibniz equality. *)
From S2P Require Import Prelude RustStd RustFloat Common.

#[local] Open Scope string_scope.

Inductive PropertyValue : Type :=
| PString (value : string)
| PInteger (value : Z)
| PFloat (value : f64)
| PBoolean (value : bool)
| PStringList (value : list string)
| PFloatList (value : list f32).

Record NodeRecord := mkNode {
  node_id : NodeId;
  node_type : string;
  node_properties : gmap string PropertyValue;
  node_vectors : gmap string (list f32);
}.

Record EdgeRecord := mkEdge {
  edge_id : EdgeId;
  edge_source : NodeId;
  edge_target : NodeId;
  edge_type : string;
  edge_properties : gmap string PropertyValue;
}.

Record WriteBatch := mkBatch {
  nodes_upserted : list NodeRecord;
  edges_upserted : list EdgeRecord;
  deleted_node_ids : list NodeId;
  deleted_edge_ids : list EdgeId;
}.

Inductive IsolationLevel := Snapshot.
Inductive TransactionState := Active | Committed | RolledBack.

Inductive TransactionOperation :=
| UpsertNode (node : NodeRecord)
| UpsertEdge (edge : EdgeRecord)
| DeleteNode (id : NodeId)
| DeleteEdge (id : EdgeId).

Record TransactionSummary := mkSummary {
  ts_transaction_id : TransactionId;
  ts_isolation_level : IsolationLevel;
  ts_state : TransactionState;
  ts_started_at_revision : N;
  ts_staged_operation_count : nat;
  ts_touched_node_count : nat;
  ts_touched_edge_count : nat;
}.

Record TransactionCommitResult := mkCommitResult {
  cr_transaction_id : TransactionId;
  cr_committed_revision : N;
  cr_committed_lsn : N;
  cr_staged_operation_count : nat;
}.

#[global] Instance PropertyValue_eq_dec : EqDecision PropertyValue.
Proof. solve_decision. Defined.
#[global] Instance NodeRecord_eq_dec : EqDecision NodeRecord.
Proof. solve_decision. Defined.
#[global] Instance EdgeRecord_eq_dec : EqDecision EdgeRecord.
Proof. solve_decision. Defined.
#[global] Instance WriteBatch_eq_dec : EqDecision WriteBatch.
Proof. solve_decision. Defined.
#[global] Instance TransactionState_eq_dec : EqDecision TransactionState.
Proof. solve_decision. Defined.

#[global] Program Instance PropertyValue_countable : Countable PropertyValue :=
  inj_countable'
    (λ v, match v with
          | PString s => inl (inl (inl s)) | PInteger z => inl (inl (inr z))
          | PFloat f => inl (inr (inl f)) | PBoolean b => inl (inr (inr b))
          | PStringList l => inr (inl l) | PFloatList l => inr (inr l)
          end)
    (λ x, match x with
          | inl (inl (inl s)) => PString s | inl (inl (inr z)) => PInteger z
          | inl (inr (inl f)) => PFloat f | inl (inr (inr b)) => PBoolean b
          | inr (inl l) => PStringList l | inr (inr l) => PFloatList l
          end) _.
Next Obligation. by intros []. Qed.
#[global] Program Instance NodeRecord_countable : Countable NodeRecord :=
  inj_countable' (λ n, (node_id n, node_type n, node_properties n, node_vectors n))
    (λ '(i, t, p, v), mkNode i t p v) _.
Next Obligation. by intros []. Qed.
#[global] Program Instance EdgeRecord_countable : Countable EdgeRecord :=
  inj_countable' (λ e, (edge_id e, edge_source e, edge_target e, edge_type e, edge_properties e))
    (λ '(i, s, t, k, p), mkEdge i s t k p) _.
Next Obligation. by intros []. Qed.
#[global] Program Instance WriteBatch_countable : Countable WriteBatch :=
  inj_countable'
    (λ b, (nodes_upserted b, edges_upserted b, deleted_node_ids b, deleted_edge_ids b))
    (λ '(a, b, c, d), mkBatch a b c d) _.
Next Obligation. by intros []. Qed.

(** ** [PropertyValue] *)

Definition as_i64 (v : PropertyValue) : option Z :=
  match v with
  | PInteger z => Some z
  | PFloat f => Some (f64_as_i64 f)
  | _ => None
  end.

Definition as_f32 (v : PropertyValue) : option f32 :=
  match v with
  | PInteger z => Some (F32.of_Z z)
  | PFloat f => Some (f64_as_f32 f)
  | _ => None
  end.

Fixpoint list_eqb {A} (eqb : A → A → bool) (l1 l2 : list A) : bool :=
  match l1, l2 with
  | [], [] => true
  | x :: l1, y :: l2 => eqb x y && list_eqb eqb l1 l2
  | _, _ => false
  end.

(** [BTreeMap]'s [PartialEq]: the same entries in the same order. *)
Definition btree_eqb {A} (eqb : A → A → bool) (m1 m2 : gmap string A) : bool :=
  list_eqb (λ p q, bool_decide (p.1 = q.1) && eqb p.2 q.2) (btree_entries m1) (btree_entries m2).

Definition PropertyValue_eq (v w : PropertyValue) : bool :=
  match v, w with
  | PString a, PString b => bool_decide (a = b)
  | PInteger a, PInteger b => (a =? b)%Z
  | PFloat a, PFloat b => f_eq a b
  | PBoolean a, PBoolean b => Bool.eqb a b
  | PStringList a, PStringList b => bool_decide (a = b)
  | PFloatList a, PFloatList b => list_eqb f_eq a b
  | _, _ => false
  end.

Definition NodeRecord_eq (a b : NodeRecord) : bool :=
  bool_decide (node_id a = node_id b) && bool_decide (node_type a = node_type b)
  && btree_eqb PropertyValue_eq (node_properties a) (node_properties b)
  && btree_eqb (list_eqb f_eq) (node_vectors a) (node_vectors b).

Definition EdgeRecord_eq (a b : EdgeRecord) : bool :=
  bool_decide (edge_id a = edge_id b) && bool_decide (edge_source a = edge_source b)
  && bool_decide (edge_target a = edge_target b) && bool_decide (edge_type a = edge_type b)
  && btree_eqb PropertyValue_eq (edge_properties a) (edge_properties b).

(** ** [NodeRecord] *)

Definition validate_kind (field value : string) : Res unit :=
  if is_blank value then Err (Validation (field +:+ " cannot be empty")) else Ok tt.

Definition validate_property_key (key : string) : Res unit :=
  if is_blank key then Err (Validation "property key cannot be empty") else Ok tt.

Definition NodeRecord_new (id : NodeId) (ty : string) : Res NodeRecord :=
  validate_kind "node_type" ty ;; mret (mkNode id ty ∅ ∅).

Definition with_property (n : NodeRecord) (key : string) (v : PropertyValue) : Res NodeRecord :=
  validate_property_key key ;;
  mret (mkNode (node_id n) (node_type n) (<[key := v]> (node_properties n)) (node_vectors n)).

Definition with_vector (n : NodeRecord) (name : string) (v : list f32) : Res NodeRecord :=
  validate_property_key name ;;
  mret (mkNode (node_id n) (node_type n) (node_properties n) (<[name := v]> (node_vectors n))).

Definition property (n : NodeRecord) (key : string) : option PropertyValue :=
  node_properties n !! key.

Definition id_namespace (id : NodeId) : option string :=
  fst <$> split_once ":"%char (node_id_str id).
Definition namespace (n : NodeRecord) : option string := id_namespace (node_id n).

Definition vector (n : NodeRecord) (name : string) : option (list f32) := node_vectors n !! name.
Definition embedding (n : NodeRecord) : option (list f32) := vector n "default".

Definition timestamp_ms (n : NodeRecord) : option Z := property n "timestamp" ≫= as_i64.
Definition importance (n : NodeRecord) : option f32 := property n "importance" ≫= as_f32.
Definition confidence (n : NodeRecord) : option f32 := property n "confidence" ≫= as_f32.

Definition check_float_field (n : NodeRecord) (field : string) : Res unit :=
  match node_properties n !! field with
  | Some v =>
    match as_f32 v with
    | None => Err (Validation (field +:+ " must be a float-compatible value"))
    | Some _ => Ok tt
    end
  | None => Ok tt
  end.

(** It takes [&mut self] but changes nothing. *)
Definition normalize_memory_metadata (n : NodeRecord) : Res unit :=
  match node_properties n !! "embedding" with
  | Some _ => Err (Validation
      "embedding is no longer supported in properties; send vectors.default or another named vector in the vectors map")
  | None =>
    match node_properties n !! "timestamp" with
    | Some v =>
      match as_i64 v with
      | None => Err (Validation "timestamp must be an integer-compatible value")
      | Some _ => Ok tt
      end
    | None => Ok tt
    end ;;
    check_float_field n "importance" ;;
    check_float_field n "confidence"
  end.

Definition EdgeRecord_new (id : EdgeId) (source target : NodeId) (ty : string) : Res EdgeRecord :=
  validate_kind "edge_type" ty ;; mret (mkEdge id source target ty ∅).

Definition batch_default : WriteBatch := mkBatch [] [] [] [].

Definition is_nil {A} (l : list A) : bool := match l with [] => true | _ => false end.

Definition batch_is_empty (b : WriteBatch) : bool :=
  is_nil (nodes_upserted b) && is_nil (edges_upserted b)
  && is_nil (deleted_node_ids b) && is_nil (deleted_edge_ids b).

(** ** Laws *)

(** Whether a property is a number, the shape the retrieval signals need. *)
Definition is_numeric (v : PropertyValue) : bool :=
  match v with PInteger _ | PFloat _ => true | _ => false end.

Definition numeric_or_absent (n : NodeRecord) (field : string) : Prop :=
  ∀ v, node_properties n !! field = Some v → is_numeric v = true.

Lemma as_i64_numeric v : is_Some (as_i64 v) ↔ is_numeric v = true.
Proof. destruct v; simpl; split; (done || (intros [? ?]; done) || eauto). Qed.
Lemma as_f32_numeric v : is_Some (as_f32 v) ↔ is_numeric v = true.
Proof. destruct v; simpl; split; (done || (intros [? ?]; done) || eauto). Qed.

Lemma check_float_field_spec n field :
  check_float_field n field = Ok tt ↔ numeric_or_absent n field.
Proof.
  unfold check_float_field, numeric_or_absent.
  destruct (node_properties n !! field) as [v|]; [|naive_solver].
  destruct (as_f32 v) eqn:Hv.
  - assert (is_numeric v = true) by (by apply as_f32_numeric; eauto). naive_solver.
  - split; [done|]. intros Hn. specialize (Hn v eq_refl).
    apply as_f32_numeric in Hn as [? ?]. congruence.
Qed.

Lemma normalize_memory_metadata_spec n :
  normalize_memory_metadata n = Ok tt ↔
  node_properties n !! "embedding" = None ∧ numeric_or_absent n "timestamp"
  ∧ numeric_or_absent n "importance" ∧ numeric_or_absent n "confidence".
Proof.
  unfold normalize_memory_metadata.
  destruct (node_properties n !! "embedding"); [naive_solver|].
  rewrite <-(check_float_field_spec n "importance"), <-(check_float_field_spec n "confidence"), !result_seq_Ok. unfold numeric_or_absent.
  enough (match node_properties n !! "timestamp" with
          | Some v => match as_i64 v with
                      | None => Err (Validation "timestamp must be an integer-compatible value")
                      | Some _ => Ok tt
                      end
          | None => Ok tt
          end = Ok tt ↔ ∀ v, node_properties n !! "timestamp" = Some v → is_numeric v = true)
    as -> by tauto.
  destruct (node_properties n !! "timestamp") as [v|]; [|by split].
  pose proof (as_i64_numeric v) as Hv. destruct (as_i64 v); split.
  - intros _ ? [= <-]. by apply Hv.
  - done.
  - done.
  - intros Hn. by destruct (proj2 Hv (Hn v eq_refl)).
Qed.

Lemma list_eqb_refl {A} (eqb : A → A → bool) l :
  (∀ x, x ∈ l → eqb x x = true) → list_eqb eqb l l = true.
Proof.
  induction l as [|x l IH]; intros Hl; simpl; [done|].
  rewrite Hl by set_solver. simpl. apply IH. set_solver.
Qed.

Lemma batch_is_empty_spec b : batch_is_empty b = true ↔ b = batch_default.
Proof. destruct b as [[] [] [] []]; unfold batch_is_empty; simpl; split; done. Qed.

(** ** Properties *)

(** Metadata normalisation accepts a node exactly when it has no [embedding]
    property and its [timestamp], [importance] and [confidence], where present,
    are numbers; it never changes the node. *)
Theorem normalize_memory_metadata_accepts n :
  normalize_memory_metadata n = Ok tt ↔
  node_properties n !! "embedding" = None ∧ numeric_or_absent n "timestamp"
  ∧ numeric_or_absent n "importance" ∧ numeric_or_absent n "confidence".
Proof. apply normalize_memory_metadata_spec. Qed.
