(* ===== verification/Config.v ===== *)
(** * [crates/config]: the runtime configuration

    The configuration records, the environment overrides and [AppConfig::validate].
    The environment is a function from variable names to values.  Paths are
    strings.  The bootstrap keys of the default configuration are built from the
    process id and the clock, which are arguments here. *)
From S2P Require Import Prelude RustStd Common.

#[local] Open Scope string_scope.
#[local] Open Scope N_scope.

Record ServerConfig := mkServer {
  bind_address : string;
  request_timeout_ms : N;
  max_request_body_bytes : N;
}.

Record StorageConfig := mkStorageConfig {
  root_dir : string;
  create_if_missing : bool;
  storage_version : string;
}.

Record WalConfig := mkWalConfig {
  segment_size_bytes : N;
  fsync_on_write : bool;
  max_replay_bytes : N;
}.

Record AuthConfig := mkAuthConfig {
  auth_enabled : bool;
  bootstrap_admin_username : string;
  admin_api_key : string;
  writer_api_key : string;
  reader_api_key : string;
}.

Record MaintenanceConfig := mkMaintenance {
  max_node_count : N;
  max_edge_count : N;
}.

Inductive VectorIndexBackendConfig := BackendExact | BackendHnsw.

Record VectorIndexConfig := mkVectorIndex {
  backend : VectorIndexBackendConfig;
  exact_fallback_threshold : N;
  semantic_top_k : N;
  hnsw_m : N;
  hnsw_ef_construction : N;
  hnsw_ef_search : N;
}.

Record ObservabilityConfig := mkObservability {
  log_level : string;
  metrics_enabled : bool;
  tracing_enabled : bool;
  tracing_json : bool;
  otlp_enabled : bool;
  otlp_protocol : string;
  otlp_endpoint : string;
  otlp_headers : string;
  otlp_timeout_ms : N;
  audit_log_retention_entries : N;
  audit_log_export_limit : N;
}.

Record AppConfig := mkAppConfig {
  server : ServerConfig;
  storage : StorageConfig;
  wal : WalConfig;
  auth : AuthConfig;
  maintenance : MaintenanceConfig;
  vector_index : VectorIndexConfig;
  observability : ObservabilityConfig;
}.

Definition LEGACY_DEV_ADMIN_KEY : string := "undr9-dev-admin-key".
Definition LEGACY_DEV_WRITER_KEY : string := "undr9-dev-writer-key".
Definition LEGACY_DEV_READER_KEY : string := "undr9-dev-reader-key".
Definition MIN_API_KEY_LENGTH : nat := 16.

(** ** Defaults *)

Definition hex_digit (n : N) : ascii :=
  ascii_of_N (if n <? 10 then 48 + n else 87 + n).
(** [{n:0wx}]: at least [w] lower-case hexadecimal digits ([fuel] bounds the
    digits beyond the padding: a [u128] has at most 32). *)
Fixpoint hex_digits (fuel : nat) (n : N) (acc : string) : string :=
  match fuel with
  | O => acc
  | S fuel =>
    if n =? 0 then acc else hex_digits fuel (n / 16) (String (hex_digit (n mod 16)) acc)
  end.
Definition fmt_hex (w : nat) (n : N) : string :=
  let ds := hex_digits 32 n "" in
  String.string_of_list_ascii (replicate (w - String.length ds) "0"%char) +:+ ds.

Definition generate_bootstrap_api_key (role : string) (process_id nanos : N) : string :=
  "undr9-" +:+ role +:+ "-" +:+ fmt_hex 8 process_id +:+ "-" +:+ fmt_hex 32 nanos.

Definition VectorIndexConfig_default : VectorIndexConfig :=
  {| backend := BackendHnsw; exact_fallback_threshold := 50000; semantic_top_k := 100;
     hnsw_m := 16; hnsw_ef_construction := 200; hnsw_ef_search := 64 |}.

(** [AppConfig::default], with the process id and the three clock readings. *)
Definition AppConfig_default (pid nanos_admin nanos_writer nanos_reader : N) : AppConfig :=
  {| server := {| bind_address := "127.0.0.1:8080"; request_timeout_ms := 5000;
                  max_request_body_bytes := 1048576 |};
     storage := {| root_dir := "./data"; create_if_missing := true; storage_version := "1" |};
     wal := {| segment_size_bytes := 64 * 1024 * 1024; fsync_on_write := true;
               max_replay_bytes := 512 * 1024 * 1024 |};
     auth := {| auth_enabled := true; bootstrap_admin_username := "admin";
                admin_api_key := generate_bootstrap_api_key "admin" pid nanos_admin;
                writer_api_key := generate_bootstrap_api_key "writer" pid nanos_writer;
                reader_api_key := generate_bootstrap_api_key "reader" pid nanos_reader |};
     maintenance := {| max_node_count := 5000000; max_edge_count := 10000000 |};
     vector_index :=
       {| backend := BackendHnsw; exact_fallback_threshold := 50000; semantic_top_k := 100;
          hnsw_m := 16; hnsw_ef_construction := 200; hnsw_ef_search := 64 |};
     observability :=
       {| log_level := "info"; metrics_enabled := true; tracing_enabled := true;
          tracing_json := true; otlp_enabled := false; otlp_protocol := "grpc";
          otlp_endpoint := "http://127.0.0.1:4317"; otlp_headers := "";
          otlp_timeout_ms := 10000; audit_log_retention_entries := 10000;
          audit_log_export_limit := 1000 |} |}.

(** ** Environment overrides *)

Section env.
(** [std::env::var]: [None] for an unset or non-Unicode variable. *)
Context (env : string → option string).

Definition env_string (name old : string) : string := default old (env name).
Definition env_number (name : string) (old : N) : N :=
  match env name with
  | Some value => default old (parse_u64 (trim value))
  | None => old
  end.
Definition env_bool (name : string) (old : bool) : bool :=
  match env name with
  | Some value =>
    let normalized := to_ascii_lowercase (trim value) in
    if bool_decide (normalized ∈ ["1"; "true"; "yes"; "on"]) then true
    else if bool_decide (normalized ∈ ["0"; "false"; "no"; "off"]) then false
    else old
  | None => old
  end.
Definition env_backend (name : string) (old : VectorIndexBackendConfig) :=
  match env name with
  | Some value =>
    let normalized := to_ascii_lowercase (trim value) in
    if String.eqb normalized "exact" then BackendExact
    else if String.eqb normalized "hnsw" then BackendHnsw else old
  | None => old
  end.

(** Every variable sets one field, from its own old value. *)
Definition apply_env_overrides (c : AppConfig) : AppConfig :=
  {| server :=
       {| bind_address := env_string "UNDR9_BIND_ADDRESS" (bind_address (server c));
          request_timeout_ms :=
            env_number "UNDR9_REQUEST_TIMEOUT_MS" (request_timeout_ms (server c));
          max_request_body_bytes :=
            env_number "UNDR9_MAX_REQUEST_BODY_BYTES" (max_request_body_bytes (server c)) |};
     storage :=
       {| root_dir := env_string "UNDR9_STORAGE_ROOT" (root_dir (storage c));
          create_if_missing :=
            env_bool "UNDR9_STORAGE_CREATE_IF_MISSING" (create_if_missing (storage c));
          storage_version := storage_version (storage c) |};
     wal :=
       {| segment_size_bytes :=
            env_number "UNDR9_WAL_SEGMENT_SIZE_BYTES" (segment_size_bytes (wal c));
          fsync_on_write := env_bool "UNDR9_WAL_FSYNC_ON_WRITE" (fsync_on_write (wal c));
          max_replay_bytes :=
            env_number "UNDR9_WAL_MAX_REPLAY_BYTES" (max_replay_bytes (wal c)) |};
     auth :=
       {| auth_enabled := env_bool "UNDR9_AUTH_ENABLED" (auth_enabled (auth c));
          bootstrap_admin_username :=
            env_string "UNDR9_BOOTSTRAP_ADMIN_USERNAME" (bootstrap_admin_username (auth c));
          admin_api_key := env_string "UNDR9_ADMIN_API_KEY" (admin_api_key (auth c));
          writer_api_key := env_string "UNDR9_WRITER_API_KEY" (writer_api_key (auth c));
          reader_api_key := env_string "UNDR9_READER_API_KEY" (reader_api_key (auth c)) |};
     maintenance :=
       {| max_node_count := env_number "UNDR9_MAINTENANCE_MAX_NODES" (max_node_count (maintenance c));
          max_edge_count := env_number "UNDR9_MAINTENANCE_MAX_EDGES" (max_edge_count (maintenance c)) |};
     vector_index :=
       {| backend := env_backend "UNDR9_VECTOR_INDEX_BACKEND" (backend (vector_index c));
          exact_fallback_threshold :=
            env_number "UNDR9_VECTOR_INDEX_EXACT_FALLBACK_THRESHOLD"
              (exact_fallback_threshold (vector_index c));
          semantic_top_k :=
            env_number "UNDR9_VECTOR_INDEX_SEMANTIC_TOP_K" (semantic_top_k (vector_index c));
          hnsw_m := env_number "UNDR9_HNSW_M" (hnsw_m (vector_index c));
          hnsw_ef_construction :=
            env_number "UNDR9_HNSW_EF_CONSTRUCTION" (hnsw_ef_construction (vector_index c));
          hnsw_ef_search := env_number "UNDR9_HNSW_EF_SEARCH" (hnsw_ef_search (vector_index c)) |};
     observability :=
       {| log_level := env_string "UNDR9_LOG_LEVEL" (log_level (observability c));
          metrics_enabled := env_bool "UNDR9_METRICS_ENABLED" (metrics_enabled (observability c));
          tracing_enabled := env_bool "UNDR9_TRACING_ENABLED" (tracing_enabled (observability c));
          tracing_json := env_bool "UNDR9_TRACING_JSON" (tracing_json (observability c));
          otlp_enabled := env_bool "UNDR9_OTLP_ENABLED" (otlp_enabled (observability c));
          otlp_protocol := env_string "UNDR9_OTLP_PROTOCOL" (otlp_protocol (observability c));
          otlp_endpoint := env_string "UNDR9_OTLP_ENDPOINT" (otlp_endpoint (observability c));
          otlp_headers := env_string "UNDR9_OTLP_HEADERS" (otlp_headers (observability c));
          otlp_timeout_ms := env_number "UNDR9_OTLP_TIMEOUT_MS" (otlp_timeout_ms (observability c));
          audit_log_retention_entries :=
            env_number "UNDR9_AUDIT_LOG_RETENTION_ENTRIES"
              (audit_log_retention_entries (observability c));
          audit_log_export_limit :=
            env_number "UNDR9_AUDIT_LOG_EXPORT_LIMIT" (audit_log_export_limit (observability c)) |}
  |}.
End env.

(** ** Validation *)

(** [if cond { return Err(Undr9Error::Validation(msg)) }]. *)
Definition reject (cond : bool) (msg : string) : Res unit :=
  if cond then Err (Validation msg) else Ok tt.

Definition otlp_protocol_known (p : string) : bool :=
  bool_decide (p ∈ ["grpc"; "http"; "http/protobuf"; "http_binary"; "http-binary"]).

Definition short_key (k : string) : bool := (String.length (trim k) <? MIN_API_KEY_LENGTH)%nat.

Definition validate (c : AppConfig) : Res unit :=
  let a := auth c in
  let o := observability c in
  let proto := to_ascii_lowercase (trim (otlp_protocol o)) in
  reject (is_blank (bind_address (server c))) "server.bind_address cannot be empty" ;;
  reject (request_timeout_ms (server c) =? 0)
    "server.request_timeout_ms must be greater than zero" ;;
  reject (max_request_body_bytes (server c) =? 0)
    "server.max_request_body_bytes must be greater than zero" ;;
  reject (is_blank (storage_version (storage c))) "storage.storage_version cannot be empty" ;;
  reject (segment_size_bytes (wal c) <? 4096) "wal.segment_size_bytes must be at least 4096" ;;
  reject (max_replay_bytes (wal c) <? segment_size_bytes (wal c))
    "wal.max_replay_bytes must be greater than or equal to wal.segment_size_bytes" ;;
  reject (auth_enabled a && is_blank (bootstrap_admin_username a))
    "auth.bootstrap_admin_username cannot be empty when auth is enabled" ;;
  reject (auth_enabled a && is_blank (admin_api_key a))
    "auth.admin_api_key cannot be empty when auth is enabled" ;;
  reject (auth_enabled a && is_blank (writer_api_key a))
    "auth.writer_api_key cannot be empty when auth is enabled" ;;
  reject (auth_enabled a && is_blank (reader_api_key a))
    "auth.reader_api_key cannot be empty when auth is enabled" ;;
  reject (auth_enabled a
          && (short_key (admin_api_key a) || short_key (writer_api_key a)
              || short_key (reader_api_key a)))
    "auth API keys must each be at least 16 characters when auth is enabled" ;;
  reject (auth_enabled a
          && (String.eqb (admin_api_key a) (writer_api_key a)
              || String.eqb (admin_api_key a) (reader_api_key a)
              || String.eqb (writer_api_key a) (reader_api_key a)))
    "auth admin, writer, and reader API keys must be distinct" ;;
  reject (String.eqb (admin_api_key a) LEGACY_DEV_ADMIN_KEY
          || String.eqb (writer_api_key a) LEGACY_DEV_WRITER_KEY
          || String.eqb (reader_api_key a) LEGACY_DEV_READER_KEY)
    "legacy development API keys are forbidden in runtime configuration" ;;
  reject (max_node_count (maintenance c) =? 0)
    "maintenance.max_node_count must be greater than zero" ;;
  reject (max_edge_count (maintenance c) =? 0)
    "maintenance.max_edge_count must be greater than zero" ;;
  reject (exact_fallback_threshold (vector_index c) =? 0)
    "vector_index.exact_fallback_threshold must be greater than zero" ;;
  reject (semantic_top_k (vector_index c) =? 0)
    "vector_index.semantic_top_k must be greater than zero" ;;
  reject (hnsw_m (vector_index c) <? 2) "vector_index.hnsw_m must be at least two" ;;
  reject (hnsw_ef_construction (vector_index c) =? 0)
    "vector_index.hnsw_ef_construction must be greater than zero" ;;
  reject (hnsw_ef_search (vector_index c) =? 0)
    "vector_index.hnsw_ef_search must be greater than zero" ;;
  reject (is_blank (log_level o)) "observability.log_level cannot be empty" ;;
  reject (negb (String.eqb proto "") && negb (otlp_protocol_known proto))
    "observability.otlp_protocol must be one of grpc, http, or http/protobuf" ;;
  reject (otlp_timeout_ms o =? 0) "observability.otlp_timeout_ms must be greater than zero" ;;
  reject (otlp_enabled o && is_blank (otlp_endpoint o))
    "observability.otlp_endpoint cannot be empty when otlp export is enabled" ;;
  reject (audit_log_retention_entries o =? 0)
    "observability.audit_log_retention_entries must be greater than zero" ;;
  reject (audit_log_export_limit o =? 0)
    "observability.audit_log_export_limit must be greater than zero" ;;
  mret tt.

(** ** What validation guarantees *)

Lemma reject_Ok b msg : reject b msg = Ok tt ↔ b = false.
Proof. destruct b; simpl; split; done. Qed.

(** What the servers assume of the configuration they run with. *)
Record valid_auth (a : AuthConfig) : Prop := {
  va_username : is_blank (bootstrap_admin_username a) = false;
  va_admin_long : (MIN_API_KEY_LENGTH ≤ String.length (trim (admin_api_key a)))%nat;
  va_writer_long : (MIN_API_KEY_LENGTH ≤ String.length (trim (writer_api_key a)))%nat;
  va_reader_long : (MIN_API_KEY_LENGTH ≤ String.length (trim (reader_api_key a)))%nat;
  va_admin_writer : admin_api_key a ≠ writer_api_key a;
  va_admin_reader : admin_api_key a ≠ reader_api_key a;
  va_writer_reader : writer_api_key a ≠ reader_api_key a;
}.

Record valid_config (c : AppConfig) : Prop := {
  vc_bind : is_blank (bind_address (server c)) = false;
  vc_timeout : 0 < request_timeout_ms (server c);
  vc_body : 0 < max_request_body_bytes (server c);
  vc_version : is_blank (storage_version (storage c)) = false;
  vc_segment : 4096 <= segment_size_bytes (wal c);
  vc_replay : segment_size_bytes (wal c) <= max_replay_bytes (wal c);
  vc_auth : auth_enabled (auth c) = true → valid_auth (auth c);
  vc_legacy : admin_api_key (auth c) ≠ LEGACY_DEV_ADMIN_KEY
              ∧ writer_api_key (auth c) ≠ LEGACY_DEV_WRITER_KEY
              ∧ reader_api_key (auth c) ≠ LEGACY_DEV_READER_KEY;
  vc_budget : 0 < max_node_count (maintenance c) ∧ 0 < max_edge_count (maintenance c);
  vc_index : 0 < exact_fallback_threshold (vector_index c)
             ∧ 0 < semantic_top_k (vector_index c) ∧ 2 <= hnsw_m (vector_index c)
             ∧ 0 < hnsw_ef_construction (vector_index c) ∧ 0 < hnsw_ef_search (vector_index c);
  vc_log : is_blank (log_level (observability c)) = false;
  vc_otlp : let p := to_ascii_lowercase (trim (otlp_protocol (observability c))) in
            p = "" ∨ otlp_protocol_known p = true;
  vc_otlp_timeout : 0 < otlp_timeout_ms (observability c);
  vc_otlp_endpoint : otlp_enabled (observability c) = true →
                     is_blank (otlp_endpoint (observability c)) = false;
  vc_audit : 0 < audit_log_retention_entries (observability c)
             ∧ 0 < audit_log_export_limit (observability c);
}.

Lemma blank_trim_length s : is_blank s = true → String.length (trim s) = 0%nat.
Proof.
  unfold is_blank, trim. rewrite String.eqb_eq. by intros ->.
Qed.

Lemma orb3_false a b c : (a || b || c) = false ↔ a = false ∧ b = false ∧ c = false.
Proof. rewrite !orb_false_iff. tauto. Qed.

Lemma long_key_not_blank k : short_key k = false → is_blank k = false.
Proof.
  unfold short_key, MIN_API_KEY_LENGTH. rewrite Nat.ltb_ge. intros Hk.
  destruct (is_blank k) eqn:Hb; [|done]. apply blank_trim_length in Hb. lia.
Qed.

(** Peel the guards of a chain of early returns, from a hypothesis or a goal. *)
Ltac peel_guards H :=
  repeat (apply result_seq_Ok in H as [?%reject_Ok H]).
Ltac prove_guards := repeat (apply result_seq_Ok; split; [apply reject_Ok|]).

Lemma validate_sound c : validate c = Ok tt → valid_config c.
Proof.
  unfold validate. intros Hv. peel_guards Hv. clear Hv.
  rewrite ?N.eqb_neq, ?N.ltb_ge in *.
  split; try done; try lia.
  - intros Hen. rewrite Hen in *. rewrite !andb_true_l in *.
    repeat match goal with H : (_ || _ || _) = false |- _ => apply orb3_false in H as (?&?&?) end.
    unfold short_key in *. rewrite ?Nat.ltb_ge, ?String.eqb_neq in *. by split.
  - match goal with H : (_ || _ || _) = false |- _ => apply orb3_false in H end.
    rewrite ?String.eqb_neq in *. by destruct_and!.
  - match goal with H : negb _ && negb _ = false |- _ =>
      apply andb_false_iff in H; rewrite !negb_false_iff, String.eqb_eq in H end. done.
  - intros Hen. rewrite Hen in *. done.
Qed.

Lemma validate_complete c : valid_config c → validate c = Ok tt.
Proof.
  intros [? ? ? ? ? ? Ha [? [? ?]] [? ?] (?&?&?&?&?) ? Hp ? He [? ?]]. unfold validate.
  assert (∀ b, (auth_enabled (auth c) = true → b = false) → auth_enabled (auth c) && b = false)
    as Hguard by (intros b Hb; destruct (auth_enabled (auth c)); simpl; auto).
  assert (auth_enabled (auth c) = true →
    short_key (admin_api_key (auth c)) = false ∧ short_key (writer_api_key (auth c)) = false
    ∧ short_key (reader_api_key (auth c)) = false) as Hlong.
  { intros Hen. destruct (Ha Hen). unfold short_key. by rewrite !Nat.ltb_ge. }
  prove_guards; rewrite ?N.eqb_neq, ?N.ltb_ge; try done; try lia;
    try (apply Hguard; intros Hen).
  - apply (Ha Hen).
  - apply long_key_not_blank. tauto.
  - apply long_key_not_blank. tauto.
  - apply long_key_not_blank. tauto.
  - apply orb3_false. tauto.
  - destruct (Ha Hen). by rewrite orb3_false, !String.eqb_neq.
  - by rewrite orb3_false, !String.eqb_neq.
  - rewrite andb_false_iff, !negb_false_iff, String.eqb_eq. done.
  - destruct (otlp_enabled (observability c)); [auto|done].
Qed.

(** ** The built-in defaults *)

Lemma hex_digit_identifier n : n < 16 → is_identifier_char (hex_digit n) = true.
Proof.
  intros Hn. assert (n ∈ N.of_nat <$> seq 0 16) as Hin.
  { apply list_elem_of_fmap. exists (N.to_nat n). rewrite N2Nat.id. split; [done|].
    apply elem_of_seq. lia. }
  vm_compute in Hin. repeat (apply elem_of_cons in Hin as [->|Hin]; [done|]).
  by apply elem_of_nil in Hin.
Qed.

Lemma hex_digits_identifier fuel n acc :
  str_all is_identifier_char acc = true →
  str_all is_identifier_char (hex_digits fuel n acc) = true.
Proof.
  revert n acc. induction fuel as [|fuel IH]; intros n acc Hacc; simpl; [done|].
  destruct (n =? 0); [done|]. apply IH. unfold str_all; fold str_all.
  rewrite Hacc, hex_digit_identifier by (apply N.mod_lt; lia). done.
Qed.

Lemma fmt_hex_identifier w n : str_all is_identifier_char (fmt_hex w n) = true.
Proof.
  unfold fmt_hex. rewrite str_all_app, hex_digits_identifier, andb_true_r by done.
  induction (w - _)%nat as [|k IH]; [done|]. simpl. done.
Qed.

Lemma string_length_app s1 s2 :
  String.length (s1 +:+ s2) = (String.length s1 + String.length s2)%nat.
Proof. induction s1 as [|c s1 IH]; simpl; [done|]. by rewrite IH. Qed.

Lemma fmt_hex_length w n : (w ≤ String.length (fmt_hex w n))%nat.
Proof.
  unfold fmt_hex. rewrite string_length_app.
  assert (∀ k, String.length (String.string_of_list_ascii (replicate k "0"%char)) = k) as ->.
  { induction k as [|k IH]; [done|]. simpl. by rewrite IH. }
  lia.
Qed.

Lemma bootstrap_key_trim role pid nanos :
  str_all is_identifier_char role = true →
  trim (generate_bootstrap_api_key role pid nanos) = generate_bootstrap_api_key role pid nanos
  ∧ (16 ≤ String.length (generate_bootstrap_api_key role pid nanos))%nat.
Proof.
  intros Hrole. unfold generate_bootstrap_api_key. split.
  - apply trim_identifier.
    rewrite !str_all_app, Hrole, !fmt_hex_identifier. done.
  - rewrite !string_length_app. pose proof (fmt_hex_length 8 pid).
    pose proof (fmt_hex_length 32 nanos). simpl. lia.
Qed.

Lemma default_config_ok pid n1 n2 n3 : validate (AppConfig_default pid n1 n2 n3) = Ok tt.
Proof.
  apply validate_complete. split.
  1-6: vm_compute; congruence.
  - intros _.
    destruct (bootstrap_key_trim "admin" pid n1) as [Ha La]; [done|].
    destruct (bootstrap_key_trim "writer" pid n2) as [Hw Lw]; [done|].
    destruct (bootstrap_key_trim "reader" pid n3) as [Hr Lr]; [done|].
    split; cbn [auth AppConfig_default admin_api_key writer_api_key reader_api_key
                bootstrap_admin_username];
      unfold MIN_API_KEY_LENGTH; rewrite ?Ha, ?Hw, ?Hr; try done; discriminate.
  - cbn [auth AppConfig_default admin_api_key writer_api_key reader_api_key].
    repeat split; discriminate.
  - vm_compute; split; congruence.
  - vm_compute; repeat split; congruence.
  - done.
  - right. by vm_compute.
  - vm_compute; congruence.
  - discriminate.
  - vm_compute; split; congruence.
Qed.

(** ** Properties *)


(** The built-in configuration passes its own validation whatever the process
    id and the clock: the bootstrap keys it makes are long enough and distinct. *)
Theorem default_config_validates pid n1 n2 n3 :
  validate (AppConfig_default pid n1 n2 n3) = Ok tt.
Proof. apply default_config_ok. Qed.
