(* ===== verification/Auth.v ===== *)
(** * [crates/auth]: API keys and roles

    [secure_compare] compares two keys in time that depends on their lengths only;
    [authenticate] maps a key to a principal and [is_allowed] is the role table. *)
From S2P Require Import Prelude RustStd Common Config.

#[local] Open Scope string_scope.

Inductive Role := Reader | Writer | Admin.
Inductive Action := Read | Write | Administer | Maintain.
Record Principal := mkPrincipal { principal_name : string; principal_role : Role }.

#[global] Instance Role_eq_dec : EqDecision Role.
Proof. solve_decision. Defined.
#[global] Instance Action_eq_dec : EqDecision Action.
Proof. solve_decision. Defined.
#[global] Instance Principal_eq_dec : EqDecision Principal.
Proof. solve_decision. Defined.

Definition is_allowed (principal : Principal) (action : Action) : bool :=
  match principal_role principal, action with
  | Admin, _ => true
  | Writer, (Read | Write) => true
  | Reader, Read => true
  | _, _ => false
  end.

(** [bytes.get(index).copied().unwrap_or(0)]. *)
Definition byte_at (s : string) (index : nat) : N :=
  match String.get index s with Some c => N_of_ascii c | None => 0%N end.

Definition secure_compare (left right : string) : bool :=
  let diff := N.lxor (N.of_nat (String.length left)) (N.of_nat (String.length right)) in
  let max_len := Nat.max (String.length left) (String.length right) in
  let diff := foldl (λ diff index,
    N.lor diff (N.lxor (byte_at left index) (byte_at right index))) diff (seq 0 max_len) in
  (diff =? 0)%N.

Definition authenticate (config : AuthConfig) (api_key : string) : Res Principal :=
  if secure_compare api_key (admin_api_key config) then
    Ok (mkPrincipal (bootstrap_admin_username config) Admin)
  else if secure_compare api_key (writer_api_key config) then Ok (mkPrincipal "writer" Writer)
  else if secure_compare api_key (reader_api_key config) then Ok (mkPrincipal "reader" Reader)
  else Err (Validation "invalid API key").

(** ** The comparison *)

Lemma lor_fold_zero (f : nat → N) (l : list nat) d :
  foldl (λ d i, N.lor d (f i)) d l = 0%N ↔ d = 0%N ∧ ∀ i, i ∈ l → f i = 0%N.
Proof.
  revert d. induction l as [|i l IH]; intros d; simpl.
  - split; [|by intros [? _]]. intros ->. split; [done|]. intros i Hi. by apply elem_of_nil in Hi.
  - rewrite IH, N.lor_eq_0_iff. setoid_rewrite elem_of_cons. naive_solver.
Qed.

Lemma lxor_zero_iff a b : N.lxor a b = 0%N ↔ a = b.
Proof. split; [apply N.lxor_eq | intros ->; apply N.lxor_nilpotent]. Qed.

Lemma get_ext (s t : string) :
  String.length s = String.length t →
  (∀ i, (i < String.length s)%nat → byte_at s i = byte_at t i) → s = t.
Proof.
  revert t. induction s as [|c s IH]; intros [|d t] Hlen Hget; try done.
  simpl in Hlen. f_equal.
  - specialize (Hget 0%nat). unfold byte_at in Hget. simpl in Hget.
    rewrite <-(ascii_N_embedding c), <-(ascii_N_embedding d), Hget; [done|lia].
  - apply IH; [lia|]. intros i Hi. apply (Hget (S i)). simpl. lia.
Qed.

(** The constant-time comparison is equality. *)
Lemma secure_compare_eq left right : secure_compare left right = true ↔ left = right.
Proof.
  unfold secure_compare. rewrite N.eqb_eq, lor_fold_zero, lxor_zero_iff. split.
  - intros [Hlen Hget]. apply Nat2N.inj in Hlen. apply get_ext; [done|].
    intros i Hi. apply lxor_zero_iff, Hget, elem_of_seq. lia.
  - intros ->. split; [done|]. intros i _. apply N.lxor_nilpotent.
Qed.

Lemma secure_compare_neq left right : secure_compare left right = false ↔ left ≠ right.
Proof. rewrite <-not_true_iff_false, secure_compare_eq. done. Qed.

(** ** Authentication against a validated configuration *)

Definition key_of (config : AuthConfig) (r : Role) : string :=
  match r with
  | Reader => reader_api_key config
  | Writer => writer_api_key config
  | Admin => admin_api_key config
  end.

Lemma authenticate_role config api_key p :
  authenticate config api_key = Ok p → api_key = key_of config (principal_role p).
Proof.
  unfold authenticate.
  destruct (secure_compare api_key (admin_api_key config)) eqn:Ha;
    [apply secure_compare_eq in Ha; by intros [= <-]|].
  destruct (secure_compare api_key (writer_api_key config)) eqn:Hw;
    [apply secure_compare_eq in Hw; by intros [= <-]|].
  destruct (secure_compare api_key (reader_api_key config)) eqn:Hr;
    [apply secure_compare_eq in Hr; by intros [= <-]|done].
Qed.

Lemma authenticate_key config r :
  valid_auth config →
  ∃ name, authenticate config (key_of config r) = Ok (mkPrincipal name r).
Proof.
  intros [? ? ? ? Haw Har Hwr]. unfold authenticate.
  destruct r; simpl.
  - rewrite (proj2 (secure_compare_neq _ _)) by congruence.
    rewrite (proj2 (secure_compare_neq _ _)) by congruence.
    rewrite (proj2 (secure_compare_eq _ _)) by done. eauto.
  - rewrite (proj2 (secure_compare_neq _ _)) by congruence.
    rewrite (proj2 (secure_compare_eq _ _)) by done. eauto.
  - rewrite (proj2 (secure_compare_eq _ _)) by done. eauto.
Qed.

Lemma authenticate_unknown config api_key :
  (∀ r, api_key ≠ key_of config r) → authenticate config api_key = Err (Validation "invalid API key").
Proof.
  intros Hk. unfold authenticate.
  rewrite (proj2 (secure_compare_neq _ _)) by apply (Hk Admin).
  rewrite (proj2 (secure_compare_neq _ _)) by apply (Hk Writer).
  by rewrite (proj2 (secure_compare_neq _ _)) by apply (Hk Reader).
Qed.

(** What the role table grants. *)
Definition role_rank (r : Role) : nat := match r with Reader => 0 | Writer => 1 | Admin => 2 end.
Definition action_rank (a : Action) : nat :=
  match a with Read => 0 | Write => 1 | Administer | Maintain => 2 end.

Lemma is_allowed_rank p a :
  is_allowed p a = true ↔ (action_rank a ≤ role_rank (principal_role p))%nat.
Proof. unfold is_allowed. destruct (principal_role p), a; simpl; split; (done || lia). Qed.

(** ** Properties *)

(** The constant-time comparison decides equality of the keys, whatever their
    lengths. *)
Theorem secure_compare_correct left right : secure_compare left right = bool_decide (left = right).
Proof.
  apply eq_bool_prop_intro. rewrite Is_true_true, secure_compare_eq. symmetry.
  apply bool_decide_spec.
Qed.

(** C37: Under a configuration that validates with authentication on, a presented
    key is accepted for an action exactly when it is the key of a role that is
    allowed that action; any other key is refused with the validation error. *)
Theorem authenticated_access c api_key a :
  validate c = Ok tt → auth_enabled (auth c) = true →
  ((∃ p, authenticate (auth c) api_key = Ok p ∧ is_allowed p a = true) ↔
   (∃ r, api_key = key_of (auth c) r ∧ (action_rank a ≤ role_rank r)%nat)) ∧
  ((∀ r, api_key ≠ key_of (auth c) r) →
   authenticate (auth c) api_key = Err (Validation "invalid API key")).
Proof.
  intros Hc%validate_sound Hen. pose proof (vc_auth c Hc Hen) as Ha.
  split; [|apply authenticate_unknown]. split.
  - intros (p & Hp & Hall). exists (principal_role p). split; [by apply authenticate_role|].
    by apply is_allowed_rank.
  - intros (r & -> & Hr). destruct (authenticate_key (auth c) r Ha) as [name Hn].
    exists (mkPrincipal name r). split; [done|]. by apply is_allowed_rank.
Qed.

Lemma authenticated_access_witness :
  let c := AppConfig_default 7 11 12 13 in
  ((∃ p, authenticate (auth c) (writer_api_key (auth c)) = Ok p ∧ is_allowed p Write = true) ↔
   (∃ r, writer_api_key (auth c) = key_of (auth c) r ∧ (1 ≤ role_rank r)%nat)) ∧
  ((∀ r, writer_api_key (auth c) ≠ key_of (auth c) r) →
   authenticate (auth c) (writer_api_key (auth c)) = Err (Validation "invalid API key")).
Proof.
  intros c. apply (authenticated_access c (writer_api_key (auth c)) Write).
  - apply default_config_ok.
  - reflexivity.
Defined.
