(* ===== verification/Cluster.v ===== *)
(** * [crates/cluster]: the topology and its leader

    [ClusterManager] holds one [ClusterTopology]; each [&mut self] method is a
    function to the topology it leaves, fallible ones an [sm] computation, so that
    the changes made before an error return are kept. *)
From S2P Require Import Prelude RustStd Common.

#[local] Open Scope string_scope.

Inductive NodeRole := Primary | Replica | Candidate.
#[global] Instance NodeRole_eq_dec : EqDecision NodeRole.
Proof. solve_decision. Defined.

Record ClusterNode := mkClusterNode {
  cn_node_id : string;
  cn_address : string;
  cn_role : NodeRole;
  cn_healthy : bool;
}.

Record ClusterTopology := mkTopology {
  term : N;
  leader_node_id : option string;
  nodes : list ClusterNode;
}.

Record FailoverPlan := mkPlan {
  old_leader_node_id : option string;
  new_leader_node_id : string;
  plan_term : N;
}.

Abbreviation cluster_op := (sm ClusterTopology Undr9Error).

Definition single_node_with_id (node_id address : string) : ClusterTopology :=
  mkTopology 1 (Some node_id) [mkClusterNode node_id address Primary true].
Definition single_node (address : string) : ClusterTopology :=
  single_node_with_id "node-1" address.

Definition set_nodes (l : list ClusterNode) (t : ClusterTopology) : ClusterTopology :=
  mkTopology (term t) (leader_node_id t) l.

(** [sort_by(|left, right| left.node_id.cmp(&right.node_id))], a stable sort. *)
Definition cn_le : relation ClusterNode := λ a b, String.le (cn_node_id a) (cn_node_id b).
#[global] Instance cn_le_dec : RelDecision cn_le.
Proof. intros a b. unfold cn_le. apply _. Defined.
#[global] Instance cn_le_trans : Transitive cn_le.
Proof. intros a b c. unfold cn_le. apply transitivity. Qed.
#[global] Instance cn_le_total : Total cn_le.
Proof. intros a b. apply (total String.le). Qed.
Definition sort_nodes (l : list ClusterNode) : list ClusterNode := merge_sort cn_le l.

Definition has_id (id : string) (n : ClusterNode) : Prop := cn_node_id n = id.
#[global] Instance has_id_dec id n : Decision (has_id id n).
Proof. unfold has_id. apply _. Defined.

Definition cluster_contains (id : string) (t : ClusterTopology) : bool :=
  existsb (λ n, bool_decide (has_id id n)) (nodes t).

Definition add_replica (node_id address : string) : cluster_op unit :=
  t ← sm_get;
  if cluster_contains node_id t then
    sm_fail (Conflict ("cluster node '" +:+ node_id +:+ "' already exists"))
  else
    sm_modify (λ t, set_nodes
      (sort_nodes (nodes t ++ [mkClusterNode node_id address Replica true])) t).

(** [iter_mut().find(..)]: change the first node with that id. *)
Fixpoint update_first (id : string) (f : ClusterNode → ClusterNode) (l : list ClusterNode) :=
  match l with
  | [] => []
  | n :: l => if decide (has_id id n) then f n :: l else n :: update_first id f l
  end.

Definition upsert_node (node_id address : string) (role : NodeRole) (healthy : bool)
    (t : ClusterTopology) : ClusterTopology :=
  if cluster_contains node_id t then
    set_nodes (update_first node_id
      (λ n, mkClusterNode (cn_node_id n) address role healthy) (nodes t)) t
  else
    set_nodes (sort_nodes (nodes t ++ [mkClusterNode node_id address role healthy])) t.

Definition node_not_found (node_id : string) : Undr9Error :=
  NotFound ("cluster node '" +:+ node_id +:+ "' was not found").

Definition mark_node_health (node_id : string) (healthy : bool) : cluster_op unit :=
  t ← sm_get;
  if cluster_contains node_id t then
    sm_modify (λ t, set_nodes (update_first node_id
      (λ n, mkClusterNode (cn_node_id n) (cn_address n) (cn_role n) healthy) (nodes t)) t)
  else sm_fail (node_not_found node_id).

(** The loop shared by [promote_node], [ensure_leader] and [observe_leader]: the
    named node becomes a healthy primary, every other primary a replica. *)
Definition elect (id : string) (n : ClusterNode) : ClusterNode :=
  if decide (has_id id n) then mkClusterNode (cn_node_id n) (cn_address n) Primary true
  else if decide (cn_role n = Primary) then
    mkClusterNode (cn_node_id n) (cn_address n) Replica (cn_healthy n)
  else n.

Definition promote_node (node_id : string) : cluster_op FailoverPlan :=
  t ← sm_get;
  let old_leader := leader_node_id t in
  let found := cluster_contains node_id t in
  sm_modify (λ t, set_nodes (elect node_id <$> nodes t) t) ;;
  if negb found then sm_fail (node_not_found node_id) else
  sm_modify (λ t, mkTopology (u64_add (term t) 1) (Some node_id) (nodes t)) ;;
  t ← sm_get;
  mret (mkPlan old_leader node_id (term t)).

Definition ensure_leader (node_id : string) : cluster_op FailoverPlan :=
  t ← sm_get;
  let old_leader := leader_node_id t in
  let found := cluster_contains node_id t in
  sm_modify (λ t, set_nodes (elect node_id <$> nodes t) t) ;;
  if negb found then sm_fail (node_not_found node_id) else
  (if decide (old_leader = Some node_id) then mret tt
   else sm_modify (λ t, mkTopology (u64_add (term t) 1) (leader_node_id t) (nodes t))) ;;
  sm_modify (λ t, mkTopology (term t) (Some node_id) (nodes t)) ;;
  t ← sm_get;
  mret (mkPlan old_leader node_id (term t)).

Definition observe_leader (node_id : string) : cluster_op unit :=
  t ← sm_get;
  let found := cluster_contains node_id t in
  sm_modify (λ t, set_nodes (elect node_id <$> nodes t) t) ;;
  if negb found then sm_fail (node_not_found node_id) else
  sm_modify (λ t, mkTopology (term t) (Some node_id) (nodes t)).

Definition find_node (id : string) (l : list ClusterNode) : option ClusterNode :=
  snd <$> list_find (has_id id) l.

Definition leader (t : ClusterTopology) : option ClusterNode :=
  leader_node_id t ≫= λ id, find_node id (nodes t).

#[global] Arguments leader : simpl never.

Definition readable_replicas (t : ClusterTopology) : list ClusterNode :=
  filter (λ n, cn_role n = Replica ∧ cn_healthy n = true) (nodes t).

(** ** Well-formed topologies *)

Definition ids (l : list ClusterNode) : list string := cn_node_id <$> l.
Definition primaries (l : list ClusterNode) : list string :=
  ids (filter (λ n, cn_role n = Primary) l).

Record topology_wf (t : ClusterTopology) : Prop := {
  tw_nodup : NoDup (ids (nodes t));
  tw_sorted : Sorted cn_le (nodes t);
  tw_primary : (length (primaries (nodes t)) ≤ 1)%nat;
  tw_leader : ∀ l, leader_node_id t = Some l → is_Some (leader t);
}.

Lemma cluster_contains_true id t : cluster_contains id t = true ↔ id ∈ ids (nodes t).
Proof.
  unfold cluster_contains, ids. rewrite existsb_exists, list_elem_of_fmap.
  split; intros (n & H1 & H2).
  - exists n. rewrite bool_decide_eq_true in H2. by rewrite list_elem_of_In.
  - exists n. rewrite bool_decide_eq_true, <-list_elem_of_In. by subst.
Qed.

Lemma cluster_contains_false id t : cluster_contains id t = false ↔ id ∉ ids (nodes t).
Proof. by rewrite <-cluster_contains_true, not_true_iff_false. Qed.

Lemma find_node_is_Some id l : is_Some (find_node id l) ↔ id ∈ ids l.
Proof.
  unfold find_node. rewrite fmap_is_Some. unfold ids. rewrite list_elem_of_fmap. split.
  - intros [[i n] (? & ? & ?)%list_find_Some]. exists n.
    split; [by symmetry|]. apply list_elem_of_lookup. eauto.
  - intros (n & -> & Hn). eapply list_find_elem_of; done.
Qed.

(** Membership of the leader only depends on the ids present. *)
Lemma leader_resolves t : (∀ l, leader_node_id t = Some l → is_Some (leader t)) ↔
  (∀ l, leader_node_id t = Some l → l ∈ ids (nodes t)).
Proof.
  unfold leader. split; intros H l Hl; specialize (H l Hl); rewrite Hl in *; simpl in *;
    by apply find_node_is_Some.
Qed.

Lemma sort_nodes_perm l : sort_nodes l ≡ₚ l.
Proof. apply merge_sort_Permutation. Qed.
Lemma sort_nodes_sorted l : Sorted cn_le (sort_nodes l).
Proof. apply Sorted_merge_sort, _. Qed.

#[global] Instance ids_perm : Proper ((≡ₚ) ==> (≡ₚ)) ids.
Proof. intros l1 l2 H. unfold ids. by rewrite H. Qed.
#[global] Instance primaries_perm : Proper ((≡ₚ) ==> (≡ₚ)) primaries.
Proof. intros l1 l2 H. unfold primaries. by rewrite H. Qed.

(** A map over the nodes that keeps ids keeps order and uniqueness. *)
Lemma Sorted_fmap_ids (f : ClusterNode → ClusterNode) l :
  (∀ n, cn_node_id (f n) = cn_node_id n) → Sorted cn_le l → Sorted cn_le (f <$> l).
Proof.
  intros Hf. induction 1 as [|n l Hs IH Hd]; simpl; constructor; [done|].
  destruct Hd; simpl; constructor. unfold cn_le in *. by rewrite !Hf.
Qed.

Lemma ids_fmap (f : ClusterNode → ClusterNode) l :
  (∀ n, cn_node_id (f n) = cn_node_id n) → ids (f <$> l) = ids l.
Proof. intros Hf. unfold ids. induction l as [|n l IH]; [done|]. csimpl. by rewrite Hf, IH. Qed.

Lemma elect_id id n : cn_node_id (elect id n) = cn_node_id n.
Proof. unfold elect. case_decide; [done|]. by case_decide. Qed.

Lemma elect_role id n : cn_role (elect id n) = Primary ↔ cn_node_id n = id.
Proof.
  unfold elect, has_id. case_decide; simpl; [naive_solver|]. case_decide; simpl; naive_solver.
Qed.

Lemma primaries_elect id l : primaries (elect id <$> l) = filter (λ i, i = id) (ids l).
Proof.
  induction l as [|n l IH]; [done|]. unfold primaries, ids in *. simpl.
  rewrite !filter_cons. pose proof (elect_role id n) as Hr.
  case_decide as H1; case_decide as H2; simpl; rewrite ?elect_id; try naive_solver; by f_equal.
Qed.

Lemma filter_eq_absent id l : id ∉ l → filter (λ i : string, i = id) l = [].
Proof.
  induction l as [|i l IH]; [done|]. rewrite not_elem_of_cons, filter_cons. intros [Hi Hl].
  rewrite decide_False by done. by apply IH.
Qed.

Lemma filter_eq_nodup id l : NoDup l → id ∈ l → filter (λ i : string, i = id) l = [id].
Proof.
  induction 1 as [|i l Hi Hl IH]; intros Hin; [by apply elem_of_nil in Hin|].
  rewrite filter_cons. case_decide as Hd.
  - subst. by rewrite filter_eq_absent.
  - apply elem_of_cons in Hin as [->|]; [done|]. by apply IH.
Qed.

Lemma update_first_ids id f l :
  (∀ n, cn_node_id (f n) = cn_node_id n) → ids (update_first id f l) = ids l.
Proof.
  intros Hf. unfold ids. induction l as [|n l IH]; [done|].
  csimpl. case_decide; csimpl; [by rewrite Hf | by rewrite IH].
Qed.

Lemma Sorted_same_ids l l' : ids l = ids l' → Sorted cn_le l → Sorted cn_le l'.
Proof.
  unfold ids. intros Heq Hs. revert l' Heq. induction Hs as [|n l Hs IH Hd]; intros [|n' l'];
    simpl; intros [=]; constructor; [eauto|].
  destruct l' as [|m' l']; [constructor|]. destruct Hd as [|m l Hle]; [done|].
  simpl in *. simplify_eq. constructor. unfold cn_le in *. congruence.
Qed.

(** The operations that only change roles, health and addresses. *)
Lemma topology_wf_same_ids t l' :
  topology_wf t → ids l' = ids (nodes t) → (length (primaries l') ≤ 1)%nat →
  topology_wf (set_nodes l' t).
Proof.
  intros [Hnd Hs Hp Hl] Hids Hlen. split; simpl; [by rewrite Hids| |done|].
  - by eapply Sorted_same_ids.
  - apply (leader_resolves (set_nodes l' t)). simpl. rewrite Hids. by apply leader_resolves.
Qed.

Lemma primaries_elect_le id l : NoDup (ids l) → (length (primaries (elect id <$> l)) ≤ 1)%nat.
Proof.
  intros Hnd. rewrite primaries_elect. destruct (decide (id ∈ ids l)).
  - by rewrite filter_eq_nodup.
  - rewrite filter_eq_absent by done. simpl. lia.
Qed.

Lemma ids_elect id l : ids (elect id <$> l) = ids l.
Proof. apply ids_fmap. intros n. apply elect_id. Qed.

Lemma topology_wf_elect id t : topology_wf t → topology_wf (set_nodes (elect id <$> nodes t) t).
Proof.
  intros Hwf. apply topology_wf_same_ids; [done|apply ids_elect|].
  apply primaries_elect_le, Hwf.
Qed.

Lemma topology_wf_leader id term' t :
  topology_wf t → id ∈ ids (nodes t) → topology_wf (mkTopology term' (Some id) (nodes t)).
Proof.
  intros [Hnd Hs Hp Hl] Hin. split; simpl; [done..|].
  apply (leader_resolves (mkTopology _ _ _)). simpl. by intros l [= <-].
Qed.

Lemma topology_wf_insert n t :
  topology_wf t → cn_node_id n ∉ ids (nodes t) → (cn_role n = Primary → primaries (nodes t) = []) →
  topology_wf (set_nodes (sort_nodes (nodes t ++ [n])) t).
Proof.
  intros [Hnd Hs Hp Hl] Hn Hrole. split; simpl.
  - rewrite sort_nodes_perm. unfold ids. rewrite fmap_app. apply list.NoDup_app.
    repeat split; [done| |by apply NoDup_singleton].
    intros i Hi ->%list_elem_of_singleton. done.
  - apply sort_nodes_sorted.
  - rewrite sort_nodes_perm. unfold primaries in *. rewrite list.filter_app. unfold ids in *.
    rewrite fmap_app, length_app, filter_cons, filter_nil. case_decide; simpl; [|lia].
    rewrite Hrole by done. simpl. lia.
  - apply (leader_resolves (set_nodes _ t)). simpl. intros l Hle. rewrite sort_nodes_perm. unfold ids.
    rewrite fmap_app, elem_of_app. left. eapply leader_resolves; eauto.
Qed.

(** A role change that adds no primary. *)
Lemma primaries_update_first id f l :
  (∀ n, cn_node_id (f n) = cn_node_id n) →
  (∀ n, cn_role (f n) = Primary → cn_role n = Primary) →
  (length (primaries (update_first id f l)) ≤ length (primaries l))%nat.
Proof.
  intros Hid Hf. unfold primaries, ids. rewrite !length_fmap.
  induction l as [|n l IH]; simpl; [done|]. case_decide; rewrite !filter_cons.
  - destruct (decide (cn_role (f n) = Primary)) as [Hp|Hp].
    + rewrite decide_True by auto. simpl. lia.
    + case_decide; simpl; lia.
  - case_decide; simpl; lia.
Qed.

(** ** Transitions of a cluster manager

    Every public mutator, with the outcomes it can have.  [upsert_node] takes its
    role from the caller; the manager is only driven with a role that does not add
    a second primary (the api layer upserts replicas and followers). *)
Inductive cluster_step : ClusterTopology → ClusterTopology → Prop :=
| step_add_replica id addr t : cluster_step t (add_replica id addr t).2
| step_upsert id addr role healthy t : role ≠ Primary →
    cluster_step t (upsert_node id addr role healthy t)
| step_health id healthy t : cluster_step t (mark_node_health id healthy t).2
| step_promote id t : cluster_step t (promote_node id t).2
| step_ensure id t : cluster_step t (ensure_leader id t).2
| step_observe id t : cluster_step t (observe_leader id t).2.

Lemma add_replica_wf id addr t : topology_wf t → topology_wf (add_replica id addr t).2.
Proof.
  intros Hwf. unfold add_replica. unfold_sm.
  destruct (cluster_contains id t) eqn:Hc; simpl; [done|].
  apply topology_wf_insert; simpl; [done| |done]. by apply cluster_contains_false.
Qed.

Lemma upsert_node_wf id addr role healthy t :
  role ≠ Primary → topology_wf t → topology_wf (upsert_node id addr role healthy t).
Proof.
  intros Hrole Hwf. unfold upsert_node. destruct (cluster_contains id t) eqn:Hc.
  - apply topology_wf_same_ids; [done|by apply update_first_ids|].
    etrans; [apply primaries_update_first|apply Hwf]; [done|by intros ? ?].
  - apply topology_wf_insert; simpl; [done|by apply cluster_contains_false|done].
Qed.

Lemma mark_node_health_wf id healthy t :
  topology_wf t → topology_wf (mark_node_health id healthy t).2.
Proof.
  intros Hwf. unfold mark_node_health. unfold_sm.
  destruct (cluster_contains id t); simpl; [|done].
  apply topology_wf_same_ids; [done|by apply update_first_ids|].
  etrans; [apply primaries_update_first|apply Hwf]; done.
Qed.

Lemma elected_wf id term' t : topology_wf t → cluster_contains id t = true →
  topology_wf (mkTopology term' (Some id) (elect id <$> nodes t)).
Proof.
  intros Hwf Hc%cluster_contains_true.
  assert (Hin : id ∈ ids (elect id <$> nodes t)) by (by rewrite ids_elect).
  exact (topology_wf_leader id term' _ (topology_wf_elect id t Hwf) Hin).
Qed.

Lemma promote_node_run id t : promote_node id t =
  if cluster_contains id t then
    (Ok (mkPlan (leader_node_id t) id (u64_add (term t) 1)),
     mkTopology (u64_add (term t) 1) (Some id) (elect id <$> nodes t))
  else (Err (node_not_found id), set_nodes (elect id <$> nodes t) t).
Proof. unfold promote_node. unfold_sm. by destruct (cluster_contains id t). Qed.

Definition term_after (id : string) (t : ClusterTopology) : N :=
  if decide (leader_node_id t = Some id) then term t else u64_add (term t) 1.

Lemma ensure_leader_run id t : ensure_leader id t =
  if cluster_contains id t then
    (Ok (mkPlan (leader_node_id t) id (term_after id t)),
     mkTopology (term_after id t) (Some id) (elect id <$> nodes t))
  else (Err (node_not_found id), set_nodes (elect id <$> nodes t) t).
Proof.
  unfold ensure_leader, term_after. unfold_sm. destruct (cluster_contains id t); simpl; [|done].
  by case_decide.
Qed.

Lemma observe_leader_run id t : observe_leader id t =
  if cluster_contains id t then
    (Ok tt, mkTopology (term t) (Some id) (elect id <$> nodes t))
  else (Err (node_not_found id), set_nodes (elect id <$> nodes t) t).
Proof. unfold observe_leader. unfold_sm. by destruct (cluster_contains id t). Qed.

Lemma cluster_step_wf t t' : cluster_step t t' → topology_wf t → topology_wf t'.
Proof.
  intros Hstep Hwf. destruct Hstep.
  - by apply add_replica_wf.
  - by apply upsert_node_wf.
  - by apply mark_node_health_wf.
  - rewrite promote_node_run. destruct (cluster_contains id t) eqn:?;
      [by apply elected_wf | by apply topology_wf_elect].
  - rewrite ensure_leader_run. destruct (cluster_contains id t) eqn:?;
      [by apply elected_wf | by apply topology_wf_elect].
  - rewrite observe_leader_run. destruct (cluster_contains id t) eqn:?;
      [by apply elected_wf | by apply topology_wf_elect].
Qed.

Lemma single_node_wf id addr : topology_wf (single_node_with_id id addr).
Proof.
  split; simpl.
  - apply NoDup_singleton.
  - repeat constructor.
  - done.
  - intros l [= <-]. unfold leader, find_node. simpl. by rewrite decide_True.
Qed.

Lemma find_node_cons id n l :
  find_node id (n :: l) = if decide (has_id id n) then Some n else find_node id l.
Proof.
  unfold find_node. simpl. case_decide; [done|]. rewrite <-!option_fmap_compose.
  by destruct (list_find (has_id id) l) as [[]|].
Qed.

Lemma find_node_elect id l n : find_node id l = Some n →
  find_node id (elect id <$> l) = Some (mkClusterNode id (cn_address n) Primary true).
Proof.
  induction l as [|m l IH]; [done|]. rewrite fmap_cons, !find_node_cons.
  destruct (decide (has_id id m)) as [Hm|Hm].
  - intros [= ->]. rewrite decide_True by (unfold has_id; by rewrite elect_id).
    unfold elect. rewrite decide_True by done. unfold has_id in Hm. by rewrite Hm.
  - rewrite decide_False by (unfold has_id; by rewrite elect_id). done.
Qed.

(** ** Properties *)


Definition demo_topology : ClusterTopology :=
  (promote_node "node-2" (add_replica "node-2" "b:1" (single_node "a:1")).2).2.


(** Promoting a listed node of a well-formed topology succeeds, and afterwards
    that node is the only primary, it is the healthy leader, the plan names the old
    leader, and the term has grown by one. *)
Theorem promote_node_success id t :
  topology_wf t → id ∈ ids (nodes t) → (term t < u64_max)%N →
  ∃ t' addr,
    promote_node id t = (Ok (mkPlan (leader_node_id t) id (term t + 1)), t') ∧
    term t' = (term t + 1)%N ∧
    primaries (nodes t') = [id] ∧ leader t' = Some (mkClusterNode id addr Primary true) ∧
    ids (nodes t') = ids (nodes t).
Proof.
  intros Hwf Hin Hterm. pose proof (proj2 (find_node_is_Some id (nodes t)) Hin) as [n Hn].
  assert (Hadd : u64_add (term t) 1 = (term t + 1)%N).
  { apply u64_add_small. unfold u64_max, u64_modulus in *. lia. }
  eexists _, (cn_address n). rewrite promote_node_run.
  rewrite (proj2 (cluster_contains_true id t)) by done. rewrite Hadd.
  split; [done|]. cbn [term leader_node_id nodes].
  split; [done|]. split; [rewrite primaries_elect; apply filter_eq_nodup; [apply Hwf|done]|].
  split; [|apply ids_elect].
  by apply find_node_elect.
Qed.

Lemma promote_node_success_witness : ∃ t' addr,
  promote_node "node-2" demo_topology =
    (Ok (mkPlan (Some "node-2") "node-2" 3), t') ∧
  term t' = 3%N ∧ primaries (nodes t') = ["node-2"] ∧
  leader t' = Some (mkClusterNode "node-2" addr Primary true) ∧
  ids (nodes t') = ids (nodes demo_topology).
Proof.
  apply (promote_node_success "node-2" demo_topology).
  - apply (cluster_step_wf (add_replica "node-2" "b:1" (single_node "a:1")).2);
      [apply step_promote|].
    apply add_replica_wf, single_node_wf.
  - apply cluster_contains_true. by vm_compute.
  - by vm_compute.
Defined.

(** Promoting an id that is not listed is refused with [NotFound], yet the
    refused call has already demoted every primary: the topology is left without
    one while its leader id and term are unchanged. *)
Theorem promote_unknown_demotes id t :
  id ∉ ids (nodes t) →
  (promote_node id t).1 = Err (node_not_found id) ∧
  primaries (nodes (promote_node id t).2) = [] ∧
  leader_node_id (promote_node id t).2 = leader_node_id t ∧
  term (promote_node id t).2 = term t.
Proof.
  intros Hin. rewrite promote_node_run, (proj2 (cluster_contains_false id t)) by done. simpl.
  by rewrite primaries_elect, filter_eq_absent.
Qed.

Lemma promote_unknown_demotes_witness :
  primaries (nodes demo_topology) = ["node-2"] ∧
  (promote_node "ghost" demo_topology).1 = Err (node_not_found "ghost") ∧
  primaries (nodes (promote_node "ghost" demo_topology).2) = [] ∧
  leader_node_id (promote_node "ghost" demo_topology).2 = Some "node-2" ∧
  term (promote_node "ghost" demo_topology).2 = 2%N.
Proof.
  split; [by vm_compute|]. apply (promote_unknown_demotes "ghost" demo_topology).
  apply cluster_contains_false. by vm_compute.
Defined.
