(* ===== verification/Replication.v ===== *)
(** * [crates/replication]: leader history and follower progress

    [ReplicationManager] keeps a status and, on a leader, the history of committed
    batches a follower pulls.  Methods returning a [Result] are [sm] computations
    over the manager: an error met half way keeps the records already counted. *)
From S2P Require Import Prelude RustStd Common Core.

#[local] Open Scope string_scope.

Inductive ReplicationMode := Disabled | Leader | Follower.
#[global] Instance ReplicationMode_eq_dec : EqDecision ReplicationMode.
Proof. solve_decision. Defined.

Record ReplicaProgress := mkProgress {
  replica_node_id : string;
  last_acked_source_lsn : N;
  rp_last_applied_source_lsn : N;
}.

Record ReplicationRecord := mkRepRecord {
  source_node_id : string;
  source_term : N;
  source_lsn : N;
  rr_batch : WriteBatch;
}.

Record ReplicationStatus := mkStatus {
  mode : ReplicationMode;
  local_node_id : string;
  leader_node_id : option string;
  current_term : N;
  last_applied_lsn : N;
  last_committed_source_lsn : N;
  last_pulled_source_lsn : N;
  last_applied_source_lsn : N;
  replicas : list ReplicaProgress;
}.

Record ReplicationManager := mkManager {
  status : ReplicationStatus;
  history : list ReplicationRecord;
}.

Abbreviation repl_op := (sm ReplicationManager Undr9Error).

Definition status_single_node (local_node_id : string) : ReplicationStatus :=
  mkStatus Disabled local_node_id None 0 0 0 0 0 [].
Definition manager_single_node (local_node_id : string) : ReplicationManager :=
  mkManager (status_single_node local_node_id) [].

(** [&mut self.status]. *)
Definition on_status (f : ReplicationStatus → ReplicationStatus) (m : ReplicationManager) :=
  mkManager (f (status m)) (history m).

Definition set_replicas (l : list ReplicaProgress) (s : ReplicationStatus) : ReplicationStatus :=
  mkStatus (mode s) (local_node_id s) (leader_node_id s) (current_term s) (last_applied_lsn s)
    (last_committed_source_lsn s) (last_pulled_source_lsn s) (last_applied_source_lsn s) l.

Definition is_replica (id : string) (r : ReplicaProgress) : Prop := replica_node_id r = id.
#[global] Instance is_replica_dec id r : Decision (is_replica id r).
Proof. unfold is_replica. apply _. Defined.

Definition replica_lag (id : string) (s : ReplicationStatus) : option N :=
  (λ '(_, r), u64_saturating_sub (last_committed_source_lsn s) (last_acked_source_lsn r))
    <$> list_find (is_replica id) (replicas s).

Definition history_since (after_source_lsn : N) (m : ReplicationManager) :
    list ReplicationRecord :=
  filter (λ r, (after_source_lsn < source_lsn r)%N) (history m).

Definition configure_as_leader (local_id : string) (term : N) : ReplicationManager → ReplicationManager :=
  on_status (λ s, mkStatus Leader local_id (Some local_id) term (last_applied_lsn s)
    (last_committed_source_lsn s) (last_pulled_source_lsn s) (last_applied_source_lsn s)
    (replicas s)).

Definition configure_as_follower (local_id leader_id : string) (term : N) :
    ReplicationManager → ReplicationManager :=
  on_status (λ s, mkStatus Follower local_id (Some leader_id) term (last_applied_lsn s)
    (last_committed_source_lsn s) (last_pulled_source_lsn s) (last_applied_source_lsn s)
    (replicas s)).

Definition disable (local_id : string) (m : ReplicationManager) : ReplicationManager :=
  let s := status m in
  mkManager (mkStatus Disabled local_id None (current_term s) (last_applied_lsn s)
    (last_committed_source_lsn s) (last_pulled_source_lsn s) (last_applied_source_lsn s) []) [].

Definition observe_local_apply (local_lsn : N) : ReplicationManager → ReplicationManager :=
  on_status (λ s, mkStatus (mode s) (local_node_id s) (leader_node_id s) (current_term s) local_lsn
    (last_committed_source_lsn s) (last_pulled_source_lsn s) (last_applied_source_lsn s)
    (replicas s)).

Definition ensure_leader (s : ReplicationStatus) : Res unit :=
  if decide (mode s = Leader) then Ok tt
  else Err (Conflict "replication operation requires leader mode").
Definition ensure_follower (s : ReplicationStatus) : Res unit :=
  if decide (mode s = Follower) then Ok tt
  else Err (Conflict "replication operation requires follower mode").

Definition rp_le : relation ReplicaProgress :=
  λ a b, String.le (replica_node_id a) (replica_node_id b).
#[global] Instance rp_le_dec : RelDecision rp_le.
Proof. intros a b. unfold rp_le. apply _. Defined.

Definition register_replica (id : string) : repl_op unit :=
  m ← sm_get;
  sm_lift (ensure_leader (status m)) ;;
  if existsb (λ r, bool_decide (is_replica id r)) (replicas (status m)) then mret tt
  else sm_modify (on_status (λ s, set_replicas
    (merge_sort rp_le (replicas s ++ [mkProgress id 0 0])) s)).

Definition record_leader_commit (lsn : N) (batch : WriteBatch) : repl_op unit :=
  m ← sm_get;
  sm_lift (ensure_leader (status m)) ;;
  sm_modify (λ m, let s := status m in
    mkManager
      (mkStatus (mode s) (local_node_id s) (leader_node_id s) (current_term s) lsn lsn
        (last_pulled_source_lsn s) lsn (replicas s))
      (history m ++ [mkRepRecord (local_node_id s) (current_term s) lsn batch])).

Fixpoint ack_first (id : string) (lsn : N) (l : list ReplicaProgress) :
    option (list ReplicaProgress) :=
  match l with
  | [] => None
  | r :: l =>
      if decide (is_replica id r) then Some (mkProgress (replica_node_id r) lsn lsn :: l)
      else (cons r) <$> ack_first id lsn l
  end.

Definition acknowledge_replica (id : string) (lsn : N) : repl_op unit :=
  m ← sm_get;
  sm_lift (ensure_leader (status m)) ;;
  match ack_first id lsn (replicas (status m)) with
  | None => sm_fail (NotFound ("replica '" +:+ id +:+ "' is not registered"))
  | Some l => sm_modify (on_status (set_replicas l))
  end.

(** One turn of the loop of [apply_follower_records], on the status and the
    [last_applied_source_lsn] local. *)
Definition apply_follower_record (last : option N) (r : ReplicationRecord) : repl_op (option N) :=
  m ← sm_get;
  let s := status m in
  if (source_term r <? current_term s)%N then
    sm_fail (Conflict ("replication term regression: follower term "
      +:+ pretty (current_term s) +:+ " leader term " +:+ pretty (source_term r)))
  else if (source_lsn r <=? last_applied_source_lsn s)%N then mret last
  else
    sm_modify (on_status (λ s, mkStatus (mode s) (local_node_id s) (leader_node_id s)
      (source_term r) (last_applied_lsn s) (last_committed_source_lsn s)
      (source_lsn r) (source_lsn r) (replicas s))) ;;
    mret (Some (source_lsn r)).

Fixpoint apply_follower_loop (last : option N) (l : list ReplicationRecord) :
    repl_op (option N) :=
  match l with
  | [] => mret last
  | r :: l => last ← apply_follower_record last r; apply_follower_loop last l
  end.

Definition apply_follower_records (l : list ReplicationRecord) : repl_op (option N) :=
  m ← sm_get;
  sm_lift (ensure_follower (status m)) ;;
  apply_follower_loop None l.

Definition promote_to_leader (new_term : N) : ReplicationManager → ReplicationManager :=
  on_status (λ s, mkStatus Leader (local_node_id s) (Some (local_node_id s)) new_term
    (last_applied_lsn s) (last_applied_source_lsn s) (last_pulled_source_lsn s)
    (last_applied_source_lsn s) (replicas s)).

Definition failover_to_follower (leader_id : string) (new_term : N) :
    ReplicationManager → ReplicationManager :=
  on_status (λ s, mkStatus Follower (local_node_id s) (Some leader_id) new_term
    (last_applied_lsn s) (last_committed_source_lsn s) (last_pulled_source_lsn s)
    (last_applied_source_lsn s) (replicas s)).

(** [collect] into a [BTreeMap]: a later replica of the same id overwrites. *)
Definition replica_lag_map (m : ReplicationManager) : gmap string N :=
  foldl (λ acc r, <[replica_node_id r :=
    u64_saturating_sub (last_committed_source_lsn (status m)) (last_acked_source_lsn r)]> acc)
    ∅ (replicas (status m)).

(** ** Invariants of a leader's history *)

Definition rr_before (a b : ReplicationRecord) : Prop :=
  (source_lsn a < source_lsn b)%N ∧ (source_term a ≤ source_term b)%N.

(** Commits arrive in LSN order and terms never go back: the records of a
    leader's history are strictly ordered and bounded by its status. *)
Record leader_wf (m : ReplicationManager) : Prop := {
  lw_sorted : StronglySorted rr_before (history m);
  lw_lsn : Forall (λ r, (source_lsn r ≤ last_committed_source_lsn (status m))%N) (history m);
  lw_term : Forall (λ r, (source_term r ≤ current_term (status m))%N) (history m);
}.

Lemma record_leader_commit_wf lsn batch m m' :
  leader_wf m → (last_committed_source_lsn (status m) < lsn)%N →
  record_leader_commit lsn batch m = (Ok tt, m') →
  leader_wf m' ∧ last_committed_source_lsn (status m') = lsn.
Proof.
  intros [Hs Hl Ht] Hlt. unfold record_leader_commit, ensure_leader. unfold_sm.
  case_decide; simpl; [|done]. intros [= <-]. split; [|done]. split; simpl.
  - apply StronglySorted_snoc; [done|]. apply list.Forall_forall. intros r Hr.
    rewrite list.Forall_forall in Hl, Ht. specialize (Hl r Hr). specialize (Ht r Hr).
    unfold rr_before. simpl. lia.
  - apply list.Forall_app. split; [|by repeat constructor; simpl; lia].
    eapply list.Forall_impl; [exact Hl|]. simpl. lia.
  - apply list.Forall_app. split; [done|]. repeat constructor; simpl; lia.
Qed.

(** What following a run of records does to a follower: its term and applied LSN
    become those of the last record newer than it. *)
Definition follow (s : ReplicationStatus) (r : ReplicationRecord) : ReplicationStatus :=
  if (source_lsn r <=? last_applied_source_lsn s)%N then s
  else mkStatus (mode s) (local_node_id s) (leader_node_id s)
      (source_term r) (last_applied_lsn s) (last_committed_source_lsn s)
      (source_lsn r) (source_lsn r) (replicas s).

Lemma apply_follower_record_ok last r m : (current_term (status m) ≤ source_term r)%N →
  apply_follower_record last r m =
    (Ok (if (source_lsn r <=? last_applied_source_lsn (status m))%N then last
         else Some (source_lsn r)), on_status (λ s, follow s r) m).
Proof.
  intros Ht. unfold apply_follower_record, follow. unfold_sm.
  destruct (N.ltb_spec (source_term r) (current_term (status m))); [lia|].
  destruct m as [s h]. simpl in *. unfold on_status. simpl.
  destruct (source_lsn r <=? last_applied_source_lsn s)%N; reflexivity.
Qed.

Lemma follow_applied_le s r : (last_applied_source_lsn s ≤ last_applied_source_lsn (follow s r))%N.
Proof. unfold follow. destruct (N.leb_spec (source_lsn r) (last_applied_source_lsn s)); simpl; lia. Qed.

(** Every outcome, errors included, keeps the applied LSN and the term from going
    back; records counted before an error stay counted. *)
Lemma apply_follower_loop_monotone l last m :
  let m' := (apply_follower_loop last l m).2 in
  (last_applied_source_lsn (status m) ≤ last_applied_source_lsn (status m'))%N ∧
  (current_term (status m) ≤ current_term (status m'))%N ∧ history m' = history m.
Proof.
  revert last m. induction l as [|r l IH]; intros last m; simpl; [done|].
  destruct (N.ltb_spec (source_term r) (current_term (status m))) as [Hlt|Hge].
  - unfold apply_follower_record. unfold_sm.
    apply N.ltb_lt in Hlt. rewrite Hlt. simpl. split; [|split]; [lia..|done].
  - unfold mbind, sm_bind. rewrite apply_follower_record_ok by done.
    destruct (IH (if (source_lsn r <=? last_applied_source_lsn (status m))%N then last
         else Some (source_lsn r)) (on_status (λ s, follow s r) m)) as (H1 & H2 & H3).
    cbn [on_status status history] in *. pose proof (follow_applied_le (status m) r).
    assert (current_term (status m) ≤ current_term (follow (status m) r))%N.
    { unfold follow. destruct (_ <=? _)%N; simpl; lia. }
    split; [|split]; [lia..|done].
Qed.


(** A run of new records in order: each one is counted. *)
Lemma apply_follower_loop_new l : ∀ prev m,
  StronglySorted rr_before l →
  Forall (λ r, (last_applied_source_lsn (status m) < source_lsn r)%N) l →
  Forall (λ r, (current_term (status m) ≤ source_term r)%N) l →
  apply_follower_loop prev l m =
    (Ok (match list.last l with Some r => Some (source_lsn r) | None => prev end),
     on_status (λ s, foldl follow s l) m).
Proof.
  induction l as [|r l IH]; intros prev m Hs Hlsn Ht; [by destruct m|].
  apply StronglySorted_inv in Hs as [Hs Hr].
  apply list.Forall_cons in Hlsn as [Hlsn1 Hlsn]. apply list.Forall_cons in Ht as [Ht1 Ht].
  cbn [apply_follower_loop]. unfold mbind, sm_bind.
  rewrite apply_follower_record_ok by done.
  assert (Hf : (source_lsn r <=? last_applied_source_lsn (status m))%N = false)
    by (apply N.leb_gt; lia).
  rewrite Hf, IH; [rewrite last_cons; by destruct (list.last l)|done|..].
  all: cbn [on_status status]; unfold follow; rewrite Hf; simpl.
  all: eapply list.Forall_impl; [exact Hr|]; intros r' []; simpl; lia.
Qed.

Lemma foldl_follow_applied l s :
  StronglySorted rr_before l →
  Forall (λ r, (last_applied_source_lsn s < source_lsn r)%N) l →
  last_applied_source_lsn (foldl follow s l) =
    match list.last l with Some r => source_lsn r | None => last_applied_source_lsn s end ∧
  current_term (foldl follow s l) =
    match list.last l with Some r => source_term r | None => current_term s end ∧
  mode (foldl follow s l) = mode s.
Proof.
  revert s. induction l as [|r l IH]; intros s Hs Hl; [done|].
  apply StronglySorted_inv in Hs as [Hs Hr]. apply list.Forall_cons in Hl as [Hl1 Hl].
  assert (Hf : (source_lsn r <=? last_applied_source_lsn s)%N = false) by (apply N.leb_gt; lia).
  cbn [foldl]. destruct (IH (follow s r)) as (-> & -> & ->); [done| |].
  - unfold follow. rewrite Hf. simpl. eapply list.Forall_impl; [exact Hr|]. by intros r' [].
  - rewrite last_cons. unfold follow. rewrite Hf. by destruct (list.last l).
Qed.

Lemma sorted_le_last l r r' :
  StronglySorted rr_before l → list.last l = Some r → r' ∈ l →
  (source_lsn r' ≤ source_lsn r)%N ∧ (source_term r' ≤ source_term r)%N.
Proof.
  induction 1 as [|x l Hs IH Hx]; [done|]. intros Hlast [->|Hin]%elem_of_cons.
  - destruct l as [|y l]; [simpl in *; by simplify_eq|]. rewrite last_cons_cons in Hlast.
    rewrite list.Forall_forall in Hx. apply last_Some_elem_of in Hlast. apply Hx in Hlast as []. lia.
  - destruct l as [|y l]; [by apply elem_of_nil in Hin|]. rewrite last_cons_cons in Hlast. auto.
Qed.

(** A run of already counted records of the current or a later term changes
    nothing. *)
Lemma apply_follower_loop_old l : ∀ prev m,
  Forall (λ r, (source_lsn r ≤ last_applied_source_lsn (status m))%N) l →
  Forall (λ r, (current_term (status m) ≤ source_term r)%N) l →
  apply_follower_loop prev l m = (Ok prev, m).
Proof.
  induction l as [|r l IH]; intros prev m Hlsn Ht; [done|].
  apply list.Forall_cons in Hlsn as [Hlsn1 Hlsn]. apply list.Forall_cons in Ht as [Ht1 Ht].
  cbn [apply_follower_loop]. unfold mbind, sm_bind.
  rewrite apply_follower_record_ok by done. unfold follow, on_status.
  rewrite (proj2 (N.leb_le (source_lsn r) _)) by done. destruct m. by apply IH.
Qed.

(** ** Leaders reachable by commits and promotions *)
Inductive leader_step : ReplicationManager → ReplicationManager → Prop :=
| ls_commit lsn batch m m' : (last_committed_source_lsn (status m) < lsn)%N →
    record_leader_commit lsn batch m = (Ok tt, m') → leader_step m m'
| ls_term id term m : (current_term (status m) ≤ term)%N →
    leader_step m (configure_as_leader id term m)
| ls_register id m : leader_step m (register_replica id m).2
| ls_ack id lsn m : leader_step m (acknowledge_replica id lsn m).2
| ls_observe lsn m : leader_step m (observe_local_apply lsn m).

Lemma leader_wf_keep m m' :
  leader_wf m → history m' = history m →
  last_committed_source_lsn (status m') = last_committed_source_lsn (status m) →
  (current_term (status m) ≤ current_term (status m'))%N → leader_wf m'.
Proof.
  intros [Hs Hl Ht] Hh Hc Hle. split; rewrite Hh; [done|by rewrite Hc|].
  eapply list.Forall_impl; [exact Ht|]. simpl. lia.
Qed.

Lemma register_replica_keeps id m : let m' := (register_replica id m).2 in
  history m' = history m ∧
  last_committed_source_lsn (status m') = last_committed_source_lsn (status m) ∧
  current_term (status m') = current_term (status m).
Proof.
  unfold register_replica, ensure_leader. unfold_sm. case_decide; simpl; [|done].
  by destruct (existsb _ _).
Qed.

Lemma acknowledge_replica_keeps id lsn m : let m' := (acknowledge_replica id lsn m).2 in
  history m' = history m ∧
  last_committed_source_lsn (status m') = last_committed_source_lsn (status m) ∧
  current_term (status m') = current_term (status m).
Proof.
  unfold acknowledge_replica, ensure_leader. unfold_sm. case_decide; simpl; [|done].
  by destruct (ack_first _ _ _).
Qed.

Lemma leader_step_wf m m' : leader_step m m' → leader_wf m → leader_wf m'.
Proof.
  intros [lsn batch ? ? Hlt Hrun|id term ? Hle|id ?|id lsn ?|lsn ?] Hwf.
  - by eapply record_leader_commit_wf.
  - by eapply leader_wf_keep.
  - destruct (register_replica_keeps id m0) as (? & ? & Ht).
    eapply leader_wf_keep; [done..|]. rewrite Ht. lia.
  - destruct (acknowledge_replica_keeps id lsn m0) as (? & ? & Ht).
    eapply leader_wf_keep; [done..|]. rewrite Ht. lia.
  - by eapply leader_wf_keep.
Qed.

Lemma single_node_leader_wf id : leader_wf (manager_single_node id).
Proof. split; constructor. Qed.

Lemma leader_reachable_wf id m : rtc leader_step (manager_single_node id) m → leader_wf m.
Proof.
  intros Hr. assert (H0 := single_node_leader_wf id). induction Hr; [done|].
  eauto using leader_step_wf.
Qed.

(** What a pull of [history_since] the follower's applied LSN holds. *)
Lemma history_since_new k m : leader_wf m →
  StronglySorted rr_before (history_since k m) ∧
  Forall (λ r, (k < source_lsn r)%N) (history_since k m).
Proof.
  intros [Hs _ _]. split; [by apply StronglySorted_filter|].
  apply list.Forall_forall. by intros r [? ?]%list_elem_of_filter.
Qed.

Lemma foldl_follow_catches_up k m s : leader_wf m → last_applied_source_lsn s = k →
  history_since (last_applied_source_lsn (foldl follow s (history_since k m))) m = [].
Proof.
  intros Hwf Hk. destruct (history_since_new k m Hwf) as [Hs Hn].
  destruct (foldl_follow_applied (history_since k m) s) as (Ha & _ & _); [done|by subst|].
  rewrite Ha, Hk. apply filter_none. intros r Hr Hlt.
  destruct (list.last (history_since k m)) as [r'|] eqn:Hlast.
  - assert (Hin : r ∈ history_since k m).
    { apply list_elem_of_filter. split; [|done]. apply last_Some_elem_of in Hlast.
      apply list_elem_of_filter in Hlast as []. lia. }
    destruct (sorted_le_last _ _ _ Hs Hlast Hin). lia.
  - apply last_None in Hlast. assert (Hin : r ∈ history_since k m) by (by apply list_elem_of_filter).
    rewrite Hlast in Hin. by apply elem_of_nil in Hin.
Qed.

(** ** Properties *)


Definition demo_leader : ReplicationManager :=
  (record_leader_commit 2 batch_default
    (configure_as_leader "n1" 2
      (record_leader_commit 1 batch_default
        (configure_as_leader "n1" 1 (manager_single_node "n1"))).2)).2.
Definition demo_follower : ReplicationManager :=
  configure_as_follower "n2" "n1" 1 (manager_single_node "n2").


(** Delivering the same records of one term again changes nothing: a second
    [apply_follower_records] of a run the follower just applied succeeds with
    [None] and leaves the manager as it was. *)
Theorem follower_redelivery_idempotent l m m' o term :
  StronglySorted rr_before l →
  Forall (λ r, source_term r = term) l →
  Forall (λ r, (last_applied_source_lsn (status m) < source_lsn r)%N) l →
  apply_follower_records l m = (Ok o, m') →
  apply_follower_records l m' = (Ok None, m').
Proof.
  intros Hs Hterm Hlsn. unfold apply_follower_records, ensure_follower. unfold_sm.
  case_decide as Hmode; simpl; [|done]. intros Hrun.
  assert (Hge : Forall (λ r, (current_term (status m) ≤ source_term r)%N) l).
  { destruct l as [|r l]; [constructor|].
    eapply list.Forall_impl; [exact Hterm|]. intros r' ->.
    apply list.Forall_cons in Hterm as [<- _]. apply N.le_ngt. intros Hlt%N.ltb_lt.
    cbn [apply_follower_loop] in Hrun. unfold apply_follower_record in Hrun. unfold_sm.
    by rewrite Hlt in Hrun. }
  rewrite apply_follower_loop_new in Hrun by done. injection Hrun as <- <-.
  destruct (foldl_follow_applied l (status m)) as (Ha & Ht & Hm); [done..|].
  cbn [on_status status] in *. rewrite Hm, decide_True by done. simpl.
  destruct (list.last l) as [r'|] eqn:Hlast; [|by apply last_None in Hlast as ->].
  apply apply_follower_loop_old; cbn [on_status status].
  - apply list.Forall_forall. intros r0 Hr0. rewrite Ha. by eapply sorted_le_last.
  - apply list.Forall_forall. intros r0 Hr0. rewrite Ht.
    apply last_Some_elem_of in Hlast. rewrite list.Forall_forall in Hterm.
    rewrite (Hterm r0), (Hterm r') by done. done.
Qed.

Lemma follower_redelivery_idempotent_witness :
  let l := [mkRepRecord "n1" 2 1 batch_default; mkRepRecord "n1" 2 2 batch_default] in
  let m' := (apply_follower_records l demo_follower).2 in
  (apply_follower_records l demo_follower).1 = Ok (Some 2%N) ∧
  apply_follower_records l m' = (Ok None, m').
Proof.
  intros l m'. split; [by vm_compute|].
  apply (follower_redelivery_idempotent l demo_follower m' (Some 2%N) 2%N).
  - repeat constructor; by vm_compute.
  - repeat constructor; by vm_compute.
  - repeat constructor; by vm_compute.
  - by vm_compute.
Defined.

(** Across a term change redelivery is not idempotent: when the last record of
    an applied run has a later term than its first one, a second delivery of the
    same run is refused with the term-regression conflict. *)
Theorem follower_redelivery_across_terms_fails r l r' m :
  StronglySorted rr_before (r :: l) → list.last (r :: l) = Some r' →
  (source_term r < source_term r')%N →
  (last_applied_source_lsn (status m) < source_lsn r)%N →
  (current_term (status m) ≤ source_term r)%N →
  mode (status m) = Follower →
  ∃ m', apply_follower_records (r :: l) m = (Ok (Some (source_lsn r')), m') ∧
    ∃ msg, apply_follower_records (r :: l) m' = (Err (Conflict msg), m').
Proof.
  intros Hs Hlast Hlt Hlsn Hterm Hmode.
  assert (Hl : Forall (λ x, (last_applied_source_lsn (status m) < source_lsn x)%N) (r :: l) ∧
     Forall (λ x, (current_term (status m) ≤ source_term x)%N) (r :: l)).
  { apply StronglySorted_inv in Hs as [_ Hr]. split; constructor; try done.
    all: eapply list.Forall_impl; [exact Hr|]; intros x []; lia. }
  destruct Hl as [Hl Ht]. destruct (foldl_follow_applied (r :: l) (status m)) as (_ & Ht' & Hm);
    [done..|]. rewrite Hlast in Ht'.
  exists (on_status (λ s, foldl follow s (r :: l)) m).
  unfold apply_follower_records, ensure_follower. split.
  - unfold mbind, sm_bind, sm_get, sm_lift. rewrite decide_True by done.
    rewrite apply_follower_loop_new by done. by rewrite Hlast.
  - unfold mbind, sm_bind, sm_get, sm_lift. cbn [on_status status].
    rewrite decide_True by (by rewrite Hm). cbn [apply_follower_loop].
    unfold apply_follower_record, mbind, sm_bind, sm_get. cbn [on_status status].
    apply N.ltb_lt in Hlt. rewrite Ht', Hlt. by eexists.
Qed.

Lemma follower_redelivery_across_terms_fails_witness :
  ∃ m', apply_follower_records (history demo_leader) demo_follower = (Ok (Some 2%N), m') ∧
    ∃ msg, apply_follower_records (history demo_leader) m' = (Err (Conflict msg), m').
Proof.
  apply (follower_redelivery_across_terms_fails
    (mkRepRecord "n1" 1 1 batch_default) [mkRepRecord "n1" 2 2 batch_default]
    (mkRepRecord "n1" 2 2 batch_default) demo_follower);
    [repeat constructor; by vm_compute|by vm_compute..].
Defined.
