(* ===== verification/Fs.v ===== *)
(** * The file system the storage crates write to

    [std::fs] over a finite store.  A path is its list of components, the last
    one first, so that [name :: dir] is [dir.join(name)].  Every call first takes
    the next entry of a fault plan: a fault is the message of the OS error with the
    number of bytes a failing write has already written, which also gives the torn
    writes a crash leaves.  An empty plan is a disk that works. *)
From S2P Require Import Prelude RustStd Common.

#[local] Open Scope string_scope.
#[local] Open Scope list_scope.

Abbreviation bytes := (list Byte.byte).
Abbreviation Path := (list string).

Record World := mkWorld {
  files : gmap Path bytes;
  dirs : gset Path;
  faults : list (option (string * nat));
  wal_failpoint : option (string * string);
  storage_failpoint : option (string * string);
}.

Definition set_files (f : gmap Path bytes) (w : World) : World :=
  mkWorld f (dirs w) (faults w) (wal_failpoint w) (storage_failpoint w).
Definition set_dirs (d : gset Path) (w : World) : World :=
  mkWorld (files w) d (faults w) (wal_failpoint w) (storage_failpoint w).

(** How a storage call can fail: an error value, or a panic of the thread. *)
Inductive Failure :=
| Error (e : Undr9Error)
| Panic (message : string).

(** Calls of [std::fs], whose errors are [std::io::Error] messages, and functions
    that run on the disk. *)
Abbreviation fsm := (sm World string).
Abbreviation io := (sm World Failure).

Definition io_fail {S A} (e : Undr9Error) : sm S Failure A := sm_fail (Error e).
Definition io_res {S A} (r : Res A) : sm S Failure A := sm_lift (map_err Error r).

(** [op.map_err(|error| e(error))?]. *)
Definition io_try {A} (e : string → Undr9Error) (m : fsm A) : io A := λ w,
  let '(r, w') := m w in (map_err (λ msg, Error (e msg)) r, w').

(** A call on the disk from a method that also has [&mut self]. *)
Definition on_world {X A} (m : io A) : sm (World * X) Failure A := λ '(w, x),
  let '(r, w') := m w in (r, (w', x)).

(** Run a method on a local value that is dropped afterwards. *)
Definition with_self {X A} (m : sm (World * X) Failure A) (x : X) : io A := λ w,
  let '(r, (w', _)) := m (w, x) in (r, w').

(** ** Paths *)

(** [PathBuf::from(text)]. *)
Definition path_of_string (s : string) : Path := rev (split_on "/"%char s).
Definition path_display (p : Path) : string := String.concat "/" (rev p).

(** Split a file name at its last dot. *)
Fixpoint rsplit_dot (s : string) : option (string * string) :=
  match s with
  | EmptyString => None
  | String c r =>
    match rsplit_dot r with
    | Some (a, b) => Some (String c a, b)
    | None => if decide (c = "."%char) then Some ("", r) else None
    end
  end.

Definition name_extension (name : string) : option string :=
  match rsplit_dot name with
  | Some (stem, ext) => if decide (stem = "") then None else Some ext
  | None => None
  end.
Definition name_stem (name : string) : string :=
  match rsplit_dot name with
  | Some (stem, ext) => if decide (stem = "") then name else stem
  | None => name
  end.
Definition with_extension (ext : string) (p : Path) : Path :=
  match p with [] => [] | name :: dir => (name_stem name +:+ "." +:+ ext) :: dir end.

(** [path.strip_prefix(root)], as text. *)
Fixpoint strip_prefix (root p : Path) : option (list string) :=
  if decide (p = root) then Some [] else
  match p with
  | [] => None
  | name :: dir => (λ l, l ++ [name]) <$> strip_prefix root dir
  end.

(** ** Errors that name what failed *)

(** [.map_err(|error| Error(format!("{what}: {error}")))]. *)
Definition decode_err {A} (what : string) (r : Result string A) : Res A :=
  map_err (λ e, Corruption (what +:+ ": " +:+ e)) r.
Definition encode_err {A} (what : string) (r : Result string A) : Res A :=
  map_err (λ e, Serialization (what +:+ ": " +:+ e)) r.
Definition io_err {A} (what : string) (m : fsm A) : io A :=
  io_try (λ e, Io (what +:+ ": " +:+ e)) m.
(** A file named in a message. *)
Definition quoted (what : string) (p : Path) : string := what +:+ " '" +:+ path_display p +:+ "'".

(** ** Calls *)

Definition next_fault : fsm (option (string * nat)) := λ w,
  (Ok (mjoin (head (faults w))),
   mkWorld (files w) (dirs w) (tail (faults w)) (wal_failpoint w) (storage_failpoint w)).

(** Run a call whose failure changes nothing. *)
Definition fs_call {A} (m : fsm A) : fsm A :=
  fault ← next_fault;
  match fault with Some (msg, _) => sm_fail msg | None => m end.

Definition not_found : string := "No such file or directory (os error 2)".
Definition is_a_directory : string := "Is a directory (os error 21)".
Definition not_a_directory : string := "Not a directory (os error 20)".
Definition dir_not_empty : string := "Directory not empty (os error 39)".

Definition is_dir (w : World) (p : Path) : bool := bool_decide (p = [] ∨ p ∈ dirs w).
Definition is_file (w : World) (p : Path) : bool := bool_decide (is_Some (files w !! p)).
Definition path_exists (w : World) (p : Path) : bool := is_dir w p || is_file w p.

Definition fs_read (p : Path) : fsm bytes := fs_call (
  w ← sm_get;
  match files w !! p with
  | Some bs => mret bs
  | None => sm_fail (if is_dir w p then is_a_directory else not_found)
  end).

(** [fs::read_to_string]. *)
Definition invalid_utf8 : string := "stream did not contain valid UTF-8".
Definition fs_read_to_string (p : Path) : fsm string :=
  bs ← fs_read p;
  if utf8_valid bs then mret (string_of_bytes bs) else sm_fail invalid_utf8.

(** [OpenOptions::new().create(true).append(true).open(path)]. *)
Definition fs_open_append (p : Path) : fsm unit := fs_call (
  w ← sm_get;
  match p with
  | [] => sm_fail is_a_directory
  | _ :: dir =>
      if is_dir w p then sm_fail is_a_directory
      else if negb (is_dir w dir) then sm_fail not_found
      else match files w !! p with
           | Some _ => mret tt
           | None => sm_modify (set_files (<[p := []]> (files w)))
           end
  end).

(** [file.write_all(bytes)] at the end of an open file; a failing write keeps the
    bytes it wrote before the error. *)
Definition fs_append (p : Path) (bs : bytes) : fsm unit :=
  fault ← next_fault;
  w ← sm_get;
  let old := default [] (files w !! p) in
  match fault with
  | Some (msg, k) => sm_modify (set_files (<[p := old ++ take k bs]> (files w))) ;; sm_fail msg
  | None => sm_modify (set_files (<[p := old ++ bs]> (files w)))
  end.

Definition fs_sync (p : Path) : fsm unit := fs_call (mret tt).

(** [fs::metadata(path).map(|metadata| metadata.len()).unwrap_or(0)]. *)
Definition fs_len_or_zero (p : Path) {E} : sm World E N := λ w,
  let '(r, w') := fs_read p w in
  (Ok (match r with Ok bs => N.of_nat (length bs) | Err _ => 0%N end), w').

Definition fs_remove_file (p : Path) : fsm unit := fs_call (
  w ← sm_get;
  match files w !! p with
  | Some _ => sm_modify (set_files (delete p (files w)))
  | None => sm_fail (if is_dir w p then is_a_directory else not_found)
  end).

(** The prefixes of a path, itself included, up to the root. *)
Fixpoint ancestors (p : Path) : list Path :=
  match p with [] => [] | _ :: dir => p :: ancestors dir end.

Definition fs_create_dir_all (p : Path) : fsm unit := fs_call (
  w ← sm_get;
  if existsb (is_file w) (ancestors p) then sm_fail not_a_directory
  else sm_modify (set_dirs (list_to_set (ancestors p) ∪ dirs w))).

Definition child_of (dir p : Path) : option string :=
  match p with name :: d => if decide (d = dir) then Some name else None | [] => None end.

(** [fs::read_dir]: the names in the directory, files and directories.  The OS
    gives them in any order; every caller sorts them or folds them into a map. *)
Definition entries_of (w : World) (dir : Path) : list string :=
  merge_sort String.le (elements (
    list_to_set (omap (child_of dir) (map_to_list (files w)).*1) ∪
    list_to_set (omap (child_of dir) (elements (dirs w))) : gset string)).

Definition fs_read_dir (dir : Path) : fsm (list string) := fs_call (
  w ← sm_get;
  if is_dir w dir then mret (entries_of w dir)
  else sm_fail (if is_file w dir then not_a_directory else not_found)).

(** [fs::write]: create or truncate, then write. *)
Definition fs_write (p : Path) (bs : bytes) : fsm unit :=
  fault ← next_fault;
  w ← sm_get;
  match p with
  | [] => sm_fail is_a_directory
  | _ :: dir =>
    if is_dir w p then sm_fail is_a_directory
    else if negb (is_dir w dir) then sm_fail not_found
    else match fault with
      | Some (msg, k) => sm_modify (set_files (<[p := take k bs]> (files w))) ;; sm_fail msg
      | None => sm_modify (set_files (<[p := bs]> (files w)))
      end
  end.

(** Whether [p] is [root] or below it, and the same place below another root. *)
Definition below (root p : Path) : bool := bool_decide (root `suffix_of` p).
Definition rebase (from to p : Path) : Path :=
  take (length p - length from) p ++ to.

Definition fs_remove_dir_all (root : Path) : fsm unit := fs_call (
  w ← sm_get;
  if is_dir w root then
    sm_modify (λ w, set_dirs (filter (λ p, below root p = false) (dirs w))
      (set_files (filter (λ '(p, _), below root p = false) (files w)) w))
  else sm_fail (if is_file w root then not_a_directory else not_found)).

(** [fs::rename] of a file over a file, or of a directory to a free name. *)
Definition fs_rename (from to : Path) : fsm unit := fs_call (
  w ← sm_get;
  match files w !! from with
  | Some bs =>
      if is_dir w to then sm_fail is_a_directory
      else if negb (is_dir w (tail to)) then sm_fail not_found
      else sm_modify (set_files (<[to := bs]> (delete from (files w))))
  | None =>
      if negb (is_dir w from) then sm_fail not_found
      else if path_exists w to then sm_fail dir_not_empty
      else
        let move p := if below from p then rebase from to p else p in
        sm_modify (λ w, set_dirs (set_map move (dirs w))
          (set_files (kmap move (files w)) w))
  end).

Definition fs_copy (from to : Path) : fsm unit :=
  bs ← fs_read from; fs_write to bs.

(** ** Runs without faults *)

Lemma next_fault_ok w : faults w = [] → next_fault w = (Ok None, w).
Proof. intros Hf. unfold next_fault. rewrite Hf. destruct w; simpl in *. by rewrite Hf. Qed.

Lemma fs_call_ok {A} (m : fsm A) w : faults w = [] → fs_call m w = m w.
Proof. intros Hf. unfold fs_call, mbind, sm_bind. by rewrite next_fault_ok. Qed.

Lemma fs_read_ok p w bs : faults w = [] → files w !! p = Some bs → fs_read p w = (Ok bs, w).
Proof. intros Hf Hp. unfold fs_read. rewrite fs_call_ok by done. unfold_sm. by rewrite Hp. Qed.

Lemma fs_append_ok p bs w old : faults w = [] → files w !! p = Some old →
  fs_append p bs w = (Ok tt, set_files (<[p := old ++ bs]> (files w)) w).
Proof.
  intros Hf Hp. unfold fs_append, mbind, sm_bind, sm_get, sm_modify. rewrite next_fault_ok by done.
  by rewrite Hp.
Qed.

Lemma fs_len_ok p w {E} : faults w = [] →
  fs_len_or_zero p (E := E) w =
    (Ok (match files w !! p with Some bs => N.of_nat (length bs) | None => 0%N end), w).
Proof.
  intros Hf. unfold fs_len_or_zero, fs_read. rewrite fs_call_ok by done. unfold_sm.
  by destruct (files w !! p).
Qed.

Lemma elem_of_entries w dir name :
  name ∈ entries_of w dir ↔ is_Some (files w !! (name :: dir)) ∨ (name :: dir) ∈ dirs w.
Proof.
  assert (Hc : ∀ p, child_of dir p = Some name ↔ p = name :: dir).
  { intros [|n d]; simpl; [done|]. case_decide; naive_solver. }
  unfold entries_of. rewrite merge_sort_Permutation, elem_of_elements, elem_of_union.
  rewrite !elem_of_list_to_set, !list_elem_of_omap. setoid_rewrite Hc. f_equiv.
  - rewrite <-elem_of_dom. split.
    + intros (p & Hin & ->). apply list_elem_of_fmap in Hin as ([q bs] & -> & Hq).
      apply elem_of_map_to_list in Hq. by apply elem_of_dom.
    + intros [bs Hbs]%elem_of_dom. exists (name :: dir). split; [|done].
      apply list_elem_of_fmap. exists (name :: dir, bs). by rewrite elem_of_map_to_list.
  - split; [by intros (p & Hp%elem_of_elements & ->)|].
    intros Hp. exists (name :: dir). by rewrite elem_of_elements.
Qed.

Lemma entries_sorted w dir : StronglySorted String.le (entries_of w dir).
Proof. apply StronglySorted_merge_sort; apply _. Qed.

Lemma entries_NoDup w dir : NoDup (entries_of w dir).
Proof. unfold entries_of. rewrite merge_sort_Permutation. apply NoDup_elements. Qed.

Lemma rsplit_dot_app s ext : rsplit_dot ext = None →
  rsplit_dot (s +:+ "." +:+ ext) = Some (s, ext).
Proof.
  intros He. induction s as [|c s IH]; simpl.
  - change ("" +:+ ext) with ext. by rewrite He.
  - simpl in IH. by rewrite IH.
Qed.

Lemma ancestors_length_le p q : q ∈ ancestors p → (length q ≤ length p)%nat.
Proof.
  induction p as [|x p IH]; simpl; [by intros ?%elem_of_nil|].
  intros [->|Hq]%elem_of_cons; [done|]. apply IH in Hq. lia.
Qed.

(** A path is not among the directories above its parent. *)
Lemma not_above name dir : (name :: dir) ∉ ancestors dir.
Proof. intros Hin%ancestors_length_le. simpl in Hin. lia. Qed.
Lemma no_files_above w dir p bs : p ∉ ancestors dir → existsb (is_file w) (ancestors dir) = false →
  existsb (is_file (set_files (<[p := bs]> (files w)) w)) (ancestors dir) = false.
Proof.
  intros Hp. rewrite <-!not_true_iff_false, !existsb_exists. intros Hno (q & Hq & Hf). apply Hno.
  exists q. split; [done|]. unfold is_file in *. apply bool_decide_eq_true in Hf. apply bool_decide_eq_true.
  cbn [set_files files] in Hf. rewrite lookup_insert_ne in Hf; [done|]. intros ->. by apply Hp, list_elem_of_In.
Qed.

(** Creating the directory of a file: the file is still no directory, its parent is one. *)
Lemma create_parent_ok w name dir : faults w = [] → existsb (is_file w) (ancestors dir) = false →
  (name :: dir) ∉ dirs w → ∃ d, fs_create_dir_all dir w = (Ok tt, set_dirs d w) ∧
    ((name :: dir) ∉ d) ∧ is_dir (set_dirs d w) dir = true ∧ is_dir (set_dirs d w) (name :: dir) = false.
Proof.
  intros Hf Hfree Hp. exists (list_to_set (ancestors dir) ∪ dirs w). split; [|].
  { unfold fs_create_dir_all. rewrite fs_call_ok by done. unfold sm_get, mbind, sm_bind, sm_modify. by rewrite Hfree. }
  assert (Hp' : (name :: dir) ∉ (list_to_set (ancestors dir) ∪ dirs w : gset Path)).
  { intros [Hin%elem_of_list_to_set|]%elem_of_union; [by apply not_above in Hin|done]. }
  split; [done|]. unfold is_dir. cbn [set_dirs dirs]. split.
  - apply bool_decide_eq_true. destruct dir; [by left|right]. apply elem_of_union_l, elem_of_list_to_set. left.
  - apply bool_decide_eq_false. by intros [|?].
Qed.

Lemma fs_write_ok name dir bs w : faults w = [] → (name :: dir) ∉ dirs w → is_dir w dir = true →
  fs_write (name :: dir) bs w = (Ok tt, set_files (<[name :: dir := bs]> (files w)) w).
Proof.
  intros Hf Hp Hdir. unfold fs_write, mbind, sm_bind, sm_get, sm_modify. rewrite next_fault_ok by done.
  unfold is_dir at 1. rewrite bool_decide_eq_false_2 by (by intros [|?]). by rewrite Hdir.
Qed.

(** Opening a file to append to it creates it when it is not there. *)
Lemma fs_open_append_ok name dir w : faults w = [] → (name :: dir) ∉ dirs w → is_dir w dir = true →
  fs_open_append (name :: dir) w =
    (Ok tt, set_files (<[name :: dir := default [] (files w !! (name :: dir))]> (files w)) w).
Proof.
  intros Hf Hp Hdir. unfold fs_open_append. rewrite fs_call_ok by done. unfold mbind, sm_bind, sm_get, sm_modify.
  unfold is_dir at 1. rewrite bool_decide_eq_false_2 by (by intros [|?]). rewrite Hdir. simpl.
  destruct (files w !! (name :: dir)) as [bs|] eqn:Hfile; simpl; [|done].
  rewrite insert_id by done. by destruct w.
Qed.
