(* ===== verification/Observability.v ===== *)
(** * [crates/observability]: the audit log and the exporter settings

    The audit log is a file of JSON lines: [append_audit_event] adds one, [prune_audit_log]
    rewrites the file with the latest ones, [export_audit_events] reads the latest ones back.
    serde_json is the parameter [AuditCodec].  The metrics are in Metrics.v; the tracing
    subscriber and the OTLP exporter are libraries the crate configures. *)
From S2P Require Import Prelude RustStd Common Core Config Fs.

#[local] Open Scope string_scope.
#[local] Open Scope list_scope.

Record AuditEvent := mkAudit {
  ae_timestamp_ms : N;
  ae_actor : string;
  ae_action : string;
  ae_resource : string;
  ae_outcome : string;
  ae_detail : string;
}.
#[global] Instance AuditEvent_eq_dec : EqDecision AuditEvent.
Proof. solve_decision. Defined.

Record StructuredLogEvent := mkLog {
  le_timestamp_ms : N;
  le_level : string;
  le_target : string;
  le_message : string;
  le_fields : gmap string string;
}.

(** [serde_json::to_string] and [from_str] on the two kinds of event. *)
Class AuditCodec := {
  json_encode_audit : AuditEvent → Result string string;
  json_decode_audit : string → Result string AuditEvent;
  json_encode_log : StructuredLogEvent → Result string string;
}.

(** ** Events *)

Definition AuditEvent_new (now_epoch_ms : N) (actor action resource outcome detail : string) : AuditEvent :=
  mkAudit now_epoch_ms actor action resource outcome detail.

Definition StructuredLogEvent_new (now_epoch_ms : N) (level target message : string) : StructuredLogEvent :=
  mkLog now_epoch_ms level target message ∅.
Definition with_field (key value : string) (e : StructuredLogEvent) : StructuredLogEvent :=
  mkLog (le_timestamp_ms e) (le_level e) (le_target e) (le_message e) (<[key := value]> (le_fields e)).

Section audit.
Context `{AuditCodec}.

(** [payload.push('\n')]. *)
Definition push_newline (payload : string) : string := payload +:+ String "010"%char "".

Definition audit_json_line (e : AuditEvent) : Res string :=
  payload ← encode_err "failed to serialize audit event" (json_encode_audit e);
  mret (push_newline payload).
Definition log_json_line (e : StructuredLogEvent) : Res string :=
  payload ← encode_err "failed to serialize structured log event" (json_encode_log e);
  mret (push_newline payload).

(** ** The log file *)

Definition append_audit_event (p : Path) (event : AuditEvent) : io unit :=
  match p with
  | [] => mret tt
  | _ :: parent => io_err (quoted "failed to create audit log parent directory" parent) (fs_create_dir_all parent)
  end ;;
  payload ← io_res (audit_json_line event);
  io_err (quoted "failed to open audit log" p) (fs_open_append p) ;;
  io_err "failed to append audit log" (fs_append p (bytes_of_string payload)).

(** The [match fs::read_to_string(path)] both readers start with: no file is no entries. *)
Definition read_audit_log (p : Path) : io (option string) := λ w,
  match fs_read_to_string p w with
  | (Ok payload, w') => (Ok (Some payload), w')
  | (Err error, w') =>
    if decide (error = not_found) then (Ok None, w')
    else (Err (Error (Io ((quoted "failed to read audit log" p) +:+ ": " +:+ error))), w')
  end.

(** [.rev().take(n)], and back. *)
Definition last_n {A} (n : nat) (l : list A) : list A := drop (length l - n) l.

Definition export_line (p : Path) (events : list AuditEvent) (line : string) : Res (list AuditEvent) :=
  if is_blank line then Ok events
  else
    event ← encode_err (quoted "failed to deserialize audit log entry from" p) (json_decode_audit line);
    mret (events ++ [event]).

Definition export_audit_events (p : Path) (limit : N) : io (list AuditEvent) :=
  payload ← read_audit_log p;
  match payload with
  | None => mret []
  | Some payload => io_res (result_foldl (export_line p) [] (last_n (N.to_nat limit) (lines_of payload)))
  end.

(** The lines [prune_audit_log] counts. *)
Definition audit_entries (payload : string) : list string :=
  filter (λ line, is_blank line = false) (lines_of payload).

(** [prune_audit_log] reads the whole log, and rewrites it when it holds too many entries;
    other threads may append in between. *)
Definition prune_plan (p : Path) (retain_entries : N) : io (option (list string * N)) :=
  payload ← read_audit_log p;
  mret (payload ≫= λ payload,
    let lines := audit_entries payload in
    let total := N.of_nat (length lines) in
    if (total <=? retain_entries)%N then None
    else Some (last_n (N.to_nat retain_entries) lines, (total - retain_entries)%N)).
Definition prune_rewrite (p : Path) (plan : option (list string * N)) : io N :=
  match plan with
  | None => mret 0%N
  | Some (kept, removed) =>
    io_err (quoted "failed to rewrite pruned audit log" p)
      (fs_write p (bytes_of_string (push_newline (String.concat (String "010"%char "") kept)))) ;;
    mret removed
  end.
Definition prune_audit_log (p : Path) (retain_entries : N) : io N :=
  plan ← prune_plan p retain_entries;
  prune_rewrite p plan.
End audit.

(** ** Exporter settings *)

Inductive OtlpProtocol := Grpc | HttpBinary.

Definition normalize_otlp_protocol (protocol : string) : Res OtlpProtocol :=
  let normalized := to_ascii_lowercase (trim protocol) in
  if decide (normalized ∈ [""; "grpc"]) then Ok Grpc
  else if decide (normalized ∈ ["http"; "http/protobuf"; "http_binary"; "http-binary"]) then Ok HttpBinary
  else Err (Validation ("unsupported OTLP protocol '" +:+ normalized +:+ "'")).

Definition parse_otlp_entry (parsed : gmap string string) (entry : string) : Res (gmap string string) :=
  let entry := trim entry in
  if String.eqb entry "" then Ok parsed
  else
    '(key, value) ← ok_or (split_once "="%char entry)
      (Validation ("invalid observability.otlp_headers entry '" +:+ entry +:+ "', expected key=value"));
    mret (<[trim key := trim value]> parsed).

Definition parse_otlp_headers (headers : string) : Res (gmap string string) :=
  if is_blank headers then Ok ∅ else result_foldl parse_otlp_entry ∅ (split_on ","%char headers).

(** ** What the log holds *)

Section laws.
Context `{AuditCodec}.

(** The JSON of an event is one line, which is parsed back. *)
Definition event_line (e : AuditEvent) (line : string) : Prop :=
  json_encode_audit e = Ok line ∧ json_decode_audit line = Ok e ∧ one_line line ∧ is_blank line = false.

(** The file at [name :: dir] is the lines of [events], or is yet to be created; the disk works. *)
Record log_holds (name : string) (dir : Path) (line : AuditEvent → string) (events : list AuditEvent) (w : World)
    : Prop := {
  lh_faults : faults w = [];
  lh_path : ((name :: dir) ∉ dirs w) ∧ existsb (is_file w) (ancestors dir) = false;
  lh_lines : Forall (λ e, event_line e (line e)) events;
  lh_file : files w !! (name :: dir) = Some (bytes_of_string (text_of (line <$> events))) ∧ is_dir w dir = true ∨
    files w !! (name :: dir) = None ∧ events = [];
}.

Lemma last_n_all {A} n (l : list A) : (length l <= n)%nat → last_n n l = l.
Proof. intros Hn. unfold last_n. replace (length l - n)%nat with 0%nat by lia. apply drop_0. Qed.
Lemma length_last_n {A} n (l : list A) : length (last_n n l) = Nat.min n (length l).
Proof. unfold last_n. rewrite length_drop. lia. Qed.
Lemma last_n_fmap {A B} (f : A → B) n l : last_n n (f <$> l) = f <$> last_n n l.
Proof. unfold last_n. by rewrite length_fmap, fmap_drop. Qed.
Lemma last_n_app {A} n (l k : list A) : last_n n (last_n n l ++ k) = last_n n (l ++ k).
Proof.
  unfold last_n. rewrite !length_app, length_drop. rewrite !drop_app, drop_drop. f_equal; [|f_equal; rewrite ?length_drop; lia].
  f_equal. lia.
Qed.

Context (name : string) (dir : Path) (line : AuditEvent → string).
Local Abbreviation p := (name :: dir).

Lemma one_lines events : Forall (λ e, event_line e (line e)) events → Forall one_line (line <$> events).
Proof. intros Hl. apply list.Forall_fmap. eapply list.Forall_impl; [exact Hl|]. by intros e (_ & _ & ? & _). Qed.

Lemma read_log events w : faults w = [] → Forall (λ e, event_line e (line e)) events →
  files w !! p = Some (bytes_of_string (text_of (line <$> events))) →
  read_audit_log p w = (Ok (Some (text_of (line <$> events))), w).
Proof.
  intros Hf Hl Hfile. unfold read_audit_log, fs_read_to_string, mbind, sm_bind.
  rewrite (fs_read_ok p w _ Hf Hfile), utf8_text_of by by apply one_lines.
  unfold mret, sm_ret. by rewrite string_of_bytes_of_string.
Qed.

Lemma entry_lines events : Forall (λ e, event_line e (line e)) events →
  lines_of (text_of (line <$> events)) = line <$> events ∧ audit_entries (text_of (line <$> events)) = line <$> events.
Proof.
  intros Hl. assert (Hlines : lines_of (text_of (line <$> events)) = line <$> events)
    by by apply lines_of_one_lines, one_lines.
  split; [done|]. unfold audit_entries. rewrite Hlines. apply filter_all.
  apply list.Forall_fmap. eapply list.Forall_impl; [exact Hl|]. by intros e (_ & _ & _ & ?).
Qed.

Lemma exported_lines l acc : Forall (λ e, event_line e (line e)) l →
  result_foldl (export_line p) acc (line <$> l) = Ok (acc ++ l).
Proof.
  intros Hl. revert acc. induction Hl as [|e l (_ & Hd & _ & Hb) _ IH]; intros acc; csimpl; [by rewrite app_nil_r|].
  unfold export_line at 2. rewrite Hb, Hd. cbn. rewrite IH. by rewrite <-app_assoc.
Qed.

(** An export returns the latest events, oldest first. *)
Lemma export_holds events w limit : log_holds name dir line events w →
  export_audit_events p limit w = (Ok (last_n (N.to_nat limit) events), w).
Proof.
  intros [Hf [Hp _] Hl [[Hfile _]|[Hfile ->]]]; unfold export_audit_events, mbind, sm_bind.
  - rewrite (read_log events w) by done. destruct (entry_lines events Hl) as [-> _].
    rewrite last_n_fmap, exported_lines; [done|]. by apply Forall_drop.
  - unfold read_audit_log, fs_read_to_string, mbind, sm_bind, fs_read. rewrite fs_call_ok by done.
    unfold mbind, sm_bind, sm_get. rewrite Hfile. unfold is_dir. rewrite bool_decide_eq_false_2 by naive_solver.
    done.
Qed.

Lemma audit_json_ok e : event_line e (line e) → audit_json_line e = Ok (text_of [line e]).
Proof. intros (He & _). unfold audit_json_line. by rewrite He. Qed.

Lemma append_holds events w e : log_holds name dir line events w → event_line e (line e) →
  ∃ w', append_audit_event p e w = (Ok tt, w') ∧ log_holds name dir line (events ++ [e]) w' ∧
    is_Some (files w' !! p).
Proof.
  intros [Hf [Hp Hfree] Hl Hfile] He. unfold append_audit_event, io_err, io_try, mbind, sm_bind.
  destruct (create_parent_ok w name dir Hf Hfree Hp) as (d & -> & Hpd & Hdir & _). cbn [map_err].
  unfold io_res, sm_lift. rewrite (audit_json_ok e He). cbn [map_err].
  rewrite fs_open_append_ok by done. cbn [map_err].
  rewrite (fs_append_ok p _ _ (default [] (files (set_dirs d w) !! p))); [|done|].
  2: { cbn [set_files files]. by rewrite lookup_insert_eq. }
  cbn [map_err]. eexists. split; [done|]. cbn [set_files set_dirs files]. rewrite insert_insert_eq, lookup_insert_eq.
  split; [|by eexists]. split; [done| | |].
  - split; [done|]. apply (no_files_above (set_dirs d w)); [apply not_above|]. exact Hfree.
  - apply list.Forall_app. split; [done|]. by apply list.Forall_singleton.
  - left. cbn [set_files set_dirs files]. rewrite lookup_insert_eq. split; [|exact Hdir]. f_equal. cbn [default].
    rewrite fmap_app, text_of_app, bytes_of_string_app. f_equal.
    by destruct Hfile as [[-> _]|[-> ->]].
Qed.

(** What the pruning step decides on a log. *)
Definition planned (retention : N) (events : list AuditEvent) : option (list string * N) :=
  if (N.of_nat (length events) <=? retention)%N then None
  else Some (line <$> last_n (N.to_nat retention) events, (N.of_nat (length events) - retention)%N).

Lemma plan_holds events w retention : log_holds name dir line events w →
  prune_plan p retention w = (Ok (planned retention events), w).
Proof.
  intros [Hf [Hp Hfree] Hl Hfile]. unfold prune_plan, mbind at 1, sm_bind at 1. destruct Hfile as [[Hfile Hdir]|[Hfile ->]].
  - rewrite (read_log events w) by done. unfold mret, sm_ret. cbn [mbind option_bind].
    destruct (entry_lines events Hl) as [_ ->]. by rewrite length_fmap, last_n_fmap.
  - unfold read_audit_log, fs_read_to_string, fs_read, mbind, sm_bind. rewrite fs_call_ok by done. unfold sm_get.
    rewrite Hfile. unfold is_dir. rewrite bool_decide_eq_false_2 by (by intros [|?]). by destruct retention.
Qed.

(** Carrying out a decision that was made on [events] leaves those, whatever was appended since. *)
Lemma rewrite_holds events now w retention : log_holds name dir line now w →
  Forall (λ e, event_line e (line e)) events → (0 < retention < N.of_nat (length events))%N → now ≠ [] →
  ∃ w', prune_rewrite p (planned retention events) w = (Ok (N.of_nat (length events) - retention)%N, w') ∧
    log_holds name dir line (last_n (N.to_nat retention) events) w'.
Proof.
  intros [Hf [Hp Hfree] _ Hfile] Hl Hr Hnow. destruct Hfile as [[_ Hdir]|[_ ?]]; [|done].
  assert (Hkept : Forall (λ e, event_line e (line e)) (last_n (N.to_nat retention) events)) by by apply Forall_drop.
  unfold planned. rewrite (proj2 (N.leb_gt _ _)) by lia. unfold prune_rewrite, push_newline. rewrite concat_lines.
  2: { intros Hnil%fmap_nil_inv. apply (f_equal length) in Hnil. rewrite length_last_n in Hnil. simpl in Hnil. lia. }
  unfold mbind, sm_bind, io_err, io_try. rewrite fs_write_ok by done. cbn [map_err].
  eexists. split; [done|]. split; [done| |done|].
  - split; [done|]. by apply no_files_above; [apply not_above|].
  - left. cbn [set_files files]. by rewrite lookup_insert_eq.
Qed.

Lemma prune_holds events w retention : log_holds name dir line events w → (0 < retention)%N →
  ∃ w', prune_audit_log p retention w = (Ok (N.of_nat (length events) - retention)%N, w') ∧
    log_holds name dir line (last_n (N.to_nat retention) events) w'.
Proof.
  intros Hh Hr. unfold prune_audit_log, mbind, sm_bind. rewrite (plan_holds events) by done.
  destruct (N.leb_spec (N.of_nat (length events)) retention) as [Hle|Hgt].
  - exists w. unfold planned. rewrite (proj2 (N.leb_le _ _)) by done. rewrite last_n_all by lia.
    split; [|done]. unfold prune_rewrite, mret, sm_ret. repeat f_equal. lia.
  - apply (rewrite_holds events events); [done|apply Hh|lia|]. intros ->. simpl in Hgt. lia.
Qed.

(** One event recorded the way the service does it. *)
Definition record_event (retention : N) (e : AuditEvent) : io unit :=
  append_audit_event p e ;; prune_audit_log p retention ;; mret tt.

Lemma record_holds events w retention e : log_holds name dir line events w → event_line e (line e) →
  (0 < retention)%N → ∃ w', record_event retention e w = (Ok tt, w') ∧
    log_holds name dir line (last_n (N.to_nat retention) (events ++ [e])) w'.
Proof.
  intros Hh He Hr. unfold record_event, mbind, sm_bind.
  destruct (append_holds events w e Hh He) as (w1 & -> & Hh1 & _).
  by destruct (prune_holds _ w1 retention Hh1 Hr) as (w2 & -> & Hh2); eexists.
Qed.

(** C20: The audit log keeps the latest events: after any run of recorded events the file holds
    the last [retention] of them and of those before, and an export returns the last [limit]
    of these, oldest first, each as it was recorded. *)
Theorem audit_log_keeps_latest events w retention limit l : log_holds name dir line events w →
  Forall (λ e, event_line e (line e)) l → (0 < retention)%N →
  ∃ w', sm_for l (record_event retention) w = (Ok tt, w') ∧
    let kept := if is_nil l then events else last_n (N.to_nat retention) (events ++ l) in
    log_holds name dir line kept w' ∧ export_audit_events p limit w' = (Ok (last_n (N.to_nat limit) kept), w').
Proof.
  intros Hh Hl Hr. revert events w Hh. induction Hl as [|e l He Hl IH]; intros events w Hh.
  - exists w. split; [done|]. split; [done|]. by apply export_holds.
  - cbn [sm_for]. unfold mbind, sm_bind. destruct (record_holds events w retention e Hh He Hr) as (w1 & -> & Hh1).
    destruct (IH _ _ Hh1) as (w2 & Hrun & Hh2 & _). exists w2. split; [exact Hrun|].
    assert (Hlog : log_holds name dir line (last_n (N.to_nat retention) (events ++ e :: l)) w2).
    { destruct l as [|e' l]; [exact Hh2|]. cbn [is_nil] in Hh2. by rewrite last_n_app, <-app_assoc in Hh2. }
    split; [exact Hlog|]. by apply export_holds.
Qed.

(** Two requests record an event each; the second appends after the first has read the log
    and before the first rewrites it. *)
Definition record_interleaved (retention : N) (first second : AuditEvent) : io unit :=
  append_audit_event p first ;;
  plan ← prune_plan p retention;
  append_audit_event p second ;;
  prune_rewrite p plan ;;
  prune_audit_log p retention ;; mret tt.

(** Recording is not safe between threads: on a full log, when one request appends
    its event while another is between reading and rewriting the log, both are told that their
    event was recorded and the appended event is lost. *)
Theorem concurrent_prune_loses_event events w retention first second : log_holds name dir line events w →
  event_line first (line first) → event_line second (line second) → (0 < retention <= N.of_nat (length events))%N →
  ∃ w', record_interleaved retention first second w = (Ok tt, w') ∧
    log_holds name dir line (last_n (N.to_nat retention) (events ++ [first])) w'.
Proof.
  intros Hh H1 H2 Hr. unfold record_interleaved. unfold mbind at 1, sm_bind at 1.
  destruct (append_holds events w first Hh H1) as (w1 & -> & Hh1 & _).
  unfold mbind at 1, sm_bind at 1. rewrite (plan_holds (events ++ [first])) by done.
  unfold mbind at 1, sm_bind at 1. destruct (append_holds _ w1 second Hh1 H2) as (w2 & -> & Hh2 & _).
  unfold mbind at 1, sm_bind at 1.
  destruct (rewrite_holds (events ++ [first]) _ w2 retention Hh2 (lh_lines _ _ _ _ _ Hh1)) as (w3 & -> & Hh3).
  { rewrite length_app. simpl. lia. }
  { by destruct events. }
  unfold mbind at 1, sm_bind at 1. destruct (prune_holds _ w3 retention Hh3 ltac:(lia)) as (w4 & -> & Hh4).
  exists w4. split; [done|]. by rewrite last_n_all in Hh4 by (rewrite length_last_n; lia).
Qed.
End laws.

(** ** Concrete inputs *)

Module Demo.
(** An encoding that is exact on the events below. *)
Definition codec : AuditCodec := {|
  json_encode_audit e := Ok (ae_action e);
  json_decode_audit line := Ok (mkAudit 0 "admin" line "storage" "success" "");
  json_encode_log _ := Ok "{}";
|}.
#[global] Existing Instance codec.

Definition event (action : string) : AuditEvent := mkAudit 0 "admin" action "storage" "success" "".
Definition dir : Path := ["meta"; "db"].
Definition disk : World := mkWorld ∅ ∅ [] None None.

Lemma log_empty : log_holds "audit.log" dir ae_action [] disk.
Proof. split; [done| |constructor|]; [|by right]. split; [|done]. apply not_elem_of_empty. Qed.
Lemma event_ok action : bool_decide (strip_cr action = action) && str_all not_newline action &&
  utf8_valid (bytes_of_string action) && negb (is_blank action) = true → event_line (event action) action.
Proof.
  rewrite !andb_true_iff, bool_decide_eq_true, negb_true_iff. intros [[[Hs Hn] Hu] Hb]. by repeat split.
Qed.
Definition events : list AuditEvent := [event "a"; event "b"; event "c"].
Lemma events_ok : Forall (λ e, event_line e (ae_action e)) events.
Proof. repeat constructor; apply event_ok; vm_compute; reflexivity. Qed.
End Demo.

Lemma audit_log_keeps_latest_witness : ∃ w',
  sm_for Demo.events (record_event "audit.log" Demo.dir 2) Demo.disk = (Ok tt, w') ∧
  export_audit_events ("audit.log" :: Demo.dir) 5 w' = (Ok [Demo.event "b"; Demo.event "c"], w').
Proof.
  destruct (audit_log_keeps_latest "audit.log" Demo.dir ae_action [] Demo.disk 2 5 Demo.events Demo.log_empty
    Demo.events_ok eq_refl) as (w' & Hrun & _ & Hexport).
  exists w'. split; [exact Hrun|exact Hexport].
Defined.

Lemma concurrent_prune_loses_event_witness : ∃ w0 w',
  log_holds "audit.log" Demo.dir ae_action [Demo.event "a"; Demo.event "b"] w0 ∧
  record_interleaved "audit.log" Demo.dir 2 (Demo.event "c") (Demo.event "d") w0 = (Ok tt, w') ∧
  log_holds "audit.log" Demo.dir ae_action [Demo.event "b"; Demo.event "c"] w'.
Proof.
  destruct (record_holds "audit.log" Demo.dir ae_action [] Demo.disk 2 (Demo.event "a") Demo.log_empty) as (w1 & _ & H1);
    [apply Demo.event_ok; vm_compute; reflexivity|reflexivity|].
  destruct (record_holds "audit.log" Demo.dir ae_action _ w1 2 (Demo.event "b") H1) as (w2 & _ & H2);
    [apply Demo.event_ok; vm_compute; reflexivity|reflexivity|].
  destruct (concurrent_prune_loses_event "audit.log" Demo.dir ae_action _ w2 2 (Demo.event "c") (Demo.event "d") H2)
    as (w3 & Hrun & H3); [apply Demo.event_ok; vm_compute; reflexivity..|split; [reflexivity|discriminate]|].
  exists w2, w3. split; [exact H2|]. split; [exact Hrun|exact H3].
Defined.
