(* ===== verification/Metrics.v ===== *)
(** * Metrics: the counters of [crates/api], rendered by [crates/observability]

    The service counts in atomics ([Atomic*] of crates/api/src/lib.rs), takes a snapshot of
    them when /metrics is read, and renders it in the Prometheus text format
    ([render_prometheus] of crates/observability/src/lib.rs).  A relaxed atomic counter is a
    [u64] whose [fetch_add] wraps. *)
From S2P Require Import Prelude RustStd.

#[local] Open Scope string_scope.
#[local] Open Scope list_scope.

#[global] Instance ordkey_N : OrdKey N.
Proof. refine {| ord_le := N.le |}; apply _. Defined.
#[global] Instance ordkey_string_N : OrdKey (string * N) := ordkey_prod.

(** ** Latency histograms *)

Record LatencyHistogramSnapshot := mkHistogram {
  observations_total : N;
  sum_ms : N;
  le_10ms_total : N;
  le_50ms_total : N;
  le_250ms_total : N;
  le_1000ms_total : N;
  gt_1000ms_total : N;
}.

Record AtomicLatencyHistogram := mkAtomicHistogram {
  a_observations_total : N;
  a_sum_ms : N;
  a_le_10ms_total : N;
  a_le_50ms_total : N;
  a_le_250ms_total : N;
  a_le_1000ms_total : N;
  a_gt_1000ms_total : N;
}.
Definition AtomicLatencyHistogram_default : AtomicLatencyHistogram := mkAtomicHistogram 0 0 0 0 0 0 0.

(** [fetch_add(1)]. *)
Definition fetch_incr (n : N) : N := u64_add n 1.

Definition record_latency (elapsed_ms : N) (h : AtomicLatencyHistogram) : AtomicLatencyHistogram :=
  let n := fetch_incr (a_observations_total h) in
  let s := u64_add (a_sum_ms h) elapsed_ms in
  let '(a, b, c, d, e) := (a_le_10ms_total h, a_le_50ms_total h, a_le_250ms_total h, a_le_1000ms_total h,
    a_gt_1000ms_total h) in
  if (elapsed_ms <=? 10)%N then mkAtomicHistogram n s (fetch_incr a) b c d e
  else if (elapsed_ms <=? 50)%N then mkAtomicHistogram n s a (fetch_incr b) c d e
  else if (elapsed_ms <=? 250)%N then mkAtomicHistogram n s a b (fetch_incr c) d e
  else if (elapsed_ms <=? 1000)%N then mkAtomicHistogram n s a b c (fetch_incr d) e
  else mkAtomicHistogram n s a b c d (fetch_incr e).

Definition histogram_snapshot (h : AtomicLatencyHistogram) : LatencyHistogramSnapshot :=
  mkHistogram (a_observations_total h) (a_sum_ms h) (a_le_10ms_total h) (a_le_50ms_total h) (a_le_250ms_total h)
    (a_le_1000ms_total h) (a_gt_1000ms_total h).

Definition histogram_with_single_gauge (value_ms : N) : LatencyHistogramSnapshot :=
  histogram_snapshot (record_latency value_ms AtomicLatencyHistogram_default).

(** ** Errors by code and status *)

Record ErrorCounterSnapshot := mkErrorCounter { ec_code : string; ec_status : N; ec_count : N }.

Definition bar : ascii := "|".
Definition error_key (code : string) (status : N) : string := code +:+ String bar (pretty status).

(** [counters.entry(key).or_default().fetch_add(1)]. *)
Definition count_key (key : string) (counters : gmap string N) : gmap string N :=
  <[key := fetch_incr (default 0%N (counters !! key))]> counters.

Definition u16_max : N := 65535.
Definition error_snapshot '((key, count) : string * N) : option ErrorCounterSnapshot :=
  '(code, status) ← split_once bar key;
  status ← parse_unsigned u16_max status;
  Some (mkErrorCounter code status count).
Definition error_le (a b : ErrorCounterSnapshot) : Prop :=
  ord_le (ec_code a, ec_status a) (ec_code b, ec_status b).
#[global] Instance error_le_dec : RelDecision error_le.
Proof. intros a b. unfold error_le. apply _. Defined.
(** A [DashMap] is read in any order, and the entries are sorted. *)
Definition snapshot_error_counters (counters : gmap string N) : list ErrorCounterSnapshot :=
  merge_sort error_le (omap error_snapshot (map_to_list counters)).

(** ** Counters of the service *)

Record AtomicServiceCounters := mkCounters {
  query_requests_total : N;
  write_requests_total : N;
  maintenance_operations_total : N;
  audit_events_total : N;
  query_latency : AtomicLatencyHistogram;
  transaction_latency : AtomicLatencyHistogram;
  traversal_latency : AtomicLatencyHistogram;
  vector_search_latency : AtomicLatencyHistogram;
  ranked_retrieval_latency : AtomicLatencyHistogram;
  compaction_latency : AtomicLatencyHistogram;
  retrieval_score_bucket_low_total : N;
  retrieval_score_bucket_medium_total : N;
  retrieval_score_bucket_high_total : N;
  retrieval_score_bucket_top_total : N;
  error_counters : gmap string N;
}.
Definition AtomicServiceCounters_default : AtomicServiceCounters :=
  let h := AtomicLatencyHistogram_default in mkCounters 0 0 0 0 h h h h h h 0 0 0 0 ∅.

Record ServiceCounters := mkServiceCounters {
  sc_query_requests_total : N;
  sc_write_requests_total : N;
  sc_maintenance_operations_total : N;
  sc_audit_events_total : N;
  sc_query_latency : LatencyHistogramSnapshot;
  sc_transaction_latency : LatencyHistogramSnapshot;
  sc_traversal_latency : LatencyHistogramSnapshot;
  sc_vector_search_latency : LatencyHistogramSnapshot;
  sc_ranked_retrieval_latency : LatencyHistogramSnapshot;
  sc_compaction_latency : LatencyHistogramSnapshot;
  sc_recovery_duration : LatencyHistogramSnapshot;
  sc_wal_lag_records : N;
  sc_wal_replay_latency_ms : N;
  sc_memory_pressure_bytes : N;
  sc_cache_pressure_bytes : N;
  sc_score_low_total : N;
  sc_score_medium_total : N;
  sc_score_high_total : N;
  sc_score_top_total : N;
  sc_error_counters : list ErrorCounterSnapshot;
}.

Definition counters_snapshot (wal_replay_latency_ms : N) (c : AtomicServiceCounters) : ServiceCounters :=
  mkServiceCounters (query_requests_total c) (write_requests_total c) (maintenance_operations_total c)
    (audit_events_total c) (histogram_snapshot (query_latency c)) (histogram_snapshot (transaction_latency c))
    (histogram_snapshot (traversal_latency c)) (histogram_snapshot (vector_search_latency c))
    (histogram_snapshot (ranked_retrieval_latency c)) (histogram_snapshot (compaction_latency c))
    (histogram_with_single_gauge wal_replay_latency_ms) 0 wal_replay_latency_ms 0 0
    (retrieval_score_bucket_low_total c) (retrieval_score_bucket_medium_total c)
    (retrieval_score_bucket_high_total c) (retrieval_score_bucket_top_total c)
    (snapshot_error_counters (error_counters c)).

(** ** Endpoints *)

Record AtomicEndpointMetrics := mkEndpoint {
  requests_total : N;
  responses_2xx_total : N;
  responses_4xx_total : N;
  responses_5xx_total : N;
  latency_ms_total : N;
  latency_le_10ms_total : N;
  latency_le_50ms_total : N;
  latency_le_250ms_total : N;
  latency_gt_250ms_total : N;
}.
Definition AtomicEndpointMetrics_default : AtomicEndpointMetrics := mkEndpoint 0 0 0 0 0 0 0 0 0.

Definition in_class (status class : N) : bool := (class * 100 <=? status)%N && (status <=? class * 100 + 99)%N.

Definition record_endpoint (status elapsed_ms : N) (m : AtomicEndpointMetrics) : AtomicEndpointMetrics :=
  let count (b : bool) (n : N) := if b then fetch_incr n else n in
  let le10 := (elapsed_ms <=? 10)%N in
  let le50 := negb le10 && (elapsed_ms <=? 50)%N in
  let le250 := negb le10 && negb le50 && (elapsed_ms <=? 250)%N in
  mkEndpoint (fetch_incr (requests_total m))
    (count (in_class status 2) (responses_2xx_total m))
    (count (in_class status 4) (responses_4xx_total m))
    (count (in_class status 5) (responses_5xx_total m))
    (u64_add (latency_ms_total m) elapsed_ms)
    (count le10 (latency_le_10ms_total m)) (count le50 (latency_le_50ms_total m))
    (count le250 (latency_le_250ms_total m))
    (count (negb le10 && negb le50 && negb le250) (latency_gt_250ms_total m)).

Definition space : ascii := " ".
Definition endpoint_key (method route : string) : string := method +:+ String space route.

Definition record_endpoint_metrics (method route : string) (status elapsed_ms : N)
    (endpoints : gmap string AtomicEndpointMetrics) : gmap string AtomicEndpointMetrics :=
  let key := endpoint_key method route in
  <[key := record_endpoint status elapsed_ms (default AtomicEndpointMetrics_default (endpoints !! key))]> endpoints.

Record EndpointMetricsSnapshot := mkEndpointSnapshot {
  em_method : string;
  em_route : string;
  em_metrics : AtomicEndpointMetrics;
}.
Definition endpoint_snapshot '((key, m) : string * AtomicEndpointMetrics) : option EndpointMetricsSnapshot :=
  '(method, route) ← split_once space key;
  Some (mkEndpointSnapshot method route m).
Definition endpoint_le (a b : EndpointMetricsSnapshot) : Prop :=
  ord_le (em_route a, em_method a) (em_route b, em_method b).
#[global] Instance endpoint_le_dec : RelDecision endpoint_le.
Proof. intros a b. unfold endpoint_le. apply _. Defined.
Definition snapshot_endpoint_metrics (endpoints : gmap string AtomicEndpointMetrics) : list EndpointMetricsSnapshot :=
  merge_sort endpoint_le (omap endpoint_snapshot (map_to_list endpoints)).

(** ** The Prometheus text format *)

Record MetricsSnapshot := mkMetrics {
  service_name : string;
  ms_ready : bool;
  ms_node_count : N;
  ms_edge_count : N;
  active_transactions : N;
  ms_current_revision : N;
  ms_latest_applied_lsn : N;
  ms_checkpoint_dirty : bool;
  pending_checkpoint_entries : N;
  ms_endpoint_metrics : list EndpointMetricsSnapshot;
  ms_counters : ServiceCounters;
}.

Definition quote : string := String "034" "".
Definition nl : string := String "010" "".
Definition text (parts : list string) : string := String.concat "" parts.

Definition label '((key, value) : string * string) : string := text [key; "="; quote; value; quote].
Definition render_labels (service : string) (extra_labels : list (string * string)) : string :=
  String.concat "," (label <$> ("service", service) :: extra_labels).

(** [{name}{{{labels}}} {value}\n]. *)
Definition sample (name labels : string) (value : N) : string :=
  text [name; "{"; labels; "} "; pretty value; nl].
Definition preamble (name help kind : string) : string :=
  text ["# HELP "; name; " "; help; nl; "# TYPE "; name; " "; kind; nl].

(** The counts of the buckets are cumulative in the text. *)
Definition cumulative (h : LatencyHistogramSnapshot) : N * N * N * N :=
  let le_10 := le_10ms_total h in
  let le_50 := u64_add le_10 (le_50ms_total h) in
  let le_250 := u64_add le_50 (le_250ms_total h) in
  (le_10, le_50, le_250, u64_add le_250 (le_1000ms_total h)).

Definition render_histogram (service metric_name help : string) (h : LatencyHistogramSnapshot)
    (extra_labels : list (string * string)) : string :=
  let '(le_10, le_50, le_250, le_1000) := cumulative h in
  let count := observations_total h in
  let labels := render_labels service extra_labels in
  let bucket le := text [labels; ","; label ("le", le)] in
  let name := metric_name +:+ "_bucket" in
  text [preamble metric_name help "histogram";
    sample name (bucket "10") le_10; sample name (bucket "50") le_50; sample name (bucket "250") le_250;
    sample name (bucket "1000") le_1000; sample name (bucket "+Inf") count;
    sample (metric_name +:+ "_sum") labels (sum_ms h); sample (metric_name +:+ "_count") labels count].

Definition render_endpoint (service : string) (e : EndpointMetricsSnapshot) : string :=
  let m := em_metrics e in
  let count := requests_total m in
  let le_10 := latency_le_10ms_total m in
  let le_50 := u64_add le_10 (latency_le_50ms_total m) in
  let le_250 := u64_add le_50 (latency_le_250ms_total m) in
  let base := [("service", service); ("method", em_method e); ("route", em_route e)] in
  let labels extra := String.concat "," (label <$> base ++ extra) in
  let requests class := sample "undr9_http_requests_total" (labels [("status_class", class)]) in
  let bucket le := sample "undr9_http_request_duration_ms_bucket" (labels [("le", le)]) in
  text [requests "2xx" (responses_2xx_total m); requests "4xx" (responses_4xx_total m);
    requests "5xx" (responses_5xx_total m);
    bucket "10" le_10; bucket "50" le_50; bucket "250" le_250; bucket "+Inf" count;
    sample "undr9_http_request_duration_ms_sum" (labels []) (latency_ms_total m);
    sample "undr9_http_request_duration_ms_count" (labels []) count].

Definition render_error (service : string) (c : ErrorCounterSnapshot) : string :=
  sample "undr9_errors_total"
    (String.concat "," (label <$> [("service", service); ("code", ec_code c); ("status", pretty (ec_status c))]))
    (ec_count c).

Definition bool_value (b : bool) : N := if b then 1 else 0.

Definition render_prometheus (m : MetricsSnapshot) : string :=
  let service := service_name m in
  let c := ms_counters m in
  let labels := render_labels service [] in
  let metric kind name help value := preamble name help kind +:+ sample name labels value in
  let score bucket := sample "undr9_retrieval_score_distribution"
    (String.concat "," (label <$> [("service", service); ("bucket", bucket)])) in
  let histogram name help h subsystem := render_histogram service name help h [("subsystem", subsystem)] in
  text [
    metric "gauge" "undr9_service_ready" "Whether the UNDR9 service is ready." (bool_value (ms_ready m));
    metric "gauge" "undr9_nodes_total" "Number of nodes currently loaded." (ms_node_count m);
    metric "gauge" "undr9_edges_total" "Number of edges currently loaded." (ms_edge_count m);
    metric "gauge" "undr9_active_transactions" "Number of active transactions." (active_transactions m);
    metric "gauge" "undr9_current_revision" "Current committed revision." (ms_current_revision m);
    metric "gauge" "undr9_latest_applied_lsn" "Latest applied WAL sequence number." (ms_latest_applied_lsn m);
    metric "gauge" "undr9_checkpoint_dirty" "Whether checkpoint publication is pending."
      (bool_value (ms_checkpoint_dirty m));
    metric "gauge" "undr9_pending_checkpoint_entries" "Number of unpublished checkpoint entries."
      (pending_checkpoint_entries m);
    metric "counter" "undr9_query_requests_total" "Total query requests handled." (sc_query_requests_total c);
    metric "counter" "undr9_write_requests_total" "Total write requests handled." (sc_write_requests_total c);
    metric "counter" "undr9_maintenance_operations_total" "Total maintenance operations handled."
      (sc_maintenance_operations_total c);
    metric "counter" "undr9_audit_events_total" "Total audit events written." (sc_audit_events_total c);
    metric "gauge" "undr9_wal_lag_records" "WAL records pending durable checkpoint publication."
      (sc_wal_lag_records c);
    metric "gauge" "undr9_wal_replay_latency_ms" "Last WAL replay latency in milliseconds."
      (sc_wal_replay_latency_ms c);
    metric "gauge" "undr9_memory_pressure_bytes" "Estimated in-process memory pressure in bytes."
      (sc_memory_pressure_bytes c);
    metric "gauge" "undr9_cache_pressure_bytes" "Estimated cached graph snapshot pressure in bytes."
      (sc_cache_pressure_bytes c);
    preamble "undr9_retrieval_score_distribution" "Retrieval score distribution buckets." "counter";
    score "0.00-0.25" (sc_score_low_total c); score "0.25-0.50" (sc_score_medium_total c);
    score "0.50-0.75" (sc_score_high_total c); score "0.75-1.00" (sc_score_top_total c);
    histogram "undr9_query_latency_ms" "End-to-end query latency in milliseconds." (sc_query_latency c) "query";
    histogram "undr9_transaction_latency_ms" "Transaction lifecycle latency in milliseconds."
      (sc_transaction_latency c) "transaction";
    histogram "undr9_traversal_latency_ms" "Traversal query latency in milliseconds." (sc_traversal_latency c)
      "query";
    histogram "undr9_vector_search_latency_ms" "Vector search latency in milliseconds."
      (sc_vector_search_latency c) "query";
    histogram "undr9_ranked_retrieval_latency_ms" "Ranked retrieval latency in milliseconds."
      (sc_ranked_retrieval_latency c) "query";
    histogram "undr9_compaction_latency_ms" "Compaction latency in milliseconds." (sc_compaction_latency c)
      "maintenance";
    histogram "undr9_recovery_duration_ms" "Recovery duration in milliseconds." (sc_recovery_duration c)
      "recovery";
    (match ms_endpoint_metrics m with
     | [] => ""
     | endpoints =>
       text (preamble "undr9_http_requests_total" "Total HTTP requests by route, method, and status class." "counter"
         :: preamble "undr9_http_request_duration_ms" "Request latency histogram by route and method." "histogram"
         :: (render_endpoint service <$> endpoints))
     end);
    (match sc_error_counters c with
     | [] => ""
     | errors =>
       text (preamble "undr9_errors_total" "Total API errors by stable error code and HTTP status." "counter"
         :: (render_error service <$> errors))
     end)].

(** ** Histograms count what was recorded *)

Definition recorded (latencies : list N) : AtomicLatencyHistogram :=
  foldl (λ h elapsed_ms, record_latency elapsed_ms h) AtomicLatencyHistogram_default latencies.
(** The latencies up to a bound. *)
Definition at_most (bound : N) (l : list N) : N := N.of_nat (length (filter (λ x, (x <= bound)%N) l)).
Definition sum_of (l : list N) : N := foldr N.add 0%N l.

(** The histogram [h] is that of [l]. *)
Record counts (l : list N) (h : AtomicLatencyHistogram) : Prop := {
  ct_observations : a_observations_total h = N.of_nat (length l);
  ct_sum : a_sum_ms h = sum_of l;
  ct_10 : a_le_10ms_total h = at_most 10 l;
  ct_50 : (a_le_10ms_total h + a_le_50ms_total h = at_most 50 l)%N;
  ct_250 : (a_le_10ms_total h + a_le_50ms_total h + a_le_250ms_total h = at_most 250 l)%N;
  ct_1000 : (a_le_10ms_total h + a_le_50ms_total h + a_le_250ms_total h + a_le_1000ms_total h = at_most 1000 l)%N;
  ct_rest : (a_le_10ms_total h + a_le_50ms_total h + a_le_250ms_total h + a_le_1000ms_total h
    + a_gt_1000ms_total h = N.of_nat (length l))%N;
}.

Lemma at_most_snoc bound l x : at_most bound (l ++ [x]) = (at_most bound l + if (x <=? bound)%N then 1 else 0)%N.
Proof.
  unfold at_most. rewrite list.filter_app, length_app, filter_cons, filter_nil.
  destruct (N.leb_spec x bound); case_decide; simpl; lia.
Qed.
Lemma total_snoc l x : sum_of (l ++ [x]) = (sum_of l + x)%N.
Proof. induction l as [|y l IH]; simpl; lia. Qed.
Lemma at_most_le bound l : (at_most bound l <= N.of_nat (length l))%N.
Proof. unfold at_most. pose proof (length_filter (λ x, (x <= bound)%N) l). lia. Qed.

Lemma recorded_counts l : (N.of_nat (length l) < u64_modulus)%N → (sum_of l < u64_modulus)%N → counts l (recorded l).
Proof.
  induction l as [|x l IH] using rev_ind; intros Hlen Hsum; [by split|].
  rewrite length_app in Hlen. rewrite total_snoc in Hsum. simpl in Hlen.
  destruct IH as [Ho Hs H10 H50 H250 H1000 Hr]; [lia|lia|].
  unfold recorded in *. rewrite foldl_app. cbn [foldl]. set (h := foldl _ _ l) in *. unfold record_latency, fetch_incr.
  cbn zeta iota beta.
  assert (Hbounds : (at_most 10 l <= N.of_nat (length l) ∧ a_sum_ms h <= sum_of l)%N).
  { split; [apply at_most_le|lia]. }
  destruct (N.leb_spec x 10); [|destruct (N.leb_spec x 50); [|destruct (N.leb_spec x 250); [|destruct (N.leb_spec x 1000)]]];
  (split; cbn [a_observations_total a_sum_ms a_le_10ms_total a_le_50ms_total a_le_250ms_total a_le_1000ms_total
    a_gt_1000ms_total]; rewrite ?at_most_snoc, ?total_snoc, ?length_app; cbn [length];
    rewrite ?u64_add_small by lia;
    repeat match goal with |- context [(x <=? ?b)%N] => destruct (N.leb_spec x b) end; lia).
Qed.



(** ** Errors are counted by code and status *)

Lemma parse_pretty_go max x s : (x <= max)%N → parse_digits max 0 (pretty_N_go x s) = parse_digits max x s.
Proof.
  revert s. induction (N.lt_wf_0 x) as [x _ IH]. intros s Hx.
  destruct (decide (x = 0)%N) as [->|Hne]; [done|].
  assert (Hdiv : (x / 10 < x)%N) by (apply N.div_lt; lia).
  rewrite pretty_N_go_step, IH by lia.
  assert (Hmod : (x mod 10 < 10)%N) by (apply N.mod_lt; lia). pose proof (N.div_mod x 10 ltac:(lia)) as Hdm.
  assert (Hchar : is_ascii_digit (pretty_N_char (x mod 10)) = true ∧
    (N_of_ascii (pretty_N_char (x mod 10)) - 48 = x mod 10)%N).
  { revert Hmod. generalize (x mod 10)%N as r. intros r Hr.
    assert (Hcases : (r = 0 ∨ r = 1 ∨ r = 2 ∨ r = 3 ∨ r = 4 ∨ r = 5 ∨ r = 6 ∨ r = 7 ∨ r = 8 ∨ r = 9)%N) by lia.
    destruct_or! Hcases; subst; done. }
  destruct Hchar as [Hd Hv]. cbn [parse_digits]. rewrite Hd, Hv.
  replace (x / 10 * 10 + x mod 10)%N with x by lia.
  cbn zeta. by rewrite (proj2 (N.leb_le x max)).
Qed.

Lemma parse_pretty max x : (x <= max)%N → parse_unsigned max (pretty x) = Some x.
Proof.
  intros Hx. assert (Hdigits : parse_digits max 0 (pretty x) = Some x).
  { unfold pretty, pretty_N. destruct (decide (x = 0)%N) as [->|Hne]; [by destruct max|]. by apply parse_pretty_go. }
  unfold parse_unsigned. destruct (pretty x) as [|c r] eqn:Hp.
  - injection Hdigits as <-. done.
  - case_decide as Hc; [|done]. by subst.
Qed.

Lemma split_key d a b : str_all (λ c, negb (bool_decide (c = d))) a = true → split_once d (a +:+ String d b) = Some (a, b).
Proof.
  induction a as [|c a IH]; intros Ha.
  - change ("" +:+ String d b) with (String d b). simpl. by rewrite decide_True.
  - apply andb_true_iff in Ha as [Hc Ha]. apply negb_true_iff, bool_decide_eq_false in Hc.
    change (String c a +:+ String d b) with (String c (a +:+ String d b)). simpl.
    by rewrite decide_False, IH.
Qed.

(** An error: a code without [|] and an HTTP status. *)
Definition error_ok '((code, status) : string * N) : Prop :=
  str_all (λ c, negb (bool_decide (c = bar))) code = true ∧ (status <= u16_max)%N.
Definition recorded_errors (errors : list (string * N)) : gmap string N :=
  foldl (λ m '(code, status), count_key (error_key code status) m) ∅ errors.
Definition occurrences (e : string * N) (errors : list (string * N)) : N := N.of_nat (length (filter (e =.) errors)).

Lemma error_key_split code status : error_ok (code, status) →
  error_snapshot (error_key code status, 0%N) = Some (mkErrorCounter code status 0).
Proof. intros [Hc Hs]. unfold error_snapshot, error_key. rewrite split_key by done. simpl. by rewrite parse_pretty. Qed.
Lemma error_key_inj e1 e2 : error_ok e1 → error_ok e2 → error_key e1.1 e1.2 = error_key e2.1 e2.2 → e1 = e2.
Proof.
  destruct e1 as [c1 s1], e2 as [c2 s2]. intros H1%error_key_split H2%error_key_split Heq. simpl in Heq.
  rewrite Heq, H2 in H1. by injection H1 as -> ->.
Qed.

Lemma lookup_recorded_errors errors e : Forall error_ok errors → error_ok e →
  (N.of_nat (length errors) < u64_modulus)%N →
  recorded_errors errors !! error_key e.1 e.2 =
    if (occurrences e errors =? 0)%N then None else Some (occurrences e errors).
Proof.
  intros Hall He. induction errors as [|[code status] errors IH] using rev_ind; intros Hlen; [done|].
  apply list.Forall_app in Hall as [Hall Hx]. apply list.Forall_cons in Hx as [Hx _].
  rewrite length_app in Hlen. simpl in Hlen. specialize (IH Hall ltac:(lia)).
  unfold recorded_errors in *. rewrite foldl_app. cbn [foldl]. set (m := foldl _ ∅ errors) in *.
  unfold occurrences in *. rewrite list.filter_app, length_app, filter_cons, filter_nil.
  assert (Hle : (N.of_nat (length (filter (e =.) errors)) <= N.of_nat (length errors))%N).
  { pose proof (length_filter (e =.) errors). lia. }
  unfold count_key. destruct (decide (e = (code, status))) as [->|Hne].
  - cbn [fst snd] in *. rewrite lookup_insert_eq, IH. cbn [length].
    destruct (N.eqb_spec (N.of_nat (length (filter (eq (code, status)) errors))) 0) as [Hz|Hz]; simpl;
      unfold fetch_incr; rewrite ?u64_add_small by lia;
      rewrite (proj2 (N.eqb_neq _ _)) by lia; f_equal; lia.
  - rewrite lookup_insert_ne; [by rewrite IH; cbn [length]; rewrite Nat.add_0_r|].
    intros Heq. apply Hne. symmetry. by apply error_key_inj.
Qed.

Lemma recorded_errors_keys errors k : is_Some (recorded_errors errors !! k) →
  ∃ e, e ∈ errors ∧ k = error_key e.1 e.2.
Proof.
  induction errors as [|[code status] errors IH] using rev_ind; [by intros [? ?]|].
  unfold recorded_errors in *. rewrite foldl_app. cbn [foldl]. set (m := foldl _ ∅ errors) in *.
  unfold count_key. intros Hk. setoid_rewrite elem_of_app. destruct (decide (error_key code status = k)) as [<-|Hne].
  - exists (code, status). split; [right; left|done].
  - rewrite lookup_insert_ne in Hk by done. destruct (IH Hk) as (e & He & ->). eauto.
Qed.

Lemma error_snapshot_key e n c : error_ok e → error_snapshot (error_key e.1 e.2, n) = Some c ↔ c = mkErrorCounter e.1 e.2 n.
Proof.
  intros He. destruct e as [code status]. cbn [fst snd]. pose proof (error_key_split code status He) as Hs.
  unfold error_snapshot in *. destruct (split_once bar _) as [[a b]|]; [|done]. cbn [mbind option_bind] in *.
  destruct (parse_unsigned u16_max b); [|done]. cbn [mbind option_bind] in *. injection Hs as -> ->. naive_solver.
Qed.

#[local] Instance error_le_trans : Transitive error_le.
Proof. intros a b c. unfold error_le. apply transitivity. Qed.
#[local] Instance error_le_total : Total error_le.
Proof. intros a b. unfold error_le. apply total, _. Qed.

(** The error metrics are exact: after any run of errors, the snapshot lists every code and
    status that occurred, once, with the number of its occurrences, in order of code and
    status, although the counters are kept under a joined key. *)
Theorem errors_are_counted errors : Forall error_ok errors → (N.of_nat (length errors) < u64_modulus)%N →
  let s := snapshot_error_counters (recorded_errors errors) in
  StronglySorted error_le s ∧ NoDup s ∧
  ∀ code status n, mkErrorCounter code status n ∈ s ↔
    (code, status) ∈ errors ∧ n = occurrences (code, status) errors.
Proof.
  intros Hall Hlen s. rewrite list.Forall_forall in Hall.
  assert (Hkey : ∀ k n, recorded_errors errors !! k = Some n →
    ∃ e, e ∈ errors ∧ k = error_key e.1 e.2 ∧ n = occurrences e errors).
  { intros k n Hk. destruct (recorded_errors_keys errors k) as (e & He & ->); [by eexists|].
    exists e. split_and!; [done..|]. rewrite lookup_recorded_errors in Hk; [|by apply list.Forall_forall|by apply Hall|done].
    destruct (_ =? 0)%N; congruence. }
  split_and!.
  - apply StronglySorted_merge_sort; apply _.
  - unfold s, snapshot_error_counters. rewrite merge_sort_Permutation.
    apply NoDup_omap_inj; [apply NoDup_map_to_list|].
    intros [k1 n1] [k2 n2] c H1%elem_of_map_to_list H2%elem_of_map_to_list Hc1 Hc2.
    destruct (Hkey _ _ H1) as (e1 & He1 & -> & _), (Hkey _ _ H2) as (e2 & He2 & -> & _).
    apply error_snapshot_key in Hc1 as ->; [|by apply Hall]. apply error_snapshot_key in Hc2; [|by apply Hall].
    destruct e1, e2. cbn [fst snd] in *. congruence.
  - intros code status n. unfold s, snapshot_error_counters. rewrite merge_sort_Permutation, list_elem_of_omap. split.
    + intros ([k m] & Hin%elem_of_map_to_list & Hc). destruct (Hkey _ _ Hin) as (e & He & -> & ->).
      apply error_snapshot_key in Hc; [|by apply Hall]. injection Hc as -> -> ->. by destruct e.
    + intros [Hin ->]. exists (error_key code status, occurrences (code, status) errors). split.
      * apply elem_of_map_to_list. change (error_key code status) with (error_key (code, status).1 (code, status).2).
        rewrite lookup_recorded_errors;
          [|by apply list.Forall_forall|by apply Hall|done].
        destruct (N.eqb_spec (occurrences (code, status) errors) 0) as [Hz|]; [|done]. exfalso.
        unfold occurrences in Hz. assert (Hf : (code, status) ∈ filter (eq (code, status)) errors)
          by by apply list_elem_of_filter.
        destruct (filter _ errors); [by apply elem_of_nil in Hf|simpl in Hz; lia].
      * apply (error_snapshot_key (code, status)); [by apply Hall|done].
Qed.

Lemma errors_are_counted_witness :
  let errors := [("not_found", 404); ("conflict", 409); ("not_found", 404)]%N in
  mkErrorCounter "not_found" 404 2 ∈ snapshot_error_counters (recorded_errors errors) ∧
  mkErrorCounter "conflict" 409 1 ∈ snapshot_error_counters (recorded_errors errors).
Proof.
  intros errors. destruct (errors_are_counted errors) as (_ & _ & Hin).
  - do 3 (apply list.Forall_cons; split; [split; [vm_compute; reflexivity|vm_compute; discriminate]|]). constructor.
  - reflexivity.
  - split; apply Hin; (split; [|vm_compute; reflexivity]).
    + left.
    + right. left.
Defined.
