(* ===== verification/Telemetry.v ===== *)
(** * [crates/observability]: tracing and its exporter

    [initialize_tracing] and [shutdown_tracing] on the two statics of the crate and on what they
    set in the process: the subscriber that tracing keeps, the propagator and the tracer
    provider.  Building an exporter, parsing a filter and validating a header are the libraries':
    parameters.  The order in which a hash map of headers is traversed is a parameter as well. *)
From S2P Require Import Prelude RustStd Common Core Config Fs Observability.

#[local] Open Scope string_scope.
#[local] Open Scope list_scope.

Record RuntimeObservabilityConfig := mkRuntimeObservability {
  ro_log_level : string;
  ro_tracing_enabled : bool;
  ro_tracing_json : bool;
  ro_otlp_enabled : bool;
  ro_otlp_protocol : string;
  ro_otlp_endpoint : string;
  ro_otlp_headers : string;
  ro_otlp_timeout_ms : N;
}.

(** What [undr9 serve] takes of its configuration. *)
Definition runtime_observability (config : AppConfig) : RuntimeObservabilityConfig :=
  let o := observability config in
  mkRuntimeObservability (log_level o) (tracing_enabled o) (tracing_json o) (otlp_enabled o) (otlp_protocol o)
    (otlp_endpoint o) (otlp_headers o) (otlp_timeout_ms o).

Class TelemetryLib := {
  env_filter : Type;
  exporter : Type;
  (** [EnvFilter::try_new]. *)
  filter_try_new : string → Result string env_filter;
  (** [HeaderName::from_bytes], which answers with the name in lower case, and
      [HeaderValue::from_str]. *)
  header_name_from_bytes : string → Result string string;
  header_value_from_str : string → Result string string;
  (** Endpoint, timeout, and metadata or headers. *)
  build_grpc_exporter : string → N → gmap string string → Result string exporter;
  build_http_exporter : string → N → gmap string string → Result string exporter;
  exporter_shutdown : exporter → Result string unit;
  (** The error of [try_init] when there is a subscriber already. *)
  try_init_error : string;
  (** [CARGO_PKG_VERSION]. *)
  package_version : string;
  hash_order : gmap string string → list (string * string);
}.

(** ** Levels *)

Inductive TracingLevel := TRACE | DEBUG | INFO | WARN | ERROR.

Definition ascii_upper (c : ascii) : ascii :=
  let n := Ascii.N_of_ascii c in
  if (97 <=? n)%N && (n <=? 122)%N then Ascii.ascii_of_N (n - 32) else c.
Fixpoint to_ascii_uppercase (s : string) : string :=
  match s with EmptyString => "" | String c r => String (ascii_upper c) (to_ascii_uppercase r) end.

(** The level an event is emitted at, with its target, message and fields. *)
Definition emit_via_tracing (event : StructuredLogEvent) : TracingLevel * string * string * gmap string string :=
  let level := to_ascii_uppercase (le_level event) in
  let at_level l := (l, le_target event, le_message event, le_fields event) in
  if String.eqb level "TRACE" then at_level TRACE
  else if String.eqb level "DEBUG" then at_level DEBUG
  else if String.eqb level "WARN" then at_level WARN
  else if String.eqb level "ERROR" then at_level ERROR
  else at_level INFO.

(** ** Spans *)

(** What is asked of the current span, in order. *)
Inductive SpanCall :=
| SetAttribute (key : string) (value : string + Z)
| SetStatusOk
| SetStatusError (message : string).

Definition annotate_active_span_success : list SpanCall := [SetStatusOk].
Definition annotate_active_span_error (error_code : string) (http_status : N) (message : string) : list SpanCall :=
  [SetAttribute "undr9.error_code" (inl error_code); SetAttribute "undr9.http_status" (inr (Z.of_N http_status));
   SetStatusError message].

Section telemetry.
Context `{TelemetryLib}.

(** ** Exporters *)

Definition insert_header (http_headers : gmap string string) (entry : string * string) : Res (gmap string string) :=
  let '(key, value) := entry in
  header_name ← map_err (λ error, Validation ("invalid observability.otlp_headers key '" +:+ key +:+ "': " +:+ error))
    (header_name_from_bytes key);
  header_value ← map_err (λ error, Validation ("invalid observability.otlp_headers value for '" +:+ key +:+ "': " +:+ error))
    (header_value_from_str value);
  mret (<[header_name := header_value]> http_headers).
Definition build_otlp_metadata (headers : gmap string string) : Res (gmap string string) :=
  result_foldl insert_header ∅ (hash_order headers).

Record SdkTracerProvider := mkProvider { tp_resource : list (string * string); tp_exporter : exporter }.

Definition build_otlp_tracer_provider (service_name : string) (config : RuntimeObservabilityConfig) : Res SdkTracerProvider :=
  protocol ← normalize_otlp_protocol (ro_otlp_protocol config);
  headers ← parse_otlp_headers (ro_otlp_headers config);
  let resource := [("service.name", service_name); ("service.namespace", "undr9"); ("service.version", package_version)] in
  exporter ← match protocol with
    | Grpc =>
      metadata ← build_otlp_metadata headers;
      map_err (λ error, Conflict ("failed to build OTLP gRPC exporter: " +:+ error))
        (build_grpc_exporter (ro_otlp_endpoint config) (ro_otlp_timeout_ms config) metadata)
    | HttpBinary =>
      map_err (λ error, Conflict ("failed to build OTLP HTTP exporter: " +:+ error))
        (build_http_exporter (ro_otlp_endpoint config) (ro_otlp_timeout_ms config) headers)
    end;
  mret (mkProvider resource exporter).

(** ** The process *)

Inductive Layer := LayerFilter (filter : env_filter) | LayerFmt (json : bool) | LayerOtel (provider : SdkTracerProvider).

Record Telemetry := mkTelemetry {
  tracing_initialized : bool;
  otel_tracer_provider : option SdkTracerProvider;
  subscriber : option (list Layer);
  propagates_trace_context : bool;
  global_tracer_provider : option SdkTracerProvider;
}.
Definition telemetry_default : Telemetry := mkTelemetry false None None false None.

Definition tel_m (A : Type) : Type := sm Telemetry Undr9Error A.

(** [registry().with(..).try_init()]. *)
Definition try_init (layers : list Layer) : tel_m unit := λ t,
  match subscriber t with
  | Some _ => (Err (Conflict ("failed to initialize tracing subscriber: " +:+ try_init_error)), t)
  | None => (Ok tt, mkTelemetry (tracing_initialized t) (otel_tracer_provider t) (Some layers)
      (propagates_trace_context t) (global_tracer_provider t))
  end.
Definition set_propagator : tel_m unit := sm_modify (λ t,
  mkTelemetry (tracing_initialized t) (otel_tracer_provider t) (subscriber t) true (global_tracer_provider t)).
Definition set_provider (provider : SdkTracerProvider) : tel_m unit := sm_modify (λ t,
  mkTelemetry (tracing_initialized t) (Some provider) (subscriber t) (propagates_trace_context t) (Some provider)).
Definition set_initialized : tel_m unit := sm_modify (λ t,
  mkTelemetry true (otel_tracer_provider t) (subscriber t) (propagates_trace_context t) (global_tracer_provider t)).

Definition initialize_tracing (service_name : string) (config : RuntimeObservabilityConfig) : tel_m bool :=
  if negb (ro_tracing_enabled config) then mret false
  else
    t ← sm_get;
    if tracing_initialized t then mret false
    else
      filter ← sm_lift (map_err (λ error, Validation
        ("invalid observability.log_level '" +:+ ro_log_level config +:+ "': " +:+ error)) (filter_try_new (ro_log_level config)));
      set_propagator ;;
      (if ro_otlp_enabled config then
         provider ← sm_lift (build_otlp_tracer_provider service_name config);
         try_init (if ro_tracing_json config
           then [LayerFilter filter; LayerFmt true; LayerOtel provider]
           else [LayerFilter filter; LayerOtel provider; LayerFmt false]) ;;
         set_provider provider
       else try_init [LayerFilter filter; LayerFmt (ro_tracing_json config)]) ;;
      set_initialized ;;
      mret true.

Definition shutdown_tracing : tel_m unit :=
  t ← sm_get;
  match otel_tracer_provider t with
  | None => mret tt
  | Some provider =>
    sm_modify (λ t, mkTelemetry (tracing_initialized t) None (subscriber t) (propagates_trace_context t)
      (global_tracer_provider t)) ;;
    sm_lift (map_err (λ error, Conflict ("failed to shutdown otlp exporter: " +:+ error)) (exporter_shutdown (tp_exporter provider)))
  end.

(** ** What holds of a process *)

(** A process that has initialized its tracing has a subscriber, and the provider that is kept is
    the one that spans are sent to. *)
Record telemetry_wf (t : Telemetry) : Prop := {
  tw_subscriber : tracing_initialized t = true → is_Some (subscriber t);
  tw_provider : is_Some (otel_tracer_provider t) → tracing_initialized t = true ∧ otel_tracer_provider t = global_tracer_provider t;
}.

Lemma telemetry_default_wf : telemetry_wf telemetry_default.
Proof. by split; [|intros [? ?]]. Qed.

Inductive telemetry_call :=
| CallInitialize (service_name : string) (config : RuntimeObservabilityConfig)
| CallShutdown.
Definition telemetry_step (c : telemetry_call) (t : Telemetry) : Telemetry :=
  match c with
  | CallInitialize service_name config => (initialize_tracing service_name config t).2
  | CallShutdown => (shutdown_tracing t).2
  end.

(** Initialising does nothing, fails with no more than the propagator set, or installs
    everything it was asked for. *)
Lemma initialize_outcome service_name config t :
  match initialize_tracing service_name config t with
  | (Ok false, t') => t' = t ∧ (ro_tracing_enabled config = false ∨ tracing_initialized t = true)
  | (Ok true, t') => tracing_initialized t = false ∧ subscriber t = None ∧ tracing_initialized t' = true ∧
      is_Some (subscriber t') ∧ propagates_trace_context t' = true ∧
      (if ro_otlp_enabled config
       then ∃ provider, build_otlp_tracer_provider service_name config = Ok provider ∧
         otel_tracer_provider t' = Some provider ∧ global_tracer_provider t' = Some provider
       else otel_tracer_provider t' = otel_tracer_provider t ∧ global_tracer_provider t' = global_tracer_provider t)
  | (Err _, t') => tracing_initialized t = false ∧
      (t' = t ∨ t' = mkTelemetry (tracing_initialized t) (otel_tracer_provider t) (subscriber t) true (global_tracer_provider t))
  end.
Proof.
  unfold initialize_tracing. destruct (ro_tracing_enabled config); cbn [negb]; [|by split; [|left]].
  unfold mbind at 1, sm_bind at 1, sm_get. destruct (tracing_initialized t) eqn:Hinit; [by split; [|right]|].
  unfold mbind at 1, sm_bind at 1, sm_lift. destruct (filter_try_new _) as [filter|error]; cbn [map_err]; [|by split; [|left]].
  unfold set_propagator, set_provider, set_initialized, try_init, mbind, mret, sm_bind, sm_ret, sm_modify, sm_lift. rewrite ?Hinit.
  destruct (ro_otlp_enabled config).
  - destruct (build_otlp_tracer_provider service_name config) as [provider|error]; [|split; [done|by right]].
    cbn. destruct (subscriber t); [split; [done|by right]|]. cbn. eauto 10.
  - cbn. destruct (subscriber t); [split; [done|by right]|]. cbn. eauto 10.
Qed.

Lemma shutdown_outcome t :
  let '(r, t') := shutdown_tracing t in
  t' = mkTelemetry (tracing_initialized t) None (subscriber t) (propagates_trace_context t) (global_tracer_provider t) ∧
  (otel_tracer_provider t = None → r = Ok tt) ∧
  ∀ provider, otel_tracer_provider t = Some provider → (r = Ok tt ↔ exporter_shutdown (tp_exporter provider) = Ok tt).
Proof.
  unfold shutdown_tracing, mbind at 1, sm_bind at 1, sm_get. destruct t as [i [provider|] sub p g]; [|by split_and!].
  unfold mbind, sm_bind, sm_modify, sm_lift. cbn. split_and!; [done|done|].
  intros ? [= <-]. by destruct (exporter_shutdown _) as [[]|].
Qed.

Lemma telemetry_step_wf c t : telemetry_wf t → telemetry_wf (telemetry_step c t).
Proof.
  intros [Hs Hp]. destruct c as [service_name config|]; cbn [telemetry_step].
  - pose proof (initialize_outcome service_name config t) as Hout. destruct (initialize_tracing service_name config t) as [[[]|] t'].
    + destruct Hout as (Hno & Hnone & Hinit & Hsub & _ & Hprov). split; [done|]. cbn [snd]. intros Hsome. split; [done|].
      destruct (ro_otlp_enabled config); [by destruct Hprov as (? & _ & -> & ->)|].
      destruct Hprov as [Heq _]. rewrite Heq in Hsome. destruct (Hp Hsome) as [Hyes _]. congruence.
    + destruct Hout as [-> _]. by split.
    + destruct Hout as (_ & [-> | ->]); by split.
  - pose proof (shutdown_outcome t) as Hout. destruct (shutdown_tracing t) as [r t']. destruct Hout as (-> & _).
    split; [done|]. by intros [? ?].
Qed.

(** Whatever calls a process makes, it is initialized at most once: a later call changes nothing
    but the provider, which only a shutdown takes, and is answered with [false]. *)
Lemma initialized_once calls t service_name config : telemetry_wf t → tracing_initialized t = true →
  let t' := foldl (λ t c, telemetry_step c t) t calls in
  telemetry_wf t' ∧ subscriber t' = subscriber t ∧
  (otel_tracer_provider t' = otel_tracer_provider t ∨ otel_tracer_provider t' = None) ∧
  initialize_tracing service_name config t' = (Ok false, t').
Proof.
  intros Hwf Hinit t'.
  cut (telemetry_wf t' ∧ tracing_initialized t' = true ∧ subscriber t' = subscriber t ∧
    (otel_tracer_provider t' = otel_tracer_provider t ∨ otel_tracer_provider t' = None)).
  { intros (Hwf' & Hinit' & Hsub & Hprov). split_and!; [done..|].
    unfold initialize_tracing. destruct (ro_tracing_enabled config); [|done]. cbn [negb].
    unfold mbind at 1, sm_bind at 1, sm_get. by rewrite Hinit'. }
  subst t'. revert t Hwf Hinit. induction calls as [|c calls IH]; intros t Hwf Hinit; [by split_and!; [..|left]|].
  cbn [foldl]. assert (Hstep : tracing_initialized (telemetry_step c t) = true ∧ subscriber (telemetry_step c t) = subscriber t ∧
    (otel_tracer_provider (telemetry_step c t) = otel_tracer_provider t ∨ otel_tracer_provider (telemetry_step c t) = None)).
  { destruct c as [name cfg|]; cbn [telemetry_step].
    - pose proof (initialize_outcome name cfg t) as Hout. destruct (initialize_tracing name cfg t) as [[[]|] t'].
      + destruct Hout as (? & _). congruence.
      + destruct Hout as [-> _]. by split_and!; [..|left].
      + destruct Hout as [? _]. congruence.
    - pose proof (shutdown_outcome t) as Hout. destruct (shutdown_tracing t) as [r t']. destruct Hout as (-> & _).
      by split_and!; [..|right]. }
  destruct Hstep as (Hinit1 & Hsub1 & Hprov1). destruct (IH _ (telemetry_step_wf c t Hwf) Hinit1) as (? & ? & Hsub & Hprov).
  split_and!; [done..| |].
  - by rewrite Hsub.
  - destruct Hprov as [-> | ?]; [|by right]. done.
Qed.

(** The headers of the exporter do not depend on the order in which the map is traversed when
    the names of different keys differ in lower case. *)
Lemma metadata_lookup headers metadata key name value :
  (∀ h, hash_order h ≡ₚ map_to_list h) →
  (∀ k k' n, is_Some (headers !! k) → is_Some (headers !! k') →
    header_name_from_bytes k = Ok n → header_name_from_bytes k' = Ok n → k = k') →
  build_otlp_metadata headers = Ok metadata → headers !! key = Some value → header_name_from_bytes key = Ok name →
  ∃ sent, header_value_from_str value = Ok sent ∧ metadata !! name = Some sent.
Proof.
  intros Horder Hinj. unfold build_otlp_metadata. specialize (Horder headers).
  assert (Hin : ∀ k v, (k, v) ∈ hash_order headers → headers !! k = Some v).
  { intros k v Hkv. apply elem_of_map_to_list. by rewrite <-Horder. }
  assert (Hnodup : NoDup (hash_order headers).*1) by (rewrite Horder; apply NoDup_fst_map_to_list).
  intros Hbuild Hkey Hname. assert (Hmem : (key, value) ∈ hash_order headers).
  { rewrite Horder. by apply elem_of_map_to_list. }
  revert Hbuild Hmem Hnodup Hin. generalize (hash_order headers) (∅ : gmap string string). clear Horder.
  intros l. revert metadata. induction l as [|[k v] l IH] using rev_ind; intros metadata m Hbuild Hmem Hnodup Hin.
  { by apply elem_of_nil in Hmem. }
  rewrite result_foldl_app in Hbuild. apply result_bind_Ok in Hbuild as (before & Hbefore & Hlast).
  cbn [result_foldl] in Hlast. apply result_bind_Ok in Hlast as (after & Hlast & [= ->]).
  unfold insert_header in Hlast. apply result_bind_Ok in Hlast as (n & Hn & Hlast).
  apply result_bind_Ok in Hlast as (sent & Hsent & [= <-]).
  destruct (header_name_from_bytes k) as [n'|] eqn:Hk; [|done]. injection Hn as ->.
  destruct (header_value_from_str v) as [sent'|] eqn:Hv; [|done]. injection Hsent as ->.
  destruct (decide (k = key)) as [->|Hne].
  - assert (v = value) as -> by (specialize (Hin key v ltac:(set_solver)); congruence).
    assert (n = name) as -> by congruence. exists sent. by rewrite lookup_insert_eq.
  - assert (n ≠ name). { intros ->. apply Hne. apply (Hinj k key name); [|by eexists|done..]. exists v. apply Hin. set_solver. }
    rewrite lookup_insert_ne by done. apply (IH before m); [done| | |].
    + apply elem_of_app in Hmem as [?|[= -> ->]%list_elem_of_singleton]; [done|]. congruence.
    + rewrite fmap_app in Hnodup. by apply list.NoDup_app in Hnodup as [? _].
    + intros. apply Hin. set_solver.
Qed.
End telemetry.
