(* ===== verification/Wal.v ===== *)
(** * [crates/wal]: the write-ahead log

    A [Wal] appends framed records to numbered segment files; opening it replays
    the files to find the next LSN.  The frame encoding (postcard) and the checksum
    (crc32fast) are third-party code: the class [WalCodec], with the behaviour the
    log relies on in [WalCodecLaws].  Methods taking [&mut self] run on the disk and
    the [Wal] together. *)
From S2P Require Import Prelude RustStd Common Config Fs.

#[local] Open Scope string_scope.
#[local] Open Scope list_scope.

Definition WAL_FILE_EXTENSION : string := "wal".

Inductive WalRecordKind := KWriteBatch | KCheckpoint | KManifestSync | KConsolidationEvent.
#[global] Instance WalRecordKind_eq_dec : EqDecision WalRecordKind.
Proof. solve_decision. Defined.
Inductive DurabilityMode := FsyncOnWrite | Buffered.
#[global] Instance DurabilityMode_eq_dec : EqDecision DurabilityMode.
Proof. solve_decision. Defined.

Record WalRecordHeader := mkHeader {
  h_lsn : N;
  h_kind : WalRecordKind;
  h_payload_len : N;
  h_payload_crc32 : N;
  h_format_version : N;
}.
Record WalRecord := mkRecord { header : WalRecordHeader; payload : bytes }.
Definition lsn_of (r : WalRecord) : N := h_lsn (header r).

Record WalRuntimeConfig := mkRuntime {
  rt_segment_size_bytes : N;
  rt_durability_mode : DurabilityMode;
  rt_max_replay_bytes : N;
}.

Record CheckpointMarker := mkMarker { cm_last_applied_lsn : N }.

Record Wal := mkWal {
  wal_root_dir : Path;
  wal_runtime : WalRuntimeConfig;
  active_segment_id : N;
  next_lsn : N;
}.

#[global] Instance header_eq_dec : EqDecision WalRecordHeader.
Proof. solve_decision. Defined.
#[global] Instance record_eq_dec : EqDecision WalRecord.
Proof. solve_decision. Defined.

(** [postcard] and [crc32fast]. *)
Class WalCodec := {
  crc32 : bytes → N;
  encode_wal_record : WalRecord → Result string bytes;
  decode_wal_record : bytes → Result string WalRecord;
  encode_marker : CheckpointMarker → Result string bytes;
  decode_marker : bytes → Result string CheckpointMarker;
}.

(** The widths the Rust types give a record built by [WalRecord::new]. *)
Record record_fits (r : WalRecord) : Prop := {
  rf_lsn : (lsn_of r < u64_modulus)%N;
  rf_len : (h_payload_len (header r) < 2 ^ 32)%N;
  rf_crc : (h_payload_crc32 (header r) < 2 ^ 32)%N;
  rf_version : (h_format_version (header r) < 2 ^ 16)%N;
  rf_payload : (N.of_nat (length (payload r)) < 2 ^ 32)%N;
}.

(** What the log relies on: a record can be encoded, is decoded from exactly the
    bytes it was encoded to, and costs a bounded overhead; a checksum is a [u32]. *)
Class WalCodecLaws `{WalCodec} : Prop := {
  crc32_bound bs : (crc32 bs < 2 ^ 32)%N;
  encode_wal_total r : record_fits r → ∃ bs, encode_wal_record r = Ok bs
    ∧ decode_wal_record bs = Ok r ∧ (length bs ≤ length (payload r) + 64)%nat;
  encode_marker_total m : (cm_last_applied_lsn m < u64_modulus)%N →
    ∃ bs, encode_marker m = Ok bs ∧ decode_marker bs = Ok m ∧ (length bs ≤ 64)%nat;
}.

Section wal.
Context `{WalCodec}.

(** The state of a method with [&mut self]. *)
Definition wal_m (A : Type) : Type := sm (World * Wal) Failure A.

Definition u32_max : N := 4294967295.

Definition WalRecord_new (lsn : N) (kind : WalRecordKind) (payload : bytes) : Res WalRecord :=
  if (u32_max <? N.of_nat (length payload))%N then
    Err (Validation "WAL payload length exceeds supported u32 range")
  else
    Ok (mkRecord (mkHeader lsn kind (N.of_nat (length payload)) (crc32 payload) 1) payload).

Definition verify_checksum (r : WalRecord) : bool :=
  (crc32 (payload r) =? h_payload_crc32 (header r))%N.

Definition runtime_from_config (c : WalConfig) : WalRuntimeConfig :=
  mkRuntime (segment_size_bytes c)
    (if fsync_on_write c then FsyncOnWrite else Buffered) (max_replay_bytes c).

Definition segment_file_name (segment_id : N) : string :=
  fmt_020 segment_id +:+ "." +:+ WAL_FILE_EXTENSION.
Definition segment_id_from_path (p : Path) : option N :=
  match p with [] => None | name :: _ => parse_u64 (name_stem name) end.

Definition list_segment_paths (root_dir : Path) : io (list Path) :=
  names ← io_try (λ e, Io ("failed to enumerate WAL directory: " +:+ e)) (fs_read_dir root_dir);
  mret ((λ name, name :: root_dir) <$>
    filter (λ name, name_extension name = Some WAL_FILE_EXTENSION) names).

Definition failpoint_matches (failpoint : option (string * string)) (operation : string) (p : Path)
    : bool :=
  match failpoint with
  | Some (op, fragment) => String.eqb op operation && str_contains (path_display p) fragment
  | None => false
  end.

Definition maybe_fail_wal_io (operation : string) (p : Path) : io unit :=
  w ← sm_get;
  if failpoint_matches (wal_failpoint w) operation p then
    io_fail (Io ("injected WAL I/O failure for operation '" +:+ operation +:+ "' on '" +:+
      path_display p +:+ "': No space left on device"))
  else mret tt.

Definition install_wal_io_failpoint (operation fragment : string) : io unit :=
  sm_modify (λ w, mkWorld (files w) (dirs w) (faults w) (Some (operation, fragment))
    (storage_failpoint w)).
Definition clear_wal_io_failpoint : io unit :=
  sm_modify (λ w, mkWorld (files w) (dirs w) (faults w) None (storage_failpoint w)).

Definition encode_record (r : WalRecord) : Res bytes :=
  payload ← map_err (λ e, Serialization ("failed to serialize WAL record: " +:+ e))
    (encode_wal_record r);
  mret (to_le_bytes (N.of_nat (length payload)) ++ payload).

(** The loop over the frames of one segment.  [offset + 8] stays below the length
    of a file in memory; [frame_start + frame_len] is the [usize] addition, which
    can wrap, and the slice panics when it does. *)
Fixpoint replay_frames (fuel : nat) (p : Path) (bs : bytes) (offset : nat)
    : Result Failure (list WalRecord) :=
  match fuel with
  | O => Ok []
  | S fuel =>
    if (offset + 8 <=? length bs)%nat then
      let frame_len := from_le (take 8 (drop offset bs)) in
      let frame_start := (offset + 8)%nat in
      let frame_end := u64_add (N.of_nat frame_start) frame_len in
      if (N.of_nat (length bs) <? frame_end)%N then Ok []
      else if (frame_end <? N.of_nat frame_start)%N then
        Err (Panic "slice index starts past its end")
      else
        let frame_end := N.to_nat frame_end in
        record ← map_err (λ e, Error (Corruption ("failed to deserialize WAL frame in '" +:+
            path_display p +:+ "': " +:+ e)))
          (decode_wal_record (take (frame_end - frame_start) (drop frame_start bs)));
        if negb (verify_checksum record) then
          Err (Error (Corruption ("WAL checksum mismatch in '" +:+ path_display p +:+ "'")))
        else
          records ← replay_frames fuel p bs frame_end;
          mret (record :: records)
    else Ok []
  end.

(** Every turn advances by at least the eight bytes of a length. *)
Definition replay_segment (p : Path) (bs : bytes) : Result Failure (list WalRecord) :=
  replay_frames (S (length bs)) p bs 0.

Fixpoint replay_paths (max_replay_bytes replayed_bytes : N) (paths : list Path)
    : io (list WalRecord) :=
  match paths with
  | [] => mret []
  | p :: paths =>
    bs ← io_try (λ e, Io ("failed to read WAL segment '" +:+ path_display p +:+ "': " +:+ e))
      (fs_read p);
    let replayed_bytes := u64_add replayed_bytes (N.of_nat (length bs)) in
    if (max_replay_bytes <? replayed_bytes)%N then
      io_fail (Validation ("WAL replay exceeded configured limit of " +:+
        pretty max_replay_bytes +:+ " bytes"))
    else
      records ← sm_lift (replay_segment p bs);
      rest ← replay_paths max_replay_bytes replayed_bytes paths;
      mret (records ++ rest)
  end.

Definition replay_from_dir (root_dir : Path) (max_replay_bytes : N) : io (list WalRecord) :=
  paths ← list_segment_paths root_dir;
  replay_paths max_replay_bytes 0 paths.

Definition Wal_open (root_dir : Path) (config : WalConfig) : io Wal :=
  io_try (λ e, Io ("failed to create WAL directory: " +:+ e)) (fs_create_dir_all root_dir) ;;
  let runtime := runtime_from_config config in
  records ← replay_from_dir root_dir (rt_max_replay_bytes runtime);
  let next_lsn := match list.last records with
                  | Some r => u64_add (lsn_of r) 1
                  | None => 1%N
                  end in
  paths ← list_segment_paths root_dir;
  let active_segment_id := default 1%N (list.last paths ≫= segment_id_from_path) in
  mret (mkWal root_dir runtime active_segment_id next_lsn).

Definition active_segment_path (l : Wal) : Path :=
  segment_file_name (active_segment_id l) :: wal_root_dir l.

Definition rotate_if_needed (incoming_frame_bytes : N) : wal_m unit :=
  '(_, l) ← sm_get;
  current_len ← on_world (fs_len_or_zero (active_segment_path l));
  if ((0 <? current_len)%N &&
      (rt_segment_size_bytes (wal_runtime l) <? u64_add current_len incoming_frame_bytes)%N) then
    sm_modify (λ '(w, l), (w,
      mkWal (wal_root_dir l) (wal_runtime l) (u64_add (active_segment_id l) 1) (next_lsn l)))
  else mret tt.

Definition append (kind : WalRecordKind) (payload : bytes) : wal_m WalRecord :=
  '(_, l) ← sm_get;
  record ← io_res (WalRecord_new (next_lsn l) kind payload);
  frame ← io_res (encode_record record);
  rotate_if_needed (N.of_nat (length frame)) ;;
  '(_, l) ← sm_get;
  let p := active_segment_path l in
  on_world (io_try (λ e, Io ("failed to open WAL segment '" +:+ path_display p +:+ "': " +:+ e))
    (fs_open_append p)) ;;
  on_world (maybe_fail_wal_io "append_write" p) ;;
  on_world (io_try (λ e, Io ("failed to append WAL frame: " +:+ e)) (fs_append p frame)) ;;
  (if decide (rt_durability_mode (wal_runtime l) = FsyncOnWrite) then
     on_world (maybe_fail_wal_io "append_fsync" p) ;;
     on_world (io_try (λ e, Io ("failed to fsync WAL segment: " +:+ e)) (fs_sync p))
   else mret tt) ;;
  sm_modify (λ '(w, l), (w,
    mkWal (wal_root_dir l) (wal_runtime l) (active_segment_id l) (u64_add (next_lsn l) 1))) ;;
  mret record.

Definition append_checkpoint (marker : CheckpointMarker) : wal_m WalRecord :=
  payload ← io_res (map_err (λ e, Serialization
    ("failed to serialize checkpoint marker: " +:+ e)) (encode_marker marker));
  append KCheckpoint payload.

Definition replay (l : Wal) : io (list WalRecord) :=
  replay_from_dir (wal_root_dir l) (rt_max_replay_bytes (wal_runtime l)).

Definition truncate_all_segments : wal_m unit :=
  '(_, l) ← sm_get;
  paths ← on_world (list_segment_paths (wal_root_dir l));
  sm_for paths (λ p, on_world (io_try (λ e,
    Io ("failed to remove WAL segment '" +:+ path_display p +:+ "': " +:+ e)) (fs_remove_file p))) ;;
  sm_modify (λ '(w, l), (w, mkWal (wal_root_dir l) (wal_runtime l) 1 1)).

(** The loop of [rewrite_dir_from_records] over the records to keep. *)
Definition rewrite_record (r : WalRecord) : wal_m unit :=
  appended ← append (h_kind (header r)) (payload r);
  if decide (lsn_of appended = lsn_of r) then mret tt
  else io_fail (Validation ("failed to rewrite WAL record with original lsn " +:+
    pretty (lsn_of r))).

Definition rewrite_dir_from_records (root_dir : Path) (config : WalConfig) (records : list WalRecord)
    : io unit :=
  wal ← Wal_open root_dir config;
  with_self (truncate_all_segments ;; sm_for records rewrite_record) wal.

End wal.

(** ** Frames *)

Section frames.
Context `{WalCodecLaws}.

Definition frame (r : WalRecord) : bytes :=
  match encode_record r with Ok f => f | Err _ => [] end.
Definition frames_of (rs : list WalRecord) : bytes := concat (frame <$> rs).
Definition checksummed (r : WalRecord) : Prop := record_fits r ∧ verify_checksum r = true.

Lemma frame_spec r : record_fits r → ∃ body, decode_wal_record body = Ok r ∧
  encode_record r = Ok (frame r) ∧
  frame r = to_le_bytes (N.of_nat (length body)) ++ body ∧ (N.of_nat (length body) < 2 ^ 63)%N.
Proof.
  intros Hfit. destruct (encode_wal_total r Hfit) as (body & Hb & Hdec & Hlen). exists body.
  unfold frame, encode_record. rewrite Hb. simpl. split; [done|].
  split; [done|]. split; [done|]. pose proof (rf_payload _ Hfit). lia.
Qed.

Lemma frames_of_cons r rs : frames_of (r :: rs) = frame r ++ frames_of rs.
Proof. done. Qed.
Lemma frames_of_app rs1 rs2 : frames_of (rs1 ++ rs2) = frames_of rs1 ++ frames_of rs2.
Proof. unfold frames_of. by rewrite fmap_app, concat_app. Qed.

Lemma length_frame r : record_fits r → (8 ≤ length (frame r))%nat.
Proof.
  intros Hfit. destruct (frame_spec r Hfit) as (body & _ & _ & -> & _). rewrite length_app.
  unfold to_le_bytes. rewrite length_le_bytes. lia.
Qed.

Definition in_memory (bs : bytes) : Prop := (N.of_nat (length bs) < 2 ^ 63)%N.

(** One turn of the loop reads a whole frame. *)
Lemma replay_frames_turn fuel p pre r rest :
  record_fits r → in_memory (pre ++ frame r ++ rest) →
  replay_frames (S fuel) p (pre ++ frame r ++ rest) (length pre) =
    if negb (verify_checksum r) then
      Err (Error (Corruption ("WAL checksum mismatch in '" +:+ path_display p +:+ "'")))
    else
      records ← replay_frames fuel p (pre ++ frame r ++ rest) (length (pre ++ frame r));
      mret (r :: records).
Proof.
  intros Hfit Hmem. destruct (frame_spec r Hfit) as (body & Hdec & _ & Hf & Hb).
  unfold in_memory in Hmem. rewrite !length_app in *. cbn [replay_frames].
  pose proof (length_le_bytes 8 (N.of_nat (length body))) as H8.
  rewrite Hf in *. unfold to_le_bytes in *. rewrite !length_app, H8 in *.
  rewrite (proj2 (Nat.leb_le _ _)) by lia.
  rewrite drop_app_length.
  replace (take 8 (_ ++ rest)) with (le_bytes 8 (N.of_nat (length body))).
  2: { by rewrite <-app_assoc, take_app_length' by done. }
  rewrite from_le_bytes by (simpl; lia).
  rewrite u64_add_small by (unfold u64_modulus; lia).
  rewrite (proj2 (N.ltb_ge _ _)) by lia. rewrite (proj2 (N.ltb_ge _ _)) by lia.
  replace (N.to_nat (N.of_nat (length pre + 8) + N.of_nat (length body)))
    with (length pre + 8 + length body)%nat by lia.
  replace (take _ (drop _ _)) with body.
  2: { rewrite <-drop_drop, drop_app_length, <-app_assoc, drop_app_length' by done.
       by rewrite take_app_length' by lia. }
  rewrite Hdec. cbn [map_err mbind result_bind].
  by replace (length pre + (8 + length body))%nat with (length pre + 8 + length body)%nat by lia.
Qed.

Lemma replay_frames_step fuel p pre r rest :
  checksummed r → in_memory (pre ++ frame r ++ rest) →
  replay_frames (S fuel) p (pre ++ frame r ++ rest) (length pre) =
    (records ← replay_frames fuel p (pre ++ frame r ++ rest) (length (pre ++ frame r));
     mret (r :: records)).
Proof. intros [Hfit Hr] Hmem. by rewrite replay_frames_turn, Hr. Qed.

Lemma replay_frames_corrupt fuel p pre r rest :
  record_fits r → verify_checksum r = false → in_memory (pre ++ frame r ++ rest) →
  replay_frames (S fuel) p (pre ++ frame r ++ rest) (length pre) =
    Err (Error (Corruption ("WAL checksum mismatch in '" +:+ path_display p +:+ "'"))).
Proof. intros Hfit Hr Hmem. by rewrite replay_frames_turn, Hr. Qed.

(** A strict prefix of a frame is a torn tail: the loop stops. *)
Lemma replay_frames_torn fuel p pre r torn :
  record_fits r → torn `prefix_of` frame r → torn ≠ frame r → in_memory (pre ++ torn) →
  replay_frames fuel p (pre ++ torn) (length pre) = Ok [].
Proof.
  destruct fuel as [|fuel]; [done|]. intros Hfit [tl Htl] Hne Hmem.
  destruct (frame_spec r Hfit) as (body & _ & _ & Hf & Hb). unfold in_memory in Hmem.
  assert (Hlen : (length torn < length (frame r))%nat).
  { rewrite Htl, length_app. destruct tl; simpl; [|lia]. by rewrite app_nil_r in Htl. }
  cbn [replay_frames]. rewrite !length_app in *.
  destruct (Nat.leb_spec (length pre + 8) (length pre + length torn)) as [H8|H8]; [|done].
  rewrite drop_app_length.
  pose proof (length_le_bytes 8 (N.of_nat (length body))) as Hl8.
  replace (take 8 torn) with (le_bytes 8 (N.of_nat (length body))).
  2: { transitivity (take 8 (frame r)).
       - rewrite Hf. unfold to_le_bytes. by rewrite take_app_length' by done.
       - rewrite Htl, take_app_le by lia. done. }
  rewrite from_le_bytes by (simpl; lia).
  rewrite u64_add_small by (unfold u64_modulus; lia).
  rewrite Hf in Hlen. unfold to_le_bytes in Hlen. rewrite length_app, Hl8 in Hlen.
  by rewrite (proj2 (N.ltb_lt _ _)) by lia.
Qed.

(** Replaying any prefix of a run of frames gives the records whose frames are
    complete in it, and never fails. *)
Lemma replay_frames_prefix p rs : ∀ fuel pre rest,
  rest `prefix_of` frames_of rs → (length rest < fuel)%nat →
  Forall checksummed rs → in_memory (pre ++ rest) →
  ∃ n, (n ≤ length rs)%nat ∧
    replay_frames fuel p (pre ++ rest) (length pre) = Ok (take n rs) ∧
    frames_of (take n rs) `prefix_of` rest ∧
    (∀ r, rs !! n = Some r → ¬ frames_of (take n rs) ++ frame r `prefix_of` rest).
Proof.
  induction rs as [|r rs IH]; intros fuel pre rest Hpre Hfuel Hok Hmem.
  - exists 0%nat. apply prefix_nil_inv in Hpre as ->. destruct fuel; [done|].
    split; [done|]. split; [|split; [done|by intros ? [=]]].
    cbn [replay_frames]. rewrite app_nil_r.
    by destruct (Nat.leb_spec (length pre + 8) (length pre)); [lia|].
  - apply list.Forall_cons in Hok as [Hr Hok]. rewrite frames_of_cons in Hpre.
    destruct (decide (frame r `prefix_of` rest)) as [[rest' ->]|Hnp].
    + apply prefix_app_inv in Hpre. destruct fuel as [|fuel]; [lia|].
      pose proof (length_frame r (proj1 Hr)). rewrite length_app in Hfuel.
      destruct (IH fuel (pre ++ frame r) rest') as (n & Hn & Hrun & Hp & Hmax); [done|lia|done| |].
      { by rewrite <-app_assoc. }
      exists (S n). split; [simpl; lia|]. split; [|split].
      * rewrite replay_frames_step by done. rewrite <-app_assoc in Hrun. by rewrite Hrun.
      * simpl take. rewrite frames_of_cons. by apply prefix_app.
      * intros r' Hr'. simpl take. rewrite frames_of_cons, <-app_assoc.
        intros ?%prefix_app_inv. by eapply Hmax.
    + exists 0%nat. split; [simpl; lia|]. split; [|split; [apply prefix_nil|]].
      * apply (replay_frames_torn fuel p pre r).
        -- apply Hr.
        -- destruct (prefix_weak_total rest (frame r) (frame r ++ frames_of rs)); [done| |done|done].
           by apply prefix_app_r.
        -- intros ->. by apply Hnp.
        -- done.
      * intros r' [= <-]. simpl. done.
Qed.

Lemma replay_frames_all p rs pre fuel :
  (length (frames_of rs) < fuel)%nat → Forall checksummed rs → in_memory (pre ++ frames_of rs) →
  replay_frames fuel p (pre ++ frames_of rs) (length pre) = Ok rs.
Proof.
  intros Hfuel Hok Hmem.
  destruct (replay_frames_prefix p rs fuel pre (frames_of rs)) as (n & Hn & Hrun & _ & Hmax); try done.
  destruct (rs !! n) as [r|] eqn:Hr.
  - exfalso. apply (Hmax r eq_refl). rewrite <-(take_drop n rs) at 2.
    rewrite (drop_S _ _ _ Hr), frames_of_app, frames_of_cons, app_assoc. by apply prefix_app_r.
  - rewrite Hrun. apply lookup_ge_None in Hr. by rewrite take_ge.
Qed.

Lemma replay_segment_all p rs : Forall checksummed rs → in_memory (frames_of rs) →
  replay_segment p (frames_of rs) = Ok rs.
Proof. intros. unfold replay_segment. apply (replay_frames_all p rs []); [lia|done..]. Qed.
End frames.

(** ** Segment names *)

Lemma segment_stem id : name_stem (segment_file_name id) = fmt_020 id.
Proof. unfold name_stem, segment_file_name. by rewrite rsplit_dot_app. Qed.

Lemma segment_extension id : name_extension (segment_file_name id) = Some WAL_FILE_EXTENSION.
Proof. unfold name_extension, segment_file_name. by rewrite rsplit_dot_app. Qed.

Lemma segment_id_bound id : (id ≤ u64_max → id < 10 ^ N.of_nat 20)%N.
Proof. unfold u64_max. simpl. lia. Qed.

Lemma segment_file_name_compare a b : (a ≤ u64_max → b ≤ u64_max →
  String.compare (segment_file_name a) (segment_file_name b) = (a ?= b))%N.
Proof. intros Ha Hb. apply dec_fixed_compare; by apply segment_id_bound. Qed.

Lemma segment_file_name_le a b : (a ≤ u64_max → b ≤ u64_max → a ≤ b →
  String.le (segment_file_name a) (segment_file_name b))%N.
Proof.
  intros Ha Hb Hab. unfold String.le, String.leb. rewrite segment_file_name_compare by done.
  destruct (N.compare_spec a b); simpl; (done || lia).
Qed.

Lemma segment_file_name_inj a b : (a ≤ u64_max → b ≤ u64_max →
  segment_file_name a = segment_file_name b → a = b)%N.
Proof.
  intros Ha Hb Heq. pose proof (segment_file_name_compare a b Ha Hb) as Hc.
  rewrite Heq in Hc. rewrite segment_file_name_compare, N.compare_refl in Hc by done.
  by apply N.compare_eq.
Qed.

Lemma segment_id_parse id dir : (id ≤ u64_max)%N →
  segment_id_from_path (segment_file_name id :: dir) = Some id.
Proof.
  intros Hid. unfold segment_id_from_path. rewrite segment_stem. unfold parse_u64, parse_unsigned.
  pose proof (segment_id_bound id Hid) as Hb.
  assert (Hp : parse_digits u64_max 0 (fmt_020 id) = Some id).
  { unfold fmt_020. rewrite parse_digits_dec_fixed; simpl; [done|lia..]. }
  revert Hp. unfold fmt_020. cbn [dec_fixed]. intros Hp. rewrite decide_False; [done|].
  intros Heq. pose proof (digit_is_digit _ (div_pow10_lt 19 id Hb)) as Hdig.
  by rewrite Heq in Hdig.
Qed.

(** ** The state of a log on disk

    [wal_state l w chunks]: the segments of [l] on the disk [w] are [chunks], pairs
    of a segment id and the records framed in it, in id order. *)

Definition segment_path (root : Path) (id : N) : Path := segment_file_name id :: root.

Lemma segment_path_inj root a b : (a ≤ u64_max → b ≤ u64_max →
  segment_path root a = segment_path root b → a = b)%N.
Proof.
  intros Ha Hb Heq. apply segment_file_name_inj; [done..|].
  by apply (f_equal (default "" ∘ head)) in Heq.
Qed.

Definition next_after (rs : list WalRecord) : N :=
  match list.last rs with Some r => (lsn_of r + 1)%N | None => 1%N end.

Section state.
Context `{WalCodecLaws}.

Abbreviation Chunks := (list (N * list WalRecord)).
Definition all_records (chunks : Chunks) : list WalRecord := concat chunks.*2.

Record dir_state (root : Path) (w : World) (chunks : Chunks) : Prop := {
  ds_faults : faults w = [];
  ds_failpoint : wal_failpoint w = None;
  ds_root : is_dir w root = true;
  ds_ancestors : Forall (λ p, p ∈ dirs w ∧ files w !! p = None) (ancestors root);
  ds_no_dir : ∀ id, segment_path root id ∉ dirs w;
  ds_ids : StronglySorted N.lt chunks.*1;
  ds_id_bound : Forall (λ id, (id ≤ u64_max)%N) chunks.*1;
  ds_entries : ∀ name, name_extension name = Some WAL_FILE_EXTENSION →
    (name ∈ entries_of w root ↔ ∃ id, id ∈ chunks.*1 ∧ name = segment_file_name id);
  ds_files : ∀ id rs, (id, rs) ∈ chunks → files w !! segment_path root id = Some (frames_of rs);
  ds_sums : Forall checksummed (all_records chunks);
  ds_memory : in_memory (frames_of (all_records chunks));
}.

Record wal_state (l : Wal) (w : World) (chunks : Chunks) : Prop := {
  ws_dir : dir_state (wal_root_dir l) w chunks;
  ws_active : active_segment_id l = default 1%N (list.last chunks.*1);
  ws_next : next_lsn l = next_after (all_records chunks);
}.

Lemma all_records_cons id rs chunks : all_records ((id, rs) :: chunks) = rs ++ all_records chunks.
Proof. done. Qed.
Lemma all_records_app c1 c2 : all_records (c1 ++ c2) = all_records c1 ++ all_records c2.
Proof. unfold all_records. by rewrite fmap_app, concat_app. Qed.

Lemma sorted_ids_NoDup (l : list N) : StronglySorted N.lt l → NoDup l.
Proof.
  induction 1 as [|x l Hs IH Hx]; constructor; [|done].
  intros Hin. rewrite list.Forall_forall in Hx. specialize (Hx x Hin). lia.
Qed.

(** The listing is the segment files in id order. *)
Lemma list_segment_paths_ok root w chunks : dir_state root w chunks →
  list_segment_paths root w = (Ok (segment_path root <$> chunks.*1), w).
Proof.
  intros Hd. pose proof (ds_id_bound _ _ _ Hd) as Hb. rewrite list.Forall_forall in Hb.
  unfold list_segment_paths, fs_read_dir, io_try. unfold mbind, sm_bind.
  rewrite fs_call_ok by apply Hd. unfold mbind, sm_bind, sm_get. rewrite (ds_root _ _ _ Hd).
  unfold mret, sm_ret. simpl. f_equal. f_equal.
  enough (filter (λ name, name_extension name = Some WAL_FILE_EXTENSION) (entries_of w root)
    = segment_file_name <$> chunks.*1) as -> by (by rewrite <-list_fmap_compose).
  apply (StronglySorted_unique String.le).
  - apply StronglySorted_filter, entries_sorted.
  - pose proof (ds_ids _ _ _ Hd) as Hs. revert Hs Hb. generalize (chunks.*1) as ids.
    induction 1 as [|id ids Hs IH Hid]; intros Hb; simpl; constructor.
    + apply IH. intros x Hx. apply Hb. by right.
    + apply list.Forall_forall. intros name (x & -> & Hx)%list_elem_of_fmap.
      rewrite list.Forall_forall in Hid. specialize (Hid x Hx).
      apply segment_file_name_le; [apply Hb; left|apply Hb; by right|lia].
  - apply NoDup_Permutation.
    + apply list.NoDup_filter, entries_NoDup.
    + apply NoDup_fmap_2_strong; [|by apply sorted_ids_NoDup, Hd].
      intros a b Ha Hb'. apply segment_file_name_inj; by apply Hb.
    + intros name. rewrite list_elem_of_filter, list_elem_of_fmap. split.
      * intros [He Hin]. apply (ds_entries _ _ _ Hd name He) in Hin as (id & ? & ->). eauto.
      * intros (id & -> & Hin). split; [apply segment_extension|].
        apply (ds_entries _ _ _ Hd); [apply segment_extension|eauto].
Qed.

Definition total_bytes (chunks : Chunks) : N := N.of_nat (length (frames_of (all_records chunks))).

Lemma total_bytes_cons id rs chunks :
  total_bytes ((id, rs) :: chunks) = (N.of_nat (length (frames_of rs)) + total_bytes chunks)%N.
Proof. unfold total_bytes. rewrite all_records_cons, frames_of_app, length_app. lia. Qed.

Lemma replay_paths_ok root max chunks : ∀ w acc, faults w = [] →
  (∀ id rs, (id, rs) ∈ chunks → files w !! segment_path root id = Some (frames_of rs)) →
  Forall checksummed (all_records chunks) →
  (acc + total_bytes chunks < 2 ^ 63)%N → (acc + total_bytes chunks ≤ max)%N →
  replay_paths max acc (segment_path root <$> chunks.*1) w = (Ok (all_records chunks), w).
Proof.
  induction chunks as [|[id rs] chunks IH]; intros w acc Hf Hfiles Hok Hmem Hmax; [done|].
  rewrite total_bytes_cons in *. rewrite all_records_cons in *.
  apply list.Forall_app in Hok as [Hok1 Hok2]. csimpl.
  unfold io_try, mbind, sm_bind. rewrite (fs_read_ok _ _ (frames_of rs)) by (auto; apply Hfiles; left).
  cbn [map_err]. rewrite u64_add_small by (unfold u64_modulus; lia).
  rewrite (proj2 (N.ltb_ge max _)) by lia. unfold sm_lift.
  rewrite replay_segment_all by (unfold in_memory; try done; lia).
  assert (Hfiles' : ∀ id rs, (id, rs) ∈ chunks →
    files w !! segment_path root id = Some (frames_of rs)) by (intros; apply Hfiles; by right).
  by rewrite IH by (done || lia).
Qed.

(** Replay gives back every record of every segment, in order. *)
Lemma replay_ok root max w chunks : dir_state root w chunks → (total_bytes chunks ≤ max)%N →
  replay_from_dir root max w = (Ok (all_records chunks), w).
Proof.
  intros Hd Hmax. unfold replay_from_dir. unfold mbind, sm_bind.
  rewrite (list_segment_paths_ok _ _ _ Hd). apply replay_paths_ok; try apply Hd; lia.
Qed.

Lemma dir_state_no_file root w chunks id : dir_state root w chunks → id ∉ chunks.*1 →
  (id ≤ u64_max)%N → files w !! segment_path root id = None.
Proof.
  intros Hd Hid Hb. destruct (files w !! segment_path root id) as [bs|] eqn:Hf; [|done].
  destruct Hid. assert (Hin : segment_file_name id ∈ entries_of w root).
  { apply elem_of_entries. left. unfold segment_path in Hf. eauto. }
  apply (ds_entries _ _ _ Hd _ (segment_extension id)) in Hin as (id' & Hin & Heq).
  apply segment_file_name_inj in Heq; [by subst|done|].
  pose proof (ds_id_bound _ _ _ Hd) as Hbd. rewrite list.Forall_forall in Hbd. auto.
Qed.

(** What appending one frame to the last, or to a new, segment does. *)
Definition extend (root : Path) (id : N) (old : bytes) (r : WalRecord) (w : World) : World :=
  set_files (<[segment_path root id := old ++ frame r]> (files w)) w.

Lemma StronglySorted_ids_snoc (l : list N) x :
  StronglySorted N.lt (l ++ [x]) ↔ StronglySorted N.lt l ∧ Forall (λ y, (y < x)%N) l.
Proof.
  induction l as [|y l IH]; simpl.
  - split; [intros _; split; constructor|]. intros _. repeat constructor.
  - split.
    + intros [Hs Hy]%StronglySorted_inv. apply IH in Hs as [Hs Hl].
      apply list.Forall_app in Hy as [Hy Hyx]. apply list.Forall_cons in Hyx as [Hyx _].
      split; constructor; done.
    + intros [[Hs Hy]%StronglySorted_inv [Hyx Hl]%list.Forall_cons]. constructor; [by apply IH|].
      apply list.Forall_app. split; [done|]. by constructor.
Qed.

Lemma entries_insert w root id bs name : is_Some (files w !! segment_path root id) ∨ True →
  name ∈ entries_of (set_files (<[segment_path root id := bs]> (files w)) w) root ↔
  name = segment_file_name id ∨ name ∈ entries_of w root.
Proof.
  intros _. rewrite !elem_of_entries. simpl. rewrite lookup_insert_is_Some.
  unfold segment_path. split.
  - intros [[Heq|[_ ?]]|?]; [left; by apply (f_equal (default "" ∘ head)) in Heq|auto..].
  - intros [->|[?|?]]; [by left; left| |by right].
    left. destruct (decide (segment_file_name id :: root = name :: root)); auto.
Qed.

Lemma ancestors_length p q : q ∈ ancestors p → (length q ≤ length p)%nat.
Proof.
  induction p as [|n d IH]; simpl; [by intros ?%elem_of_nil|].
  intros [->|Hin]%elem_of_cons; [done|]. specialize (IH Hin). lia.
Qed.

Lemma dir_state_extend root w c tail id rs r :
  (tail = [] ∧ rs = [] ∨ tail = [(id, rs)]) →
  dir_state root w (c ++ tail) → Forall (λ i, (i < id)%N) c.*1 → (id ≤ u64_max)%N →
  checksummed r → in_memory (frames_of (all_records (c ++ tail) ++ [r])) →
  dir_state root (extend root id (frames_of rs) r w) (c ++ [(id, rs ++ [r])]) ∧
  all_records (c ++ [(id, rs ++ [r])]) = all_records (c ++ tail) ++ [r].
Proof.
  intros Htail Hd Hlt Hid Hr Hmem.
  assert (Hall : all_records (c ++ [(id, rs ++ [r])]) = all_records (c ++ tail) ++ [r]).
  { rewrite !all_records_app. destruct Htail as [[-> ->]| ->]; simpl;
      rewrite ?all_records_cons; unfold all_records; simpl; by rewrite ?app_nil_r, ?app_assoc. }
  split; [|done]. rewrite ?fmap_app in *.
  assert (Hsub : ∀ i, i ∈ (c ++ tail).*1 → i ∈ c.*1 ∨ i = id).
  { intros i. rewrite fmap_app, elem_of_app. destruct Htail as [[-> ->]| ->]; set_solver. }
  destruct Hd as [Hf Hfp Hroot Hanc Hnd Hs Hb He Hfiles Hsums _]. rewrite ?fmap_app in *.
  split; simpl; try done; rewrite ?fmap_app; simpl.
  - apply list.Forall_forall. intros p Hp. pose proof (ancestors_length _ _ Hp) as Hlp.
    rewrite list.Forall_forall in Hanc. destruct (Hanc p Hp). split; [done|].
    unfold segment_path. rewrite lookup_insert_ne; [done|]. intros <-. simpl in Hlp. lia.
  - apply StronglySorted_ids_snoc. split; [|done].
    clear -Hs. revert Hs. generalize (tail.*1). intros l. induction (c.*1) as [|i l' IH]; simpl.
    + constructor.
    + intros [Hs Hi]%StronglySorted_inv. apply list.Forall_app in Hi as [Hi _].
      constructor; auto.
  - apply list.Forall_app in Hb as [Hb _]. apply list.Forall_app. split; [done|by constructor].
  - intros name Hext. unfold extend. rewrite entries_insert by auto. rewrite (He name Hext).
    setoid_rewrite elem_of_app at 2. setoid_rewrite list_elem_of_singleton. split.
    + intros [->|(i & Hi & ->)]; [exists id; by auto|].
      apply Hsub in Hi as [?| ->]; [exists i | exists id]; auto.
    + intros (i & [Hi|Hi] & ->); [right; exists i; split; [by apply elem_of_app; left|done]|].
      subst. by left.
  - intros i rsi [Hin|Heq%list_elem_of_singleton]%elem_of_app.
    + rewrite lookup_insert_ne; [apply Hfiles, elem_of_app; by left|].
      assert (Hi : i ∈ c.*1) by (apply list_elem_of_fmap; by exists (i, rsi)).
      rewrite list.Forall_forall in Hlt, Hb. specialize (Hlt i Hi).
      intros Heq%segment_path_inj; [lia|done|]. by apply Hb, elem_of_app; left.
    + simplify_eq. rewrite lookup_insert_eq, frames_of_app, frames_of_cons.
      by rewrite (app_nil_r (frame r)).
  - rewrite Hall. apply list.Forall_app. split; [done|by constructor].
  - by rewrite Hall.
Qed.

Definition new_record (lsn : N) (kind : WalRecordKind) (payload : bytes) : WalRecord :=
  mkRecord (mkHeader lsn kind (N.of_nat (length payload)) (crc32 payload) 1) payload.

Lemma new_record_checksummed lsn kind payload :
  (lsn < u64_modulus)%N → (N.of_nat (length payload) ≤ u32_max)%N →
  checksummed (new_record lsn kind payload).
Proof.
  intros Hl Hp. unfold u32_max in Hp. split; [|apply N.eqb_refl].
  split; simpl; [done|lia|apply crc32_bound|done|lia].
Qed.

Lemma WalRecord_new_Ok lsn kind payload : (N.of_nat (length payload) ≤ u32_max)%N →
  WalRecord_new lsn kind payload = Ok (new_record lsn kind payload).
Proof. intros Hl. unfold WalRecord_new. by rewrite (proj2 (N.ltb_ge _ _)). Qed.

Lemma encode_record_frame r : record_fits r → encode_record r = Ok (frame r).
Proof. intros Hfit. by destruct (frame_spec r Hfit) as (? & _ & ? & _). Qed.

(** The segment the next frame goes to. *)
Definition target_segment (l : Wal) (w : World) (incoming : N) : N :=
  let len := match files w !! active_segment_path l with
             | Some bs => N.of_nat (length bs) | None => 0%N end in
  if ((0 <? len)%N && (rt_segment_size_bytes (wal_runtime l) <? u64_add len incoming)%N)
  then u64_add (active_segment_id l) 1 else active_segment_id l.

Lemma rotate_run l w incoming : faults w = [] →
  rotate_if_needed incoming (w, l) = (Ok tt, (w,
    mkWal (wal_root_dir l) (wal_runtime l) (target_segment l w incoming) (next_lsn l))).
Proof.
  intros Hf. unfold rotate_if_needed, target_segment, mbind, sm_bind, sm_get, on_world.
  rewrite fs_len_ok by done. unfold sm_modify, mret, sm_ret.
  destruct l as [root rt active next]. unfold active_segment_path.
  cbn [wal_root_dir wal_runtime active_segment_id next_lsn]. by case_match.
Qed.

(** The state a frame of [r] is added to. *)
Record ready (l : Wal) (w : World) : Prop := {
  rd_faults : faults w = [];
  rd_failpoint : wal_failpoint w = None;
  rd_root : is_dir w (wal_root_dir l) = true;
  rd_no_dir : ∀ id, segment_path (wal_root_dir l) id ∉ dirs w;
}.

Lemma open_append_ok l w id : ready l w →
  fs_open_append (segment_path (wal_root_dir l) id) w =
    (Ok tt, match files w !! segment_path (wal_root_dir l) id with
            | Some _ => w
            | None => set_files (<[segment_path (wal_root_dir l) id := []]> (files w)) w
            end).
Proof.
  intros [Hf Hfp Hroot Hnd]. unfold fs_open_append. rewrite fs_call_ok by done.
  unfold segment_path at 1. unfold mbind, sm_bind, sm_get.
  rewrite Hroot. replace (is_dir w _) with false.
  2: { symmetry. unfold is_dir. apply bool_decide_eq_false. intros [?|Hd]; [done|].
       by apply (Hnd id). }
  simpl. unfold segment_path. by destruct (files w !! _).
Qed.

Lemma append_run l w kind payload : ready l w →
  (N.of_nat (length payload) ≤ u32_max)%N → (next_lsn l < u64_modulus)%N →
  let r := new_record (next_lsn l) kind payload in
  let id := target_segment l w (N.of_nat (length (frame r))) in
  append kind payload (w, l) = (Ok r,
    (extend (wal_root_dir l) id (default [] (files w !! segment_path (wal_root_dir l) id)) r w,
     mkWal (wal_root_dir l) (wal_runtime l) id (u64_add (next_lsn l) 1))).
Proof.
  intros Hready Hlen Hlsn r id. unfold append, mbind, sm_bind, sm_get, io_res, sm_lift.
  rewrite WalRecord_new_Ok by done. cbn [map_err]. fold r.
  rewrite encode_record_frame by (by apply new_record_checksummed). cbn [map_err].
  rewrite rotate_run by apply Hready. fold id.
  unfold active_segment_path. cbn [wal_root_dir active_segment_id wal_runtime next_lsn].
  fold (segment_path (wal_root_dir l) id). unfold on_world at 1. unfold io_try at 1.
  rewrite open_append_ok by done. cbn [map_err].
  set (w1 := match files w !! segment_path (wal_root_dir l) id with Some _ => w | None => _ end).
  assert (Hf1 : faults w1 = [] ∧ wal_failpoint w1 = None).
  { unfold w1. destruct (files w !! _); simpl; split; apply Hready. }
  destruct Hf1 as [Hf1 Hfp1].
  assert (Hold : files w1 !! segment_path (wal_root_dir l) id =
    Some (default [] (files w !! segment_path (wal_root_dir l) id))).
  { unfold w1. destruct (files w !! segment_path (wal_root_dir l) id) eqn:Hp; simpl; [done|].
    by rewrite lookup_insert_eq. }
  assert (Hext : set_files (<[segment_path (wal_root_dir l) id :=
      default [] (files w !! segment_path (wal_root_dir l) id) ++ frame r]> (files w1)) w1 =
    extend (wal_root_dir l) id (default [] (files w !! segment_path (wal_root_dir l) id)) r w).
  { unfold extend, w1. destruct (files w !! segment_path (wal_root_dir l) id); simpl; [done|].
    unfold set_files; simpl. by rewrite insert_insert_eq. }
  unfold on_world at 1. unfold maybe_fail_wal_io at 1, mbind, sm_bind, sm_get.
  rewrite Hfp1. cbn [failpoint_matches]. unfold mret at 1, sm_ret at 1.
  unfold on_world at 1. unfold io_try at 1. rewrite (fs_append_ok _ _ _ _ Hf1 Hold), Hext.
  cbn [map_err]. case_decide; [|done].
  unfold on_world, maybe_fail_wal_io, mbind, sm_bind, sm_get.
  cbn [extend set_files wal_failpoint]. rewrite (rd_failpoint _ _ Hready).
  cbn [failpoint_matches]. unfold mret at 1, sm_ret at 1. unfold io_try, fs_sync.
  by rewrite fs_call_ok by (simpl; apply Hready).
Qed.

Lemma ids_snoc (c : Chunks) id rs : (c ++ [(id, rs)]).*1 = c.*1 ++ [id].
Proof. by rewrite fmap_app. Qed.

(** Files of other directories are left alone. *)
Definition same_elsewhere (root : Path) (w w' : World) : Prop :=
  dirs w' = dirs w ∧ faults w' = faults w ∧ wal_failpoint w' = wal_failpoint w ∧
  storage_failpoint w' = storage_failpoint w ∧
  ∀ p, tail p ≠ root → files w' !! p = files w !! p.

Lemma extend_elsewhere root id old r w : same_elsewhere root w (extend root id old r w).
Proof.
  repeat split. intros p Hp. unfold extend. simpl. rewrite lookup_insert_ne; [done|].
  intros <-. done.
Qed.

Lemma wal_state_ready l w chunks : wal_state l w chunks → ready l w.
Proof. intros [Hd _ _]. split; apply Hd. Qed.

Lemma target_segment_cases l w chunks incoming :
  wal_state l w chunks → (active_segment_id l < u64_max)%N →
  ∃ c tail rs, chunks = c ++ tail ∧
    (tail = [] ∧ rs = [] ∨ tail = [(target_segment l w incoming, rs)]) ∧
    Forall (λ i, (i < target_segment l w incoming)%N) c.*1 ∧
    (target_segment l w incoming ≤ u64_max)%N ∧
    default [] (files w !! segment_path (wal_root_dir l) (target_segment l w incoming)) = frames_of rs.
Proof.
  intros [Hd Ha _] Hmax. unfold target_segment, active_segment_path.
  fold (segment_path (wal_root_dir l) (active_segment_id l)).
  destruct chunks as [|[i rs] c _] using rev_ind.
  - simpl in Ha. rewrite Ha. assert (Hnone : files w !! segment_path (wal_root_dir l) 1 = None).
    { eapply dir_state_no_file; [done|by apply not_elem_of_nil|by vm_compute]. }
    rewrite Hnone. simpl. exists [], [], []. split; [done|]. split; [by left|].
    split; [constructor|]. split; [by vm_compute|]. by rewrite Hnone.
  - rewrite ids_snoc, last_snoc in Ha. simpl in Ha.
    pose proof (ds_files _ _ _ Hd i rs) as Hfile.
    rewrite Ha, Hfile by (apply elem_of_app; right; by apply list_elem_of_singleton).
    pose proof (ds_ids _ _ _ Hd) as Hs. rewrite ids_snoc in Hs.
    apply StronglySorted_ids_snoc in Hs as [Hs Hlt].
    case_match.
    + rewrite u64_add_small by (unfold u64_modulus, u64_max in *; lia).
      assert (Hnot : ∀ j, j ∈ (c ++ [(i, rs)]).*1 → (j < i + 1)%N).
      { intros j. rewrite ids_snoc, elem_of_app. intros [Hj|Hj%list_elem_of_singleton].
        - rewrite list.Forall_forall in Hlt. specialize (Hlt j Hj). lia.
        - lia. }
      exists (c ++ [(i, rs)]), [], []. split; [by rewrite app_nil_r|]. split; [by left|].
      split; [by apply list.Forall_forall|]. split; [unfold u64_max in *; lia|].
      erewrite dir_state_no_file; [done|done| |unfold u64_max in *; lia].
      intros Hin%Hnot. lia.
    + exists c, [(i, rs)], rs. split; [done|]. split; [by right|]. split; [done|].
      split; [lia|].
      by rewrite Hfile by (apply elem_of_app; right; by apply list_elem_of_singleton).
Qed.

(** Appending to a log adds its record to what replay gives, whether or not the
    frame opens a new segment. *)
Lemma append_ok l w chunks kind payload :
  wal_state l w chunks → (N.of_nat (length payload) ≤ u32_max)%N →
  (next_lsn l < u64_max)%N → (active_segment_id l < u64_max)%N →
  let r := new_record (next_lsn l) kind payload in
  in_memory (frames_of (all_records chunks ++ [r])) →
  ∃ l' w' chunks', append kind payload (w, l) = (Ok r, (w', l')) ∧
    wal_state l' w' chunks' ∧ all_records chunks' = all_records chunks ++ [r] ∧
    wal_root_dir l' = wal_root_dir l ∧ wal_runtime l' = wal_runtime l ∧
    next_lsn l' = (next_lsn l + 1)%N ∧ (active_segment_id l' ≤ active_segment_id l + 1)%N ∧
    same_elsewhere (wal_root_dir l) w w'.
Proof.
  intros Hst Hlen Hnext Hact r Hmem.
  assert (Hlsn : (next_lsn l < u64_modulus)%N) by (unfold u64_modulus, u64_max in *; lia).
  pose proof (append_run l w kind payload (wal_state_ready _ _ _ Hst) Hlen Hlsn) as Hrun.
  fold r in Hrun. cbn zeta in Hrun.
  destruct (target_segment_cases l w chunks (N.of_nat (length (frame r))) Hst Hact)
    as (c & tl & rs & -> & Htail & Hlt & Hid & Hold).
  assert (Hle : (target_segment l w (N.of_nat (length (frame r))) ≤ active_segment_id l + 1)%N).
  { unfold target_segment. case_match; [|lia].
    rewrite u64_add_small by (unfold u64_modulus, u64_max in *; lia). lia. }
  set (id := target_segment l w (N.of_nat (length (frame r)))) in *.
  rewrite Hold in Hrun.
  destruct (dir_state_extend (wal_root_dir l) w c tl id rs r Htail) as [Hd Hall]; try done.
  { apply Hst. }
  { by apply new_record_checksummed. }
  eexists _, _, _. split; [exact Hrun|]. split; [|split; [exact Hall|]].
  - split; cbn [wal_root_dir active_segment_id next_lsn]; [exact Hd| |].
    + by rewrite ids_snoc, last_snoc.
    + rewrite Hall. unfold next_after. rewrite last_snoc.
      change (u64_add (next_lsn l) 1 = next_lsn l + 1)%N. apply u64_add_small. unfold u64_modulus, u64_max in *. lia.
  - cbn [wal_root_dir wal_runtime next_lsn active_segment_id].
    repeat (split; [done|]). split; [|split; [done|apply extend_elsewhere]].
    apply u64_add_small. unfold u64_modulus, u64_max in *. lia.
Qed.

Lemma create_dir_all_again p w : faults w = [] →
  Forall (λ q, q ∈ dirs w ∧ files w !! q = None) (ancestors p) →
  fs_create_dir_all p w = (Ok tt, w).
Proof.
  intros Hf Hanc. unfold fs_create_dir_all. rewrite fs_call_ok by done. unfold_sm.
  rewrite list.Forall_forall in Hanc.
  replace (existsb (is_file w) (ancestors p)) with false.
  - unfold set_dirs. assert (list_to_set (ancestors p) ∪ dirs w = dirs w) as ->; [|by destruct w].
    apply set_eq. intros q. rewrite elem_of_union, elem_of_list_to_set. split; [|auto].
    intros [Hq|]; [by apply Hanc|done].
  - symmetry. apply not_true_iff_false. rewrite existsb_exists.
    intros (q & Hq%list_elem_of_In & Hfile). apply bool_decide_eq_true in Hfile as [bs Hbs].
    destruct (Hanc q Hq). congruence.
Qed.

(** Reopening finds the segment and the LSN to go on with. *)
Lemma open_ok root config w chunks : dir_state root w chunks →
  (total_bytes chunks ≤ max_replay_bytes config)%N →
  (next_after (all_records chunks) ≤ u64_max)%N →
  Wal_open root config w = (Ok (mkWal root (runtime_from_config config)
    (default 1%N (list.last chunks.*1)) (next_after (all_records chunks))), w).
Proof.
  intros Hd Hmax Hnext. unfold Wal_open, io_try, mbind, sm_bind.
  rewrite create_dir_all_again by apply Hd. cbn [map_err].
  rewrite (replay_ok _ _ _ chunks) by done. rewrite (list_segment_paths_ok _ _ _ Hd).
  unfold mret, sm_ret. do 2 f_equal. rewrite fmap_last.
  assert ((list.last chunks.*1 ≫= λ id, segment_id_from_path (segment_path root id))
    = list.last chunks.*1) as Hids.
  { destruct (list.last chunks.*1) as [id|] eqn:Hl; [|reflexivity].
    cbn [mbind option_bind]. apply segment_id_parse. pose proof (ds_id_bound _ _ _ Hd) as Hb.
    rewrite list.Forall_forall in Hb. by apply Hb, last_Some_elem_of. }
  f_equal.
  - f_equal. rewrite <-Hids at 2. destruct (list.last chunks.*1); reflexivity.
  - unfold next_after in *. destruct (list.last (all_records chunks)); [|done].
    apply u64_add_small. clear -Hnext. unfold u64_max, u64_modulus in *. lia.
Qed.

Lemma wal_state_open root config w chunks : dir_state root w chunks →
  wal_state (mkWal root (runtime_from_config config)
    (default 1%N (list.last chunks.*1)) (next_after (all_records chunks))) w chunks.
Proof. by split. Qed.

(** A run of appends. *)
Fixpoint append_all (ops : list (WalRecordKind * bytes)) : wal_m (list WalRecord) :=
  match ops with
  | [] => mret []
  | (kind, payload) :: ops => r ← append kind payload; rs ← append_all ops; mret (r :: rs)
  end.

Fixpoint new_records (lsn : N) (ops : list (WalRecordKind * bytes)) : list WalRecord :=
  match ops with
  | [] => []
  | (kind, payload) :: ops => new_record lsn kind payload :: new_records (lsn + 1) ops
  end.

Lemma in_memory_app rs1 rs2 : in_memory (frames_of (rs1 ++ rs2)) → in_memory (frames_of rs1).
Proof. unfold in_memory. rewrite frames_of_app, length_app. lia. Qed.

Lemma append_all_ok ops : ∀ l w chunks,
  wal_state l w chunks →
  Forall (λ '(_, payload), (N.of_nat (length payload) ≤ u32_max)%N) ops →
  (next_lsn l + N.of_nat (length ops) ≤ u64_max)%N →
  (active_segment_id l + N.of_nat (length ops) ≤ u64_max)%N →
  in_memory (frames_of (all_records chunks ++ new_records (next_lsn l) ops)) →
  ∃ l' w' chunks', append_all ops (w, l) = (Ok (new_records (next_lsn l) ops), (w', l')) ∧
    wal_state l' w' chunks' ∧
    all_records chunks' = all_records chunks ++ new_records (next_lsn l) ops ∧
    wal_root_dir l' = wal_root_dir l ∧ wal_runtime l' = wal_runtime l ∧
    next_lsn l' = (next_lsn l + N.of_nat (length ops))%N.
Proof.
  induction ops as [|[kind payload] ops IH]; intros l w chunks Hst Hlen Hnext Hact Hmem.
  - exists l, w, chunks. simpl. rewrite app_nil_r. repeat (split; [done|]). simpl. lia.
  - apply list.Forall_cons in Hlen as [Hlen1 Hlen]. cbn [new_records length] in *.
    destruct (append_ok l w chunks kind payload) as (l1 & w1 & c1 & Hrun & Hst1 & Hall & Hr & Hrt & Hn & Ha & _);
      [done|done|lia|lia| |].
    { eapply in_memory_app. rewrite <-app_assoc. exact Hmem. }
    destruct (IH l1 w1 c1) as (l2 & w2 & c2 & Hrun2 & Hst2 & Hall2 & Hr2 & Hrt2 & Hn2);
      [done|done|lia|lia| |].
    { rewrite Hall, Hn, <-app_assoc. exact Hmem. }
    exists l2, w2, c2. cbn [append_all]. unfold mbind, sm_bind. rewrite Hrun, Hrun2, Hn.
    split; [done|]. split; [done|]. split; [by rewrite Hall2, Hall, Hn, <-app_assoc|].
    split; [congruence|]. split; [congruence|]. rewrite Hn2, Hn. lia.
Qed.

End state.

(** ** Past the frames of a segment *)

(** Whatever the disk does, an append that succeeds used the next LSN and moved on,
    and one that fails did not. *)
Lemma on_world_self {X A} (m : io A) w (x : X) r w' x' :
  on_world m (w, x) = (r, (w', x')) → x' = x.
Proof. unfold on_world. destruct (m w). by intros [= _ _ ->]. Qed.

Lemma rotate_next `{WalCodec} incoming w l r w' l' :
  rotate_if_needed incoming (w, l) = (r, (w', l')) → next_lsn l' = next_lsn l.
Proof.
  unfold rotate_if_needed. intros Hrun. sm_inv Hrun; sm_pure Hm.
  sm_inv Hrun; destruct st as [w1 l1]; apply on_world_self in Hm as ->; [|by simplify_eq].
  case_match; sm_pure Hrun; done.
Qed.

Lemma sync_self p (c : bool) w l r w' (l' : Wal) :
  (if c then on_world (maybe_fail_wal_io "append_fsync" p) ;;
     on_world (io_try (λ e, Io ("failed to fsync WAL segment: " +:+ e)) (fs_sync p))
   else mret tt) (w, l) = (r, (w', l')) → l' = l.
Proof.
  destruct c; intros Hrun; [|by sm_pure Hrun].
  sm_inv Hrun; destruct st as [w1 l1]; apply on_world_self in Hm as ->; [|by simplify_eq].
  by apply on_world_self in Hrun.
Qed.

(** Whatever the disk does, an append that succeeds used the next LSN and moved on,
    and one that fails did not. *)
Lemma append_lsn `{WalCodec} kind payload w l r w' l' :
  append kind payload (w, l) = (r, (w', l')) →
  match r with
  | Ok record => lsn_of record = next_lsn l ∧ next_lsn l' = u64_add (next_lsn l) 1
  | Err _ => next_lsn l' = next_lsn l
  end.
Proof.
  unfold append. intros Hrun. sm_inv Hrun; sm_pure Hm.
  sm_inv Hrun; [|unfold io_res in Hm; sm_pure Hm; by simplify_eq].
  unfold io_res in Hm. sm_pure Hm. rename a into record.
  assert (Hlsn : lsn_of record = next_lsn l).
  { unfold WalRecord_new in *. case_match; simpl in *; by simplify_eq. }
  sm_inv Hrun; [|unfold io_res in Hm; sm_pure Hm; by simplify_eq]. unfold io_res in Hm. sm_pure Hm.
  sm_inv Hrun; destruct st as [w1 l1]; apply rotate_next in Hm; [|by simplify_eq].
  rewrite <-Hm. rewrite <-Hm in Hlsn. sm_inv Hrun; sm_pure Hm0.
  do 3 (sm_inv Hrun; destruct st as [? l2]; apply on_world_self in Hm0 as ->; [|by simplify_eq]).
  sm_inv Hrun; destruct st as [? l3]; revert Hm0; case_decide; intros Hm0;
    apply (sync_self _ true) in Hm0 || apply (sync_self [] false) in Hm0; simplify_eq; [..|done|done].
  all: sm_inv Hrun; sm_pure Hm0; sm_pure Hrun; by split.
Qed.

Section tails.
Context `{WalCodecLaws}.

Lemma replay_frames_run p rs : ∀ fuel pre rest,
  Forall checksummed rs → in_memory (pre ++ frames_of rs ++ rest) →
  replay_frames (length rs + fuel) p (pre ++ frames_of rs ++ rest) (length pre) =
    (records ← replay_frames fuel p (pre ++ frames_of rs ++ rest) (length (pre ++ frames_of rs));
     mret (rs ++ records)).
Proof.
  induction rs as [|r rs IH]; intros fuel pre rest Hok Hmem.
  - simpl. rewrite app_nil_r. by destruct (replay_frames fuel p _ _).
  - apply list.Forall_cons in Hok as [Hr Hok]. rewrite frames_of_cons, <-app_assoc in *.
    cbn [length Nat.add]. rewrite replay_frames_step by done.
    specialize (IH fuel (pre ++ frame r) rest Hok). rewrite <-!app_assoc in IH.
    rewrite IH by done. by destruct (replay_frames fuel p _ _).
Qed.

Lemma length_frames rs : Forall checksummed rs → (length rs ≤ length (frames_of rs))%nat.
Proof.
  induction 1 as [|r rs [Hr _] _ IH]; [done|]. rewrite frames_of_cons, length_app.
  pose proof (length_frame r Hr). simpl. lia.
Qed.

Lemma replay_segment_run p rs rest : Forall checksummed rs → in_memory (frames_of rs ++ rest) →
  ∃ fuel, (length rest < fuel)%nat ∧ replay_segment p (frames_of rs ++ rest) =
    (records ← replay_frames fuel p (frames_of rs ++ rest) (length (frames_of rs));
     mret (rs ++ records)).
Proof.
  intros Hok Hmem. pose proof (length_frames rs Hok) as Hlen.
  exists (S (length (frames_of rs ++ rest)) - length rs)%nat. rewrite length_app.
  split; [lia|]. unfold replay_segment. rewrite length_app.
  replace (S (length (frames_of rs) + length rest))
    with (length rs + (S (length (frames_of rs) + length rest) - length rs))%nat at 1 by lia.
  by rewrite (replay_frames_run p rs _ [] rest).
Qed.

(** A frame whose announced length runs past the file ends the replay of it. *)
Lemma replay_frames_past_end fuel p pre r rest :
  record_fits r → (8 ≤ length rest)%nat → take 8 rest = take 8 (frame r) →
  (length rest < length (frame r))%nat → in_memory (pre ++ rest) →
  replay_frames fuel p (pre ++ rest) (length pre) = Ok [].
Proof.
  destruct fuel as [|fuel]; [done|]. intros Hfit H8 Htake Hlt Hmem.
  destruct (frame_spec r Hfit) as (body & _ & _ & Hf & Hb). unfold in_memory in Hmem.
  rewrite Hf in *. unfold to_le_bytes in *. rewrite length_app, length_le_bytes in *.
  rewrite take_app_length' in Htake by (by rewrite length_le_bytes).
  cbn [replay_frames]. rewrite (length_app pre rest) in *.
  rewrite (proj2 (Nat.leb_le _ _)) by lia.
  rewrite drop_app_length, Htake, from_le_bytes by (simpl; lia).
  rewrite u64_add_small by (unfold u64_modulus; lia).
  by rewrite (proj2 (N.ltb_lt _ _)) by lia.
Qed.

(** ** Properties *)

(** C35: Whatever number of bytes of a run of frames reached a segment file, replay
    of the file succeeds and gives exactly the records whose frames are complete
    in it, in order. *)
Theorem torn_segment_replays_prefix p rs bs :
  Forall checksummed rs → in_memory bs → bs `prefix_of` frames_of rs →
  ∃ n, replay_segment p bs = Ok (take n rs) ∧ frames_of (take n rs) `prefix_of` bs ∧
    (∀ r, rs !! n = Some r → ¬ frames_of (take (S n) rs) `prefix_of` bs).
Proof.
  intros Hok Hmem Hpre.
  destruct (replay_frames_prefix p rs (S (length bs)) [] bs Hpre) as (n & _ & Hrun & Hp & Hmax);
    [lia|done..|].
  exists n. split; [done|]. split; [done|]. intros r Hr.
  rewrite (take_S_r _ _ _ Hr), frames_of_app, frames_of_cons, (app_nil_r (frame r)). by apply Hmax.
Qed.

(** C34: On a working disk a run of appends to a log succeeds with consecutive LSNs;
    replay then gives the old records followed by the new ones, across whatever
    segment rotations happened, and opening the log again yields the same log. *)
Theorem appends_replay_and_reopen config l w chunks ops :
  wal_state l w chunks → wal_runtime l = runtime_from_config config →
  Forall (λ '(_, payload), (N.of_nat (length payload) ≤ u32_max)%N) ops →
  (next_lsn l + N.of_nat (length ops) ≤ u64_max)%N →
  (active_segment_id l + N.of_nat (length ops) ≤ u64_max)%N →
  let rs := new_records (next_lsn l) ops in
  in_memory (frames_of (all_records chunks ++ rs)) →
  (N.of_nat (length (frames_of (all_records chunks ++ rs))) ≤ max_replay_bytes config)%N →
  ∃ l' w', append_all ops (w, l) = (Ok rs, (w', l')) ∧
    lsn_of <$> rs = (λ i, next_lsn l + N.of_nat i)%N <$> seq 0 (length ops) ∧
    replay l' w' = (Ok (all_records chunks ++ rs), w') ∧
    Wal_open (wal_root_dir l') config w' = (Ok l', w').
Proof.
  intros Hst Hrt Hlen Hnext Hact rs Hmem Hmax.
  destruct (append_all_ok ops l w chunks) as (l' & w' & c' & Hrun & [Hd Ha Hn] & Hall & Hroot & Hrt' & Hn');
    [done..|].
  exists l', w'. split; [done|]. split; [|split].
  - unfold rs. clear. generalize (next_lsn l) as n. induction ops as [|[k b] ops IH]; intros n; [done|].
    cbn [new_records length seq]. rewrite !fmap_cons, IH, <-fmap_S_seq, <-list_fmap_compose.
    f_equal; [unfold lsn_of; simpl; lia|]. apply list_fmap_ext. intros i x _. simpl. lia.
  - unfold replay. rewrite (replay_ok _ _ _ c' Hd); [by rewrite Hall|].
    rewrite Hrt', Hrt. unfold total_bytes. by rewrite Hall.
  - rewrite (open_ok _ config w' c' Hd); [|unfold total_bytes; by rewrite Hall|rewrite <-Hn, Hn'; lia].
    do 2 f_equal. rewrite <-Ha, <-Hn, <-Hrt, <-Hrt'. by destruct l'.
Qed.

(** A complete frame whose payload does not match its checksum makes the replay
    fail with a corruption error, whatever precedes and follows it. *)
Theorem checksum_mismatch_is_corruption p rs bad rest :
  Forall checksummed rs → record_fits bad → verify_checksum bad = false →
  in_memory (frames_of rs ++ frame bad ++ rest) →
  replay_segment p (frames_of rs ++ frame bad ++ rest) =
    Err (Error (Corruption ("WAL checksum mismatch in '" +:+ path_display p +:+ "'"))).
Proof.
  intros Hok Hfit Hbad Hmem.
  destruct (replay_segment_run p rs (frame bad ++ rest) Hok Hmem) as (fuel & Hfuel & ->).
  destruct fuel as [|fuel]; [lia|].
  rewrite (replay_frames_corrupt fuel p (frames_of rs) bad rest) by done. done.
Qed.

(** A torn frame is not cut off when the log is opened again: the next frame is
    written after it, and replay loses that frame although its append succeeded
    (here, while the torn frame's announced length reaches past the new frame). *)
Theorem torn_tail_hides_next_append p rs r torn next :
  Forall checksummed rs → record_fits r →
  torn `prefix_of` frame r → (8 ≤ length torn)%nat →
  (length torn + length (frame next) < length (frame r))%nat →
  in_memory (frames_of rs ++ torn ++ frame next) →
  replay_segment p (frames_of rs ++ torn) = Ok rs ∧
  replay_segment p ((frames_of rs ++ torn) ++ frame next) = Ok rs.
Proof.
  intros Hok Hfit [tl Htl] H8 Hlt Hmem.
  assert (Htake : ∀ rest, take 8 (torn ++ rest) = take 8 (frame r)).
  { intros rest. by rewrite Htl, !take_app_le by lia. }
  assert (Hgen : ∀ rest, (length (torn ++ rest) < length (frame r))%nat →
    in_memory (frames_of rs ++ torn ++ rest) →
    replay_segment p (frames_of rs ++ torn ++ rest) = Ok rs).
  { intros rest Hrest Hm. destruct (replay_segment_run p rs (torn ++ rest) Hok Hm) as (fuel & _ & ->).
    rewrite (replay_frames_past_end fuel p _ r) by (try done; rewrite ?length_app; auto with lia).
    simpl. by rewrite app_nil_r. }
  rewrite <-app_assoc. split.
  - rewrite <-(app_nil_r torn). apply Hgen; rewrite ?app_nil_r; [lia|].
    unfold in_memory in *. rewrite !length_app in *. lia.
  - apply Hgen; [rewrite length_app; lia|done].
Qed.

(** A length header of eight 0xFF bytes after valid frames does not end the
    replay with an error value: the [usize] addition wraps and the slice panics. *)
Theorem corrupt_length_panics p rs rest :
  Forall checksummed rs → in_memory (frames_of rs ++ replicate 8 Byte.xff ++ rest) →
  ∃ msg, replay_segment p (frames_of rs ++ replicate 8 Byte.xff ++ rest) = Err (Panic msg).
Proof.
  intros Hok Hmem. eexists.
  destruct (replay_segment_run p rs _ Hok Hmem) as (fuel & Hfuel & ->).
  destruct fuel as [|fuel]; [lia|]. unfold in_memory in Hmem. cbn [replay_frames].
  rewrite drop_app_length, take_app_length' by done. rewrite !length_app in *. simpl length in *.
  rewrite (proj2 (Nat.leb_le _ _)) by lia.
  assert (Hwrap : u64_add (N.of_nat (length (frames_of rs) + 8)) (from_le (replicate 8 Byte.xff))
    = (N.of_nat (length (frames_of rs)) + 7)%N).
  { unfold u64_add. replace (from_le (replicate 8 Byte.xff)) with u64_max by (by vm_compute).
    symmetry. apply (N.mod_unique _ _ 1); unfold u64_modulus, u64_max; lia. }
  rewrite Hwrap. rewrite (proj2 (N.ltb_ge _ _)) by lia. by rewrite (proj2 (N.ltb_lt _ _)) by lia.
Qed.
End tails.

(** ** A concrete codec

    Fixed-width fields and a 32-bit mixing checksum: it satisfies the laws, and
    lets the witnesses run the log. *)
Module Demo.

Definition kind_byte (k : WalRecordKind) : Byte.byte :=
  match k with
  | KWriteBatch => Byte.x00 | KCheckpoint => Byte.x01
  | KManifestSync => Byte.x02 | KConsolidationEvent => Byte.x03
  end.
Definition byte_kind (b : Byte.byte) : option WalRecordKind :=
  match b with
  | Byte.x00 => Some KWriteBatch | Byte.x01 => Some KCheckpoint
  | Byte.x02 => Some KManifestSync | Byte.x03 => Some KConsolidationEvent
  | _ => None
  end.

Definition encode (r : WalRecord) : bytes :=
  let h := header r in
  kind_byte (h_kind h) :: le_bytes 8 (h_lsn h) ++ le_bytes 4 (h_payload_len h) ++
    le_bytes 4 (h_payload_crc32 h) ++ le_bytes 2 (h_format_version h) ++ payload r.

Definition decode (bs : bytes) : option WalRecord :=
  match bs with
  | [] => None
  | k :: bs =>
    kind ← byte_kind k;
    if (length bs <? 18)%nat then None else
    let lsn := from_le (take 8 bs) in let bs := drop 8 bs in
    let len := from_le (take 4 bs) in let bs := drop 4 bs in
    let crc := from_le (take 4 bs) in let bs := drop 4 bs in
    let version := from_le (take 2 bs) in
    Some (mkRecord (mkHeader lsn kind len crc version) (drop 2 bs))
  end.

Definition checksum (bs : bytes) : N :=
  foldr (λ b acc, (Byte.to_N b + 31 * acc) mod 2 ^ 32)%N 7%N bs.

#[global] Instance codec : WalCodec := {|
  crc32 := checksum;
  encode_wal_record r := Ok (encode r);
  decode_wal_record bs := ok_or (decode bs) "unexpected end of input";
  encode_marker m := Ok (to_le_bytes (cm_last_applied_lsn m));
  decode_marker bs := Ok (mkMarker (from_le bs));
|}.

Lemma checksum_bound bs : (checksum bs < 2 ^ 32)%N.
Proof. destruct bs as [|b bs]; [by vm_compute|]. cbn [checksum foldr]. by apply N.mod_lt. Qed.

Lemma take_le w x rest : take w (le_bytes w x ++ rest) = le_bytes w x.
Proof. apply take_app_length'. by rewrite length_le_bytes. Qed.
Lemma drop_le w x rest : drop w (le_bytes w x ++ rest) = rest.
Proof. apply drop_app_length'. by rewrite length_le_bytes. Qed.

Lemma decode_encode r : record_fits r → decode (encode r) = Some r.
Proof.
  intros [Hlsn Hlen Hcrc Hver _]. destruct r as [[lsn kind len crc ver] body].
  unfold lsn_of in Hlsn. cbn [header h_lsn h_payload_len h_payload_crc32 h_format_version] in *.
  unfold encode, decode. cbn [header payload].
  cbn [h_lsn h_kind h_payload_len h_payload_crc32 h_format_version].
  assert (byte_kind (kind_byte kind) = Some kind) as -> by (by destruct kind).
  cbn [mbind option_bind]. rewrite !length_app, !length_le_bytes.
  destruct (Nat.ltb_spec (8 + (4 + (4 + (2 + length body)))) 18) as [|_]; [lia|].
  repeat (rewrite ?take_le, ?drop_le).
  by rewrite !from_le_bytes.
Qed.

#[global] Instance laws : WalCodecLaws.
Proof.
  split.
  - apply checksum_bound.
  - intros r Hr. exists (encode r). split; [done|]. split.
    + change (decode_wal_record (encode r)) with (ok_or (E := string) (decode (encode r)) "unexpected end of input").
      by rewrite decode_encode.
    + unfold encode. cbn [length]. rewrite !length_app, !length_le_bytes. lia.
  - intros m Hm. exists (to_le_bytes (cm_last_applied_lsn m)). split; [done|]. split.
    + unfold to_le_bytes. cbn [decode_marker codec]. f_equal. rewrite from_le_bytes by done.
      by destruct m.
    + unfold to_le_bytes. rewrite length_le_bytes. lia.
Qed.

Definition world : World := mkWorld ∅ {[ ["wal"] ]} [] None None.
Definition config (size : N) : WalConfig := mkWalConfig size true 1000000.
Definition log (size : N) : Wal := mkWal ["wal"] (runtime_from_config (config size)) 1 1.

Lemma empty_state size : wal_state (log size) world [].
Proof.
  split; [split|done|done].
  - done.
  - done.
  - by vm_compute.
  - repeat constructor; simpl; set_solver.
  - intros id. unfold segment_path. simpl. set_solver.
  - constructor.
  - constructor.
  - intros name Hext. split; [|intros (? & ?%elem_of_nil & _); done].
    rewrite elem_of_entries. simpl. intros [[? ?]|Hin]; [done|].
    apply elem_of_singleton in Hin. simplify_eq.
  - intros id rs Hin. by apply elem_of_nil in Hin.
  - constructor.
  - by vm_compute.
Qed.

End Demo.

Section witnesses.
Import Demo.

Definition demo_ops : list (WalRecordKind * bytes) :=
  [(KWriteBatch, [Byte.x01; Byte.x02; Byte.x03]); (KCheckpoint, [Byte.x04]); (KWriteBatch, [])].
Definition demo_records : list WalRecord := new_records 1 demo_ops.

Lemma demo_records_checksummed : Forall checksummed demo_records.
Proof. repeat constructor; by vm_compute. Qed.

Lemma torn_segment_replays_prefix_witness :
  let bs := take 60 (frames_of demo_records) in
  ∃ n, replay_segment ["a.wal"] bs = Ok (take n demo_records) ∧
    frames_of (take n demo_records) `prefix_of` bs ∧
    (∀ r, demo_records !! n = Some r → ¬ frames_of (take (S n) demo_records) `prefix_of` bs).
Proof.
  intros bs. apply (torn_segment_replays_prefix ["a.wal"] demo_records bs).
  - apply demo_records_checksummed.
  - by vm_compute.
  - exists (drop 60 (frames_of demo_records)). symmetry. apply take_drop.
Defined.

Lemma appends_replay_and_reopen_witness :
  let l := log 70 in
  let rs := new_records 1 demo_ops in
  ∃ l' w', append_all demo_ops (world, l) = (Ok rs, (w', l')) ∧
    lsn_of <$> rs = (λ i, 1 + N.of_nat i)%N <$> seq 0 3 ∧
    replay l' w' = (Ok (all_records [] ++ rs), w') ∧
    Wal_open (wal_root_dir l') (config 70) w' = (Ok l', w').
Proof.
  intros l rs. apply (appends_replay_and_reopen (config 70) l world [] demo_ops).
  - apply empty_state.
  - done.
  - repeat constructor; by vm_compute.
  - by vm_compute.
  - by vm_compute.
  - by vm_compute.
  - by vm_compute.
Defined.

(** The run above does use more than one segment. *)
Example demo_rotates : ∃ w' l',
  append_all demo_ops (world, log 70) = (Ok demo_records, (w', l')) ∧ active_segment_id l' = 2%N.
Proof. eexists _, _. split; vm_compute; reflexivity. Qed.

Definition demo_bad : WalRecord := mkRecord (mkHeader 2 KWriteBatch 1 12345 1) [Byte.x09].

Lemma checksum_mismatch_is_corruption_witness :
  replay_segment ["a.wal"] (frames_of demo_records ++ frame demo_bad ++ [Byte.x00]) =
    Err (Error (Corruption "WAL checksum mismatch in 'a.wal'")).
Proof.
  apply (checksum_mismatch_is_corruption ["a.wal"] demo_records demo_bad [Byte.x00]).
  - apply demo_records_checksummed.
  - split; by vm_compute.
  - by vm_compute.
  - by vm_compute.
Defined.

Lemma torn_tail_hides_next_append_witness :
  let r := new_record 4 KWriteBatch (replicate 40 Byte.x07) in
  let torn := take 20 (frame r) in
  let next := new_record 4 KWriteBatch [Byte.x01] in
  replay_segment ["a.wal"] (frames_of demo_records ++ torn) = Ok demo_records ∧
  replay_segment ["a.wal"] ((frames_of demo_records ++ torn) ++ frame next) = Ok demo_records.
Proof.
  intros r torn next. apply (torn_tail_hides_next_append ["a.wal"] demo_records r torn next).
  - apply demo_records_checksummed.
  - split; by vm_compute.
  - exists (drop 20 (frame r)). symmetry. apply take_drop.
  - vm_compute. lia.
  - vm_compute. lia.
  - by vm_compute.
Defined.

Lemma corrupt_length_panics_witness :
  ∃ msg, replay_segment ["a.wal"] (frames_of demo_records ++ replicate 8 Byte.xff ++ [Byte.x00])
    = Err (Panic msg).
Proof.
  apply (corrupt_length_panics ["a.wal"] demo_records [Byte.x00]).
  - apply demo_records_checksummed.
  - by vm_compute.
Defined.

(** The disk fails the fourth call of an append, its [sync_data]. *)
Definition fsync_fault_world : World :=
  mkWorld ∅ {[ ["wal"] ]} [None; None; None; Some ("Input/output error (os error 5)", 0%nat)]
    None None.

(** An append whose fsync fails returns the error with its frame already in the
    segment and the LSN not advanced: the next append reuses the LSN, and replay
    gives both records, the refused one first. *)
Theorem failed_fsync_duplicates_lsn :
  ∃ w1 w2 l2,
    append KWriteBatch [Byte.x01] (fsync_fault_world, log 4096) =
      (Err (Error (Io "failed to fsync WAL segment: Input/output error (os error 5)")),
       (w1, log 4096)) ∧
    append KWriteBatch [Byte.x02] (w1, log 4096) =
      (Ok (new_record 1 KWriteBatch [Byte.x02]), (w2, l2)) ∧
    replay l2 w2 =
      (Ok [new_record 1 KWriteBatch [Byte.x01]; new_record 1 KWriteBatch [Byte.x02]], w2).
Proof.
  eexists _, _, _. split; [vm_compute; reflexivity|].
  split; vm_compute; reflexivity.
Qed.
End witnesses.
