(* ===== verification/Batch.v ===== *)
(** * [crates/storage]: write batches on the node and edge maps

    Validation, application and effects of a [WriteBatch], the version histories a
    commit leaves for open transactions, and what a transaction sees at the
    revision it began.  The node and edge loops of the source are one definition
    over the key and value types, as [visible_value_at_revision] already is. *)
From S2P Require Import Prelude RustStd Common Core.

#[local] Open Scope string_scope.
#[local] Open Scope list_scope.

Abbreviation Nodes := (gmap NodeId NodeRecord).
Abbreviation Edges := (gmap EdgeId EdgeRecord).
Definition Maps : Type := (Nodes * Edges).

(** ** Validation and application *)

(** [str::split_once(':')], keeping the part before. *)
Definition namespace_of (id : NodeId) : option string :=
  fst <$> (split_once ":"%char (node_id_str id)).

Definition validate_namespaced_edge (e : EdgeRecord) : Res unit :=
  if decide (namespace_of (edge_source e) = namespace_of (edge_target e)) then Ok tt
  else Err (Validation ("edge '" +:+ edge_id_str (edge_id e) +:+
    "' cannot cross namespaces between '" +:+ node_id_str (edge_source e) +:+ "' and '" +:+
    node_id_str (edge_target e) +:+ "'")).

(** [for x in l { check(x)?; }]. *)
Fixpoint result_each {A} (check : A → Res unit) (l : list A) : Res unit :=
  match l with
  | [] => Ok tt
  | x :: l => check x ;; result_each check l
  end.

Definition normalize_write_batch (b : WriteBatch) : Res WriteBatch :=
  result_each normalize_memory_metadata (nodes_upserted b) ;;
  result_each validate_namespaced_edge (edges_upserted b) ;;
  mret b.

Definition upserted_node_ids (b : WriteBatch) : gset NodeId :=
  list_to_set (node_id <$> nodes_upserted b).

Definition missing_endpoint (which : string) (id : NodeId) : Undr9Error :=
  Validation ("edge " +:+ which +:+ " node '" +:+ node_id_str id +:+ "' does not exist").

Definition validate_endpoints (nodes : Nodes) (upserted : gset NodeId) (e : EdgeRecord) : Res unit :=
  if (negb (bool_decide (is_Some (nodes !! edge_source e)))
      && negb (bool_decide (edge_source e ∈ upserted))) then
    Err (missing_endpoint "source" (edge_source e))
  else if (negb (bool_decide (is_Some (nodes !! edge_target e)))
      && negb (bool_decide (edge_target e ∈ upserted))) then
    Err (missing_endpoint "target" (edge_target e))
  else Ok tt.

Definition validate_batch_against_maps (nodes : Nodes) (b : WriteBatch) : Res unit :=
  if is_nil (edges_upserted b) then Ok tt
  else result_each (validate_endpoints nodes (upserted_node_ids b)) (edges_upserted b).

Definition insert_all {K V} `{Countable K} (key : V → K) (l : list V) (m : gmap K V) : gmap K V :=
  foldl (λ m v, <[key v := v]> m) m l.
Definition remove_all {K V} `{Countable K} (l : list K) (m : gmap K V) : gmap K V :=
  foldl (λ m k, delete k m) m l.

Definition deleted_nodes (b : WriteBatch) : gset NodeId := list_to_set (deleted_node_ids b).

(** [edges.retain(..)]. *)
Definition retain_edges (deleted : gset NodeId) (edges : Edges) : Edges :=
  filter (λ '(_, e), (edge_source e ∉ deleted) ∧ (edge_target e ∉ deleted)) edges.

Definition apply_batch_to_maps_unchecked (b : WriteBatch) (m : Maps) : Maps :=
  let '(nodes, edges) := m in
  let nodes := insert_all node_id (nodes_upserted b) nodes in
  let edges := insert_all edge_id (edges_upserted b) edges in
  let deleted := deleted_nodes b in
  let nodes := remove_all (bset_elements deleted) nodes in
  let edges := if decide (deleted = ∅) then edges else retain_edges deleted edges in
  (nodes, remove_all (deleted_edge_ids b) edges).

Definition apply_batch_to_maps (b : WriteBatch) (m : Maps) : Res Maps :=
  validate_batch_against_maps m.1 b ;; mret (apply_batch_to_maps_unchecked b m).

Definition batch_for_operation (op : TransactionOperation) : WriteBatch :=
  match op with
  | UpsertNode node => mkBatch [node] [] [] []
  | UpsertEdge edge => mkBatch [] [edge] [] []
  | DeleteNode id => mkBatch [] [] [id] []
  | DeleteEdge id => mkBatch [] [] [] [id]
  end.

Definition merge_write_batches (existing incoming : WriteBatch) : WriteBatch :=
  mkBatch (nodes_upserted existing ++ nodes_upserted incoming)
    (edges_upserted existing ++ edges_upserted incoming)
    (deleted_node_ids existing ++ deleted_node_ids incoming)
    (deleted_edge_ids existing ++ deleted_edge_ids incoming).

(** ** Effects *)

Record BatchEffects := mkEffects {
  touched_node_ids : gset NodeId;
  touched_edge_ids : gset EdgeId;
}.

Definition extend_touched_sets (touched : BatchEffects) (b : WriteBatch) : BatchEffects :=
  mkEffects
    (touched_node_ids touched ∪ list_to_set (node_id <$> nodes_upserted b)
      ∪ list_to_set (deleted_node_ids b))
    (touched_edge_ids touched ∪ list_to_set (edge_id <$> edges_upserted b)
      ∪ list_to_set (deleted_edge_ids b)).

Definition incident_to (deleted : gset NodeId) (e : EdgeRecord) : Prop :=
  edge_source e ∈ deleted ∨ edge_target e ∈ deleted.
#[global] Instance incident_to_dec deleted e : Decision (incident_to deleted e).
Proof. unfold incident_to. apply _. Defined.

Definition batch_effects (edges : Edges) (b : WriteBatch) : BatchEffects :=
  let touched := extend_touched_sets (mkEffects ∅ ∅) b in
  let deleted := deleted_nodes b in
  if decide (deleted = ∅) then touched
  else mkEffects (touched_node_ids touched)
    (foldl (λ ids e, if decide (incident_to deleted e) then {[edge_id e]} ∪ ids else ids)
      (touched_edge_ids touched) (btree_values edges)).

(** ** Versions *)

Record VersionedValue (T : Type) := mkVersion { vv_revision : N; vv_value : option T }.
Arguments mkVersion {T}.
Arguments vv_revision {T}.
Arguments vv_value {T}.

(** Change the last entry when it has this revision, push otherwise. *)
Definition append_version_entry {T} (revision : N) (value : option T)
    (history : list (VersionedValue T)) : list (VersionedValue T) :=
  match list.last history with
  | Some entry =>
    if decide (vv_revision entry = revision) then removelast history ++ [mkVersion revision value]
    else history ++ [mkVersion revision value]
  | None => [mkVersion revision value]
  end.

Abbreviation Lineage K := (gmap K N).
Abbreviation Versions K T := (gmap K (list (VersionedValue T))).

Section versions.
Context {K T : Type} `{Countable K, OrdKey K}.

(** [append_version_entry(versions.entry(key).or_default(), revision, value)]. *)
Definition push_version (key : K) (revision : N) (value : option T) (versions : Versions K T) : Versions K T :=
  <[key := append_version_entry revision value (default [] (versions !! key))]> versions.

Definition preserve_versions (touched : gset K) (live : gmap K T) (lineage : Lineage K)
    (versions : Versions K T) : Versions K T :=
  foldl (λ versions key,
    match lineage !! key with
    | Some revision => push_version key revision (live !! key) versions
    | None => versions
    end) versions (bset_elements touched).

Definition record_versions (touched : gset K) (live : gmap K T) (revision : N)
    (versions : Versions K T) : Versions K T :=
  foldl (λ versions key, push_version key revision (live !! key) versions)
    versions (bset_elements touched).

(** [versions.iter().rev().find(|entry| entry.revision <= revision)]. *)
Definition last_at (revision : N) (history : list (VersionedValue T)) : option T :=
  List.find (λ e, (vv_revision e <=? revision)%N) (rev history) ≫= vv_value.

Definition visible_value_at_revision (key : K) (revision : N) (live : gmap K T) (lineage : Lineage K)
    (history : Versions K T) : option T :=
  match lineage !! key with
  | Some current_revision =>
    if (current_revision <=? revision)%N then live !! key
    else history !! key ≫= last_at revision
  | None => history !! key ≫= last_at revision
  end.

End versions.

Abbreviation NodeVersions := (Versions NodeId NodeRecord).
Abbreviation EdgeVersions := (Versions EdgeId EdgeRecord).
Definition History : Type := NodeVersions * EdgeVersions.

Definition preserve_historical_versions (effects : BatchEffects) (m : Maps)
    (lineage : Lineage NodeId * Lineage EdgeId) (history : History) : History :=
  (preserve_versions (touched_node_ids effects) m.1 lineage.1 history.1,
   preserve_versions (touched_edge_ids effects) m.2 lineage.2 history.2).

Definition record_versions_after_commit (effects : BatchEffects) (m : Maps) (revision : N)
    (history : History) : History :=
  (record_versions (touched_node_ids effects) m.1 revision history.1,
   record_versions (touched_edge_ids effects) m.2 revision history.2).

Definition visible_node_at_revision (id : NodeId) (revision : N) (nodes : Nodes)
    (lineage : Lineage NodeId) (versions : NodeVersions) : option NodeRecord :=
  visible_value_at_revision id revision nodes lineage versions.
Definition visible_edge_at_revision (id : EdgeId) (revision : N) (edges : Edges)
    (lineage : Lineage EdgeId) (versions : EdgeVersions) : option EdgeRecord :=
  visible_value_at_revision id revision edges lineage versions.

(** [edges] are the maps after the batch: an edge id that was never there keeps no
    lineage. *)
Definition update_lineage_for_batch (effects : BatchEffects)
    (lineage : Lineage NodeId * Lineage EdgeId) (edges : Edges) (revision : N)
    : Lineage NodeId * Lineage EdgeId :=
  (foldl (λ l id, <[id := revision]> l) lineage.1 (bset_elements (touched_node_ids effects)),
   foldl (λ l id,
     if decide (is_Some (edges !! id) ∨ is_Some (l !! id)) then <[id := revision]> l else l)
     lineage.2 (bset_elements (touched_edge_ids effects))).

(** ** What a batch leaves *)

Lemma result_each_Ok {A} (check : A → Res unit) l :
  result_each check l = Ok tt ↔ Forall (λ x, check x = Ok tt) l.
Proof.
  induction l as [|x l IH]; cbn [result_each]; [split; [constructor|done]|].
  rewrite result_seq_Ok, IH, list.Forall_cons. done.
Qed.

(** The last element of a list with a key: the one that wins an insertion run. *)
Definition last_with {K V} `{EqDecision K} (key : V → K) (k : K) (l : list V) : option V :=
  list.last (filter (λ v, key v = k) l).

Section maps.
Context {K V : Type} `{Countable K} (key : V → K).

Lemma lookup_insert_all l (m : gmap K V) k :
  insert_all key l m !! k = match last_with key k l with Some v => Some v | None => m !! k end.
Proof.
  unfold insert_all, last_with. revert m. induction l as [|v l IH] using rev_ind; intros m; [done|].
  rewrite foldl_app. simpl. rewrite list.filter_app, filter_cons, filter_nil. case_decide as Hk.
  - rewrite last_snoc. by rewrite <-Hk, lookup_insert_eq.
  - rewrite app_nil_r, lookup_insert_ne by done. apply IH.
Qed.

Lemma lookup_remove_all l (m : gmap K V) k :
  remove_all l m !! k = if decide (k ∈ l) then None else m !! k.
Proof.
  unfold remove_all. revert m. induction l as [|k' l IH]; intros m; simpl; [done|].
  rewrite IH. destruct (decide (k ∈ l)) as [Hin|Hin].
  - by rewrite decide_True by (by right).
  - destruct (decide (k = k')) as [->|Hne].
    + rewrite decide_True by left. by rewrite lookup_delete_eq.
    + rewrite decide_False by (by rewrite elem_of_cons; intros [|]).
      by rewrite lookup_delete_ne.
Qed.

Lemma last_with_Some k l v : last_with key k l = Some v → v ∈ l ∧ key v = k.
Proof.
  unfold last_with. intros Hl%last_Some_elem_of. apply list_elem_of_filter in Hl. tauto.
Qed.

Lemma last_with_None k l : last_with key k l = None ↔ k ∉ key <$> l.
Proof.
  unfold last_with. rewrite last_None. rewrite list_elem_of_fmap. split.
  - intros Hl (v & -> & Hv). assert (Hin : v ∈ filter (λ v', key v' = key v) l)
      by (by apply list_elem_of_filter). rewrite Hl in Hin. by apply elem_of_nil in Hin.
  - intros Hn. apply filter_none. intros v Hv Hk. apply Hn. eauto.
Qed.

Lemma last_with_is_Some k l : is_Some (last_with key k l) ↔ k ∈ key <$> l.
Proof.
  rewrite <-not_eq_None_Some, last_with_None. destruct (decide (k ∈ key <$> l)); tauto.
Qed.
End maps.

(** The value a batch leaves under an id: deletions win over upserts, and the last
    upsert over the others; an edge goes with either of its deleted endpoints. *)
Definition node_after (b : WriteBatch) (nodes : Nodes) (id : NodeId) : option NodeRecord :=
  if decide (id ∈ deleted_node_ids b) then None
  else match last_with node_id id (nodes_upserted b) with Some n => Some n | None => nodes !! id end.

Definition edge_after (b : WriteBatch) (edges : Edges) (id : EdgeId) : option EdgeRecord :=
  if decide (id ∈ deleted_edge_ids b) then None
  else
    e ← match last_with edge_id id (edges_upserted b) with Some e => Some e | None => edges !! id end;
    if decide (incident_to (deleted_nodes b) e) then None else Some e.

Lemma lookup_retain_edges deleted (edges : Edges) id :
  retain_edges deleted edges !! id =
    e ← edges !! id; if decide (incident_to deleted e) then None else Some e.
Proof.
  unfold retain_edges. rewrite map_lookup_filter. destruct (edges !! id) as [e|]; [|done]. simpl.
  unfold incident_to. repeat case_guard || case_decide; naive_solver.
Qed.

Lemma apply_batch_nodes b m id :
  (apply_batch_to_maps_unchecked b m).1 !! id = node_after b m.1 id.
Proof.
  destruct m as [nodes edges]. unfold apply_batch_to_maps_unchecked, node_after. simpl.
  rewrite lookup_remove_all, lookup_insert_all.
  apply decide_ext. unfold deleted_nodes. by rewrite elem_of_bset_elements, elem_of_list_to_set.
Qed.

Lemma apply_batch_edges b m id :
  (apply_batch_to_maps_unchecked b m).2 !! id = edge_after b m.2 id.
Proof.
  destruct m as [nodes edges]. unfold apply_batch_to_maps_unchecked, edge_after. simpl.
  rewrite lookup_remove_all. case_decide; [done|].
  destruct (decide (deleted_nodes b = ∅)) as [He|He].
  - rewrite lookup_insert_all. destruct (last_with _ _ _) as [e|]; simpl.
    + rewrite decide_False; [done|]. unfold incident_to. rewrite He. set_solver.
    + destruct (edges !! id) as [e|]; simpl; [|done].
      rewrite decide_False; [done|]. unfold incident_to. rewrite He. set_solver.
  - rewrite lookup_retain_edges, lookup_insert_all. done.
Qed.

(** ** The invariant of the maps *)

Record maps_wf (m : Maps) : Prop := {
  mw_node_key : ∀ id n, m.1 !! id = Some n → node_id n = id;
  mw_edge_key : ∀ id e, m.2 !! id = Some e → edge_id e = id;
  mw_source : ∀ id e, m.2 !! id = Some e → is_Some (m.1 !! edge_source e);
  mw_target : ∀ id e, m.2 !! id = Some e → is_Some (m.1 !! edge_target e);
  mw_namespace : ∀ id e, m.2 !! id = Some e →
    namespace_of (edge_source e) = namespace_of (edge_target e);
}.

Lemma maps_wf_empty : maps_wf (∅, ∅).
Proof. split; simpl; intros ? ?; by rewrite lookup_empty. Qed.

(** A batch the engine accepts: normalised, and valid against the maps. *)
Record batch_ok (m : Maps) (b : WriteBatch) : Prop := {
  bo_normal : normalize_write_batch b = Ok b;
  bo_valid : validate_batch_against_maps m.1 b = Ok tt;
}.

Lemma normalize_write_batch_id b b' : normalize_write_batch b = Ok b' → b' = b.
Proof.
  unfold normalize_write_batch. intros [_ H]%result_seq_Ok. apply result_seq_Ok in H as [_ H].
  by injection H.
Qed.

Lemma normalize_write_batch_Ok b : normalize_write_batch b = Ok b ↔
  Forall (λ n, normalize_memory_metadata n = Ok tt) (nodes_upserted b) ∧
  Forall (λ e, namespace_of (edge_source e) = namespace_of (edge_target e)) (edges_upserted b).
Proof.
  unfold normalize_write_batch. rewrite !result_seq_Ok, !result_each_Ok.
  assert (Hns : ∀ l, Forall (λ e, validate_namespaced_edge e = Ok tt) l ↔
    Forall (λ e, namespace_of (edge_source e) = namespace_of (edge_target e)) l).
  { intros l. apply Forall_iff. intros e. unfold validate_namespaced_edge. by case_decide. }
  rewrite Hns. naive_solver.
Qed.

Definition endpoint_known (nodes : Nodes) (b : WriteBatch) (id : NodeId) : Prop :=
  is_Some (nodes !! id) ∨ id ∈ node_id <$> nodes_upserted b.

Lemma validate_endpoints_Ok nodes b e : validate_endpoints nodes (upserted_node_ids b) e = Ok tt ↔
  endpoint_known nodes b (edge_source e) ∧ endpoint_known nodes b (edge_target e).
Proof.
  unfold validate_endpoints, endpoint_known, upserted_node_ids. rewrite <-!(elem_of_list_to_set (C := gset NodeId)).
  repeat case_bool_decide; simpl; naive_solver.
Qed.

Lemma validate_batch_Ok nodes b : validate_batch_against_maps nodes b = Ok tt ↔
  Forall (λ e, endpoint_known nodes b (edge_source e) ∧ endpoint_known nodes b (edge_target e))
    (edges_upserted b).
Proof.
  unfold validate_batch_against_maps. destruct (edges_upserted b) as [|e l] eqn:He; simpl is_nil.
  - by split.
  - rewrite result_each_Ok. apply Forall_iff. intros e'. apply validate_endpoints_Ok.
Qed.

Lemma node_after_survives b nodes id :
  endpoint_known nodes b id → id ∉ deleted_nodes b → is_Some (node_after b nodes id).
Proof.
  unfold endpoint_known, deleted_nodes, node_after. rewrite elem_of_list_to_set. intros Hk Hd.
  rewrite decide_False by done. destruct (last_with node_id id (nodes_upserted b)) eqn:Hl; [by eexists|].
  apply last_with_None in Hl. naive_solver.
Qed.

(** The edge a batch leaves is an old one or an upserted one, and neither of its
    endpoints was deleted. *)
Lemma edge_after_Some b edges id e : edge_after b edges id = Some e →
  (edges !! id = Some e ∨ e ∈ edges_upserted b ∧ edge_id e = id) ∧
  (edge_source e ∉ deleted_nodes b) ∧ (edge_target e ∉ deleted_nodes b).
Proof.
  unfold edge_after. case_decide; [done|]. intros (e' & He & Hd)%bind_Some.
  case_decide as Hinc; simplify_eq. unfold incident_to in Hinc. split; [|tauto].
  destruct (last_with edge_id id (edges_upserted b)) eqn:Hl; simplify_eq; [|by left].
  right. by apply last_with_Some in Hl.
Qed.

Lemma apply_batch_wf b m : maps_wf m → batch_ok m b → maps_wf (apply_batch_to_maps_unchecked b m).
Proof.
  intros [Hnk Hek Hs Ht Hns] [Hnorm%normalize_write_batch_Ok Hval%validate_batch_Ok].
  destruct Hnorm as [_ Hnsb]. rewrite list.Forall_forall in Hval, Hnsb.
  split.
  - intros id n. rewrite apply_batch_nodes. unfold node_after. case_decide; [done|].
    destruct (last_with _ _ _) eqn:Hl; [|by apply Hnk].
    intros [= ->]. by apply last_with_Some in Hl as [_ ?].
  - intros id e. rewrite apply_batch_edges. intros [[He|[_ He]] _]%edge_after_Some; [by apply Hek|done].
  - intros id e. rewrite apply_batch_edges, apply_batch_nodes.
    intros (He & Hd & _)%edge_after_Some. apply node_after_survives; [|done].
    destruct He as [He|[He _]]; [left; by eapply Hs|by apply Hval].
  - intros id e. rewrite apply_batch_edges, apply_batch_nodes.
    intros (He & _ & Hd)%edge_after_Some. apply node_after_survives; [|done].
    destruct He as [He|[He _]]; [left; by eapply Ht|by apply Hval].
  - intros id e. rewrite apply_batch_edges. intros [[He|[He _]] _]%edge_after_Some; eauto.
Qed.

(** ** Effects cover the changes *)

Lemma batch_effects_nodes edges b id : id ∈ touched_node_ids (batch_effects edges b) ↔
  id ∈ node_id <$> nodes_upserted b ∨ id ∈ deleted_node_ids b.
Proof.
  unfold batch_effects. case_decide; simpl; rewrite !elem_of_union, !elem_of_list_to_set; set_solver.
Qed.

Lemma foldl_incident deleted l (s : gset EdgeId) id :
  id ∈ foldl (λ ids e, if decide (incident_to deleted e) then {[edge_id e]} ∪ ids else ids) s l ↔
  id ∈ s ∨ ∃ e, e ∈ l ∧ incident_to deleted e ∧ edge_id e = id.
Proof.
  revert s. induction l as [|e l IH]; intros s; simpl; [set_solver|]. rewrite IH.
  case_decide; [rewrite elem_of_union, elem_of_singleton|]; set_solver.
Qed.

Lemma batch_effects_edges edges b id : id ∈ touched_edge_ids (batch_effects edges b) ↔
  id ∈ edge_id <$> edges_upserted b ∨ id ∈ deleted_edge_ids b ∨
  ∃ k e, edges !! k = Some e ∧ incident_to (deleted_nodes b) e ∧ edge_id e = id.
Proof.
  assert (Hbase : id ∈ touched_edge_ids (extend_touched_sets (mkEffects ∅ ∅) b) ↔
    id ∈ edge_id <$> edges_upserted b ∨ id ∈ deleted_edge_ids b).
  { simpl. rewrite !elem_of_union, !elem_of_list_to_set. set_solver. }
  unfold batch_effects. destruct (decide (deleted_nodes b = ∅)) as [He|He].
  - rewrite Hbase. split; [tauto|]. intros [?|[?|(k & e & _ & Hinc & _)]]; [tauto..|].
    rewrite He in Hinc. unfold incident_to in Hinc. set_solver.
  - cbn [touched_edge_ids]. rewrite foldl_incident, Hbase. setoid_rewrite elem_of_btree_values.
    naive_solver.
Qed.

Lemma untouched_node edges b m id : id ∉ touched_node_ids (batch_effects edges b) →
  (apply_batch_to_maps_unchecked b m).1 !! id = m.1 !! id.
Proof.
  rewrite batch_effects_nodes, apply_batch_nodes. intros Hn. unfold node_after.
  rewrite decide_False by tauto.
  destruct (last_with _ _ _) eqn:Hl; [|done]. apply last_with_Some in Hl as [Hl <-].
  destruct Hn. left. by apply list_elem_of_fmap_2.
Qed.

Lemma untouched_edge b m id : (∀ id e, m.2 !! id = Some e → edge_id e = id) →
  id ∉ touched_edge_ids (batch_effects m.2 b) →
  (apply_batch_to_maps_unchecked b m).2 !! id = m.2 !! id.
Proof.
  intros Hkey. rewrite batch_effects_edges, apply_batch_edges. intros Hn. unfold edge_after.
  rewrite decide_False by tauto.
  destruct (last_with _ _ _) as [e|] eqn:Hl.
  { apply last_with_Some in Hl as [Hl <-]. destruct Hn. left. by apply list_elem_of_fmap_2. }
  destruct (m.2 !! id) as [e|] eqn:He; [|done]. simpl. case_decide; [|done].
  destruct Hn. right; right. exists id, e. eauto.
Qed.

(** ** Versions keep what a revision saw *)

Lemma last_at_append {T} r revision (value : option T) h :
  last_at r (append_version_entry revision value h) =
    if (revision <=? r)%N then value else last_at r h.
Proof.
  unfold last_at, append_version_entry.
  assert (Hsnoc : ∀ l, List.find (λ e, (vv_revision e <=? r)%N) (rev (l ++ [mkVersion revision value]))
      ≫= vv_value = if (revision <=? r)%N then value
        else List.find (λ e, (vv_revision e <=? r)%N) (rev l) ≫= vv_value).
  { intros l. rewrite rev_app_distr. simpl. by destruct (revision <=? r)%N. }
  destruct h as [|entry h _] using rev_ind; [apply (Hsnoc [])|].
  rewrite last_snoc. case_decide as Hrev; [|apply Hsnoc].
  rewrite removelast_last, Hsnoc. destruct (revision <=? r)%N eqn:Hle; [done|].
  rewrite rev_app_distr. simpl. by rewrite Hrev, Hle.
Qed.

Section version_lemmas.
Context {K T : Type} `{Countable K, OrdKey K}.
Implicit Types (live : gmap K T) (lineage : Lineage K) (versions : Versions K T).

(** A run over distinct keys whose steps touch their own key only. *)
Lemma foldl_pointwise {V} (f : gmap K V → K → gmap K V) (g : K → option V → option V) l m k :
  (∀ m k, f m k !! k = g k (m !! k)) → (∀ m k k', k ≠ k' → f m k !! k' = m !! k') → NoDup l →
  foldl f m l !! k = if decide (k ∈ l) then g k (m !! k) else m !! k.
Proof.
  intros Hf Hne. revert m. induction l as [|k' l IH]; intros m Hnd; simpl; [done|].
  apply list.NoDup_cons in Hnd as [Hk' Hnd]. rewrite IH by done.
  destruct (decide (k = k')) as [->|Hkk].
  - rewrite decide_False by done. rewrite decide_True by left. apply Hf.
  - rewrite Hne by done. apply decide_ext. rewrite elem_of_cons. naive_solver.
Qed.

Lemma lookup_push_version key revision value versions k :
  push_version key revision value versions !! k =
    if decide (key = k) then Some (append_version_entry revision value (default [] (versions !! k)))
    else versions !! k.
Proof.
  unfold push_version. case_decide; subst; [by rewrite lookup_insert_eq|by rewrite lookup_insert_ne].
Qed.

Lemma lookup_preserve_versions touched live lineage versions k :
  preserve_versions touched live lineage versions !! k =
    match lineage !! k with
    | Some revision => if decide (k ∈ touched) then
        Some (append_version_entry revision (live !! k) (default [] (versions !! k)))
        else versions !! k
    | None => versions !! k
    end.
Proof.
  unfold preserve_versions.
  rewrite (foldl_pointwise _ (λ k o, match lineage !! k with
    | Some revision => Some (append_version_entry revision (live !! k) (default [] o))
    | None => o end)); [| | |apply bset_elements_NoDup].
  - destruct (lineage !! k); [|by case_decide].
    apply decide_ext. apply elem_of_bset_elements.
  - intros m k'. destruct (lineage !! k'); [|done]. rewrite lookup_push_version. by rewrite decide_True.
  - intros m k1 k2 Hne. destruct (lineage !! k1); [|done]. rewrite lookup_push_version.
    by rewrite decide_False.
Qed.

Lemma lookup_record_versions touched live revision versions k :
  record_versions touched live revision versions !! k =
    if decide (k ∈ touched) then
      Some (append_version_entry revision (live !! k) (default [] (versions !! k)))
    else versions !! k.
Proof.
  unfold record_versions.
  rewrite (foldl_pointwise _ (λ k o, Some (append_version_entry revision (live !! k) (default [] o))));
    [| | |apply bset_elements_NoDup].
  - apply decide_ext, elem_of_bset_elements.
  - intros m k'. rewrite lookup_push_version. by rewrite decide_True.
  - intros m k1 k2 Hne. rewrite lookup_push_version. by rewrite decide_False.
Qed.

(** A commit at a later revision does not change what an earlier one sees. *)
Lemma visible_commit touched live live' lineage lineage' versions v r k :
  (r < v)%N →
  ((k ∉ touched) → live' !! k = live !! k ∧ lineage' !! k = lineage !! k) →
  (k ∈ touched → lineage' !! k = Some v ∨ lineage' !! k = None ∧ lineage !! k = None) →
  visible_value_at_revision k r live' lineage'
    (record_versions touched live' v (preserve_versions touched live lineage versions)) =
  visible_value_at_revision k r live lineage versions.
Proof.
  intros Hrv Hun Htouch. unfold visible_value_at_revision.
  rewrite lookup_record_versions, lookup_preserve_versions.
  destruct (decide (k ∈ touched)) as [Hk|Hk].
  - assert (Hold : ∀ h, last_at r (append_version_entry v (live' !! k) h) = last_at r h).
    { intros h. rewrite last_at_append. by destruct (N.leb_spec v r); [lia|]. }
    set (base := match lineage !! k with
      | Some rev => Some (append_version_entry rev (live !! k) (default [] (versions !! k)))
      | None => versions !! k end).
    assert (Hbase : last_at r (default [] base) = match lineage !! k with
      | Some c => if (c <=? r)%N then live !! k else versions !! k ≫= last_at r
      | None => versions !! k ≫= last_at r end).
    { unfold base. destruct (lineage !! k) as [L|]; simpl.
      - rewrite last_at_append. destruct (L <=? r)%N; [done|]. by destruct (versions !! k).
      - by destruct (versions !! k). }
    rewrite <-Hbase, <-(Hold (default [] base)).
    destruct (Htouch Hk) as [->|[-> _]]; [|done]. by destruct (N.leb_spec v r); [lia|].
  - destruct (Hun Hk) as [-> ->]. by destruct (lineage !! k).
Qed.
End version_lemmas.

Lemma lookup_update_lineage_nodes effects lineage edges v id :
  (update_lineage_for_batch effects lineage edges v).1 !! id =
    if decide (id ∈ touched_node_ids effects) then Some v else lineage.1 !! id.
Proof.
  unfold update_lineage_for_batch. simpl.
  rewrite (foldl_pointwise _ (λ _ _, Some v)); [| | |apply bset_elements_NoDup].
  - apply decide_ext, elem_of_bset_elements.
  - intros m k. by rewrite lookup_insert_eq.
  - intros m k k' Hne. by rewrite lookup_insert_ne.
Qed.

Lemma lookup_update_lineage_edges effects lineage edges v id :
  (update_lineage_for_batch effects lineage edges v).2 !! id =
    if decide (id ∈ touched_edge_ids effects) then
      if decide (is_Some (edges !! id) ∨ is_Some (lineage.2 !! id)) then Some v else None
    else lineage.2 !! id.
Proof.
  unfold update_lineage_for_batch. simpl.
  rewrite (foldl_pointwise _ (λ k o, if decide (is_Some (edges !! k) ∨ is_Some o) then Some v else None));
    [| | |apply bset_elements_NoDup].
  - apply decide_ext, elem_of_bset_elements.
  - intros m k. case_decide as Hd; [by rewrite lookup_insert_eq|].
    apply eq_None_not_Some. tauto.
  - intros m k k' Hne. case_decide; [by rewrite lookup_insert_ne|done].
Qed.

(** ** Properties *)

Lemma result_each_Err {A} (check : A → Res unit) l err :
  result_each check l = Err err → ∃ x, x ∈ l ∧ check x = Err err.
Proof.
  induction l as [|x l IH]; [done|]. cbn [result_each]. destruct (check x) as [[]|err'] eqn:Hx.
  - intros (y & Hy & Hc)%IH. exists y. split; [by right|done].
  - intros [= ->]. exists x. split; [left|done].
Qed.

Lemma validate_endpoints_Err nodes b e err :
  validate_endpoints nodes (upserted_node_ids b) e = Err err →
  (¬ endpoint_known nodes b (edge_source e) ∧ err = missing_endpoint "source" (edge_source e)) ∨
  (¬ endpoint_known nodes b (edge_target e) ∧ err = missing_endpoint "target" (edge_target e)).
Proof.
  unfold validate_endpoints, endpoint_known, upserted_node_ids.
  rewrite <-!(elem_of_list_to_set (C := gset NodeId)).
  repeat case_bool_decide; simpl; intros Heq; try done; injection Heq as <-;
    first [left; split; [tauto|done]|right; split; [tauto|done]].
Qed.

(** A write batch is refused, with the missing endpoint, exactly when an upserted
    edge names a node that is neither stored nor upserted; otherwise every id ends
    with the value the batch means: deletions win over upserts, the last upsert over
    earlier ones, and an edge goes with either of its endpoints. *)
Theorem apply_batch_spec b m :
  match apply_batch_to_maps b m with
  | Ok m' =>
    (∀ e, e ∈ edges_upserted b →
      endpoint_known m.1 b (edge_source e) ∧ endpoint_known m.1 b (edge_target e)) ∧
    (∀ id, m'.1 !! id = node_after b m.1 id) ∧ (∀ id, m'.2 !! id = edge_after b m.2 id)
  | Err err => ∃ e, e ∈ edges_upserted b ∧
    ((¬ endpoint_known m.1 b (edge_source e) ∧ err = missing_endpoint "source" (edge_source e)) ∨
     (¬ endpoint_known m.1 b (edge_target e) ∧ err = missing_endpoint "target" (edge_target e)))
  end.
Proof.
  unfold apply_batch_to_maps. destruct (validate_batch_against_maps m.1 b) as [[]|err] eqn:Hv;
    cbn [mbind result_bind mret result_ret].
  - apply validate_batch_Ok in Hv. rewrite list.Forall_forall in Hv.
    split; [done|]. split; intros id; [apply apply_batch_nodes|apply apply_batch_edges].
  - unfold validate_batch_against_maps in Hv. destruct (is_nil _); [done|].
    apply result_each_Err in Hv as (e & He & Hv). exists e. split; [done|].
    by apply validate_endpoints_Err.
Qed.

(** C33: Referential integrity: applying an accepted batch to well-formed maps leaves
    them well-formed: every record filed under its own id, every edge with both
    endpoints stored and in one namespace. *)
Theorem apply_batch_referential_integrity b b' m m' :
  maps_wf m → normalize_write_batch b = Ok b' → apply_batch_to_maps b' m = Ok m' → maps_wf m'.
Proof.
  intros Hwf Hn Hr. pose proof (normalize_write_batch_id _ _ Hn) as ->.
  unfold apply_batch_to_maps in Hr. apply result_seq_Ok in Hr as [Hv Hr]. injection Hr as <-.
  by apply apply_batch_wf.
Qed.

(** The effects of a batch cover its changes: an id outside them keeps its value,
    and an id inside them is one the batch writes, deletes, or drops with an
    endpoint. *)
Theorem batch_effects_cover_changes b m :
  maps_wf m →
  (∀ id, (apply_batch_to_maps_unchecked b m).1 !! id ≠ m.1 !! id →
    id ∈ touched_node_ids (batch_effects m.2 b)) ∧
  (∀ id, (apply_batch_to_maps_unchecked b m).2 !! id ≠ m.2 !! id →
    id ∈ touched_edge_ids (batch_effects m.2 b)) ∧
  (∀ id, id ∈ touched_edge_ids (batch_effects m.2 b) →
    id ∈ edge_id <$> edges_upserted b ∨ id ∈ deleted_edge_ids b ∨
    ∃ e, m.2 !! id = Some e ∧ incident_to (deleted_nodes b) e).
Proof.
  intros Hwf. split; [|split]; intros id.
  - intros Hch. destruct (decide (id ∈ touched_node_ids (batch_effects m.2 b))) as [|Hn]; [done|].
    by rewrite (untouched_node _ _ _ _ Hn) in Hch.
  - intros Hch. destruct (decide (id ∈ touched_edge_ids (batch_effects m.2 b))) as [|Hn]; [done|].
    by rewrite (untouched_edge _ _ _ (mw_edge_key _ Hwf) Hn) in Hch.
  - rewrite batch_effects_edges. intros [?|[?|(k & e & Hk & Hi & <-)]]; [by left|by right; left|].
    right; right. exists e. by rewrite (mw_edge_key _ Hwf k e Hk).
Qed.

Module Demo.
Definition node (id : string) (kind : string) : NodeRecord := mkNode (mkNodeId id) kind ∅ ∅.
Definition edge (id source target : string) : EdgeRecord :=
  mkEdge (mkEdgeId id) (mkNodeId source) (mkNodeId target) "knows" ∅.
Definition maps : Maps :=
  ({[mkNodeId "a" := node "a" "person"; mkNodeId "b" := node "b" "person"]},
   {[mkEdgeId "ab" := edge "ab" "a" "b"]}).

Lemma maps_are_wf : maps_wf maps.
Proof.
  split; simpl; apply map_Forall_to_list; vm_compute; repeat constructor; eexists; done.
Qed.

(** A batch that adds a node with an edge to it and deletes another node. *)
Definition batch : WriteBatch :=
  mkBatch [node "c" "person"] [edge "ac" "a" "c"] [mkNodeId "b"] [].
End Demo.

Lemma apply_batch_referential_integrity_witness :
  ∃ m', apply_batch_to_maps Demo.batch Demo.maps = Ok m' ∧ maps_wf m' ∧ size m'.2 = 1%nat.
Proof.
  destruct (apply_batch_to_maps Demo.batch Demo.maps) as [m'|err] eqn:Hr; [|by vm_compute in Hr].
  exists m'. split; [done|]. split.
  - apply (apply_batch_referential_integrity Demo.batch Demo.batch Demo.maps m');
      [apply Demo.maps_are_wf|by vm_compute|done].
  - vm_compute in Hr. by injection Hr as <-.
Defined.

Lemma batch_effects_cover_changes_witness :
  mkEdgeId "ab" ∈ touched_edge_ids (batch_effects Demo.maps.2 Demo.batch).
Proof.
  apply (batch_effects_cover_changes Demo.batch Demo.maps); [apply Demo.maps_are_wf|]. by vm_compute.
Defined.
