(* ===== verification/Memory.v ===== *)
(** * [crates/memory]: ranking signals and consolidation

    [MemoryRanker] combines the retrieval signals of a node into a score, in
    [f32] arithmetic; [MemoryConsolidator::analyze] finds duplicate, isolated and
    stale memories. *)
From S2P Require Import Prelude RustStd RustFloat Common Core.

#[local] Open Scope string_scope.
#[local] Open Scope list_scope.

Record ScoreBreakdown := mkScore {
  s_structural : f32; s_semantic : f32; s_temporal : f32; s_importance : f32; s_confidence : f32;
}.
Record RankingWeights := mkWeights {
  w_structural : f32; w_semantic : f32; w_temporal : f32; w_importance : f32; w_confidence : f32;
}.
Record RetrievalProfile := mkProfile { profile_name : string; profile_weights : RankingWeights }.

Inductive ConsolidationAction := Merge | Link | Demote | Archive.
#[global] Instance ConsolidationAction_eq_dec : EqDecision ConsolidationAction.
Proof. solve_decision. Defined.

Record ConsolidationEvent := mkEvent {
  event_id : string;
  action : ConsolidationAction;
  target_node_id : NodeId;
  related_node_ids : list NodeId;
  detail : string;
  reverse_batch : WriteBatch;
}.

Definition RankingWeights_default : RankingWeights :=
  mkWeights (F32.lit 3 10) (F32.lit 3 10) (F32.lit 15 100) (F32.lit 15 100) (F32.lit 1 10).
Definition v1_default : RetrievalProfile := mkProfile "v1-default" RankingWeights_default.

(** [ScoreBreakdown::total], which is [MemoryRanker::rank]. *)
Definition total (s : ScoreBreakdown) (w : RankingWeights) : f32 :=
  F32.add (F32.add (F32.add (F32.add
    (F32.mul (s_structural s) (w_structural w))
    (F32.mul (s_semantic s) (w_semantic w)))
    (F32.mul (s_temporal s) (w_temporal w)))
    (F32.mul (s_importance s) (w_importance w)))
    (F32.mul (s_confidence s) (w_confidence w)).
Definition rank (s : ScoreBreakdown) (w : RankingWeights) : f32 := total s w.

(** [iter.sum::<f32>()], which starts from negative zero. *)
Definition f32_sum (l : list f32) : f32 := foldl F32.add (S754_zero true) l.

Definition cosine_similarity (left right : list f32) : option f32 :=
  if is_nil left || negb (length left =? length right)%nat then None
  else
    let dot_product := f32_sum (zip_with F32.mul left right) in
    let left_norm := F32.sqrt (f32_sum ((λ v, F32.mul v v) <$> left)) in
    let right_norm := F32.sqrt (f32_sum ((λ v, F32.mul v v) <$> right)) in
    if f_eq left_norm F32.zero || f_eq right_norm F32.zero then None
    else Some (F32.div (F32.add (F32.div dot_product (F32.mul left_norm right_norm)) F32.one)
      (F32.of_Z 2)).

Definition half_life_ms : f32 :=
  F32.mul (F32.mul (F32.mul (F32.mul (F32.of_Z 7) (F32.of_Z 24)) (F32.of_Z 60)) (F32.of_Z 60))
    (F32.of_Z 1000).

(** The subtraction is on [i64] and wraps. *)
Definition temporal_recency_score (timestamp_ms now_epoch_ms : Z) : f32 :=
  if (now_epoch_ms <=? timestamp_ms)%Z then F32.one
  else
    let age_ms := F32.of_Z (i64_sub now_epoch_ms timestamp_ms) in
    F32.div F32.one (F32.add F32.one (F32.div age_ms half_life_ms)).

Definition normalize_signal (value : option f32) : f32 :=
  f_clamp (default (F32.lit 1 2) value) F32.zero F32.one.

(** ** Consolidation *)

Definition incident_node_ids (edges : list EdgeRecord) : gset NodeId :=
  foldl (λ ids e, {[edge_target e]} ∪ ({[edge_source e]} ∪ ids)) ∅ edges.

Definition unique_key (n : NodeRecord) : option string :=
  match property n "unique_key" with Some (PString key) => Some key | _ => None end.

Definition duplicate_groups (nodes : list NodeRecord) : gmap (string * string) (list NodeRecord) :=
  foldl (λ groups n,
    match unique_key n with
    | Some key => <[(node_type n, key) := default [] (groups !! (node_type n, key)) ++ [n]]> groups
    | None => groups
    end) ∅ nodes.

(** [iter.min_by_key(|node| node.id.as_str())]: the first of the least ids. *)
Definition min_by_id (l : list NodeRecord) : option NodeRecord :=
  match l with
  | [] => None
  | n :: l => Some (foldl (λ best n,
      if decide (ord_le (node_id best) (node_id n)) then best else n) n l)
  end.

Definition batch_of_nodes (nodes : list NodeRecord) : WriteBatch := mkBatch nodes [] [] [].

Definition merge_event (nodes : list NodeRecord) (group : (string * string) * list NodeRecord)
    : option ConsolidationEvent :=
  let '((ty, key), members) := group in
  if (length members <? 2)%nat then None else
  primary ← min_by_id members;
  let primary_id := node_id primary in
  let duplicate_ids := node_id <$> filter (λ n, node_id n ≠ primary_id) members in
  if is_nil duplicate_ids then None else
  let reverse_nodes := omap (λ id, snd <$> list_find (λ n, node_id n = id) nodes) duplicate_ids in
  Some (mkEvent ("merge:" +:+ node_id_str primary_id) Merge primary_id duplicate_ids
    ("merged duplicate memory nodes for " +:+ ty +:+ ":" +:+ key) (batch_of_nodes reverse_nodes)).

Definition demote_event (n : NodeRecord) : ConsolidationEvent :=
  mkEvent ("demote:" +:+ node_id_str (node_id n)) Demote (node_id n) []
    "demoted isolated memory" (batch_of_nodes [n]).
Definition archive_event (n : NodeRecord) : ConsolidationEvent :=
  mkEvent ("archive:" +:+ node_id_str (node_id n)) Archive (node_id n) []
    "archived stale memory" (batch_of_nodes [n]).

Definition stale_ms : Z := 30 * 24 * 60 * 60 * 1000.

Definition is_stale (now_epoch_ms : Z) (n : NodeRecord) : bool :=
  match timestamp_ms n with
  | Some ts => (stale_ms <? i64_sub now_epoch_ms ts)%Z
  | None => false
  end.

Definition node_events (incident : gset NodeId) (now_epoch_ms : Z) (n : NodeRecord)
    : list ConsolidationEvent :=
  (if decide (node_id n ∈ incident) then [] else [demote_event n]) ++
  (if is_stale now_epoch_ms n then [archive_event n] else []).

Definition analyze (nodes : list NodeRecord) (edges : list EdgeRecord) (now_epoch_ms : Z)
    : list ConsolidationEvent :=
  omap (merge_event nodes) (btree_entries (duplicate_groups nodes)) ++
  (nodes ≫= node_events (incident_node_ids edges) now_epoch_ms).

(** ** What the analysis reports *)

Definition in_group (ty key : string) (n : NodeRecord) : Prop :=
  node_type n = ty ∧ unique_key n = Some key.
#[global] Instance in_group_dec ty key n : Decision (in_group ty key n).
Proof. unfold in_group. apply _. Defined.

Lemma default_lookup_groups nodes g :
  default [] (duplicate_groups nodes !! g) = filter (in_group g.1 g.2) nodes.
Proof.
  unfold duplicate_groups. destruct g as [ty key]. simpl.
  induction nodes as [|n nodes IH] using rev_ind; [done|].
  rewrite foldl_app, list.filter_app, <-IH. simpl. rewrite filter_cons, filter_nil.
  set (m := foldl _ ∅ nodes). destruct (decide (in_group ty key n)) as [[Hty Hk]|Hne].
  - rewrite Hk. clearbody m. subst ty. by rewrite lookup_insert_eq.
  - rewrite app_nil_r. unfold in_group in Hne. destruct (unique_key n) as [k|]; [|done].
    rewrite lookup_insert_ne; [done|]. intros [= H1 H2]. apply Hne. unfold in_group. by rewrite H1, H2.
Qed.

Lemma elem_of_duplicate_groups nodes g members :
  (g, members) ∈ btree_entries (duplicate_groups nodes) → members = filter (in_group g.1 g.2) nodes.
Proof.
  rewrite elem_of_btree_entries, <-default_lookup_groups. by intros ->.
Qed.

Lemma merge_event_Some nodes g members e : merge_event nodes (g, members) = Some e →
  action e = Merge ∧ (2 ≤ length members)%nat.
Proof.
  destruct g as [ty key]. unfold merge_event. destruct (Nat.ltb_spec (length members) 2); [done|].
  destruct (min_by_id members); [|done]. simpl. destruct (is_nil _); [done|]. by intros [= <-].
Qed.

Lemma elem_of_analyze nodes edges now e : e ∈ analyze nodes edges now ↔
  (∃ ty key, merge_event nodes ((ty, key), filter (in_group ty key) nodes) = Some e) ∨
  (∃ n, n ∈ nodes ∧ (node_id n ∉ incident_node_ids edges) ∧ e = demote_event n) ∨
  (∃ n, n ∈ nodes ∧ is_stale now n = true ∧ e = archive_event n).
Proof.
  unfold analyze. rewrite elem_of_app, list_elem_of_omap. setoid_rewrite list_elem_of_bind.
  unfold node_events. f_equiv.
  - split.
    + intros ([[ty key] members] & Hin & He). apply elem_of_duplicate_groups in Hin as ->. eauto.
    + intros (ty & key & He). exists ((ty, key), filter (in_group ty key) nodes). split; [|done].
      apply merge_event_Some in He as [_ Hlen].
      rewrite elem_of_btree_entries. pose proof (default_lookup_groups nodes (ty, key)) as Hd.
      simpl in Hd. destruct (duplicate_groups nodes !! (ty, key)); simpl in Hd; subst; [done|].
      by rewrite <-Hd in Hlen; simpl in Hlen; lia.
  - setoid_rewrite elem_of_app. split.
    + intros (n & [He|He] & Hn).
      * left. exists n. case_decide; [by apply elem_of_nil in He|].
        by apply list_elem_of_singleton in He.
      * right. exists n. destruct (is_stale now n); [|by apply elem_of_nil in He].
        by apply list_elem_of_singleton in He.
    + intros [(n & Hn & Hinc & ->)|(n & Hn & Hs & ->)]; exists n; (split; [|done]).
      * left. rewrite decide_False by done. by apply list_elem_of_singleton.
      * right. rewrite Hs. by apply list_elem_of_singleton.
Qed.

Lemma elem_of_incident edges id : id ∈ incident_node_ids edges ↔
  ∃ e, e ∈ edges ∧ (edge_source e = id ∨ edge_target e = id).
Proof.
  unfold incident_node_ids. induction edges as [|e edges IH] using rev_ind.
  - simpl. set_solver.
  - rewrite foldl_app. simpl. rewrite !elem_of_union, !elem_of_singleton, IH.
    setoid_rewrite elem_of_app. setoid_rewrite list_elem_of_singleton. naive_solver.
Qed.
