(* ===== verification/Store.v ===== *)
(** * [crates/storage]: the files of a store

    The layout of a storage root, its manifest, the snapshot and delta segment
    formats, and the functions that write and read them on the file system.  The
    serialisers (serde_json, rkyv, postcard) are third-party code: the class
    [StorageCodec]. *)
From S2P Require Import Prelude RustStd RustFloat Common Core Config Fs Wal Memory Batch.

#[local] Open Scope string_scope.
#[local] Open Scope list_scope.

Definition MANIFEST_FILE_NAME : string := "manifest.json".
Definition DATA_DIRECTORIES : list string :=
  ["wal"; "nodes"; "edges"; "indexes"; "vectors"; "deltas"; "meta"].
Definition NODE_SEGMENT_FILE_NAME : string := "segment-0000000000000001.snapshot.rkyv".
Definition EDGE_SEGMENT_FILE_NAME : string := "segment-0000000000000001.snapshot.rkyv".
Definition VECTOR_SEGMENT_FILE_NAME : string := "segment-0000000000000001.snapshot.rkyv".
Definition LEGACY_NODE_SEGMENT_FILE_NAME : string := "segment-0000000000000001.snapshot.json".
Definition LEGACY_EDGE_SEGMENT_FILE_NAME : string := "segment-0000000000000001.snapshot.json".
Definition LEGACY_VECTOR_SEGMENT_FILE_NAME : string := "segment-0000000000000001.snapshot.json".
Definition INDEX_SNAPSHOT_FILE_NAME : string := "graph-index.snapshot.json".
Definition AUDIT_LOG_FILE_NAME : string := "audit.log".
Definition CONSOLIDATION_LOG_FILE_NAME : string := "consolidation.log".
Definition DELTA_SEGMENT_FILE_EXTENSION : string := "json".
Definition BACKUP_MANIFEST_FILE_NAME : string := "backup-manifest.json".

(** ** Layout *)

Record StorageLayout := mkLayout { root_dir : Path }.

Definition StorageLayout_new (root : Path) : StorageLayout := mkLayout root.
Definition manifest_path (l : StorageLayout) : Path := MANIFEST_FILE_NAME :: root_dir l.
Definition subdirectory (l : StorageLayout) (name : string) : Path := name :: root_dir l.
Definition node_segment_path (l : StorageLayout) : Path :=
  NODE_SEGMENT_FILE_NAME :: subdirectory l "nodes".
Definition legacy_node_segment_path (l : StorageLayout) : Path :=
  LEGACY_NODE_SEGMENT_FILE_NAME :: subdirectory l "nodes".
Definition edge_segment_path (l : StorageLayout) : Path :=
  EDGE_SEGMENT_FILE_NAME :: subdirectory l "edges".
Definition legacy_edge_segment_path (l : StorageLayout) : Path :=
  LEGACY_EDGE_SEGMENT_FILE_NAME :: subdirectory l "edges".
Definition index_snapshot_path (l : StorageLayout) : Path :=
  INDEX_SNAPSHOT_FILE_NAME :: subdirectory l "indexes".
Definition vector_index_manifest_path (l : StorageLayout) : Path :=
  "vector-index.manifest.json" :: subdirectory l "indexes".
Definition vector_index_graph_path (l : StorageLayout) : Path :=
  "vector-index.hnsw.bin" :: subdirectory l "indexes".
Definition vector_index_vectors_path (l : StorageLayout) : Path :=
  "vector-index.vectors.bin" :: subdirectory l "indexes".
Definition delta_directory (l : StorageLayout) : Path := subdirectory l "deltas".
Definition delta_segment_name (first_lsn checkpoint_lsn : N) : string :=
  "delta-" +:+ fmt_020 first_lsn +:+ "-" +:+ fmt_020 checkpoint_lsn +:+ "." +:+
    DELTA_SEGMENT_FILE_EXTENSION.
Definition delta_segment_path (l : StorageLayout) (first_lsn checkpoint_lsn : N) : Path :=
  delta_segment_name first_lsn checkpoint_lsn :: delta_directory l.
Definition vector_segment_path (l : StorageLayout) : Path :=
  VECTOR_SEGMENT_FILE_NAME :: subdirectory l "vectors".
Definition legacy_vector_segment_path (l : StorageLayout) : Path :=
  LEGACY_VECTOR_SEGMENT_FILE_NAME :: subdirectory l "vectors".
Definition audit_log_path (l : StorageLayout) : Path := AUDIT_LOG_FILE_NAME :: subdirectory l "meta".
Definition consolidation_log_path (l : StorageLayout) : Path :=
  CONSOLIDATION_LOG_FILE_NAME :: subdirectory l "meta".

(** [root.join(relative)] for a relative path text. *)
Definition path_join (root : Path) (relative : string) : Path :=
  rev (split_on "/"%char relative) ++ root.

(** Paths order by their components. *)
Fixpoint components_leb (a b : list string) : bool :=
  match a, b with
  | [], _ => true
  | _ :: _, [] => false
  | x :: a, y :: b => if decide (x = y) then components_leb a b else String.leb x y
  end.
Definition path_le : relation Path := λ p q, components_leb (rev p) (rev q) = true.
#[global] Instance path_le_dec : RelDecision path_le.
Proof. intros p q. unfold path_le. apply _. Defined.
Definition sort_paths (l : list Path) : list Path := merge_sort path_le l.

(** ** Manifest *)

Record ManifestFile := mkManifestFile { mf_relative_path : string; mf_checksum_crc32 : N }.
Record ManifestSettings := mkSettings { ms_create_if_missing : bool }.
Record Manifest := mkManifest {
  m_storage_version : string;
  m_files : gmap string ManifestFile;
  m_settings : ManifestSettings;
  m_last_clean_shutdown : bool;
  m_last_applied_lsn : option N;
}.
#[global] Instance ManifestFile_eq_dec : EqDecision ManifestFile.
Proof. solve_decision. Defined.
#[global] Instance ManifestSettings_eq_dec : EqDecision ManifestSettings.
Proof. solve_decision. Defined.
#[global] Instance Manifest_eq_dec : EqDecision Manifest.
Proof. solve_decision. Defined.

Definition Manifest_for_config (c : StorageConfig) : Manifest :=
  mkManifest (storage_version c)
    {[ MANIFEST_FILE_NAME := mkManifestFile MANIFEST_FILE_NAME 0 ]}
    (mkSettings (create_if_missing c)) false None.

(** [manifest.files.insert(relative.clone(), ManifestFile { relative_path: relative, .. })]. *)
Definition manifest_insert (relative : string) (checksum : N) (m : Manifest) : Manifest :=
  mkManifest (m_storage_version m)
    (<[relative := mkManifestFile relative checksum]> (m_files m))
    (m_settings m) (m_last_clean_shutdown m) (m_last_applied_lsn m).
Definition manifest_remove (relative : string) (m : Manifest) : Manifest :=
  mkManifest (m_storage_version m) (delete relative (m_files m))
    (m_settings m) (m_last_clean_shutdown m) (m_last_applied_lsn m).
(** The last assignments before the manifest is persisted. *)
Definition manifest_stamp (lsn : option N) (clean : bool) (m : Manifest) : Manifest :=
  mkManifest (m_storage_version m) (m_files m) (m_settings m) clean lsn.

Definition remove_manifest_files_with_prefix (m : Manifest) (prefix : string)
    : Manifest * list string :=
  let keys := filter (λ key, String.prefix prefix key = true) (btree_keys (m_files m)) in
  (foldl (λ m key, manifest_remove key m) m keys, keys).

(** ** Stored records *)

Inductive StoredPropertyValue : Type :=
| SString (value : string)
| SInteger (value : Z)
| SFloat (value : f64)
| SBoolean (value : bool)
| SStringList (value : list string)
| SFloatList (value : list f32).

Definition stored_of_value (v : PropertyValue) : StoredPropertyValue :=
  match v with
  | PString v => SString v | PInteger v => SInteger v | PFloat v => SFloat v
  | PBoolean v => SBoolean v | PStringList v => SStringList v | PFloatList v => SFloatList v
  end.
Definition value_of_stored (v : StoredPropertyValue) : PropertyValue :=
  match v with
  | SString v => PString v | SInteger v => PInteger v | SFloat v => PFloat v
  | SBoolean v => PBoolean v | SStringList v => PStringList v | SFloatList v => PFloatList v
  end.

Record StoredNodeRecord := mkStoredNode {
  sn_id : string; sn_node_type : string; sn_properties : gmap string StoredPropertyValue;
}.
Record StoredEdgeRecord := mkStoredEdge {
  se_id : string; se_source : string; se_target : string; se_edge_type : string;
  se_properties : gmap string StoredPropertyValue;
}.
Record NodeVectorRecord := mkNodeVector {
  nv_node_id : string; nv_vectors : gmap string (list f32);
}.

Record Segment (R : Type) := mkSegment { seg_format_version : N; seg_records : list R }.
Arguments mkSegment {R}.
Arguments seg_format_version {R}.
Arguments seg_records {R}.
Abbreviation NodeSegmentSnapshot := (Segment StoredNodeRecord).
Abbreviation EdgeSegmentSnapshot := (Segment StoredEdgeRecord).
Abbreviation VectorSegmentSnapshot := (Segment NodeVectorRecord).

Record DeltaSegmentEntry := mkDelta { delta_lsn : N; delta_batch : WriteBatch }.
Abbreviation DeltaSegmentSnapshot := (Segment DeltaSegmentEntry).

Definition from_node (r : NodeRecord) : StoredNodeRecord :=
  mkStoredNode (node_id_str (node_id r)) (node_type r) (stored_of_value <$> node_properties r).

Definition corrupt_id {A} (what : string) (r : Res A) : Res A :=
  map_err (λ e, Corruption ("invalid " +:+ what +:+ " segment snapshot: " +:+ error_to_string e)) r.

Definition into_node (r : StoredNodeRecord) : Res NodeRecord :=
  id ← corrupt_id "node id in" (NodeId_new (sn_id r));
  mret (mkNode id (sn_node_type r) (value_of_stored <$> sn_properties r) ∅).

Definition from_edge (r : EdgeRecord) : StoredEdgeRecord :=
  mkStoredEdge (edge_id_str (edge_id r)) (node_id_str (edge_source r)) (node_id_str (edge_target r))
    (edge_type r) (stored_of_value <$> edge_properties r).

Definition into_edge (r : StoredEdgeRecord) : Res EdgeRecord :=
  id ← corrupt_id "edge id in" (EdgeId_new (se_id r));
  source ← corrupt_id "source node id in edge" (NodeId_new (se_source r));
  target ← corrupt_id "target node id in edge" (NodeId_new (se_target r));
  mret (mkEdge id source target (se_edge_type r) (value_of_stored <$> se_properties r)).

Definition vectors_from_node (r : NodeRecord) : NodeVectorRecord :=
  mkNodeVector (node_id_str (node_id r)) (node_vectors r).

Definition into_parts (r : NodeVectorRecord) : Res (NodeId * gmap string (list f32)) :=
  id ← corrupt_id "node id in vector" (NodeId_new (nv_node_id r));
  mret (id, nv_vectors r).

Definition nodes_of_records (l : list StoredNodeRecord) : Res Nodes :=
  records ← result_collect into_node l; mret (insert_all node_id records ∅).
Definition edges_of_records (l : list StoredEdgeRecord) : Res Edges :=
  records ← result_collect into_edge l; mret (insert_all edge_id records ∅).

Definition set_vectors (v : gmap string (list f32)) (n : NodeRecord) : NodeRecord :=
  mkNode (node_id n) (node_type n) (node_properties n) v.

Definition attach_vector_records (nodes : Nodes) (l : list NodeVectorRecord) : Res Nodes :=
  result_foldl (λ nodes r,
    '(id, vectors) ← into_parts r;
    mret (match nodes !! id with
          | Some n => <[id := set_vectors vectors n]> nodes
          | None => nodes
          end)) nodes l.

(** [for entry in snapshot.entries { apply_batch_to_maps(..)?; }]. *)
Definition apply_entries (m : Maps) (l : list DeltaSegmentEntry) : Res Maps :=
  result_foldl (λ m entry, apply_batch_to_maps (delta_batch entry) m) m l.

Inductive JsonlRecord := JNode (n : NodeRecord) | JEdge (e : EdgeRecord).

Record IntegrityReport := mkReport {
  ir_manifest_present : bool;
  ir_node_snapshot_valid : bool;
  ir_edge_snapshot_valid : bool;
  ir_wal_replay_valid : bool;
  ir_node_count : nat;
  ir_edge_count : nat;
  ir_issues : list string;
}.
Record BackupManifest := mkBackup {
  bm_source_root : string;
  bm_file_count : nat;
  bm_files : gmap string ManifestFile;
  bm_integrity : IntegrityReport;
}.

(** [serde_json], [rkyv] and [postcard] on the types of this crate. *)
Class StorageCodec := {
  json_encode_batch : WriteBatch → Result string bytes;
  json_decode_batch : bytes → Result string WriteBatch;
  postcard_decode_batch : bytes → Result string WriteBatch;
  json_encode_manifest : Manifest → Result string bytes;
  json_encode_manifest_compact : Manifest → Result string bytes;
  json_decode_manifest : bytes → Result string Manifest;
  rkyv_encode_nodes : NodeSegmentSnapshot → Result string bytes;
  rkyv_decode_nodes : bytes → Result string NodeSegmentSnapshot;
  json_decode_nodes : bytes → Result string NodeSegmentSnapshot;
  rkyv_encode_edges : EdgeSegmentSnapshot → Result string bytes;
  rkyv_decode_edges : bytes → Result string EdgeSegmentSnapshot;
  json_decode_edges : bytes → Result string EdgeSegmentSnapshot;
  rkyv_encode_vectors : VectorSegmentSnapshot → Result string bytes;
  rkyv_decode_vectors : bytes → Result string VectorSegmentSnapshot;
  json_decode_vectors : bytes → Result string VectorSegmentSnapshot;
  json_encode_delta : DeltaSegmentSnapshot → Result string bytes;
  json_decode_delta : bytes → Result string DeltaSegmentSnapshot;
  json_encode_backup : BackupManifest → Result string bytes;
  json_decode_backup : bytes → Result string BackupManifest;
  postcard_encode_event : ConsolidationEvent → Result string bytes;
  json_line_event : ConsolidationEvent → Result string string;
  json_line_record : JsonlRecord → Result string string;
  json_parse_record : string → Result string JsonlRecord;
}.

(** The batch has an encoding, and is decoded from it. *)
Definition stored `{StorageCodec} (b : WriteBatch) : Prop :=
  ∃ bs, json_encode_batch b = Ok bs ∧ json_decode_batch bs = Ok b.

(** What recovery relies on: a manifest is decoded from its encoding, and so is a
    delta segment whose batches are decoded from theirs. *)
Class StorageCodecLaws `{StorageCodec} : Prop := {
  manifest_roundtrip m : ∃ bs, json_encode_manifest m = Ok bs ∧ json_decode_manifest bs = Ok m;
  delta_roundtrip s : Forall (λ e, stored (delta_batch e)) (seg_records s) →
    ∃ bs, json_encode_delta s = Ok bs ∧ json_decode_delta bs = Ok s;
}.

Section store.
Context `{WalCodec, StorageCodec}.

(** [match fallible() { Ok(..) => .., Err(..) => .. }]; a panic is not caught. *)
Definition io_catch {A} (m : io A) : io (Res A) := λ w,
  match m w with
  | (Ok a, w') => (Ok (Ok a), w')
  | (Err (Error e), w') => (Ok (Err e), w')
  | (Err (Panic s), w') => (Err (Panic s), w')
  end.

(** ** Writing *)

Definition maybe_fail_storage_io (operation : string) (p : Path) : io unit :=
  w ← sm_get;
  if failpoint_matches (storage_failpoint w) operation p then
    io_fail (Io ("injected storage I/O failure for operation '" +:+ operation +:+ "' on '" +:+
      path_display p +:+ "': No space left on device"))
  else mret tt.
Definition install_storage_io_failpoint (operation fragment : string) : io unit :=
  sm_modify (λ w, mkWorld (files w) (dirs w) (faults w) (wal_failpoint w)
    (Some (operation, fragment))).
Definition clear_storage_io_failpoint : io unit :=
  sm_modify (λ w, mkWorld (files w) (dirs w) (faults w) (wal_failpoint w) None).

Definition write_atomically (p : Path) (bs : bytes) : io unit :=
  match p with
  | [] => io_fail (Io ("path '" +:+ path_display p +:+ "' does not have a parent directory"))
  | _ :: parent =>
    maybe_fail_storage_io "create_dir_all" parent ;;
    io_err (quoted "failed to create parent directory" parent) (fs_create_dir_all parent) ;;
    let temp_path := with_extension "tmp" p in
    maybe_fail_storage_io "temp_write" temp_path ;;
    io_err (quoted "failed to write temp file" temp_path) (fs_write temp_path bs) ;;
    maybe_fail_storage_io "rename" p ;;
    io_err ("failed to publish file atomically '" +:+ path_display temp_path +:+ "' -> '" +:+
      path_display p +:+ "'") (fs_rename temp_path p)
  end.

Definition persist_manifest (p : Path) (m : Manifest) : io unit :=
  payload ← io_res (encode_err (quoted "failed to serialize manifest" p) (json_encode_manifest m));
  write_atomically p payload.

Definition manifest_checksum (m : Manifest) : Res N :=
  payload ← encode_err "failed to serialize manifest" (json_encode_manifest_compact m);
  mret (crc32 payload).

(** [persist_rkyv_snapshot] of an encoded snapshot. *)
Definition persist_rkyv_snapshot (p : Path) (encoded : Result string bytes) : io N :=
  bs ← io_res (encode_err (quoted "failed to serialize snapshot" p) encoded);
  write_atomically p bs ;;
  mret (crc32 bs).

Definition persist_delta_segment (p : Path) (snapshot : DeltaSegmentSnapshot) : io N :=
  bs ← io_res (encode_err (quoted "failed to serialize delta segment" p) (json_encode_delta snapshot));
  write_atomically p bs ;;
  mret (crc32 bs).

(** ** Reading *)

Definition load_manifest (p : Path) : io Manifest :=
  bs ← io_err (quoted "failed to read manifest" p) (fs_read p);
  io_res (encode_err (quoted "failed to deserialize manifest" p) (json_decode_manifest bs)).

Definition relative_path (l : StorageLayout) (p : Path) : Res string :=
  match strip_prefix (root_dir l) p with
  | Some comps => Ok (String.concat "/" comps)
  | None => Err (Io (quoted "failed to derive relative path for" p +:+ ": prefix not found"))
  end.

Definition read_verified_file (l : StorageLayout) (m : Manifest) (p : Path) : io bytes :=
  relative ← io_res (relative_path l p);
  bs ← io_err (quoted "failed to read snapshot" p) (fs_read p);
  match m_files m !! relative with
  | Some file =>
    if (negb (mf_checksum_crc32 file =? 0)%N && negb (mf_checksum_crc32 file =? crc32 bs)%N) then
      io_fail (Corruption (quoted "checksum mismatch for snapshot" p))
    else mret bs
  | None => mret bs
  end.
Definition read_verified_snapshot (l : StorageLayout) (m : Manifest) (p : Path) : io bytes :=
  read_verified_file l m p.

Definition resolve_snapshot_path (primary legacy : Path) : io (option Path) :=
  w ← sm_get;
  mret (if path_exists w primary then Some primary
        else if path_exists w legacy then Some legacy else None).

(** The extension of the file chooses the format. *)
Definition load_snapshot_from_bytes {A} (kind : string) (json rkyv : bytes → Result string A)
    (p : Path) (bs : bytes) : Res A :=
  if decide (name_extension (default "" (head p)) = Some "json") then
    decode_err (quoted ("failed to deserialize legacy " +:+ kind +:+ " snapshot") p) (json bs)
  else decode_err (quoted ("failed to deserialize " +:+ kind +:+ " snapshot") p) (rkyv bs).
Definition load_node_snapshot_from_bytes : Path → bytes → Res NodeSegmentSnapshot :=
  load_snapshot_from_bytes "node" json_decode_nodes rkyv_decode_nodes.
Definition load_edge_snapshot_from_bytes : Path → bytes → Res EdgeSegmentSnapshot :=
  load_snapshot_from_bytes "edge" json_decode_edges rkyv_decode_edges.
Definition load_vector_snapshot_from_bytes : Path → bytes → Res VectorSegmentSnapshot :=
  load_snapshot_from_bytes "vector" json_decode_vectors rkyv_decode_vectors.

Definition check_version (kind : string) (version : N) : Res unit :=
  if (version =? 1)%N then Ok tt
  else Err (Corruption ("unsupported " +:+ kind +:+ " snapshot format version " +:+ pretty version)).

Definition load_node_state (l : StorageLayout) (m : Manifest) : io Nodes :=
  path ← resolve_snapshot_path (node_segment_path l) (legacy_node_segment_path l);
  match path with
  | None => mret ∅
  | Some p =>
    bs ← read_verified_snapshot l m p;
    snapshot ← io_res (load_node_snapshot_from_bytes p bs);
    io_res (check_version "node" (seg_format_version snapshot)) ;;
    io_res (nodes_of_records (seg_records snapshot))
  end.

Definition load_edge_state (l : StorageLayout) (m : Manifest) : io Edges :=
  path ← resolve_snapshot_path (edge_segment_path l) (legacy_edge_segment_path l);
  match path with
  | None => mret ∅
  | Some p =>
    bs ← read_verified_snapshot l m p;
    snapshot ← io_res (load_edge_snapshot_from_bytes p bs);
    io_res (check_version "edge" (seg_format_version snapshot)) ;;
    io_res (edges_of_records (seg_records snapshot))
  end.

Definition attach_vectors (l : StorageLayout) (m : Manifest) (nodes : Nodes) : io Nodes :=
  path ← resolve_snapshot_path (vector_segment_path l) (legacy_vector_segment_path l);
  match path with
  | None => mret nodes
  | Some p =>
    bs ← read_verified_snapshot l m p;
    snapshot ← io_res (load_vector_snapshot_from_bytes p bs);
    io_res (attach_vector_records nodes (seg_records snapshot))
  end.

Definition manifest_delta_segment_paths (l : StorageLayout) (m : Manifest) : list Path :=
  sort_paths ((λ file, path_join (root_dir l) (mf_relative_path file)) <$>
    filter (λ file, String.prefix "deltas/" (mf_relative_path file) = true)
      (btree_values (m_files m))).

Definition raw_delta_segment_paths (l : StorageLayout) : io (list Path) :=
  names ← io_err (quoted "failed to enumerate delta directory" (delta_directory l))
    (fs_read_dir (delta_directory l));
  mret (sort_paths ((λ name, name :: delta_directory l) <$>
    filter (λ name, name_extension name = Some DELTA_SEGMENT_FILE_EXTENSION) names)).

(** The decoding of one delta segment and its entries on the maps. *)
Definition apply_delta_bytes (p : Path) (bs : bytes) (maps : Maps) : Res Maps :=
  snapshot ← decode_err (quoted "failed to deserialize delta segment" p) (json_decode_delta bs);
  if (seg_format_version snapshot =? 1)%N then apply_entries maps (seg_records snapshot)
  else Err (Corruption ("unsupported delta segment format version " +:+
    pretty (seg_format_version snapshot) +:+ " in '" +:+ path_display p +:+ "'")).

Fixpoint apply_delta_segments (l : StorageLayout) (m : Manifest) (paths : list Path) (maps : Maps)
    : io Maps :=
  match paths with
  | [] => mret maps
  | p :: paths =>
    bs ← read_verified_file l m p;
    maps ← io_res (apply_delta_bytes p bs maps);
    apply_delta_segments l m paths maps
  end.

Fixpoint apply_raw_delta_segments (paths : list Path) (maps : Maps) : io Maps :=
  match paths with
  | [] => mret maps
  | p :: paths =>
    bs ← io_err (quoted "failed to read delta segment" p) (fs_read p);
    maps ← io_res (apply_delta_bytes p bs maps);
    apply_raw_delta_segments paths maps
  end.

Definition load_published_state (l : StorageLayout) (m : Manifest) : io Maps :=
  nodes ← load_node_state l m;
  edges ← load_edge_state l m;
  nodes ← attach_vectors l m nodes;
  apply_delta_segments l m (manifest_delta_segment_paths l m) (nodes, edges).

Definition load_raw_node_state (l : StorageLayout) : io Nodes :=
  path ← resolve_snapshot_path (node_segment_path l) (legacy_node_segment_path l);
  match path with
  | None => mret ∅
  | Some p =>
    bs ← io_err (quoted "failed to read node snapshot" p) (fs_read p);
    snapshot ← io_res (load_node_snapshot_from_bytes p bs);
    io_res (nodes_of_records (seg_records snapshot))
  end.

Definition load_raw_edge_state (l : StorageLayout) : io Edges :=
  path ← resolve_snapshot_path (edge_segment_path l) (legacy_edge_segment_path l);
  match path with
  | None => mret ∅
  | Some p =>
    bs ← io_err (quoted "failed to read edge snapshot" p) (fs_read p);
    snapshot ← io_res (load_edge_snapshot_from_bytes p bs);
    io_res (edges_of_records (seg_records snapshot))
  end.

Definition attach_raw_vectors (l : StorageLayout) (nodes : Nodes) : io Nodes :=
  path ← resolve_snapshot_path (vector_segment_path l) (legacy_vector_segment_path l);
  match path with
  | None => mret nodes
  | Some p =>
    bs ← io_err (quoted "failed to read vector snapshot" p) (fs_read p);
    snapshot ← io_res (load_vector_snapshot_from_bytes p bs);
    io_res (attach_vector_records nodes (seg_records snapshot))
  end.

Definition load_raw_published_state (l : StorageLayout) : io Maps :=
  nodes ← load_raw_node_state l;
  edges ← load_raw_edge_state l;
  nodes ← attach_raw_vectors l nodes;
  paths ← raw_delta_segment_paths l;
  apply_raw_delta_segments paths (nodes, edges).

(** ** Bootstrap *)

Definition prepare_storage_layout (c : StorageConfig) : io StorageLayout :=
  let l := StorageLayout_new (path_of_string (Config.root_dir c)) in
  w ← sm_get;
  if (negb (create_if_missing c) && negb (path_exists w (root_dir l))) then
    io_fail (Io ("storage root does not exist: " +:+ path_display (root_dir l)))
  else
    io_err "failed to create storage root" (fs_create_dir_all (root_dir l)) ;;
    sm_for DATA_DIRECTORIES (λ directory,
      io_err ("failed to create storage directory '" +:+ directory +:+ "'")
        (fs_create_dir_all (subdirectory l directory))) ;;
    mret l.

Definition bootstrap (c : StorageConfig) : io (StorageLayout * Manifest) :=
  l ← prepare_storage_layout c;
  w ← sm_get;
  m ← (if path_exists w (manifest_path l) then load_manifest (manifest_path l)
       else
         let m := Manifest_for_config c in
         persist_manifest (manifest_path l) m ;; mret m);
  mret (l, m).

Definition load_manifest_for_repair (l : StorageLayout) (c : StorageConfig) : io Manifest :=
  w ← sm_get;
  if negb (path_exists w (manifest_path l)) then mret (Manifest_for_config c)
  else
    r ← io_catch (load_manifest (manifest_path l));
    mret (match r with Ok m => m | Err _ => Manifest_for_config c end).

(** ** Batches in the log *)

Definition serialize_write_batch (b : WriteBatch) : Res bytes :=
  encode_err "failed to serialize write batch" (json_encode_batch b).

(** JSON first, then the older postcard form; the error is postcard's. *)
Definition deserialize_write_batch (payload : bytes) (context : string) : Res WriteBatch :=
  decode_err ("failed to deserialize WAL write batch during " +:+ context)
    (match json_decode_batch payload with
     | Ok b => Ok b
     | Err _ => postcard_decode_batch payload
     end).

End store.

(** ** A concrete codec

    The stored records are countable; the demonstration codec writes the code of a
    record, a byte per bit. *)

Module Demo.

#[global] Instance StoredPropertyValue_eq_dec : EqDecision StoredPropertyValue.
Proof. solve_decision. Defined.
#[global] Instance StoredNodeRecord_eq_dec : EqDecision StoredNodeRecord.
Proof. solve_decision. Defined.
#[global] Instance StoredEdgeRecord_eq_dec : EqDecision StoredEdgeRecord.
Proof. solve_decision. Defined.
#[global] Instance NodeVectorRecord_eq_dec : EqDecision NodeVectorRecord.
Proof. solve_decision. Defined.
#[global] Instance Segment_eq_dec {R} `{EqDecision R} : EqDecision (Segment R).
Proof. solve_decision. Defined.
#[global] Instance DeltaSegmentEntry_eq_dec : EqDecision DeltaSegmentEntry.
Proof. solve_decision. Defined.
#[global] Instance IntegrityReport_eq_dec : EqDecision IntegrityReport.
Proof. solve_decision. Defined.
#[global] Instance BackupManifest_eq_dec : EqDecision BackupManifest.
Proof. solve_decision. Defined.
#[global] Instance ConsolidationEvent_eq_dec : EqDecision ConsolidationEvent.
Proof. solve_decision. Defined.
#[global] Instance JsonlRecord_eq_dec : EqDecision JsonlRecord.
Proof. solve_decision. Defined.

#[global] Program Instance StoredPropertyValue_countable : Countable StoredPropertyValue :=
  inj_countable' value_of_stored stored_of_value _.
Next Obligation. by intros []. Qed.
#[global] Program Instance StoredNodeRecord_countable : Countable StoredNodeRecord :=
  inj_countable' (λ r, (sn_id r, sn_node_type r, sn_properties r)) (λ '(a, b, c), mkStoredNode a b c) _.
Next Obligation. by intros []. Qed.
#[global] Program Instance StoredEdgeRecord_countable : Countable StoredEdgeRecord :=
  inj_countable' (λ r, (se_id r, se_source r, se_target r, se_edge_type r, se_properties r))
    (λ '(a, b, c, d, e), mkStoredEdge a b c d e) _.
Next Obligation. by intros []. Qed.
#[global] Program Instance NodeVectorRecord_countable : Countable NodeVectorRecord :=
  inj_countable' (λ r, (nv_node_id r, nv_vectors r)) (λ '(a, b), mkNodeVector a b) _.
Next Obligation. by intros []. Qed.
#[global] Program Instance Segment_countable {R} `{Countable R} : Countable (Segment R) :=
  inj_countable' (λ s, (seg_format_version s, seg_records s)) (λ '(a, b), mkSegment a b) _.
Next Obligation. by intros ? ? ? []. Qed.
#[global] Program Instance DeltaSegmentEntry_countable : Countable DeltaSegmentEntry :=
  inj_countable' (λ e, (delta_lsn e, delta_batch e)) (λ '(a, b), mkDelta a b) _.
Next Obligation. by intros []. Qed.
#[global] Program Instance ManifestFile_countable : Countable ManifestFile :=
  inj_countable' (λ f, (mf_relative_path f, mf_checksum_crc32 f)) (λ '(a, b), mkManifestFile a b) _.
Next Obligation. by intros []. Qed.
#[global] Program Instance Manifest_countable : Countable Manifest :=
  inj_countable' (λ m, (m_storage_version m, m_files m, ms_create_if_missing (m_settings m),
      m_last_clean_shutdown m, m_last_applied_lsn m))
    (λ '(a, b, c, d, e), mkManifest a b (mkSettings c) d e) _.
Next Obligation. by intros [??[]]. Qed.
#[global] Program Instance IntegrityReport_countable : Countable IntegrityReport :=
  inj_countable' (λ r, (ir_manifest_present r, ir_node_snapshot_valid r, ir_edge_snapshot_valid r,
      ir_wal_replay_valid r, ir_node_count r, ir_edge_count r, ir_issues r))
    (λ '(a, b, c, d, e, f, g), mkReport a b c d e f g) _.
Next Obligation. by intros []. Qed.
#[global] Program Instance BackupManifest_countable : Countable BackupManifest :=
  inj_countable' (λ b, (bm_source_root b, bm_file_count b, bm_files b, bm_integrity b))
    (λ '(a, b, c, d), mkBackup a b c d) _.
Next Obligation. by intros []. Qed.
#[global] Instance ConsolidationAction_countable : Countable ConsolidationAction.
Proof.
  apply (inj_countable' (λ a, match a with
      | Merge => inl true | Link => inl false | Demote => inr true | Archive => inr false end)
    (λ x, match x with
      | inl true => Merge | inl false => Link | inr true => Demote | inr false => Archive end)).
  by intros [].
Defined.
#[global] Program Instance ConsolidationEvent_countable : Countable ConsolidationEvent :=
  inj_countable' (λ e, (event_id e, action e, target_node_id e, related_node_ids e, detail e,
      reverse_batch e)) (λ '(a, b, c, d, e, f), mkEvent a b c d e f) _.
Next Obligation. by intros []. Qed.
#[global] Program Instance JsonlRecord_countable : Countable JsonlRecord :=
  inj_countable' (λ r, match r with JNode n => inl n | JEdge e => inr e end)
    (λ x, match x with inl n => JNode n | inr e => JEdge e end) _.
Next Obligation. by intros []. Qed.

(** The bits of a code, least significant first, and back. *)
Fixpoint bits_of (p : positive) : bytes :=
  match p with
  | xH => [] | xO p => Byte.x00 :: bits_of p | xI p => Byte.x01 :: bits_of p
  end.
Fixpoint of_bits (bs : bytes) : option positive :=
  match bs with
  | [] => Some xH
  | Byte.x00 :: bs => xO <$> of_bits bs
  | Byte.x01 :: bs => xI <$> of_bits bs
  | _ => None
  end.
Definition to_bytes {A} `{Countable A} (a : A) : Result string bytes := Ok (bits_of (encode a)).
Definition of_bytes {A} `{Countable A} (bs : bytes) : Result string A :=
  match of_bits bs ≫= decode with Some a => Ok a | None => Err "expected value" end.

Lemma of_bits_of p : of_bits (bits_of p) = Some p.
Proof. induction p as [p IH|p IH|]; simpl; by rewrite ?IH. Qed.
Lemma of_to_bytes {A} `{Countable A} (a : A) bs : to_bytes a = Ok bs → of_bytes bs = Ok a.
Proof. intros [= <-]. unfold of_bytes. rewrite of_bits_of. simpl. by rewrite decode_encode. Qed.

Definition line_of {A} `{Countable A} (a : A) : Result string string :=
  Ok (String.string_of_list_ascii (Ascii.ascii_of_byte <$> bits_of (encode a))).
Definition of_line {A} `{Countable A} (line : string) : Result string A :=
  of_bytes (Ascii.byte_of_ascii <$> String.list_ascii_of_string line).

#[global] Instance codec : StorageCodec := {|
  json_encode_batch := to_bytes;
  json_decode_batch := of_bytes;
  postcard_decode_batch := of_bytes;
  json_encode_manifest := to_bytes;
  json_encode_manifest_compact := to_bytes;
  json_decode_manifest := of_bytes;
  rkyv_encode_nodes := to_bytes;
  rkyv_decode_nodes := of_bytes;
  json_decode_nodes := of_bytes;
  rkyv_encode_edges := to_bytes;
  rkyv_decode_edges := of_bytes;
  json_decode_edges := of_bytes;
  rkyv_encode_vectors := to_bytes;
  rkyv_decode_vectors := of_bytes;
  json_decode_vectors := of_bytes;
  json_encode_delta := to_bytes;
  json_decode_delta := of_bytes;
  json_encode_backup := to_bytes;
  json_decode_backup := of_bytes;
  postcard_encode_event := to_bytes;
  json_line_event := line_of;
  json_line_record := line_of;
  json_parse_record := of_line;
|}.

Lemma always_stored b : stored b.
Proof. eexists. split; [done|by apply of_to_bytes]. Qed.
#[global] Instance laws : StorageCodecLaws.
Proof. split; intros; (eexists; split; [done|by apply of_to_bytes]). Qed.

End Demo.
