(* ===== verification/Engine.v ===== *)
(** * [crates/storage]: the engine in memory

    [StorageEngine]: the node and edge maps, their lineage and version histories,
    and the open transactions.  Methods taking [&mut self] are [sm] computations on
    the disk and the engine together: an early error return keeps the changes made
    before it. *)
From S2P Require Import Prelude RustStd RustFloat Common Core Fs Wal Memory Batch Store.

#[local] Open Scope string_scope.
#[local] Open Scope list_scope.

Record TransactionSession := mkSession {
  ses_transaction_id : TransactionId;
  ses_isolation_level : IsolationLevel;
  ses_state : TransactionState;
  ses_started_at_revision : N;
  ses_node_overrides : gmap NodeId (option NodeRecord);
  ses_edge_overrides : gmap EdgeId (option EdgeRecord);
  ses_staged_batch : WriteBatch;
  ses_touched : BatchEffects;
}.

Record StorageEngine := mkEngine {
  e_layout : StorageLayout;
  e_manifest : Manifest;
  e_wal : Wal;
  e_maps : Maps;
  e_lineage : Lineage NodeId * Lineage EdgeId;
  e_versions : History;
  e_commit_revision : N;
  e_latest_applied_lsn : option N;
  e_checkpoint_dirty : bool;
  e_pending : list DeltaSegmentEntry;
  e_next_transaction_ordinal : N;
  e_transactions : gmap TransactionId TransactionSession;
}.

Record TransactionDelta := mkTxDelta {
  removed_nodes : Nodes;
  removed_edges : Edges;
  added_nodes : Nodes;
  added_edges : Edges;
}.

(** ** Field updates *)

Definition set_maps (m : Maps) (e : StorageEngine) : StorageEngine :=
  mkEngine (e_layout e) (e_manifest e) (e_wal e) m (e_lineage e) (e_versions e)
    (e_commit_revision e) (e_latest_applied_lsn e) (e_checkpoint_dirty e) (e_pending e)
    (e_next_transaction_ordinal e) (e_transactions e).
Definition set_wal (l : Wal) (e : StorageEngine) : StorageEngine :=
  mkEngine (e_layout e) (e_manifest e) l (e_maps e) (e_lineage e) (e_versions e)
    (e_commit_revision e) (e_latest_applied_lsn e) (e_checkpoint_dirty e) (e_pending e)
    (e_next_transaction_ordinal e) (e_transactions e).
Definition set_versions (h : History) (e : StorageEngine) : StorageEngine :=
  mkEngine (e_layout e) (e_manifest e) (e_wal e) (e_maps e) (e_lineage e) h
    (e_commit_revision e) (e_latest_applied_lsn e) (e_checkpoint_dirty e) (e_pending e)
    (e_next_transaction_ordinal e) (e_transactions e).
Definition set_transactions (t : gmap TransactionId TransactionSession) (e : StorageEngine)
    : StorageEngine :=
  mkEngine (e_layout e) (e_manifest e) (e_wal e) (e_maps e) (e_lineage e) (e_versions e)
    (e_commit_revision e) (e_latest_applied_lsn e) (e_checkpoint_dirty e) (e_pending e)
    (e_next_transaction_ordinal e) t.
(** The assignments of a commit at [lsn]. *)
Definition set_committed (lsn : N) (batch : WriteBatch) (lineage : Lineage NodeId * Lineage EdgeId)
    (m : Maps) (e : StorageEngine) : StorageEngine :=
  mkEngine (e_layout e) (e_manifest e) (e_wal e) m lineage (e_versions e)
    lsn (Some lsn) true (e_pending e ++ [mkDelta lsn batch])
    (e_next_transaction_ordinal e) (e_transactions e).

Section engine.
Context `{WalCodec, StorageCodec}.

Definition engine_m (A : Type) : Type := sm (World * StorageEngine) Failure A.

Definition self : engine_m StorageEngine := λ '(w, e), (Ok e, (w, e)).
Definition modify_self (f : StorageEngine → StorageEngine) : engine_m unit :=
  λ '(w, e), (Ok tt, (w, f e)).
(** [self.wal.method(..)]. *)
Definition on_wal {A} (m : wal_m A) : engine_m A := λ '(w, e),
  let '(r, (w', l')) := m (w, e_wal e) in (r, (w', set_wal l' e)).

Definition all_nodes (e : StorageEngine) : list NodeRecord := btree_values (e_maps e).1.
Definition all_edges (e : StorageEngine) : list EdgeRecord := btree_values (e_maps e).2.
Definition node_count (e : StorageEngine) : nat := size (e_maps e).1.
Definition edge_count (e : StorageEngine) : nat := size (e_maps e).2.
Definition current_revision (e : StorageEngine) : N := e_commit_revision e.
Definition latest_applied_lsn (e : StorageEngine) : option N := e_latest_applied_lsn e.
Definition needs_checkpoint (e : StorageEngine) : bool := e_checkpoint_dirty e.
Definition pending_checkpoint_count (e : StorageEngine) : nat := length (e_pending e).
Definition get_node (e : StorageEngine) (id : NodeId) : option NodeRecord := (e_maps e).1 !! id.
Definition get_edge (e : StorageEngine) (id : EdgeId) : option EdgeRecord := (e_maps e).2 !! id.

(** ** Commits *)

Definition apply_write_batch_with_snapshot_readers (batch : WriteBatch)
    (snapshot_reader_count : nat) : engine_m N :=
  batch ← io_res (normalize_write_batch batch);
  if batch_is_empty batch then io_fail (Validation "write batch cannot be empty")
  else
    e ← self;
    io_res (validate_batch_against_maps (e_maps e).1 batch) ;;
    let effects := batch_effects (e_maps e).2 batch in
    (if (0 <? snapshot_reader_count)%nat then
       modify_self (λ e, set_versions
         (preserve_historical_versions effects (e_maps e) (e_lineage e) (e_versions e)) e)
     else mret tt) ;;
    payload ← io_res (serialize_write_batch batch);
    record ← on_wal (append KWriteBatch payload);
    let lsn := lsn_of record in
    modify_self (λ e,
      let maps := apply_batch_to_maps_unchecked batch (e_maps e) in
      set_committed lsn batch
        (update_lineage_for_batch effects (e_lineage e) maps.2 lsn) maps e) ;;
    (if (0 <? snapshot_reader_count)%nat then
       modify_self (λ e, set_versions
         (record_versions_after_commit effects (e_maps e) (e_commit_revision e) (e_versions e)) e)
     else mret tt) ;;
    mret lsn.

Definition apply_write_batch (batch : WriteBatch) : engine_m N :=
  e ← self; apply_write_batch_with_snapshot_readers batch (size (e_transactions e)).

Definition upsert_nodes (nodes : list NodeRecord) : engine_m N :=
  apply_write_batch (mkBatch nodes [] [] []).
Definition upsert_node (node : NodeRecord) : engine_m N := upsert_nodes [node].
Definition upsert_edges (edges : list EdgeRecord) : engine_m N :=
  apply_write_batch (mkBatch [] edges [] []).
Definition upsert_edge (edge : EdgeRecord) : engine_m N := upsert_edges [edge].

Definition delete_node (id : NodeId) : engine_m (option NodeRecord) :=
  e ← self;
  match get_node e id with
  | None => mret None
  | Some removed => apply_write_batch (mkBatch [] [] [id] []) ;; mret (Some removed)
  end.
Definition delete_nodes (ids : list NodeId) : engine_m nat :=
  e ← self;
  let existing := filter (λ id, is_Some (get_node e id)) ids in
  if is_nil existing then mret 0%nat
  else apply_write_batch (mkBatch [] [] existing []) ;; mret (length existing).
Definition delete_edge (id : EdgeId) : engine_m (option EdgeRecord) :=
  e ← self;
  match get_edge e id with
  | None => mret None
  | Some removed => apply_write_batch (mkBatch [] [] [] [id]) ;; mret (Some removed)
  end.
Definition delete_edges (ids : list EdgeId) : engine_m nat :=
  e ← self;
  let existing := filter (λ id, is_Some (get_edge e id)) ids in
  if is_nil existing then mret 0%nat
  else apply_write_batch (mkBatch [] [] [] existing) ;; mret (length existing).

(** ** Transactions *)

Definition staged_operation_count (b : WriteBatch) : nat :=
  length (nodes_upserted b) + length (edges_upserted b) + length (deleted_node_ids b)
  + length (deleted_edge_ids b).

Definition summary_for_session (s : TransactionSession) : TransactionSummary :=
  mkSummary (ses_transaction_id s) (ses_isolation_level s) (ses_state s)
    (ses_started_at_revision s) (staged_operation_count (ses_staged_batch s))
    (size (touched_node_ids (ses_touched s))) (size (touched_edge_ids (ses_touched s))).

Definition tx_not_found (id : TransactionId) : Undr9Error :=
  NotFound ("transaction '" +:+ transaction_id_str id +:+ "' was not found").
Definition tx_not_active (id : TransactionId) : Undr9Error :=
  Conflict ("transaction '" +:+ transaction_id_str id +:+ "' is not active").

(** [format!("tx_{}", ordinal)]; it is a valid identifier, so [expect] holds. *)
Definition transaction_id_of (ordinal : N) : TransactionId :=
  mkTransactionId ("tx_" +:+ pretty ordinal).

Definition new_session (id : TransactionId) (level : IsolationLevel) (revision : N)
    : TransactionSession :=
  mkSession id level Active revision ∅ ∅ batch_default (mkEffects ∅ ∅).

Definition begin_transaction (level : IsolationLevel) (e : StorageEngine)
    : TransactionSummary * StorageEngine :=
  let id := transaction_id_of (e_next_transaction_ordinal e) in
  let session := new_session id level (e_commit_revision e) in
  (summary_for_session session,
   mkEngine (e_layout e) (e_manifest e) (e_wal e) (e_maps e) (e_lineage e) (e_versions e)
     (e_commit_revision e) (e_latest_applied_lsn e) (e_checkpoint_dirty e) (e_pending e)
     (u64_add (e_next_transaction_ordinal e) 1)
     (<[id := session]> (e_transactions e))).

Definition transaction_summary (e : StorageEngine) (id : TransactionId) : Res TransactionSummary :=
  session ← ok_or (e_transactions e !! id) (tx_not_found id);
  mret (summary_for_session session).
Definition list_transactions (e : StorageEngine) : list TransactionSummary :=
  summary_for_session <$> btree_values (e_transactions e).

Definition active_session (e : StorageEngine) (id : TransactionId) : Res TransactionSession :=
  session ← ok_or (e_transactions e !! id) (tx_not_found id);
  if decide (ses_state session = Active) then mret session else Err (tx_not_active id).

Definition transaction_node_visible (e : StorageEngine) (s : TransactionSession) (id : NodeId)
    : option NodeRecord :=
  match ses_node_overrides s !! id with
  | Some override_value => override_value
  | None => visible_node_at_revision id (ses_started_at_revision s) (e_maps e).1 (e_lineage e).1
      (e_versions e).1
  end.
Definition transaction_edge_visible (e : StorageEngine) (s : TransactionSession) (id : EdgeId)
    : option EdgeRecord :=
  match ses_edge_overrides s !! id with
  | Some override_value => override_value
  | None => visible_edge_at_revision id (ses_started_at_revision s) (e_maps e).2 (e_lineage e).2
      (e_versions e).2
  end.

Definition transaction_node (e : StorageEngine) (tx : TransactionId) (id : NodeId)
    : Res (option NodeRecord) :=
  s ← active_session e tx; mret (transaction_node_visible e s id).
Definition transaction_edge (e : StorageEngine) (tx : TransactionId) (id : EdgeId)
    : Res (option EdgeRecord) :=
  s ← active_session e tx; mret (transaction_edge_visible e s id).

(** Keep the ids with a visible value. *)
Definition collect_visible {K V} `{Countable K} (visible : K → option V) (ids : list K) : gmap K V :=
  foldl (λ m id, match visible id with Some v => <[id := v]> m | None => m end) ∅ ids.

Definition candidate_node_ids (e : StorageEngine) (s : TransactionSession) : gset NodeId :=
  dom (e_lineage e).1 ∪ dom (e_maps e).1 ∪ dom (ses_node_overrides s).
Definition candidate_edge_ids (e : StorageEngine) (s : TransactionSession) : gset EdgeId :=
  dom (e_lineage e).2 ∪ dom (e_maps e).2 ∪ dom (ses_edge_overrides s).

Definition transaction_snapshot (e : StorageEngine) (tx : TransactionId) : Res Maps :=
  s ← active_session e tx;
  mret (collect_visible (transaction_node_visible e s) (bset_elements (candidate_node_ids e s)),
        collect_visible (transaction_edge_visible e s) (bset_elements (candidate_edge_ids e s))).

(** The keys changed after a revision. *)
Definition changed_after {K} `{Countable K} (lineage : Lineage K) (revision : N) : gset K :=
  dom (filter (λ '(_, r), (revision < r)%N) lineage).

(** [current != visible], by the derived [PartialEq]. *)
Definition option_differs {A} (eqb : A → A → bool) (a b : option A) : bool :=
  match a, b with
  | Some a, Some b => negb (eqb a b)
  | None, None => false
  | _, _ => true
  end.

Definition delta_of {K V} `{Countable K} (eqb : V → V → bool) (current : gmap K V)
    (visible : K → option V) (ids : list K) : gmap K V * gmap K V :=
  foldl (λ '(removed, added) id,
    if option_differs eqb (current !! id) (visible id) then
      (match current !! id with Some v => <[id := v]> removed | None => removed end,
       match visible id with Some v => <[id := v]> added | None => added end)
    else (removed, added)) (∅, ∅) ids.

Definition transaction_delta_from_current (e : StorageEngine) (tx : TransactionId)
    : Res TransactionDelta :=
  s ← active_session e tx;
  let node_ids := changed_after (e_lineage e).1 (ses_started_at_revision s)
    ∪ dom (e_versions e).1 ∪ dom (ses_node_overrides s) in
  let '(rn, an) := delta_of NodeRecord_eq (e_maps e).1 (transaction_node_visible e s)
    (bset_elements node_ids) in
  let edge_ids := changed_after (e_lineage e).2 (ses_started_at_revision s)
    ∪ dom (e_versions e).2 ∪ dom (ses_edge_overrides s) in
  let '(re, ae) := delta_of EdgeRecord_eq (e_maps e).2 (transaction_edge_visible e s)
    (bset_elements edge_ids) in
  mret (mkTxDelta rn re an ae).

Definition transaction_staged_batch (e : StorageEngine) (tx : TransactionId) : Res WriteBatch :=
  s ← active_session e tx; mret (ses_staged_batch s).

Definition transaction_incident_edge_ids (e : StorageEngine) (s : TransactionSession) (id : NodeId)
    : list EdgeId :=
  filter (λ eid, match transaction_edge_visible e s eid with
                 | Some edge => bool_decide (edge_source edge = id ∨ edge_target edge = id)
                 | None => false
                 end = true) (bset_elements (candidate_edge_ids e s)).

(** The overrides an operation sets, with its checks. *)
Definition stage_overrides (e : StorageEngine) (s : TransactionSession) (op : TransactionOperation)
    : Res TransactionSession :=
  let set_nodes o := mkSession (ses_transaction_id s) (ses_isolation_level s) (ses_state s)
    (ses_started_at_revision s) o (ses_edge_overrides s) (ses_staged_batch s) (ses_touched s) in
  let set_edges o := mkSession (ses_transaction_id s) (ses_isolation_level s) (ses_state s)
    (ses_started_at_revision s) (ses_node_overrides s) o (ses_staged_batch s) (ses_touched s) in
  match op with
  | UpsertNode node => Ok (set_nodes (<[node_id node := Some node]> (ses_node_overrides s)))
  | UpsertEdge edge =>
    if decide (transaction_node_visible e s (edge_source edge) = None) then
      Err (missing_endpoint "source" (edge_source edge))
    else if decide (transaction_node_visible e s (edge_target edge) = None) then
      Err (missing_endpoint "target" (edge_target edge))
    else Ok (set_edges (<[edge_id edge := Some edge]> (ses_edge_overrides s)))
  | DeleteNode id =>
    let s1 := set_nodes (<[id := None]> (ses_node_overrides s)) in
    let incident := transaction_incident_edge_ids e s1 id in
    Ok (mkSession (ses_transaction_id s) (ses_isolation_level s) (ses_state s)
      (ses_started_at_revision s) (ses_node_overrides s1)
      (foldl (λ o eid, <[eid := None]> o) (ses_edge_overrides s) incident)
      (ses_staged_batch s)
      (mkEffects (touched_node_ids (ses_touched s))
        (touched_edge_ids (ses_touched s) ∪ list_to_set incident)))
  | DeleteEdge id => Ok (set_edges (<[id := None]> (ses_edge_overrides s)))
  end.

Definition stage_operation_on_session (e : StorageEngine) (s : TransactionSession)
    (op : TransactionOperation) : Res TransactionSession :=
  let batch := batch_for_operation op in
  s ← stage_overrides e s op;
  mret (mkSession (ses_transaction_id s) (ses_isolation_level s) (ses_state s)
    (ses_started_at_revision s) (ses_node_overrides s) (ses_edge_overrides s)
    (merge_write_batches (ses_staged_batch s) batch)
    (extend_touched_sets (ses_touched s) batch)).

(** The session is taken out of the map first, and put back on success only. *)
Definition stage_transaction_operation (tx : TransactionId) (op : TransactionOperation)
    : engine_m TransactionSummary :=
  e ← self;
  session ← io_res (ok_or (e_transactions e !! tx) (tx_not_found tx));
  modify_self (λ e, set_transactions (delete tx (e_transactions e)) e) ;;
  (if decide (ses_state session = Active) then mret tt else io_fail (tx_not_active tx)) ;;
  e ← self;
  session ← io_res (stage_operation_on_session e session op);
  modify_self (λ e, set_transactions (<[tx := session]> (e_transactions e)) e) ;;
  mret (summary_for_session session).

Definition clear_version_history_if_unused (e : StorageEngine) : StorageEngine :=
  if decide (e_transactions e = ∅) then set_versions (∅, ∅) e else e.

(** [for id in touched { if lineage(id) > started { return Err(..) } }]. *)
Definition check_unchanged {K} `{Countable K} (conflict : K → Undr9Error) (lineage : Lineage K)
    (revision : N) (ids : list K) : Res unit :=
  result_each (λ id,
    if (revision <? default 0%N (lineage !! id))%N then Err (conflict id) else Ok tt) ids.

Definition node_conflict (tx : TransactionId) (id : NodeId) : Undr9Error :=
  Conflict ("node '" +:+ node_id_str id +:+ "' changed after transaction '" +:+
    transaction_id_str tx +:+ "' began").
Definition edge_conflict (tx : TransactionId) (id : EdgeId) : Undr9Error :=
  Conflict ("edge '" +:+ edge_id_str id +:+ "' changed after transaction '" +:+
    transaction_id_str tx +:+ "' began").

Definition commit_transaction (tx : TransactionId) : engine_m TransactionCommitResult :=
  e ← self;
  session ← io_res (active_session e tx);
  io_res (check_unchanged (node_conflict tx) (e_lineage e).1 (ses_started_at_revision session)
    (bset_elements (touched_node_ids (ses_touched session)))) ;;
  io_res (check_unchanged (edge_conflict tx) (e_lineage e).2 (ses_started_at_revision session)
    (bset_elements (touched_edge_ids (ses_touched session)))) ;;
  if batch_is_empty (ses_staged_batch session) then
    io_fail (Validation ("transaction '" +:+ transaction_id_str tx +:+ "' has no staged operations"))
  else
    lsn ← apply_write_batch_with_snapshot_readers (ses_staged_batch session)
      (size (e_transactions e) - 1)%nat;
    modify_self (λ e, clear_version_history_if_unused
      (set_transactions (delete tx (e_transactions e)) e)) ;;
    e ← self;
    mret (mkCommitResult tx (e_commit_revision e) lsn
      (staged_operation_count (ses_staged_batch session))).

Definition rollback_transaction (tx : TransactionId) : engine_m TransactionSummary :=
  e ← self;
  session ← io_res (ok_or (e_transactions e !! tx) (tx_not_found tx));
  modify_self (λ e, clear_version_history_if_unused
    (set_transactions (delete tx (e_transactions e)) e)) ;;
  mret (summary_for_session (mkSession (ses_transaction_id session) (ses_isolation_level session)
    RolledBack (ses_started_at_revision session) (ses_node_overrides session)
    (ses_edge_overrides session) (ses_staged_batch session) (ses_touched session))).

Definition rebuild_lineage (e : StorageEngine) : StorageEngine :=
  let revision := default (default 0%N (m_last_applied_lsn (e_manifest e))) (e_latest_applied_lsn e) in
  mkEngine (e_layout e) (e_manifest e) (e_wal e) (e_maps e)
    ((λ _, revision) <$> (e_maps e).1, (λ _, revision) <$> (e_maps e).2) (∅, ∅)
    revision (e_latest_applied_lsn e) (e_checkpoint_dirty e) (e_pending e) 1 ∅.

(** ** Consolidation *)

Definition set_property (key : string) (v : PropertyValue) (n : NodeRecord) : NodeRecord :=
  mkNode (node_id n) (node_type n) (<[key := v]> (node_properties n)) (node_vectors n).

Definition batch_for_consolidation_event (event : ConsolidationEvent) (nodes : Nodes) : WriteBatch :=
  match action event with
  | Merge => mkBatch ((λ n, set_property "archived" (PBoolean true)
      (set_property "merged_into" (PString (node_id_str (target_node_id event))) n))
      <$> omap (λ id, nodes !! id) (related_node_ids event)) [] [] []
  | Demote => mkBatch (match nodes !! target_node_id event with
      | Some n => [set_property "importance"
          (PFloat (f32_as_f64 (F32.mul (default (F32.lit 1 2) (importance n)) (F32.lit 1 2)))) n]
      | None => []
      end) [] [] []
  | Archive => mkBatch (match nodes !! target_node_id event with
      | Some n => [set_property "archived" (PBoolean true) n]
      | None => []
      end) [] [] []
  | Link => batch_default
  end.

(** [writeln!(file, "{line}")] at the end of a file. *)
Definition newline : bytes := [Byte.x0a].

Definition append_json_line (p : Path) (line : Result string string) : io unit :=
  match p with
  | [] => mret tt
  | _ :: parent => io_err (quoted "failed to create consolidation log directory" parent)
      (fs_create_dir_all parent)
  end ;;
  io_err (quoted "failed to open consolidation log" p) (fs_open_append p) ;;
  payload ← io_res (encode_err "failed to serialize json line" line);
  io_err "failed to append json line" (fs_append p (bytes_of_string payload ++ newline)).

Definition run_consolidation_event (event : ConsolidationEvent) : engine_m unit :=
  e ← self;
  let forward_batch := batch_for_consolidation_event event (e_maps e).1 in
  if batch_is_empty forward_batch then mret tt
  else
    payload ← io_res (encode_err ("failed to serialize consolidation event '" +:+
      event_id event +:+ "'") (postcard_encode_event event));
    on_wal (append KConsolidationEvent payload) ;;
    apply_write_batch forward_batch ;;
    on_world (append_json_line (consolidation_log_path (e_layout e)) (json_line_event event)).

Definition run_consolidation (now_epoch_ms : Z) : engine_m (list ConsolidationEvent) :=
  e ← self;
  let events := analyze (all_nodes e) (all_edges e) now_epoch_ms in
  if is_nil events then mret [] else
  sm_for events run_consolidation_event ;;
  mret events.

End engine.

(** ** One commit *)

Section commit.
Context `{WalCodec, StorageCodec}.

(** The engine after the versions of the touched keys were preserved. *)
Definition preserved (readers : nat) (batch : WriteBatch) (e : StorageEngine) : StorageEngine :=
  if (0 <? readers)%nat then
    set_versions (preserve_historical_versions (batch_effects (e_maps e).2 batch)
      (e_maps e) (e_lineage e) (e_versions e)) e
  else e.

(** The engine after a commit of [batch] at [lsn]. *)
Definition committed (readers : nat) (batch : WriteBatch) (lsn : N) (l' : Wal) (e : StorageEngine)
    : StorageEngine :=
  let effects := batch_effects (e_maps e).2 batch in
  let maps := apply_batch_to_maps_unchecked batch (e_maps e) in
  let e1 := set_committed lsn batch (update_lineage_for_batch effects (e_lineage e) maps.2 lsn) maps
    (set_wal l' (preserved readers batch e)) in
  if (0 <? readers)%nat then
    set_versions (record_versions_after_commit effects maps lsn (e_versions e1)) e1
  else e1.

(** Every branch of a write. *)
Lemma write_run batch readers w e :
  apply_write_batch_with_snapshot_readers batch readers (w, e) =
  match normalize_write_batch batch with
  | Err err => (Err (Error err), (w, e))
  | Ok _ =>
    if batch_is_empty batch then (Err (Error (Validation "write batch cannot be empty")), (w, e))
    else match validate_batch_against_maps (e_maps e).1 batch with
    | Err err => (Err (Error err), (w, e))
    | Ok _ =>
      match serialize_write_batch batch with
      | Err err => (Err (Error err), (w, preserved readers batch e))
      | Ok payload =>
        match append KWriteBatch payload (w, e_wal e) with
        | (Err f, (w', l')) => (Err f, (w', set_wal l' (preserved readers batch e)))
        | (Ok record, (w', l')) =>
          (Ok (lsn_of record), (w', committed readers batch (lsn_of record) l' e))
        end
      end
    end
  end.
Proof.
  unfold apply_write_batch_with_snapshot_readers, mbind, sm_bind, io_res, sm_lift.
  destruct (normalize_write_batch batch) as [b|err] eqn:Hn; [|done].
  apply normalize_write_batch_id in Hn as ->. cbn [map_err].
  destruct (batch_is_empty batch); [done|]. unfold self.
  destruct (validate_batch_against_maps (e_maps e).1 batch) as [[]|err]; [|done]. cbn [map_err].
  assert (Hpre : (if (0 <? readers)%nat then modify_self (λ e0, set_versions
      (preserve_historical_versions (batch_effects (e_maps e).2 batch) (e_maps e0) (e_lineage e0)
        (e_versions e0)) e0) else mret tt) (w, e) = (Ok tt, (w, preserved readers batch e))).
  { unfold preserved. by destruct (0 <? readers)%nat. }
  rewrite Hpre. destruct (serialize_write_batch batch) as [payload|err]; [|done]. cbn [map_err].
  unfold on_wal. replace (e_wal (preserved readers batch e)) with (e_wal e)
    by (unfold preserved; by destruct (0 <? readers)%nat).
  destruct (append KWriteBatch payload (w, e_wal e)) as [[record|f] [w' l']]; [|done].
  unfold modify_self, committed, preserved. by destruct (0 <? readers)%nat.
Qed.

End commit.

(** ** The versioned stores

    [store_wf live lineage versions cur]: revisions are at most the current one, and
    a key without lineage is absent at every revision. *)

Section store_invariant.
Context {K T : Type} `{Countable K, OrdKey K}.
Implicit Types (live : gmap K T) (lineage : Lineage K) (versions : Versions K T).

Record store_wf live lineage versions (cur : N) : Prop := {
  sw_le : ∀ k r, lineage !! k = Some r → (r ≤ cur)%N;
  sw_none : ∀ k, lineage !! k = None →
    live !! k = None ∧ ∀ r, versions !! k ≫= last_at r = None;
}.

(** At the current revision a store shows its live values. *)
Lemma visible_current live lineage versions cur k : store_wf live lineage versions cur →
  visible_value_at_revision k cur live lineage versions = live !! k.
Proof.
  intros [Hle Hnone]. unfold visible_value_at_revision. destruct (lineage !! k) as [r|] eqn:Hl.
  - by rewrite (proj2 (N.leb_le _ _)) by eauto.
  - destruct (Hnone k Hl) as [-> Hv]. apply Hv.
Qed.

(** Preserving versions ahead of a commit changes no view. *)
Lemma visible_preserve touched live lineage versions r k :
  visible_value_at_revision k r live lineage (preserve_versions touched live lineage versions) =
  visible_value_at_revision k r live lineage versions.
Proof.
  unfold visible_value_at_revision. rewrite lookup_preserve_versions.
  destruct (lineage !! k) as [L|]; [|done]. destruct (decide (k ∈ touched)); [|done].
  destruct (L <=? r)%N eqn:HL; [done|]. simpl. rewrite last_at_append, HL.
  by destruct (versions !! k).
Qed.

Lemma store_wf_preserve touched live lineage versions cur :
  store_wf live lineage versions cur →
  store_wf live lineage (preserve_versions touched live lineage versions) cur.
Proof.
  intros [Hle Hnone]. split; [done|]. intros k Hk. destruct (Hnone k Hk) as [Hl Hv]. split; [done|].
  intros r. rewrite lookup_preserve_versions, Hk. apply Hv.
Qed.

(** What a commit does to a store, with and without readers. *)
Lemma store_wf_commit (record : bool) touched live live' lineage lineage' versions cur v :
  store_wf live lineage versions cur → (cur < v)%N →
  (∀ k, (k ∉ touched) → live' !! k = live !! k ∧ lineage' !! k = lineage !! k) →
  (∀ k, k ∈ touched → lineage' !! k = Some v ∨
    lineage' !! k = None ∧ lineage !! k = None ∧ live' !! k = None) →
  store_wf live' lineage'
    (if record then record_versions touched live' v (preserve_versions touched live lineage versions)
     else versions) v.
Proof.
  intros [Hle Hnone] Hv Hun Htouch. split.
  - intros k r Hr. destruct (decide (k ∈ touched)) as [Hk|Hk].
    + destruct (Htouch k Hk) as [Heq|(Heq & _)]; rewrite Heq in Hr; simplify_eq. lia.
    + destruct (Hun k Hk) as [_ Heq]. rewrite Heq in Hr. apply Hle in Hr. lia.
  - intros k Hk. destruct (decide (k ∈ touched)) as [Hkt|Hkt].
    + destruct (Htouch k Hkt) as [Heq|(_ & Hl & Hlive)]; [congruence|]. split; [done|].
      intros r. destruct (Hnone k Hl) as [_ Hvn]. destruct record; [|apply Hvn].
      rewrite lookup_record_versions, lookup_preserve_versions, decide_True, Hl by done. simpl.
      rewrite last_at_append, Hlive. destruct (v <=? r)%N; [done|].
      specialize (Hvn r). by destruct (versions !! k).
    + destruct (Hun k Hkt) as [-> Hl]. rewrite Hl in Hk. destruct (Hnone k Hk) as [? Hvn].
      split; [done|]. intros r. destruct record; [|apply Hvn].
      rewrite lookup_record_versions, lookup_preserve_versions, decide_False, Hk by done. apply Hvn.
Qed.
End store_invariant.

(** ** The engine's invariant *)

Section engine_invariant.
Context `{WalCodec, StorageCodec}.

(** The touched sets name every id the staged batch writes. *)
Definition touched_covers (touched : BatchEffects) (b : WriteBatch) : Prop :=
  (∀ id, id ∈ node_id <$> nodes_upserted b ∨ id ∈ deleted_node_ids b → id ∈ touched_node_ids touched) ∧
  (∀ id, id ∈ edge_id <$> edges_upserted b ∨ id ∈ deleted_edge_ids b → id ∈ touched_edge_ids touched).

(** A session is filed under the id of an ordinal already given out, began at or
    before the current revision, and knows what it touched. *)
Definition session_ok (e : StorageEngine) (tx : TransactionId) (s : TransactionSession) : Prop :=
  (ses_transaction_id s = tx ∧ touched_covers (ses_touched s) (ses_staged_batch s)) ∧
  (ses_started_at_revision s ≤ e_commit_revision e)%N ∧
  ∃ i, (i < e_next_transaction_ordinal e)%N ∧ tx = transaction_id_of i.

Record engine_wf (e : StorageEngine) : Prop := {
  ew_maps : maps_wf (e_maps e);
  ew_nodes : store_wf (e_maps e).1 (e_lineage e).1 (e_versions e).1 (e_commit_revision e);
  ew_edges : store_wf (e_maps e).2 (e_lineage e).2 (e_versions e).2 (e_commit_revision e);
  ew_lsn : (e_commit_revision e < next_lsn (e_wal e))%N;
  ew_sessions : ∀ tx s, e_transactions e !! tx = Some s → session_ok e tx s;
}.

(** A freshly opened engine: every key has the revision of the last applied record. *)
Lemma store_wf_rebuilt {K T} `{Countable K, OrdKey K} (live : gmap K T) (r : N) :
  store_wf live ((λ _, r) <$> live) ∅ r.
Proof.
  split; intros k; rewrite lookup_fmap; destruct (live !! k) eqn:Hk; try done.
  intros r'. simpl. intros [= ->]. lia.
Qed.

Lemma rebuild_lineage_wf e : maps_wf (e_maps e) →
  (e_commit_revision (rebuild_lineage e) < next_lsn (e_wal e))%N → engine_wf (rebuild_lineage e).
Proof.
  intros Hm Hl. split; try done; apply store_wf_rebuilt.
Qed.

(** The two stores of the maps and what a session saw when it began. *)
Definition base_node (e : StorageEngine) (revision : N) (id : NodeId) : option NodeRecord :=
  visible_node_at_revision id revision (e_maps e).1 (e_lineage e).1 (e_versions e).1.
Definition base_edge (e : StorageEngine) (revision : N) (id : EdgeId) : option EdgeRecord :=
  visible_edge_at_revision id revision (e_maps e).2 (e_lineage e).2 (e_versions e).2.

(** [e'] shows at [revision] what [e] does. *)
Definition same_view (e e' : StorageEngine) (revision : N) : Prop :=
  (∀ id, base_node e' revision id = base_node e revision id) ∧
  (∀ id, base_edge e' revision id = base_edge e revision id).

Lemma same_view_refl e r : same_view e e r.
Proof. done. Qed.
Lemma same_view_trans e1 e2 e3 r : same_view e1 e2 r → same_view e2 e3 r → same_view e1 e3 r.
Proof. intros [H1 H2] [H3 H4]. split; intros id; by rewrite ?H3, ?H4. Qed.

Lemma base_node_current e id : engine_wf e → base_node e (e_commit_revision e) id = (e_maps e).1 !! id.
Proof. intros Hwf. by apply visible_current, Hwf. Qed.
Lemma base_edge_current e id : engine_wf e → base_edge e (e_commit_revision e) id = (e_maps e).2 !! id.
Proof. intros Hwf. by apply visible_current, Hwf. Qed.

(** The lineage after a commit covers what the batch changed. *)
Lemma commit_node_lineage b e lsn id :
  let effects := batch_effects (e_maps e).2 b in
  let maps := apply_batch_to_maps_unchecked b (e_maps e) in
  let lineage := update_lineage_for_batch effects (e_lineage e) maps.2 lsn in
  ((id ∉ touched_node_ids effects) →
    maps.1 !! id = (e_maps e).1 !! id ∧ lineage.1 !! id = (e_lineage e).1 !! id) ∧
  (id ∈ touched_node_ids effects → lineage.1 !! id = Some lsn).
Proof.
  intros effects maps lineage. split; intros Hid.
  - split; [by eapply untouched_node|]. unfold lineage.
    by rewrite lookup_update_lineage_nodes, decide_False.
  - unfold lineage. by rewrite lookup_update_lineage_nodes, decide_True.
Qed.

Lemma commit_edge_lineage b e lsn id : maps_wf (e_maps e) →
  let effects := batch_effects (e_maps e).2 b in
  let maps := apply_batch_to_maps_unchecked b (e_maps e) in
  let lineage := update_lineage_for_batch effects (e_lineage e) maps.2 lsn in
  ((id ∉ touched_edge_ids effects) →
    maps.2 !! id = (e_maps e).2 !! id ∧ lineage.2 !! id = (e_lineage e).2 !! id) ∧
  (id ∈ touched_edge_ids effects → lineage.2 !! id = Some lsn ∨
    lineage.2 !! id = None ∧ (e_lineage e).2 !! id = None ∧ maps.2 !! id = None).
Proof.
  intros Hwf effects maps lineage. split; intros Hid.
  - split; [apply untouched_edge; [apply Hwf|done]|]. unfold lineage.
    by rewrite lookup_update_lineage_edges, decide_False.
  - unfold lineage. rewrite lookup_update_lineage_edges, decide_True by done.
    case_decide as Hd; [by left|]. right. split; [done|].
    split; apply eq_None_not_Some; tauto.
Qed.

Lemma committed_wf readers b lsn l' e :
  engine_wf e → batch_ok (e_maps e) b →
  (e_commit_revision e < lsn)%N → (lsn < next_lsn l')%N → engine_wf (committed readers b lsn l' e).
Proof.
  intros Hwf Hok Hlsn Hnext. destruct Hwf as [Hm Hn He Hl Hs].
  pose proof (λ id, commit_node_lineage b e lsn id) as Hnl.
  pose proof (λ id, commit_edge_lineage b e lsn id Hm) as Hel. simpl in Hnl, Hel.
  pose proof (store_wf_commit (0 <? readers)%nat
    (touched_node_ids (batch_effects (e_maps e).2 b)) _ _ _ _ _ _ lsn Hn Hlsn
    (λ k, proj1 (Hnl k)) (λ k Hk, or_introl (proj2 (Hnl k) Hk))) as Hn'.
  pose proof (store_wf_commit (0 <? readers)%nat
    (touched_edge_ids (batch_effects (e_maps e).2 b)) _ _ _ _ _ _ lsn He Hlsn
    (λ k, proj1 (Hel k)) (λ k Hk, proj2 (Hel k) Hk)) as He'.
  unfold committed, preserved. destruct (0 <? readers)%nat; split; simpl; try done.
  all: try by apply apply_batch_wf.
  all: intros tx s Htx; destruct (Hs tx s Htx) as (? & ? & ?);
    split; [done|]; split; [simpl; lia|done].
Qed.

Lemma committed_view readers b lsn l' e r :
  engine_wf e → (r < lsn)%N → (r ≤ e_commit_revision e)%N → readers ≠ 0%nat →
  same_view e (committed readers b lsn l' e) r.
Proof.
  intros Hwf Hlsn Hr Hrd. destruct Hwf as [Hm Hn He Hl Hs].
  pose proof (λ id, commit_node_lineage b e lsn id) as Hnl.
  pose proof (λ id, commit_edge_lineage b e lsn id Hm) as Hel. simpl in Hnl, Hel.
  unfold committed, preserved. rewrite (proj2 (Nat.ltb_lt _ _)) by lia.
  split; intros id; apply visible_commit; simpl; try done.
  - apply Hnl.
  - intros Hid. left. by apply Hnl.
  - apply Hel.
  - intros Hid. destruct (proj2 (Hel id) Hid) as [|(? & ? & _)]; auto.
Qed.

Lemma preserved_wf readers b e : engine_wf e → engine_wf (preserved readers b e).
Proof.
  intros [Hm Hn He Hl Hs]. unfold preserved. destruct (0 <? readers)%nat; [|done].
  split; simpl; try done; by apply store_wf_preserve.
Qed.

Lemma preserved_view readers b e r : same_view e (preserved readers b e) r.
Proof.
  unfold preserved. destruct (0 <? readers)%nat; [|done].
  split; intros id; apply visible_preserve.
Qed.
End engine_invariant.

(** ** Steps of the engine *)

Section engine_steps.
Context `{WalCodec, StorageCodec}.

(** Every operation on a running engine, with any outcome.  The side conditions
    exclude only the exhaustion of the 64-bit counters. *)
Inductive engine_step : World * StorageEngine → World * StorageEngine → Prop :=
| es_write batch w e : (next_lsn (e_wal e) + 1 < u64_max)%N →
    engine_step (w, e) (apply_write_batch batch (w, e)).2
| es_begin level w e : (e_next_transaction_ordinal e < u64_max)%N →
    engine_step (w, e) (w, (begin_transaction level e).2)
| es_stage tx op st : engine_step st (stage_transaction_operation tx op st).2
| es_commit tx w e : (next_lsn (e_wal e) + 1 < u64_max)%N →
    engine_step (w, e) (commit_transaction tx (w, e)).2
| es_rollback tx st : engine_step st (rollback_transaction tx st).2
| es_consolidate event w e : (next_lsn (e_wal e) + 2 < u64_max)%N →
    engine_step (w, e) (run_consolidation_event event (w, e)).2.

(** The sessions of [e'] are sessions of [e] that see what they saw, or new ones. *)
Definition sessions_kept (e e' : StorageEngine) : Prop :=
  (e_next_transaction_ordinal e ≤ e_next_transaction_ordinal e')%N ∧
  ∀ tx s', e_transactions e' !! tx = Some s' →
    (∃ s, e_transactions e !! tx = Some s ∧
      ses_started_at_revision s' = ses_started_at_revision s ∧
      same_view e e' (ses_started_at_revision s)) ∨
    (∃ i, (e_next_transaction_ordinal e ≤ i)%N ∧ tx = transaction_id_of i).

Lemma sessions_kept_refl e : sessions_kept e e.
Proof. split; [done|]. intros tx s Hs. left. eauto using same_view_refl. Qed.

Lemma sessions_kept_trans e1 e2 e3 :
  sessions_kept e1 e2 → sessions_kept e2 e3 → sessions_kept e1 e3.
Proof.
  intros [Ho1 H1] [Ho2 H2]. split; [lia|]. intros tx s3 Hs3.
  destruct (H2 tx s3 Hs3) as [(s2 & Hs2 & Hst2 & Hv2)|(i & Hi & ->)].
  - destruct (H1 tx s2 Hs2) as [(s1 & Hs1 & Hst1 & Hv1)|(i & Hi & ->)].
    + left. exists s1. split; [done|]. split; [congruence|].
      rewrite Hst1 in Hv2. by eapply same_view_trans.
    + right. eauto.
  - right. exists i. split; [lia|done].
Qed.

(** Changes that leave maps, lineage, versions, revision and counters alone, and
    only remove sessions or restage them. *)
Lemma set_wal_wf l' e : engine_wf e → (next_lsn (e_wal e) ≤ next_lsn l')%N →
  engine_wf (set_wal l' e).
Proof. intros [Hm Hn He Hl Hs] Hle. split; simpl; try done. lia. Qed.

Lemma set_wal_kept l' e : sessions_kept e (set_wal l' e).
Proof. split; [done|]. intros tx s Hs. left. by exists s. Qed.

Lemma u64_add_next n : (n + 1 < u64_max)%N → u64_add n 1 = (n + 1)%N.
Proof. intros. apply u64_add_small. unfold u64_modulus, u64_max in *. lia. Qed.

Lemma write_step batch readers w e r w' e' :
  engine_wf e → (next_lsn (e_wal e) + 1 < u64_max)%N →
  apply_write_batch_with_snapshot_readers batch readers (w, e) = (r, (w', e')) →
  engine_wf e' ∧ e_transactions e' = e_transactions e ∧
  e_next_transaction_ordinal e' = e_next_transaction_ordinal e ∧
  (readers ≠ 0%nat → ∀ rev, (rev ≤ e_commit_revision e)%N → same_view e e' rev).
Proof.
  intros Hwf Hnext. rewrite write_run.
  destruct (normalize_write_batch batch) as [b|err] eqn:Hn; [|by intros [= <- <- <-]].
  pose proof (normalize_write_batch_id _ _ Hn) as ->.
  destruct (batch_is_empty batch); [by intros [= <- <- <-]|].
  destruct (validate_batch_against_maps (e_maps e).1 batch) as [[]|err] eqn:Hv;
    [|by intros [= <- <- <-]].
  assert (Hpre : e_transactions (preserved readers batch e) = e_transactions e ∧
    e_next_transaction_ordinal (preserved readers batch e) = e_next_transaction_ordinal e ∧
    e_wal (preserved readers batch e) = e_wal e).
  { unfold preserved. by destruct (0 <? readers)%nat. }
  destruct Hpre as (Hpt & Hpo & Hpw).
  destruct (serialize_write_batch batch) as [payload|err].
  2: { intros [= <- <- <-]. eauto using preserved_wf, preserved_view. }
  destruct (append KWriteBatch payload (w, e_wal e)) as [[record|f] [w1 l1]] eqn:Happ;
    apply append_lsn in Happ.
  - destruct Happ as [Hrec Hl1]. rewrite u64_add_next in Hl1 by done. intros [= <- <- <-].
    pose proof (ew_lsn _ Hwf). split; [|split; [|split]].
    + apply committed_wf; [done|by split|lia|lia].
    + unfold committed. rewrite <-Hpt. by destruct (0 <? readers)%nat.
    + unfold committed. rewrite <-Hpo. by destruct (0 <? readers)%nat.
    + intros Hrd rev Hrev. apply committed_view; [done|lia|done|done].
  - intros [= <- <- <-]. split; [|split; [done|split; [done|]]].
    + apply set_wal_wf; [by apply preserved_wf|]. rewrite Hpw, Happ. done.
    + intros _ rev _. apply (same_view_trans _ (preserved readers batch e)); [|done].
      apply preserved_view.
Qed.

Lemma write_kept batch w e : engine_wf e → (next_lsn (e_wal e) + 1 < u64_max)%N →
  let e' := (apply_write_batch batch (w, e)).2.2 in engine_wf e' ∧ sessions_kept e e'.
Proof.
  intros Hwf Hnext. unfold apply_write_batch. unfold mbind, sm_bind, self.
  destruct (apply_write_batch_with_snapshot_readers batch (size (e_transactions e)) (w, e))
    as [r [w' e']] eqn:Hrun. simpl.
  destruct (write_step _ _ _ _ _ _ _ Hwf Hnext Hrun) as (Hwf' & Ht & Ho & Hview).
  split; [done|]. split; [by rewrite Ho|]. intros tx s Hs. left. exists s. rewrite Ht in Hs.
  split; [done|]. split; [done|]. apply Hview; [|by eapply ew_sessions].
  intros Hz. apply map_size_empty_inv in Hz. rewrite Hz in Hs. by rewrite lookup_empty in Hs.
Qed.

Lemma remove_session_wf tx e : engine_wf e →
  engine_wf (set_transactions (delete tx (e_transactions e)) e).
Proof.
  intros [Hm Hn He Hl Hs]. split; simpl; try done.
  intros tx' s [_ Hs']%lookup_delete_Some. by apply Hs in Hs'.
Qed.

Lemma remove_session_kept tx e :
  sessions_kept e (set_transactions (delete tx (e_transactions e)) e).
Proof.
  split; [done|]. simpl. intros tx' s [_ Hs]%lookup_delete_Some. left. by exists s.
Qed.

Lemma clear_versions_wf e : engine_wf e → engine_wf (clear_version_history_if_unused e).
Proof.
  intros Hwf. unfold clear_version_history_if_unused. case_decide; [|done].
  destruct Hwf as [Hm [Hn1 Hn2] [He1 He2] Hl Hs].
  assert (Hempty : ∀ {K T} `{Countable K} (k : K) r,
    (∅ : gmap K (list (VersionedValue T))) !! k ≫= last_at r = None)
    by (intros; by rewrite lookup_empty).
  split; simpl; try done; split; simpl; try done; intros k Hk; split; auto.
  - by apply Hn2.
  - by apply He2.
Qed.

Lemma clear_versions_kept e : sessions_kept e (clear_version_history_if_unused e).
Proof.
  unfold clear_version_history_if_unused. case_decide as Ht; [|apply sessions_kept_refl].
  split; [done|]. simpl. rewrite Ht. intros tx s Hs. by rewrite lookup_empty in Hs.
Qed.
End engine_steps.

Section engine_preserves.
Context `{WalCodec, StorageCodec}.

Lemma stage_overrides_keeps e s op s' : stage_overrides e s op = Ok s' →
  ses_transaction_id s' = ses_transaction_id s ∧ ses_state s' = ses_state s ∧
  ses_started_at_revision s' = ses_started_at_revision s ∧ ses_staged_batch s' = ses_staged_batch s ∧
  touched_node_ids (ses_touched s) ⊆ touched_node_ids (ses_touched s') ∧
  touched_edge_ids (ses_touched s) ⊆ touched_edge_ids (ses_touched s').
Proof.
  unfold stage_overrides. destruct op; intros; repeat case_decide; simplify_eq; simpl;
    repeat (split; [done|]); by try apply union_subseteq_l.
Qed.

Lemma touched_covers_merge touched b op : touched_covers touched b →
  touched_covers (extend_touched_sets touched (batch_for_operation op))
    (merge_write_batches b (batch_for_operation op)).
Proof.
  intros [Hn He]. unfold merge_write_batches, extend_touched_sets. split; simpl; intros id;
    rewrite ?fmap_app, !elem_of_app, !elem_of_union, !elem_of_list_to_set; naive_solver.
Qed.

Lemma stage_operation_Ok e s op s' : stage_operation_on_session e s op = Ok s' →
  ∃ s1, stage_overrides e s op = Ok s1 ∧
    ses_transaction_id s' = ses_transaction_id s ∧ ses_state s' = ses_state s ∧
    ses_started_at_revision s' = ses_started_at_revision s ∧
    ses_node_overrides s' = ses_node_overrides s1 ∧ ses_edge_overrides s' = ses_edge_overrides s1 ∧
    ses_staged_batch s' = merge_write_batches (ses_staged_batch s) (batch_for_operation op) ∧
    (touched_covers (ses_touched s) (ses_staged_batch s) →
     touched_covers (ses_touched s') (ses_staged_batch s')).
Proof.
  unfold stage_operation_on_session. intros (s1 & Hs1 & Hs')%result_bind_Ok.
  destruct (stage_overrides_keeps _ _ _ _ Hs1) as (? & ? & ? & Hb & Hn & He).
  exists s1. injection Hs' as <-. simpl. rewrite Hb. repeat (split; [done|]).
  intros [Hcn Hce]. apply touched_covers_merge. split; intros id Hid; auto.
Qed.

(** What staging does to the engine, on every branch. *)
Lemma stage_run tx op w e : stage_transaction_operation tx op (w, e) =
  match e_transactions e !! tx with
  | None => (Err (Error (tx_not_found tx)), (w, e))
  | Some s =>
    let e1 := set_transactions (delete tx (e_transactions e)) e in
    if decide (ses_state s = Active) then
      match stage_operation_on_session e1 s op with
      | Err err => (Err (Error err), (w, e1))
      | Ok s' => (Ok (summary_for_session s'),
          (w, set_transactions (<[tx := s']> (delete tx (e_transactions e))) e1))
      end
    else (Err (Error (tx_not_active tx)), (w, e1))
  end.
Proof.
  unfold stage_transaction_operation, mbind, sm_bind, self, io_res, sm_lift, ok_or.
  destruct (e_transactions e !! tx) as [s|]; [|done]. cbn [map_err]. unfold modify_self.
  case_decide; [|done]. unfold mret, sm_ret.
  by destruct (stage_operation_on_session _ _ _).
Qed.

Lemma set_session_wf tx s e : engine_wf e → session_ok e tx s →
  engine_wf (set_transactions (<[tx := s]> (e_transactions e)) e).
Proof.
  intros [Hm Hn He Hl Hs] Hok. split; simpl; try done.
  intros tx' s' [[<- <-]|[_ Hs']]%lookup_insert_Some; [done|by apply Hs].
Qed.

Lemma stage_kept tx op w e : engine_wf e →
  let e' := (stage_transaction_operation tx op (w, e)).2.2 in engine_wf e' ∧ sessions_kept e e'.
Proof.
  intros Hwf. rewrite stage_run.
  destruct (e_transactions e !! tx) as [s|] eqn:Hs; [|split; [done|apply sessions_kept_refl]].
  pose proof (remove_session_wf tx e Hwf) as Hwf1. pose proof (remove_session_kept tx e) as Hk1.
  cbn zeta. case_decide; [|done].
  destruct (stage_operation_on_session _ s op) as [s'|err] eqn:Hst; [|done].
  apply stage_operation_Ok in Hst as (s1 & _ & Hid & _ & Hrev & _ & _ & _ & Hcov).
  destruct (ew_sessions _ Hwf tx s Hs) as ([Hsid Hc] & Hle & Hi). simpl. split.
  - apply (set_session_wf tx s' _ Hwf1). split; [split; [congruence|auto]|]. split; [simpl; by rewrite Hrev|done].
  - split; [done|]. simpl. intros tx' s2 [[<- <-]|[_ [_ Hs2]%lookup_delete_Some]]%lookup_insert_Some.
    + left. exists s. done.
    + left. by exists s2.
Qed.

Lemma begin_kept level e : engine_wf e → (e_next_transaction_ordinal e < u64_max)%N →
  let e' := (begin_transaction level e).2 in engine_wf e' ∧ sessions_kept e e'.
Proof.
  intros [Hm Hn He Hl Hs] Hord. simpl.
  assert (Hadd : u64_add (e_next_transaction_ordinal e) 1 = (e_next_transaction_ordinal e + 1)%N).
  { apply u64_add_small. unfold u64_modulus, u64_max in *. lia. }
  split.
  - split; simpl; try done. intros tx s [[<- <-]|[_ Hs']]%lookup_insert_Some.
    + split; [split; [done|]; split; simpl; intros id; rewrite !elem_of_nil; tauto|].
      split; [done|]. exists (e_next_transaction_ordinal e). simpl. split; [lia|done].
    + destruct (Hs tx s Hs') as (? & ? & i & ? & ?). split; [done|]. split; [done|].
      exists i. simpl. split; [lia|done].
  - split; [simpl; lia|]. simpl. intros tx s [[<- <-]|[_ Hs']]%lookup_insert_Some.
    + right. eauto with lia.
    + left. by exists s.
Qed.

Lemma rollback_kept tx w e : engine_wf e →
  let e' := (rollback_transaction tx (w, e)).2.2 in engine_wf e' ∧ sessions_kept e e'.
Proof.
  intros Hwf. unfold rollback_transaction, mbind, sm_bind, self, io_res, sm_lift, ok_or.
  destruct (e_transactions e !! tx) as [s|]; [|split; [done|apply sessions_kept_refl]].
  simpl. split; [by apply clear_versions_wf, remove_session_wf|].
  eapply sessions_kept_trans; [apply remove_session_kept|apply clear_versions_kept].
Qed.

Lemma commit_run tx w e : commit_transaction tx (w, e) =
  match active_session e tx with
  | Err err => (Err (Error err), (w, e))
  | Ok s =>
    match check_unchanged (node_conflict tx) (e_lineage e).1 (ses_started_at_revision s)
        (bset_elements (touched_node_ids (ses_touched s))) ;;
      check_unchanged (edge_conflict tx) (e_lineage e).2 (ses_started_at_revision s)
        (bset_elements (touched_edge_ids (ses_touched s))) with
    | Err err => (Err (Error err), (w, e))
    | Ok _ =>
      if batch_is_empty (ses_staged_batch s) then
        (Err (Error (Validation ("transaction '" +:+ transaction_id_str tx +:+
          "' has no staged operations"))), (w, e))
      else
        match apply_write_batch_with_snapshot_readers (ses_staged_batch s)
            (size (e_transactions e) - 1)%nat (w, e) with
        | (Err f, st) => (Err f, st)
        | (Ok lsn, (w', e')) =>
          let e2 := clear_version_history_if_unused
            (set_transactions (delete tx (e_transactions e')) e') in
          (Ok (mkCommitResult tx (e_commit_revision e2) lsn
            (staged_operation_count (ses_staged_batch s))), (w', e2))
        end
    end
  end.
Proof.
  unfold commit_transaction. unfold mbind at 1, sm_bind at 1, self at 1.
  unfold mbind at 1, sm_bind at 1, io_res at 1, sm_lift at 1.
  destruct (active_session e tx) as [s|err]; [|done]. cbn [map_err].
  unfold mbind at 1, sm_bind at 1, io_res at 1, sm_lift at 1.
  destruct (check_unchanged (node_conflict tx) _ _ _) as [[]|err]; [|done]. cbn [map_err].
  unfold mbind at 1, sm_bind at 1, io_res at 1, sm_lift at 1. cbn [mbind result_bind].
  destruct (check_unchanged (edge_conflict tx) _ _ _) as [[]|err]; [|done]. cbn [map_err].
  destruct (batch_is_empty (ses_staged_batch s)); [done|].
  unfold mbind at 1, sm_bind at 1.
  by destruct (apply_write_batch_with_snapshot_readers _ _ (w, e)) as [[lsn|f] [w' e']].
Qed.

Lemma active_session_Ok e tx s : active_session e tx = Ok s ↔
  e_transactions e !! tx = Some s ∧ ses_state s = Active.
Proof.
  unfold active_session, ok_or, mbind, result_bind, mret, result_ret.
  destruct (e_transactions e !! tx) as [s'|]; [|naive_solver].
  case_decide; naive_solver.
Qed.

Lemma commit_kept tx w e : engine_wf e → (next_lsn (e_wal e) + 1 < u64_max)%N →
  let e' := (commit_transaction tx (w, e)).2.2 in engine_wf e' ∧ sessions_kept e e'.
Proof.
  intros Hwf Hnext. rewrite commit_run. destruct (active_session e tx) as [s|err] eqn:Hs;
    [|split; [done|apply sessions_kept_refl]].
  apply active_session_Ok in Hs as [Hs _].
  destruct (_ ;; _) as [[]|err]; [|split; [done|apply sessions_kept_refl]].
  destruct (batch_is_empty _); [split; [done|apply sessions_kept_refl]|].
  destruct (apply_write_batch_with_snapshot_readers _ _ (w, e)) as [r [w' e']] eqn:Hrun.
  destruct (write_step _ _ _ _ _ _ _ Hwf Hnext Hrun) as (Hwf' & Ht & Ho & Hview).
  assert (Hkept : ∀ tx' s', tx' ≠ tx → e_transactions e' !! tx' = Some s' →
    e_transactions e !! tx' = Some s' ∧ same_view e e' (ses_started_at_revision s')).
  { intros tx' s' Hne Hs'. rewrite Ht in Hs'. split; [done|]. apply Hview; [|by eapply ew_sessions].
    rewrite <-(insert_delete_id _ _ _ Hs), map_size_insert_None by apply lookup_delete_eq.
    assert (Hd : delete tx (e_transactions e) !! tx' = Some s')
      by (by rewrite lookup_delete_ne by done).
    intros Hz. assert (Hz' : size (delete tx (e_transactions e)) = 0%nat) by lia.
    apply map_size_empty_inv in Hz'. rewrite Hz' in Hd. by rewrite lookup_empty in Hd. }
  destruct r as [lsn|f]; simpl.
  - split; [by apply clear_versions_wf, remove_session_wf|].
    eapply sessions_kept_trans; [|apply clear_versions_kept].
    split; [simpl; by rewrite Ho|]. simpl. intros tx' s' [Hne Hs']%lookup_delete_Some.
    left. exists s'. destruct (Hkept tx' s') as [? Hv]; [done|done|]. split; [done|]. split; [done|].
    exact Hv.
  - split; [done|]. split; [by rewrite Ho|]. intros tx' s' Hs'. left. exists s'.
    destruct (decide (tx' = tx)) as [->|Hne]; [|by destruct (Hkept tx' s') as [? ?]].
    rewrite Ht in Hs'. split; [done|]. split; [done|].
    (* a refused write leaves every view alone *)
    revert Hrun. rewrite write_run. clear.
    repeat case_match; intros [= <- <- <-]; try apply same_view_refl; apply preserved_view.
Qed.
End engine_preserves.

Section snapshot_isolation.
Context `{WalCodec, StorageCodec}.

Lemma consolidate_kept event w e : engine_wf e → (next_lsn (e_wal e) + 2 < u64_max)%N →
  let e' := (run_consolidation_event event (w, e)).2.2 in engine_wf e' ∧ sessions_kept e e'.
Proof.
  intros Hwf Hnext. destruct (run_consolidation_event event (w, e)) as [r [w' e']] eqn:Hrun.
  cbn [fst snd]. unfold run_consolidation_event in Hrun.
  sm_inv Hrun; unfold self in Hm; [injection Hm as <- <-|done].
  destruct (batch_is_empty _); [sm_pure Hrun; by eauto using sessions_kept_refl|].
  sm_inv Hrun; unfold io_res in Hm; sm_pure Hm; [|by eauto using sessions_kept_refl].
  sm_inv Hrun; destruct st as [w1 e1]; unfold on_wal in Hm;
    destruct (append KConsolidationEvent _ (w, e_wal e)) as [r1 [w2 l1]] eqn:Happ;
    apply append_lsn in Happ; simplify_eq.
  - destruct Happ as [_ Hl1]. rewrite u64_add_next in Hl1 by lia.
    assert (Hwf1 : engine_wf (set_wal l1 e)) by (apply set_wal_wf; [done|lia]).
    sm_inv Hrun; destruct st as [w3 e3];
      destruct (write_kept (batch_for_consolidation_event event (e_maps e).1) w1 (set_wal l1 e) Hwf1)
        as [Hwf2 Hk2]; try (simpl; lia); rewrite Hm in Hwf2, Hk2; cbn [snd] in Hwf2, Hk2.
    + apply on_world_self in Hrun as ->. split; [done|].
      eapply sessions_kept_trans; [apply (set_wal_kept l1)|done].
    + simplify_eq. split; [done|]. eapply sessions_kept_trans; [apply (set_wal_kept l1)|done].
  - split; [apply set_wal_wf; [done|lia]|apply set_wal_kept].
Qed.

Lemma engine_step_kept st st' : engine_step st st' → engine_wf st.2 →
  engine_wf st'.2 ∧ sessions_kept st.2 st'.2.
Proof.
  intros [batch w e Hn|level w e Ho|tx op [w e]|tx w e Hn|tx [w e]|event w e Hn] Hwf; simpl in Hwf.
  - by apply write_kept.
  - by apply begin_kept.
  - by apply stage_kept.
  - by apply commit_kept.
  - by apply rollback_kept.
  - by apply consolidate_kept.
Qed.

Lemma engine_reachable st st' : rtc engine_step st st' → engine_wf st.2 →
  engine_wf st'.2 ∧ sessions_kept st.2 st'.2.
Proof.
  induction 1 as [st|st1 st2 st3 Hstep _ IH]; intros Hwf; [split; [done|apply sessions_kept_refl]|].
  destruct (engine_step_kept _ _ Hstep Hwf) as [Hwf2 Hk2]. destruct (IH Hwf2) as [Hwf3 Hk3].
  split; [done|]. by eapply sessions_kept_trans.
Qed.

#[global] Instance transaction_id_of_inj : Inj (=) (=) transaction_id_of.
Proof. intros i j [= Heq]. by apply (inj pretty). Qed.

(** What a transaction sees under an id: its own writes over a base. *)
Definition overlay {K V} `{Countable K} (overrides : gmap K (option V)) (base : K → option V) (k : K)
    : option V :=
  match overrides !! k with Some v => v | None => base k end.

Lemma begin_session level e : engine_wf e →
  let e1 := (begin_transaction level e).2 in
  let tx := ts_transaction_id (begin_transaction level e).1 in
  ∃ s, e_transactions e1 !! tx = Some s ∧ ses_started_at_revision s = e_commit_revision e ∧
    tx = transaction_id_of (e_next_transaction_ordinal e) ∧
    (∀ id, base_node e1 (e_commit_revision e) id = (e_maps e).1 !! id) ∧
    (∀ id, base_edge e1 (e_commit_revision e) id = (e_maps e).2 !! id).
Proof.
  intros Hwf. simpl. rewrite lookup_insert_eq. eexists. split; [done|]. split; [done|].
  split; [done|]. split; intros id; [exact (base_node_current e id Hwf)|exact (base_edge_current e id Hwf)].
Qed.

End snapshot_isolation.


Section commit_facts.
Context `{WalCodec, StorageCodec}.

Lemma check_unchanged_Ok {K} `{Countable K, OrdKey K} (conflict : K → Undr9Error) lineage revision
    (ids : gset K) :
  check_unchanged conflict lineage revision (bset_elements ids) = Ok tt ↔
  ∀ id, id ∈ ids → (default 0%N (lineage !! id) ≤ revision)%N.
Proof.
  unfold check_unchanged. rewrite result_each_Ok, list.Forall_forall.
  setoid_rewrite elem_of_bset_elements.
  assert (Hid : ∀ id, (if (revision <? default 0%N (lineage !! id))%N then Err (conflict id)
    else Ok tt) = Ok tt ↔ (default 0%N (lineage !! id) ≤ revision)%N).
  { intros id. destruct (N.ltb_spec revision (default 0%N (lineage !! id))); split; (done || lia). }
  setoid_rewrite Hid. done.
Qed.

Lemma check_unchanged_Err {K} `{Countable K} (conflict : K → Undr9Error) lineage revision ids err :
  check_unchanged conflict lineage revision ids = Err err → ∃ id, err = conflict id.
Proof.
  unfold check_unchanged. induction ids as [|id ids IH]; simpl; [done|].
  destruct (_ <? _)%N; simpl; [|apply IH]. intros [= <-]. eauto.
Qed.

(** A store shows its live value at every revision the key has not changed after. *)
Lemma visible_unchanged {K T} `{Countable K, OrdKey K} (live : gmap K T) lineage versions cur k r :
  store_wf live lineage versions cur → (default 0%N (lineage !! k) ≤ r)%N →
  visible_value_at_revision k r live lineage versions = live !! k.
Proof.
  intros [_ Hnone] Hr. unfold visible_value_at_revision. destruct (lineage !! k) as [L|] eqn:HL.
  - simpl in Hr. by rewrite (proj2 (N.leb_le _ _)).
  - destruct (Hnone k HL) as [-> Hv]. apply Hv.
Qed.

(** What a successful commit found. *)
Lemma commit_Ok tx w e r w' e' :
  commit_transaction tx (w, e) = (Ok r, (w', e')) → engine_wf e →
  ∃ s lsn e1, e_transactions e !! tx = Some s ∧ ses_state s = Active ∧
    apply_write_batch_with_snapshot_readers (ses_staged_batch s) (size (e_transactions e) - 1)
      (w, e) = (Ok lsn, (w', e1)) ∧
    e' = clear_version_history_if_unused (set_transactions (delete tx (e_transactions e1)) e1) ∧
    (∀ id, id ∈ touched_node_ids (ses_touched s) →
      base_node e (ses_started_at_revision s) id = (e_maps e).1 !! id) ∧
    (∀ id, id ∈ touched_edge_ids (ses_touched s) →
      base_edge e (ses_started_at_revision s) id = (e_maps e).2 !! id).
Proof.
  rewrite commit_run. intros Hrun Hwf. destruct (active_session e tx) as [s|err] eqn:Hs; [|done].
  apply active_session_Ok in Hs as [Hs Hact].
  destruct (check_unchanged _ _ _ _ ;; _) as [[]|err] eqn:Hchk; [|done].
  apply result_seq_Ok in Hchk as [Hcn Hce].
  rewrite (check_unchanged_Ok (K := NodeId)) in Hcn. rewrite (check_unchanged_Ok (K := EdgeId)) in Hce.
  destruct (batch_is_empty _); [done|].
  destruct (apply_write_batch_with_snapshot_readers _ _ (w, e)) as [[lsn|f] [w1 e1]] eqn:Hw; [|done].
  injection Hrun as <- <- <-. exists s, lsn, e1. repeat (split; [done|]).
  split; intros id Hid.
  - eapply visible_unchanged; [apply Hwf|by apply Hcn].
  - eapply visible_unchanged; [apply Hwf|by apply Hce].
Qed.

(** The maps a successful write leaves. *)
Lemma write_Ok batch readers w e lsn w' e' :
  apply_write_batch_with_snapshot_readers batch readers (w, e) = (Ok lsn, (w', e')) →
  batch_ok (e_maps e) batch ∧ e_maps e' = apply_batch_to_maps_unchecked batch (e_maps e) ∧
  lsn = next_lsn (e_wal e) ∧ e_commit_revision e' = lsn ∧ e_latest_applied_lsn e' = Some lsn ∧
  e_pending e' = e_pending e ++ [mkDelta lsn batch] ∧ e_transactions e' = e_transactions e ∧
  ∃ payload record, serialize_write_batch batch = Ok payload ∧
    append KWriteBatch payload (w, e_wal e) = (Ok record, (w', e_wal e')) ∧ lsn_of record = lsn ∧
    e_manifest e' = e_manifest e ∧ e_layout e' = e_layout e.
Proof.
  rewrite write_run. destruct (normalize_write_batch batch) as [b|] eqn:Hn; [|done].
  pose proof (normalize_write_batch_id _ _ Hn) as ->.
  destruct (batch_is_empty batch); [done|].
  destruct (validate_batch_against_maps (e_maps e).1 batch) as [[]|] eqn:Hv; [|done].
  destruct (serialize_write_batch batch) as [payload|] eqn:Hser; [|done].
  destruct (append KWriteBatch payload (w, e_wal e)) as [[record|f] [w1 l1]] eqn:Happ; [|done].
  intros [= <- <- <-]. pose proof (append_lsn _ _ _ _ _ _ _ Happ) as [Hlsn _].
  split; [by split|]. unfold committed, preserved.
  destruct (0 <? readers)%nat; simpl; repeat (split; [done|]); eauto 10.
Qed.

Lemma edge_key_changed_node e b id : (e_maps e).1 !! id = None →
  node_after b (e_maps e).1 id = None ∨ id ∈ node_id <$> nodes_upserted b.
Proof.
  intros Hn. unfold node_after. case_decide; [by left|].
  destruct (last_with node_id id (nodes_upserted b)) eqn:Hl; [|by left].
  right. apply last_with_is_Some. eauto.
Qed.

(** ** Undoing a consolidation *)

Lemma apply_node_batch l m :
  apply_batch_to_maps_unchecked (batch_of_nodes l) m = (insert_all node_id l m.1, m.2).
Proof. by destruct m. Qed.

Lemma lookup_insert_all_None {K V} `{Countable K} (key : V → K) l (m : gmap K V) k :
  k ∉ key <$> l → insert_all key l m !! k = m !! k.
Proof. intros Hk. rewrite lookup_insert_all. by rewrite (proj2 (last_with_None key k l)). Qed.

(** Inserting the stored records of the changed keys puts a map back. *)
Lemma insert_all_restore (m : Nodes) changed originals :
  node_id <$> changed = node_id <$> originals →
  (∀ n, n ∈ originals → m !! node_id n = Some n) →
  insert_all node_id originals (insert_all node_id changed m) = m.
Proof.
  intros Hkeys Horig. apply map_eq. intros id. rewrite lookup_insert_all.
  destruct (last_with node_id id originals) as [n|] eqn:Hl.
  - apply last_with_Some in Hl as [Hin <-]. symmetry. by apply Horig.
  - apply last_with_None in Hl. rewrite <-Hkeys in Hl. by apply lookup_insert_all_None.
Qed.

Lemma min_by_id_elem l n : min_by_id l = Some n → n ∈ l.
Proof.
  destruct l as [|x l]; [done|]. intros [= <-].
  assert (Hgen : ∀ acc, foldl (λ best n, if decide (ord_le (node_id best) (node_id n))
    then best else n) acc l ∈ acc :: l).
  { induction l as [|y l IH]; intros acc; simpl; [left|].
    case_decide; [specialize (IH acc)|specialize (IH y)]; set_solver. }
  apply Hgen.
Qed.

Lemma list_find_nodes (m : Maps) id : maps_wf m →
  snd <$> list_find (λ n, node_id n = id) (btree_values m.1) = m.1 !! id.
Proof.
  intros Hwf. destruct (list_find (λ n, node_id n = id) (btree_values m.1)) as [[i n]|] eqn:Hf; simpl.
  - apply list_find_Some in Hf as (Hi & <- & _).
    assert (Hin : n ∈ btree_values m.1) by (apply list_elem_of_lookup; eauto).
    apply elem_of_btree_values in Hin as [k Hk]. by rewrite (mw_node_key _ Hwf k n Hk).
  - destruct (m.1 !! id) as [n|] eqn:Hm; [|done]. exfalso.
    apply list_find_None in Hf. rewrite list.Forall_forall in Hf. apply (Hf n).
    + apply elem_of_btree_values. eauto.
    + by apply (mw_node_key _ Hwf id).
Qed.

Lemma omap_keys (m : Nodes) (l : list NodeId) : (∀ id n, m !! id = Some n → node_id n = id) →
  ∀ n, n ∈ omap (λ id, m !! id) l → m !! node_id n = Some n.
Proof. intros Hk n (id & _ & Hid)%list_elem_of_omap. by rewrite (Hk id n Hid). Qed.

(** A consolidation event found on the current maps carries the records its own
    batch changes. *)
Lemma event_reverse m now event : maps_wf m →
  event ∈ analyze (btree_values m.1) (btree_values m.2) now →
  ∃ changed originals, batch_for_consolidation_event event m.1 = batch_of_nodes changed ∧
    reverse_batch event = batch_of_nodes originals ∧
    node_id <$> changed = node_id <$> originals ∧ (∀ n, n ∈ originals → m.1 !! node_id n = Some n).
Proof.
  intros Hwf. rewrite elem_of_analyze. intros [(ty & key & He)|[(n & Hn & _ & ->)|(n & Hn & _ & ->)]].
  - unfold merge_event in He. destruct (_ <? 2)%nat; [done|].
    destruct (min_by_id _) as [primary|]; [|done]. simpl in He. destruct (is_nil _); [done|].
    injection He as <-. unfold batch_for_consolidation_event.
    cbn [action related_node_ids target_node_id reverse_batch].
    eexists _, _. split; [done|]. split; [done|].
    generalize (node_id <$> filter (λ n, node_id n ≠ node_id primary) (filter (in_group ty key)
      (btree_values m.1))) as ids. intros ids.
    assert (Hom : omap (λ id, snd <$> list_find (λ n, node_id n = id) (btree_values m.1)) ids
      = omap (λ id, m.1 !! id) ids).
    { induction ids as [|id ids IH]; [done|]. csimpl.
      by rewrite list_find_nodes, IH by done. }
    rewrite Hom. split; [by rewrite <-list_fmap_compose|].
    apply omap_keys, Hwf.
  - apply elem_of_btree_values in Hn as [k Hk]. pose proof (mw_node_key _ Hwf k n Hk) as <-.
    unfold batch_for_consolidation_event. simpl. rewrite Hk. eexists _, _. split; [done|].
    split; [done|]. split; [done|]. by intros n' ->%list_elem_of_singleton.
  - apply elem_of_btree_values in Hn as [k Hk]. pose proof (mw_node_key _ Hwf k n Hk) as <-.
    unfold batch_for_consolidation_event. simpl. rewrite Hk. eexists _, _. split; [done|].
    split; [done|]. split; [done|]. by intros n' ->%list_elem_of_singleton.
Qed.
End commit_facts.

(** ** Properties *)

Section engine_properties.
Context `{WalCodec, StorageCodec}.




(** C29: A refused write leaves the graph, its lineage and revision, the pending
    entries, the open transactions and what they see as they were. *)
Theorem failed_write_is_atomic batch w e f w' e' :
  apply_write_batch batch (w, e) = (Err f, (w', e')) →
  e_maps e' = e_maps e ∧ e_lineage e' = e_lineage e ∧ e_commit_revision e' = e_commit_revision e ∧
  e_latest_applied_lsn e' = e_latest_applied_lsn e ∧ e_pending e' = e_pending e ∧
  e_transactions e' = e_transactions e ∧ next_lsn (e_wal e') = next_lsn (e_wal e) ∧
  ∀ revision, same_view e e' revision.
Proof.
  unfold apply_write_batch. intros Hrun. sm_inv Hrun; [|done]. unfold self in Hm.
  injection Hm as <- <-. revert Hrun. rewrite write_run.
  set (readers := size (e_transactions e)).
  assert (Hpre : e_maps (preserved readers batch e) = e_maps e ∧
    e_lineage (preserved readers batch e) = e_lineage e ∧
    e_commit_revision (preserved readers batch e) = e_commit_revision e ∧
    e_latest_applied_lsn (preserved readers batch e) = e_latest_applied_lsn e ∧
    e_pending (preserved readers batch e) = e_pending e ∧
    e_transactions (preserved readers batch e) = e_transactions e ∧
    e_wal (preserved readers batch e) = e_wal e).
  { unfold preserved. by destruct (0 <? readers)%nat. }
  destruct Hpre as (? & ? & ? & ? & ? & ? & Hw). pose proof (preserved_view readers batch e) as Hv.
  destruct (normalize_write_batch batch); [|by intros [= _ _ <-]].
  destruct (batch_is_empty batch); [by intros [= _ _ <-]|].
  destruct (validate_batch_against_maps _ _); [|by intros [= _ _ <-]].
  destruct (serialize_write_batch batch) as [payload|]; [|intros [= _ _ <-]; by rewrite Hw].
  destruct (append KWriteBatch payload (w, e_wal e)) as [[record|f'] [w1 l1]] eqn:Happ; [done|].
  apply append_lsn in Happ. intros [= _ _ <-]. simpl. done.
Qed.

(** A consolidation event can be undone: after the batch it runs, its reverse
    batch puts the graph back exactly. *)
Theorem consolidation_is_reversible m now event :
  maps_wf m → event ∈ analyze (btree_values m.1) (btree_values m.2) now →
  apply_batch_to_maps_unchecked (reverse_batch event)
    (apply_batch_to_maps_unchecked (batch_for_consolidation_event event m.1) m) = m.
Proof.
  intros Hwf Hin. destruct (event_reverse m now event Hwf Hin) as (changed & originals & -> & -> & Hk & Ho).
  rewrite !apply_node_batch. simpl. rewrite insert_all_restore by done. by destruct m.
Qed.

(** A staged operation that is refused drops its transaction: the session was
    taken out of the map first and is not put back, so that everything staged
    before is lost and the next call does not find the transaction. *)
Theorem refused_stage_drops_transaction tx edge w e s :
  e_transactions e !! tx = Some s → ses_state s = Active →
  transaction_node_visible e s (edge_source edge) = None →
  ∃ e', stage_transaction_operation tx (UpsertEdge edge) (w, e) =
      (Err (Error (missing_endpoint "source" (edge_source edge))), (w, e')) ∧
    e_transactions e' !! tx = None ∧
    commit_transaction tx (w, e') = (Err (Error (tx_not_found tx)), (w, e')).
Proof.
  intros Hs Hact Hnone. rewrite stage_run, Hs. cbn zeta. rewrite decide_True by done.
  unfold stage_operation_on_session, stage_overrides.
  assert (Hvis : transaction_node_visible (set_transactions (delete tx (e_transactions e)) e) s
    (edge_source edge) = None) by done.
  rewrite decide_True by done. eexists. split; [done|]. simpl.
  split; [apply lookup_delete_eq|]. rewrite commit_run. unfold active_session. simpl.
  by rewrite lookup_delete_eq.
Qed.

(** A node deleted and then upserted in one transaction is visible in it, and is
    missing after its commit: the merged batch forgets the order and deletions win. *)
Theorem delete_then_upsert_is_lost tx n w e s :
  e_transactions e !! tx = Some s → ses_state s = Active →
  let e1 := (stage_transaction_operation tx (DeleteNode (node_id n)) (w, e)).2.2 in
  let e2 := (stage_transaction_operation tx (UpsertNode n) (w, e1)).2.2 in
  transaction_node e2 tx (node_id n) = Ok (Some n) ∧
  ∀ r w' e', engine_wf e2 → commit_transaction tx (w, e2) = (Ok r, (w', e')) →
    (e_maps e').1 !! node_id n = None.
Proof.
  intros Hs Hact e1 e2.
  assert (H1 : ∃ s1, e_transactions e1 !! tx = Some s1 ∧ ses_state s1 = Active ∧
    node_id n ∈ deleted_node_ids (ses_staged_batch s1)).
  { unfold e1. rewrite stage_run, Hs. cbn zeta. rewrite decide_True by done.
    unfold stage_operation_on_session. simpl. rewrite lookup_insert_eq. eexists.
    split; [done|]. split; [done|]. simpl. set_solver. }
  destruct H1 as (s1 & Hs1 & Hact1 & Hdel).
  assert (H2 : ∃ s2, e_transactions e2 !! tx = Some s2 ∧ ses_state s2 = Active ∧
    ses_node_overrides s2 !! node_id n = Some (Some n) ∧
    node_id n ∈ deleted_node_ids (ses_staged_batch s2)).
  { unfold e2. rewrite stage_run, Hs1. cbn zeta. rewrite decide_True by done.
    unfold stage_operation_on_session. simpl. rewrite lookup_insert_eq. eexists.
    split; [done|]. split; [done|]. simpl. rewrite lookup_insert_eq. split; [done|]. set_solver. }
  destruct H2 as (s2 & Hs2 & Hact2 & Hov & Hdel2). split.
  - unfold transaction_node. rewrite (proj2 (active_session_Ok e2 tx s2)) by done. simpl.
    unfold transaction_node_visible. by rewrite Hov.
  - intros r w' e' Hwf Hrun. destruct (commit_Ok _ _ _ _ _ _ Hrun Hwf)
      as (s' & lsn & e3 & Hs' & _ & Hw & -> & _).
    assert (s' = s2) as -> by congruence. destruct (write_Ok _ _ _ _ _ _ _ Hw) as (_ & Hm & _).
    unfold clear_version_history_if_unused. case_decide; simpl; rewrite Hm, apply_batch_nodes;
      unfold node_after; by rewrite decide_True.
Qed.
End engine_properties.

(** ** A concrete engine *)

Module Demo.
Import Wal.Demo Batch.Demo Store.Demo.

Definition layout : StorageLayout := StorageLayout_new ["db"].
Definition manifest : Manifest := mkManifest "v1" ∅ (mkSettings true) true None.
Definition engine : StorageEngine :=
  rebuild_lineage (mkEngine layout manifest (log 100000) maps (∅, ∅) (∅, ∅) 0 None false [] 0 ∅).

Lemma engine_is_wf : engine_wf engine.
Proof. apply rebuild_lineage_wf; [apply maps_are_wf|by vm_compute]. Qed.

Definition tx : TransactionId := transaction_id_of 1.
Definition begun : StorageEngine := (begin_transaction Snapshot engine).2.
Lemma begun_is_wf : engine_wf begun.
Proof. apply begin_kept; [apply engine_is_wf|by vm_compute]. Qed.
(** Another client changes [a] while the transaction is open. *)
Definition changed : World * StorageEngine :=
  (apply_write_batch (mkBatch [node "a" "robot"] [] [] []) (world, begun)).2.
(** The transaction stages one operation. *)
Definition staged (op : TransactionOperation) (st : World * StorageEngine) : World * StorageEngine :=
  (stage_transaction_operation tx op st).2.
Definition session_of (e : StorageEngine) : TransactionSession :=
  default (new_session tx Snapshot 0) (e_transactions e !! tx).

End Demo.

Section witnesses.
Import Wal.Demo Batch.Demo Store.Demo Demo.




Lemma failed_write_is_atomic_witness :
  let st := apply_write_batch (mkBatch [node "c" "person"] [edge "cd" "c" "d"] [] []) (world, begun) in
  (∃ f, st.1 = Err f) ∧ e_maps st.2.2 = e_maps begun ∧
  (∀ revision, same_view begun st.2.2 revision).
Proof.
  destruct (apply_write_batch _ _) as [[n|f] [w' e']] eqn:Hst; [by vm_compute in Hst|]. split; [by exists f|]. cbn [snd].
  destruct (failed_write_is_atomic _ _ _ _ _ _ Hst) as (Hm & _ & _ & _ & _ & _ & _ & Hv). done.
Defined.

(** Two nodes with one unique key: the second is merged into the first, and back. *)
Lemma consolidation_is_reversible_witness :
  let named id := mkNode (mkNodeId id) "person" {["unique_key" := PString "ada"]} ∅ in
  let m : Maps := ({[mkNodeId "a" := named "a"; mkNodeId "b" := named "b"]}, ∅) in
  ∃ event, event ∈ analyze (btree_values m.1) (btree_values m.2) 0 ∧ action event = Merge ∧
    (apply_batch_to_maps_unchecked (batch_for_consolidation_event event m.1) m ≠ m) ∧
    apply_batch_to_maps_unchecked (reverse_batch event)
      (apply_batch_to_maps_unchecked (batch_for_consolidation_event event m.1) m) = m.
Proof.
  intros named m.
  destruct (analyze (btree_values m.1) (btree_values m.2) 0) as [|event l] eqn:Ha;
    [by vm_compute in Ha|].
  exists event. split; [left|].
  assert (Hact : action <$> head (event :: l) = Some Merge) by (rewrite <-Ha; by vm_compute).
  assert (Hne : (λ ev, bool_decide (apply_batch_to_maps_unchecked
    (batch_for_consolidation_event ev m.1) m = m)) <$> head (event :: l) = Some false)
    by (rewrite <-Ha; by vm_compute).
  injection Hact as Hact. injection Hne as Hne%bool_decide_eq_false. split; [done|]. split; [done|].
  apply (consolidation_is_reversible m 0); [|rewrite Ha; left].
  split; simpl; apply map_Forall_to_list; vm_compute; repeat constructor; eexists; done.
Defined.

Lemma refused_stage_drops_transaction_witness :
  let st := staged (UpsertNode (node "c" "person")) (world, begun) in
  is_Some (e_transactions st.2 !! tx) ∧
  ∃ e', stage_transaction_operation tx (UpsertEdge (edge "xa" "x" "a")) st =
      (Err (Error (missing_endpoint "source" (mkNodeId "x"))), (st.1, e')) ∧
    e_transactions e' !! tx = None ∧
    commit_transaction tx (st.1, e') = (Err (Error (tx_not_found tx)), (st.1, e')).
Proof.
  set (st := staged _ _). split; [by vm_compute; eexists|].
  pose proof (refused_stage_drops_transaction tx (edge "xa" "x" "a") st.1 st.2 (session_of st.2)) as Hr.
  rewrite <-surjective_pairing in Hr. apply Hr; by vm_compute.
Defined.

Lemma delete_then_upsert_is_lost_witness :
  let e1 := staged (DeleteNode (mkNodeId "a")) (world, begun) in
  let e2 := staged (UpsertNode (node "a" "reborn")) e1 in
  transaction_node e2.2 tx (mkNodeId "a") = Ok (Some (node "a" "reborn")) ∧
  ∃ r w' e', commit_transaction tx e2 = (Ok r, (w', e')) ∧ (e_maps e').1 !! mkNodeId "a" = None.
Proof.
  intros e1 e2.
  destruct (delete_then_upsert_is_lost tx (node "a" "reborn") world begun (session_of begun))
    as [Hv Hc]; [by vm_compute|by vm_compute|].
  split; [by vm_compute|].
  destruct (commit_transaction tx e2) as [[r|f] [w' e']] eqn:Hrun; [|by vm_compute in Hrun].
  exists r, w', e'. split; [done|].
  assert (He : e2 = (world, (stage_transaction_operation tx (UpsertNode (node "a" "reborn"))
    (world, e1.2)).2.2)) by (by vm_compute).
  apply (Hc r w' e'); [|by rewrite He in Hrun].
  apply stage_kept. change (engine_wf (staged (DeleteNode (mkNodeId "a")) (world, begun)).2).
  apply stage_kept, begun_is_wf.
Defined.
End witnesses.
