(* ===== verification/Recovery.v ===== *)
(** * [crates/storage]: opening, checkpoints and repair

    [StorageEngine::open] replays the log over the published files; a checkpoint
    publishes the pending entries as a delta segment, a compaction writes whole
    snapshots and truncates the log.  [verify_storage_layout] and [repair_storage]
    work on the files of a store. *)
From S2P Require Import Prelude RustStd Common Core Config Fs Wal Memory Batch Store Engine.

#[local] Open Scope string_scope.
#[local] Open Scope list_scope.

Definition set_recovered (latest : option N) (dirty : bool) (e : StorageEngine) : StorageEngine :=
  mkEngine (e_layout e) (e_manifest e) (e_wal e) (e_maps e) (e_lineage e) (e_versions e)
    (e_commit_revision e) latest dirty (e_pending e) (e_next_transaction_ordinal e)
    (e_transactions e).
Definition set_replayed (m : Maps) (entry : DeltaSegmentEntry) (e : StorageEngine) : StorageEngine :=
  mkEngine (e_layout e) (e_manifest e) (e_wal e) m (e_lineage e) (e_versions e)
    (e_commit_revision e) (e_latest_applied_lsn e) (e_checkpoint_dirty e) (e_pending e ++ [entry])
    (e_next_transaction_ordinal e) (e_transactions e).
Definition set_manifest (m : Manifest) (e : StorageEngine) : StorageEngine :=
  mkEngine (e_layout e) m (e_wal e) (e_maps e) (e_lineage e) (e_versions e)
    (e_commit_revision e) (e_latest_applied_lsn e) (e_checkpoint_dirty e) (e_pending e)
    (e_next_transaction_ordinal e) (e_transactions e).
Definition set_pending (l : list DeltaSegmentEntry) (e : StorageEngine) : StorageEngine :=
  mkEngine (e_layout e) (e_manifest e) (e_wal e) (e_maps e) (e_lineage e) (e_versions e)
    (e_commit_revision e) (e_latest_applied_lsn e) (e_checkpoint_dirty e) l
    (e_next_transaction_ordinal e) (e_transactions e).

(** An engine over loaded maps, before its lineage is built. *)
Definition engine_of (l : StorageLayout) (m : Manifest) (wal : Wal) (maps : Maps) (revision : N)
    (latest : option N) : StorageEngine :=
  mkEngine l m wal maps (∅, ∅) (∅, ∅) revision latest false [] 1 ∅.

Section recovery.
Context `{WalCodec, StorageCodec}.

(** ** Opening *)

(** One record of the log that the manifest does not cover yet. *)
Definition recover_record (record : WalRecord) : engine_m unit :=
  match h_kind (header record) with
  | KWriteBatch =>
    batch ← io_res (deserialize_write_batch (payload record) "recovery");
    e ← self;
    maps ← io_res (apply_batch_to_maps batch (e_maps e));
    modify_self (set_replayed maps (mkDelta (lsn_of record) batch))
  | KCheckpoint =>
    io_res (decode_err "failed to deserialize WAL checkpoint during recovery"
      (decode_marker (payload record))) ;;
    mret tt
  | KManifestSync => mret tt
  | KConsolidationEvent => mret tt
  end.

Fixpoint recover_records (last_applied_lsn : N) (records : list WalRecord) (latest_seen : option N)
    : engine_m (option N) :=
  match records with
  | [] => mret latest_seen
  | record :: records =>
    if (lsn_of record <=? last_applied_lsn)%N then recover_records last_applied_lsn records latest_seen
    else
      recover_record record ;;
      recover_records last_applied_lsn records (Some (lsn_of record))
  end.

Definition option_or {A} (a b : option A) : option A := match a with Some _ => a | None => b end.

Definition recover : engine_m unit :=
  e ← self;
  replayed ← on_world (replay (e_wal e));
  latest_seen ← recover_records (default 0%N (m_last_applied_lsn (e_manifest e))) replayed None;
  modify_self (λ e, set_recovered (option_or latest_seen (m_last_applied_lsn (e_manifest e)))
    (bool_decide (is_Some latest_seen)) e).

Definition open_engine (c : AppConfig) : io StorageEngine :=
  io_res (validate c) ;;
  '(layout, manifest) ← bootstrap (storage c);
  wal ← Wal_open (subdirectory layout "wal") (wal c);
  maps ← load_published_state layout manifest;
  with_self (recover ;; modify_self rebuild_lineage ;; self)
    (engine_of layout manifest wal maps 0 None).

(** ** Checkpoints *)

Definition durable_lsn (e : StorageEngine) : N :=
  default 0%N (option_or (e_latest_applied_lsn e) (m_last_applied_lsn (e_manifest e))).

Definition set_latest (lsn : N) (e : StorageEngine) : StorageEngine :=
  set_recovered (Some lsn) (e_checkpoint_dirty e) e.

(** The pending entries are moved out of the engine before the segment is written. *)
Definition publish_pending (checkpoint_lsn : N) : engine_m unit :=
  e ← self;
  match e_pending e with
  | [] => mret tt
  | first :: _ =>
    let path := delta_segment_path (e_layout e) (delta_lsn first) checkpoint_lsn in
    relative ← io_res (relative_path (e_layout e) path);
    modify_self (set_pending []) ;;
    checksum ← on_world (persist_delta_segment path (mkSegment 1 (e_pending e)));
    modify_self (λ e, set_manifest (manifest_insert relative checksum (e_manifest e)) e)
  end.

Definition publish_checkpoint (clean_shutdown : bool) : engine_m unit :=
  e ← self;
  checkpoint ← on_wal (append_checkpoint (mkMarker (durable_lsn e)));
  let lsn := lsn_of checkpoint in
  modify_self (set_latest lsn) ;;
  publish_pending lsn ;;
  modify_self (λ e, set_manifest (manifest_stamp (Some lsn) clean_shutdown (e_manifest e)) e) ;;
  e ← self;
  on_world (persist_manifest (manifest_path (e_layout e)) (e_manifest e)) ;;
  modify_self (λ e, set_recovered (e_latest_applied_lsn e) false e).

Definition graceful_shutdown : engine_m unit := publish_checkpoint true.
Definition checkpoint : engine_m unit := publish_checkpoint false.

Definition node_snapshot (m : Maps) : NodeSegmentSnapshot := mkSegment 1 (from_node <$> btree_values m.1).
Definition edge_snapshot (m : Maps) : EdgeSegmentSnapshot := mkSegment 1 (from_edge <$> btree_values m.2).
Definition vector_snapshot (m : Maps) : VectorSegmentSnapshot :=
  mkSegment 1 (vectors_from_node <$> btree_values m.1).

(** The manifest entries of the legacy snapshots go, the new ones come. *)
Definition forget_legacy_snapshots (m : Manifest) : Manifest :=
  manifest_remove "vectors/segment-0000000000000001.snapshot.json"
    (manifest_remove "edges/segment-0000000000000001.snapshot.json"
      (manifest_remove "nodes/segment-0000000000000001.snapshot.json" m)).

Definition remove_obsolete (p : Path) : io unit :=
  w ← sm_get;
  if path_exists w p then
    io_err (quoted "failed to remove obsolete delta segment" p) (fs_remove_file p)
  else mret tt.

Definition persist_state (last_applied_lsn : option N) (clean_shutdown clear_delta_segments : bool)
    : engine_m unit :=
  e ← self;
  let l := e_layout e in
  node_relative ← io_res (relative_path l (node_segment_path l));
  edge_relative ← io_res (relative_path l (edge_segment_path l));
  vector_relative ← io_res (relative_path l (vector_segment_path l));
  node_checksum ← on_world (persist_rkyv_snapshot (node_segment_path l)
    (rkyv_encode_nodes (node_snapshot (e_maps e))));
  edge_checksum ← on_world (persist_rkyv_snapshot (edge_segment_path l)
    (rkyv_encode_edges (edge_snapshot (e_maps e))));
  vector_checksum ← on_world (persist_rkyv_snapshot (vector_segment_path l)
    (rkyv_encode_vectors (vector_snapshot (e_maps e))));
  let m := forget_legacy_snapshots (e_manifest e) in
  let '(m, obsolete) := if clear_delta_segments then remove_manifest_files_with_prefix m "deltas/"
    else (m, []) in
  let m := manifest_insert node_relative node_checksum m in
  let m := manifest_insert edge_relative edge_checksum m in
  let m := manifest_insert vector_relative vector_checksum m in
  modify_self (set_manifest (manifest_stamp last_applied_lsn clean_shutdown m)) ;;
  e ← self;
  on_world (persist_manifest (manifest_path l) (e_manifest e)) ;;
  sm_for obsolete (λ relative, on_world (remove_obsolete (path_join (root_dir l) relative))).

Definition compact : engine_m unit :=
  e ← self;
  checkpoint ← on_wal (append_checkpoint (mkMarker (durable_lsn e)));
  let lsn := lsn_of checkpoint in
  modify_self (set_latest lsn) ;;
  persist_state (Some lsn) true true ;;
  modify_self (set_pending []) ;;
  modify_self (λ e, set_recovered (e_latest_applied_lsn e) false e) ;;
  on_wal truncate_all_segments.

(** ** Verification and repair *)

(** [match load(..) { Ok(v) => Some(v), Err(error) => { issues.push(..); None } }]. *)
Definition noting {A} (what : string) (issues : list string) (m : io A)
    : io (option A * list string) :=
  r ← io_catch m;
  mret (match r with
        | Ok a => (Some a, issues)
        | Err err => (None, issues ++ [what +:+ ": " +:+ error_to_string err])
        end).

Definition verify_storage_layout (l : StorageLayout) : io IntegrityReport :=
  w ← sm_get;
  let manifest_present := path_exists w (manifest_path l) in
  '(manifest, issues) ← (if manifest_present then noting "manifest" [] (load_manifest (manifest_path l))
    else mret (None, ["manifest: missing"]));
  '(nodes_valid, edges_valid, nodes, edges, issues) ← match manifest with
    | Some m =>
      '(state, issues) ← noting "published_state" issues (load_published_state l m);
      mret (match state with
            | Some (nodes, edges) => (true, true, size nodes, size edges, issues)
            | None => (false, false, 0, 0, issues)
            end)
    | None =>
      '(nodes, issues) ← noting "nodes" issues (load_raw_node_state l);
      '(edges, issues) ← noting "edges" issues (load_raw_edge_state l);
      mret (bool_decide (is_Some nodes), bool_decide (is_Some edges),
        default 0 (size <$> nodes), default 0 (size <$> edges), issues)
    end;
  '(wal_ok, issues) ← noting "wal" issues (replay_from_dir (subdirectory l "wal") u64_max);
  mret (mkReport manifest_present nodes_valid edges_valid (bool_decide (is_Some wal_ok))
    nodes edges issues).

Definition verify_integrity (e : StorageEngine) : io IntegrityReport :=
  verify_storage_layout (e_layout e).

(** The state a repair starts from, and the last LSN it covers. *)
Definition load_for_repair (l : StorageLayout) (m : Manifest) : io (Maps * N) :=
  published ← io_catch (load_published_state l m);
  match published with
  | Ok state => mret (state, default 0%N (m_last_applied_lsn m))
  | Err _ =>
    raw ← io_catch (load_raw_published_state l);
    match raw with
    | Ok state => mret (state, default 0%N (m_last_applied_lsn m))
    | Err _ =>
      nodes ← io_catch (load_raw_node_state l);
      edges ← io_catch (load_raw_edge_state l);
      let or_default {K V} `{Countable K} (r : Res (gmap K V)) := match r with Ok s => s | Err _ => ∅ end in
      nodes ← attach_raw_vectors l (or_default nodes);
      mret ((nodes, or_default edges), 0%N)
    end
  end.

Definition repair_record (checkpoint_lsn : N) (st : Maps * option N) (record : WalRecord)
    : Res (Maps * option N) :=
  let '(maps, last_applied_lsn) := st in
  if (lsn_of record <=? checkpoint_lsn)%N then Ok st
  else if decide (h_kind (header record) = KWriteBatch) then
    batch ← deserialize_write_batch (payload record) "repair";
    maps ← apply_batch_to_maps batch maps;
    mret (maps, Some (lsn_of record))
  else Ok (maps, Some (lsn_of record)).

Definition repair_storage (c : AppConfig) : io IntegrityReport :=
  io_res (validate c) ;;
  l ← prepare_storage_layout (storage c);
  m ← load_manifest_for_repair l (storage c);
  '(maps, checkpoint_lsn) ← load_for_repair l m;
  wal ← Wal_open (subdirectory l "wal") (wal c);
  replayed ← replay wal;
  '(maps, last_applied_lsn) ←
    io_res (result_foldl (repair_record checkpoint_lsn) (maps, m_last_applied_lsn m) replayed);
  let engine := rebuild_lineage (engine_of l (Manifest_for_config (storage c)) wal maps
    (default 0%N last_applied_lsn) last_applied_lsn) in
  with_self (persist_state last_applied_lsn true true) engine ;;
  verify_storage_layout l.

End recovery.
