(* ===== verification/Durability.v ===== *)
(** * [crates/storage]: what survives a crash

    [durable c n w e]: the files of [w] hold the state of the engine [e], with room
    for [n] more bytes of log.  Writes and transactions keep it, whatever their
    outcome, and opening a durable store gives the graph back. *)
From S2P Require Import Prelude RustStd Common Core Config Fs Wal Memory Batch Store Engine Recovery.

#[local] Open Scope string_scope.
#[local] Open Scope list_scope.

(** ** Loads read the published files only

    [reads P m]: without faults [m] changes nothing, and its result depends on the
    paths in [P] alone. *)

Record agree (P : Path → Prop) (w w' : World) : Prop := {
  ag_faults : faults w = [];
  ag_faults' : faults w' = [];
  ag_paths : ∀ p, P p → files w' !! p = files w !! p ∧ is_dir w' p = is_dir w p;
}.

Definition reads {A} (P : Path → Prop) (m : io A) : Prop :=
  ∀ w w', agree P w w' → ∃ r, m w = (r, w) ∧ m w' = (r, w').

Section reads.
Context (P : Path → Prop).

Lemma reads_ret {A} (a : A) : reads P (mret a).
Proof. intros w w' _. by eexists. Qed.
Lemma reads_res {A} (r : Res A) : reads P (io_res r).
Proof. intros w w' _. by eexists. Qed.
Lemma reads_bind {A B} (m : io A) (f : A → io B) :
  reads P m → (∀ a, reads P (f a)) → reads P (m ≫= f).
Proof.
  intros Hm Hf w w' Hag. destruct (Hm w w' Hag) as (r & H1 & H2). unfold mbind, sm_bind.
  rewrite H1, H2. destruct r as [a|err]; [by apply Hf|by eexists].
Qed.
Lemma reads_file what p : P p → reads P (io_err what (fs_read p)).
Proof.
  intros Hp w w' [Hf Hf' Hag]. destruct (Hag p Hp) as [Hfile Hdir].
  unfold io_err, io_try, fs_read. rewrite !fs_call_ok by done. unfold_sm. rewrite Hfile, Hdir.
  destruct (files w !! p); by eexists.
Qed.
Lemma reads_resolve p q : P p → P q → reads P (resolve_snapshot_path p q).
Proof.
  intros Hp Hq w w' [_ _ Hag]. unfold resolve_snapshot_path, path_exists, is_file. unfold_sm.
  destruct (Hag p Hp) as [-> ->], (Hag q Hq) as [-> ->]. by eexists.
Qed.
End reads.

(** The paths below the directories of published state. *)
Definition published (l : StorageLayout) (p : Path) : Prop :=
  p = manifest_path l ∨
  ∃ pre d, p = pre ++ d :: root_dir l ∧ d ∈ ["nodes"; "edges"; "vectors"; "deltas"].

Lemma published_child l d name : d ∈ ["nodes"; "edges"; "vectors"; "deltas"] →
  published l (name :: subdirectory l d).
Proof. intros Hd. right. by exists [name], d. Qed.

Lemma split_on_deltas s : String.prefix "deltas/" s = true →
  ∃ rest, split_on "/"%char s = "deltas" :: rest.
Proof.
  intros Hs. repeat (destruct s as [|? s]; [done|]; cbn [String.prefix] in Hs;
    destruct (ascii_dec _ _) as [<-|]; [|done]).
  exists (split_on "/"%char s). done.
Qed.

Lemma published_delta l s : String.prefix "deltas/" s = true → published l (path_join (root_dir l) s).
Proof.
  intros (rest & Hs)%split_on_deltas. right. exists (rev rest), "deltas". unfold path_join. rewrite Hs.
  simpl. rewrite <-app_assoc. split; [done|]. set_solver.
Qed.

Section loads.
Context `{WalCodec, StorageCodec} (l : StorageLayout) (P : Path → Prop).
Hypothesis P_child : ∀ d name, d ∈ ["nodes"; "edges"; "vectors"] → P (name :: subdirectory l d).

Lemma reads_snapshot m p : P p → reads P (read_verified_snapshot l m p).
Proof.
  intros Hp. unfold read_verified_snapshot, read_verified_file.
  apply reads_bind; [apply reads_res|intros relative]. apply reads_bind; [by apply reads_file|intros bs].
  destruct (m_files m !! relative); [case_match|]; [apply (reads_res _ (Err _))|apply reads_ret..].
Qed.

Lemma resolved_reads {A} p q (k : option Path → io A) : P p → P q → reads P (k None) →
  (∀ r, P r → r = p ∨ r = q → reads P (k (Some r))) → reads P (resolve_snapshot_path p q ≫= k).
Proof.
  intros Hp Hq Hnone Hsome w w' Hag. destruct (reads_resolve _ p q Hp Hq w w' Hag) as (r & H1 & H2).
  unfold mbind, sm_bind. rewrite H1, H2. revert H1. unfold resolve_snapshot_path. unfold_sm.
  intros [= <-]. destruct (path_exists w p); [by apply Hsome; [..|left|]|].
  destruct (path_exists w q); [by apply Hsome; [..|right|]|by apply Hnone].
Qed.

Ltac reads_steps := repeat first
  [ done | apply reads_ret | apply reads_res | apply reads_snapshot
  | apply reads_bind; [|intros ?] | apply P_child; set_solver ].

Lemma reads_node_state m : reads P (load_node_state l m).
Proof. unfold load_node_state. apply resolved_reads; [reads_steps..|intros r Hr _; reads_steps]. Qed.
Lemma reads_edge_state m : reads P (load_edge_state l m).
Proof. unfold load_edge_state. apply resolved_reads; [reads_steps..|intros r Hr _; reads_steps]. Qed.
Lemma reads_vectors m nodes : reads P (attach_vectors l m nodes).
Proof. unfold attach_vectors. apply resolved_reads; [reads_steps..|intros r Hr _; reads_steps]. Qed.

Lemma reads_delta_segments m paths : Forall P paths →
  ∀ maps, reads P (apply_delta_segments l m paths maps).
Proof.
  induction 1 as [|p paths Hp _ IH]; intros maps; simpl; [apply reads_ret|]. reads_steps.
Qed.

Lemma reads_published_with m : Forall P (manifest_delta_segment_paths l m) →
  reads P (load_published_state l m).
Proof.
  intros Hdeltas. unfold load_published_state. apply reads_bind; [apply reads_node_state|intros nodes].
  apply reads_bind; [apply reads_edge_state|intros edges].
  apply reads_bind; [apply reads_vectors|intros nodes']. by apply reads_delta_segments.
Qed.
End loads.

Section published_loads.
Context `{WalCodec, StorageCodec} (l : StorageLayout).

Lemma manifest_deltas_published m : Forall (published l) (manifest_delta_segment_paths l m).
Proof.
  unfold manifest_delta_segment_paths, sort_paths. rewrite list.Forall_forall. intros p.
  rewrite merge_sort_Permutation, list_elem_of_fmap. intros (f & -> & Hf%list_elem_of_filter).
  apply published_delta, Hf.
Qed.

Lemma reads_published_state m : reads (published l) (load_published_state l m).
Proof.
  apply reads_published_with; [|apply manifest_deltas_published].
  intros d name Hd. apply published_child. set_solver.
Qed.

Lemma reads_manifest : reads (published l) (load_manifest (manifest_path l)).
Proof.
  unfold load_manifest. apply reads_bind; [apply reads_file; by left|intros bs]. apply reads_res.
Qed.
End published_loads.
(** ** Replaying the tail of the log *)

Section tail.
Context `{WalCodec, StorageCodec}.

(** What recovering one record does to the maps and the pending entries. *)
Definition recover_step (st : Maps * list DeltaSegmentEntry) (record : WalRecord)
    : Res (Maps * list DeltaSegmentEntry) :=
  match h_kind (header record) with
  | KWriteBatch =>
    batch ← deserialize_write_batch (payload record) "recovery";
    maps ← apply_batch_to_maps batch st.1;
    mret (maps, st.2 ++ [mkDelta (lsn_of record) batch])
  | KCheckpoint =>
    decode_err "failed to deserialize WAL checkpoint during recovery" (decode_marker (payload record)) ;;
    mret st
  | KManifestSync | KConsolidationEvent => mret st
  end.

Definition tail_of (last_applied_lsn : N) (records : list WalRecord) : list WalRecord :=
  filter (λ r, (last_applied_lsn < lsn_of r)%N) records.

Definition set_state (st : Maps * list DeltaSegmentEntry) (e : StorageEngine) : StorageEngine :=
  set_pending st.2 (set_maps st.1 e).
Definition state_of (e : StorageEngine) : Maps * list DeltaSegmentEntry := (e_maps e, e_pending e).

Lemma set_state_id e : set_state (state_of e) e = e.
Proof. by destruct e. Qed.

Lemma recover_record_run record w e st : recover_step (state_of e) record = Ok st →
  recover_record record (w, e) = (Ok tt, (w, set_state st e)).
Proof.
  unfold recover_step, recover_record, mbind, sm_bind, io_res, sm_lift.
  destruct (h_kind (header record)).
  - intros (batch & Hd & Hm)%result_bind_Ok. apply result_bind_Ok in Hm as (maps & Hm & Hst).
    rewrite Hd. cbn [map_err self]. change (e_maps e) with (state_of e).1. rewrite Hm.
    by injection Hst as <-.
  - intros (m & Hm & Hst)%result_bind_Ok. rewrite Hm. injection Hst as <-. by rewrite set_state_id.
  - intros [= <-]. by rewrite set_state_id.
  - intros [= <-]. by rewrite set_state_id.
Qed.

Lemma recover_records_run k records : ∀ w e latest st,
  result_foldl recover_step (state_of e) (tail_of k records) = Ok st →
  recover_records k records latest (w, e) =
    (Ok (option_or (lsn_of <$> list.last (tail_of k records)) latest), (w, set_state st e)).
Proof.
  induction records as [|r records IH]; intros w e latest st Hrun.
  - injection Hrun as <-. by rewrite set_state_id.
  - unfold tail_of in *. cbn [recover_records]. rewrite filter_cons in *.
    destruct (N.leb_spec (lsn_of r) k) as [Hle|Hlt].
    + rewrite decide_False in * by lia. by apply IH.
    + rewrite decide_True in * by lia. cbn [result_foldl] in Hrun.
      apply result_bind_Ok in Hrun as (st1 & Hr & Hrun).
      unfold mbind at 1, sm_bind. rewrite (recover_record_run r w e st1) by done.
      rewrite (IH w (set_state st1 e) _ st) by (by destruct st1). cbn [list.last].
      f_equal. f_equal. rewrite last_cons. by destruct (list.last (filter _ records)).
Qed.

Lemma tail_of_snoc k records r : (k < lsn_of r)%N →
  tail_of k (records ++ [r]) = tail_of k records ++ [r].
Proof.
  intros Hk. unfold tail_of. by rewrite list.filter_app, filter_cons, filter_nil, decide_True.
Qed.
End tail.

(** ** The invariant *)

Definition layout_of (c : AppConfig) : StorageLayout :=
  StorageLayout_new (path_of_string (Config.root_dir (storage c))).
Definition covered_lsn (m : Manifest) : N := default 0%N (m_last_applied_lsn m).
(** A directory, with the ones above it. *)
Definition dir_ready (w : World) (p : Path) : Prop :=
  Forall (λ q, q ∈ dirs w ∧ files w !! q = None) (ancestors p).

Definition delta_relative (first_lsn checkpoint_lsn : N) : string :=
  "deltas/" +:+ delta_segment_name first_lsn checkpoint_lsn.

(** Files are listed under their own path, and delta segments are named after the
    LSNs they hold, none beyond the one the manifest covers. *)
Record manifest_ok (m : Manifest) : Prop := {
  mo_keys : ∀ key f, m_files m !! key = Some f → mf_relative_path f = key;
  mo_deltas : ∀ key, is_Some (m_files m !! key) → String.prefix "deltas/" key = true →
    ∃ a b, key = delta_relative a b ∧ (a ≤ b)%N ∧ (b ≤ covered_lsn m)%N;
}.

(** The names a checkpoint writes to are no directories. *)
Record names_free (l : StorageLayout) (d : gset Path) : Prop := {
  nf_manifest : manifest_path l ∉ d;
  nf_manifest_tmp : with_extension "tmp" (manifest_path l) ∉ d;
  nf_deltas : ∀ name, name :: delta_directory l ∉ d;
}.

Section durable.
Context `{WalCodecLaws, StorageCodecLaws}.

Record durable_state (c : AppConfig) (n : N) (w : World) (e : StorageEngine)
    (chunks : list (N * list WalRecord)) (base : Maps) : Prop := {
  du_layout : e_layout e = layout_of c;
  du_wal : wal_state (e_wal e) w chunks;
  du_wal_root : wal_root_dir (e_wal e) = subdirectory (layout_of c) "wal";
  du_runtime : wal_runtime (e_wal e) = runtime_from_config (wal c);
  du_replay : (total_bytes chunks + n ≤ max_replay_bytes (wal c))%N;
  du_memory : (total_bytes chunks + n < 2 ^ 63)%N;
  du_next : (next_lsn (e_wal e) + n < u64_max)%N;
  du_active : (active_segment_id (e_wal e) + n < u64_max)%N;
  du_lsns : Forall (λ r, (lsn_of r < next_lsn (e_wal e))%N) (all_records chunks);
  du_failpoint : storage_failpoint w = None;
  du_dirs : Forall (λ d, dir_ready w (subdirectory (layout_of c) d)) DATA_DIRECTORIES;
  du_manifest : load_manifest (manifest_path (layout_of c)) w = (Ok (e_manifest e), w);
  du_published : load_published_state (layout_of c) (e_manifest e) w = (Ok base, w);
  du_tail : result_foldl recover_step (base, [])
    (tail_of (covered_lsn (e_manifest e)) (all_records chunks)) = Ok (state_of e);
  du_covered : (covered_lsn (e_manifest e) < next_lsn (e_wal e))%N;
  du_latest : (durable_lsn e < u64_modulus)%N;
  du_pending : Forall (λ entry, stored (delta_batch entry)) (e_pending e);
  du_manifest_ok : manifest_ok (e_manifest e);
  du_names : names_free (layout_of c) (dirs w);
}.

Definition durable (c : AppConfig) (n : N) (w : World) (e : StorageEngine) : Prop :=
  ∃ chunks base, durable_state c n w e chunks base.

(** ** Opening *)

Lemma load_manifest_file p w m : load_manifest p w = (Ok m, w) → faults w = [] → is_Some (files w !! p).
Proof.
  unfold load_manifest, io_err, io_try, fs_read, mbind, sm_bind. intros Hl Hf. revert Hl.
  rewrite fs_call_ok by done. unfold_sm. destruct (files w !! p); [by eexists|by intros].
Qed.

Lemma sm_for_ok {S E A} (l : list A) (body : A → sm S E unit) s :
  Forall (λ x, body x s = (Ok tt, s)) l → sm_for l body s = (Ok tt, s).
Proof. induction 1 as [|x l Hx _ IH]; [done|]. simpl. unfold mbind, sm_bind. by rewrite Hx. Qed.

Lemma ready_root c w : dir_ready w (subdirectory (layout_of c) "wal") →
  dir_ready w (root_dir (layout_of c)) ∧ path_exists w (root_dir (layout_of c)) = true.
Proof.
  unfold dir_ready. simpl. intros [_ Hroot]%list.Forall_cons. split; [done|].
  unfold path_exists, is_dir. destruct (path_of_string (Config.root_dir (storage c))) as [|d p] eqn:Hp;
    [by rewrite bool_decide_true by (by left)|].
  simpl in Hroot. apply list.Forall_cons in Hroot as [[Hd _] _]. by rewrite bool_decide_true by (by right).
Qed.

Lemma prepare_layout_ok c w : faults w = [] →
  Forall (λ d, dir_ready w (subdirectory (layout_of c) d)) DATA_DIRECTORIES →
  prepare_storage_layout (storage c) w = (Ok (layout_of c), w).
Proof.
  intros Hf Hdirs. assert (Hwal : dir_ready w (subdirectory (layout_of c) "wal"))
    by (by apply list.Forall_cons in Hdirs as [? _]).
  destruct (ready_root c w Hwal) as [Hroot Hex]. unfold prepare_storage_layout.
  unfold mbind, sm_bind, sm_get. fold (layout_of c). rewrite Hex, andb_false_r.
  unfold io_err at 1, io_try at 1. rewrite create_dir_all_again by done. cbn [map_err].
  rewrite sm_for_ok; [done|]. eapply list.Forall_impl; [exact Hdirs|]. intros d Hd.
  unfold io_err, io_try. by rewrite create_dir_all_again.
Qed.

Lemma open_durable c n w e chunks base :
  durable_state c n w e chunks base → validate c = Ok tt →
  open_engine c w = (Ok (rebuild_lineage (set_recovered
      (option_or (lsn_of <$> list.last (tail_of (covered_lsn (e_manifest e)) (all_records chunks)))
        (m_last_applied_lsn (e_manifest e)))
      (bool_decide (is_Some (lsn_of <$>
        list.last (tail_of (covered_lsn (e_manifest e)) (all_records chunks)))))
      (set_state (state_of e)
        (engine_of (layout_of c) (e_manifest e) (e_wal e) base 0 None)))), w).
Proof.
  intros Hd Hval. destruct Hd. assert (Hf : faults w = []) by apply du_wal0.
  assert (Hwal : Wal_open (subdirectory (layout_of c) "wal") (wal c) w = (Ok (e_wal e), w)).
  { destruct du_wal0 as [Hdir Ha Hn]. rewrite du_wal_root0 in Hdir.
    rewrite (open_ok _ (wal c) w chunks Hdir) by lia. do 2 f_equal.
    rewrite <-Ha, <-Hn, <-du_wal_root0, <-du_runtime0. by destruct (e_wal e). }
  assert (Hreplay : replay (e_wal e) w = (Ok (all_records chunks), w)).
  { unfold replay. apply replay_ok; [apply du_wal0|]. rewrite du_runtime0. simpl. lia. }
  unfold open_engine, bootstrap, mbind, sm_bind, io_res, sm_lift. rewrite Hval. cbn [map_err].
  rewrite prepare_layout_ok by done. unfold sm_get.
  destruct (load_manifest_file _ _ _ du_manifest0 Hf) as [bs Hbs].
  unfold path_exists at 1, is_file. rewrite (bool_decide_true (is_Some _)) by (by exists bs).
  rewrite orb_true_r, du_manifest0. cbn [mret sm_ret]. rewrite Hwal, du_published0.
  unfold with_self, recover, mbind, sm_bind, self, on_world.
  cbn [e_wal engine_of e_manifest]. rewrite Hreplay.
  erewrite recover_records_run by exact du_tail0. cbn [modify_self].
  destruct (list.last _); reflexivity.
Qed.

(** ** Writing *)

Lemma durable_with c n w e e' : e_layout e' = e_layout e → e_wal e' = e_wal e →
  e_manifest e' = e_manifest e → state_of e' = state_of e → (durable_lsn e' < u64_modulus)%N →
  durable c n w e → durable c n w e'.
Proof.
  intros Hl Hw Hm Hst Hlat (chunks & base & Hd). exists chunks, base. destruct Hd.
  pose proof Hst as [= _ Hp]. split; rewrite ?Hl, ?Hw, ?Hm, ?Hst, ?Hp; done.
Qed.

Lemma durable_same c n w e e' : e_layout e' = e_layout e → e_wal e' = e_wal e →
  e_manifest e' = e_manifest e → state_of e' = state_of e →
  e_latest_applied_lsn e' = e_latest_applied_lsn e → durable c n w e → durable c n w e'.
Proof.
  intros Hl Hw Hm Hst Hlat Hd. eapply durable_with; [..|exact Hd]; try done.
  destruct Hd as (chunks & base & Hd). unfold durable_lsn. rewrite Hlat, Hm. apply (du_latest _ _ _ _ _ _ Hd).
Qed.

(** A store opened from durable files: the graph is back, without transactions. *)
Lemma reopen_durable c n w e : durable c n w e → validate c = Ok tt →
  ∃ e', open_engine c w = (Ok e', w) ∧ state_of e' = state_of e ∧ e_transactions e' = ∅ ∧
    e_manifest e' = e_manifest e ∧ durable c n w e'.
Proof.
  intros Hd Hval. pose proof Hd as (chunks & base & Hds). eexists.
  split; [by apply (open_durable c n w e chunks base)|]. split; [done|]. split; [done|]. split; [done|].
  eapply durable_with; [..|exact Hd]; [symmetry; apply Hds|done..|].
  assert (Hnext : (next_lsn (e_wal e) < u64_modulus)%N).
  { pose proof (du_next _ _ _ _ _ _ Hds). unfold u64_max, u64_modulus in *. lia. }
  unfold durable_lsn. cbn [e_latest_applied_lsn rebuild_lineage set_recovered e_manifest set_state
    set_pending set_maps engine_of].
  destruct (list.last (tail_of _ _)) as [r|] eqn:Hlast; simpl.
  - apply last_Some_elem_of, list_elem_of_filter in Hlast as [_ Hr].
    pose proof (du_lsns _ _ _ _ _ _ Hds) as Hall. rewrite list.Forall_forall in Hall.
    specialize (Hall r Hr). simpl in Hall. lia.
  - pose proof (du_covered _ _ _ _ _ _ Hds) as Hc. unfold covered_lsn in Hc.
    destruct (m_last_applied_lsn (e_manifest e)); simpl in *; lia.
Qed.

Lemma durable_weaken c n n' w e : (n' ≤ n)%N → durable c n w e → durable c n' w e.
Proof. intros Hn (chunks & base & Hd). exists chunks, base. destruct Hd. split; done || lia. Qed.

(** The batch survives its encoding. *)
Definition storable (b : WriteBatch) : Prop :=
  ∀ bs, json_encode_batch b = Ok bs → json_decode_batch bs = Ok b.

(** The bytes one record takes in the log, at most. *)
Definition record_cost (payload : bytes) : N := (N.of_nat (length payload) + 72)%N.
Definition write_cost (b : WriteBatch) : N :=
  match serialize_write_batch b with Ok payload => record_cost payload | Err _ => 0%N end.

Lemma length_frame_le r : record_fits r → (length (frame r) ≤ length (payload r) + 72)%nat.
Proof.
  intros Hfit. destruct (encode_wal_total r Hfit) as (body & Hb & _ & Hlen).
  unfold frame, encode_record. rewrite Hb. cbn [map_err mbind result_bind mret result_ret fmap result_fmap].
  rewrite length_app. unfold to_le_bytes. rewrite length_le_bytes. lia.
Qed.

Lemma append_too_long kind payload w l : (u32_max < N.of_nat (length payload))%N →
  ∃ f, append kind payload (w, l) = (Err f, (w, l)).
Proof.
  intros Hlen. unfold append, mbind, sm_bind, sm_get, io_res, sm_lift, WalRecord_new.
  rewrite (proj2 (N.ltb_lt _ _)) by done. by eexists.
Qed.

Lemma published_not_wal l p : published l p → tail p ≠ subdirectory l "wal".
Proof.
  intros [->|([|x pre] & d & -> & Hd)] Heq; simpl in Heq.
  1,2: apply (f_equal length) in Heq; simpl in Heq; lia.
  unfold subdirectory in Heq. destruct pre as [|y pre]; simpl in Heq.
  - injection Heq as ->. by set_solver.
  - injection Heq as _ Heq. apply (f_equal length) in Heq. rewrite length_app in Heq. simpl in Heq. lia.
Qed.

Lemma dir_ready_elsewhere l w w' d : same_elsewhere (subdirectory l "wal") w w' →
  dir_ready w (subdirectory l d) → dir_ready w' (subdirectory l d).
Proof.
  intros (Hdirs & _ & _ & _ & Hfiles). unfold dir_ready. rewrite !list.Forall_forall.
  intros Hr q Hq. destruct (Hr q Hq) as [Hin Hnone]. rewrite Hdirs. split; [done|].
  rewrite Hfiles; [done|]. intros Heq. apply ancestors_length in Hq.
  apply (f_equal length) in Heq. unfold subdirectory in *. destruct q; simpl in *; lia.
Qed.

Lemma agree_elsewhere l w w' : faults w = [] → same_elsewhere (subdirectory l "wal") w w' →
  agree (published l) w w'.
Proof.
  intros Hf (Hdirs & Hfaults & _ & _ & Hfiles). split; [done|congruence|]. intros p Hp.
  split; [apply Hfiles; by apply published_not_wal|]. unfold is_dir. by rewrite Hdirs.
Qed.

Lemma reads_moves {A} P (m : io A) w w' r : reads P m → agree P w w' → m w = (r, w) → m w' = (r, w').
Proof. intros Hm Hag Hr. destruct (Hm w w' Hag) as (r0 & Hr1 & Hr2). congruence. Qed.

(** A record appended to the log of a durable store, with what replaying it does. *)
Lemma append_durable c n kind payload w e st :
  durable c (record_cost payload + n) w e → (N.of_nat (length payload) ≤ u32_max)%N →
  recover_step (state_of e) (new_record (next_lsn (e_wal e)) kind payload) = Ok st →
  Forall (λ entry, stored (delta_batch entry)) st.2 →
  ∃ w' l', append kind payload (w, e_wal e) = (Ok (new_record (next_lsn (e_wal e)) kind payload), (w', l')) ∧
    same_elsewhere (subdirectory (layout_of c) "wal") w w' ∧
    next_lsn l' = (next_lsn (e_wal e) + 1)%N ∧
    ∀ e', e_layout e' = e_layout e → e_wal e' = l' → e_manifest e' = e_manifest e →
      state_of e' = st → (durable_lsn e' < u64_modulus)%N → durable c n w' e'.
Proof.
  intros (chunks & base & Hd) Hlen Hstep Hpend. destruct Hd. unfold record_cost in *.
  set (r := new_record _ _ _) in *.
  assert (Hr : checksummed r) by (apply new_record_checksummed; unfold u64_modulus, u64_max in *; lia).
  pose proof (length_frame_le r (proj1 Hr)) as Hfr. simpl in Hfr.
  assert (Hbytes : (N.of_nat (length (frames_of (all_records chunks ++ [r]))) =
      total_bytes chunks + N.of_nat (length (frame r)))%N).
  { unfold total_bytes. rewrite frames_of_app, length_app, frames_of_cons.
    rewrite app_nil_r. lia. }
  pose proof (append_ok (e_wal e) w chunks kind payload du_wal0 Hlen) as Happ.
  cbn zeta in Happ. fold r in Happ.
  destruct Happ as (l' & w' & chunks' & Hrun & Hst & Hall & Hroot & Hrt & Hn & Ha & Hels);
    [lia|lia|unfold in_memory; rewrite Hbytes; lia|].
  rewrite du_wal_root0 in Hels.
  exists w', l'. split; [done|]. split; [done|]. split; [done|].
  intros e' Hl' Hw' Hm' Hst' Hlat'. exists chunks', base.
  assert (Hag : agree (published (layout_of c)) w w') by (apply agree_elsewhere; [apply du_wal0|done]).
  assert (Htot : (total_bytes chunks' = total_bytes chunks + N.of_nat (length (frame r)))%N).
  { unfold total_bytes at 1. rewrite Hall. done. }
  split; rewrite ?Hl', ?Hw', ?Hm', ?Hst', ?Hn, ?Htot; try done; try lia.
  - congruence.
  - congruence.
  - rewrite Hall. apply list.Forall_app. split; [|repeat constructor; unfold r, lsn_of; simpl; lia].
    eapply list.Forall_impl; [exact du_lsns0|]. simpl. lia.
  - destruct Hels as (_ & _ & _ & -> & _). done.
  - eapply list.Forall_impl; [exact du_dirs0|]. intros d. by apply dir_ready_elsewhere.
  - eapply reads_moves; [apply reads_manifest|done|done].
  - eapply reads_moves; [apply reads_published_state|done|done].
  - rewrite Hall, tail_of_snoc by (unfold r, lsn_of; simpl; lia).
    rewrite result_foldl_app, du_tail0. simpl. by rewrite Hstep.
  - by rewrite <-Hst' in Hpend.
  - destruct Hels as (-> & _). done.
Qed.

(** A write touches the log only, and keeps the store durable. *)
Lemma write_keeps_durable c n batch readers w e :
  durable c (write_cost batch + n) w e → storable batch →
  let st := (apply_write_batch_with_snapshot_readers batch readers (w, e)).2 in
  durable c n st.1 st.2 ∧ same_elsewhere (subdirectory (layout_of c) "wal") w st.1.
Proof.
  intros Hd Hsto. assert (Hd' : durable c n w e) by (eapply durable_weaken; [|exact Hd]; lia).
  assert (Hpre : durable c n w (preserved readers batch e)).
  { eapply durable_same; [..|exact Hd']; unfold preserved; by destruct (0 <? readers)%nat. }
  rewrite write_run. destruct (normalize_write_batch batch) as [b|] eqn:Hnorm; [|done].
  destruct (batch_is_empty batch); [done|].
  destruct (validate_batch_against_maps _ _) as [[]|] eqn:Hval; [|done].
  unfold write_cost in Hd. destruct (serialize_write_batch batch) as [payload|] eqn:Hser; [|done].
  destruct (N.leb_spec (N.of_nat (length payload)) u32_max) as [Hlen|Hlen].
  - set (entry := mkDelta (next_lsn (e_wal e)) batch).
    destruct (append_durable c n KWriteBatch payload w e
      (apply_batch_to_maps_unchecked batch (e_maps e), e_pending e ++ [entry]))
      as (w' & l' & -> & Hels & _ & Hnext); [done|done| | |].
    + unfold recover_step, deserialize_write_batch. cbn [h_kind header new_record Wal.payload].
      unfold serialize_write_batch, encode_err in Hser.
      destruct (json_encode_batch batch) as [bs|] eqn:Henc; [|done]. injection Hser as <-.
      rewrite (Hsto _ Henc). cbn [decode_err map_err mbind result_bind].
      unfold apply_batch_to_maps. cbn [state_of fst]. by rewrite Hval.
    + destruct Hd' as (chunks & base & Hds). apply list.Forall_app. split; [apply Hds|].
      apply list.Forall_singleton. unfold serialize_write_batch, encode_err in Hser.
      destruct (json_encode_batch batch) as [bs|] eqn:Henc; [|done]. exists bs. auto.
    + assert (Hn : (next_lsn (e_wal e) < u64_modulus)%N).
      { destruct Hd' as (chunks & base & Hds). pose proof (du_next _ _ _ _ _ _ Hds).
        unfold u64_max, u64_modulus in *. lia. }
      simpl. split; [|done]. apply Hnext; unfold committed, preserved; by destruct (0 <? readers)%nat.
  - destruct (append_too_long KWriteBatch payload w (e_wal e) Hlen) as [f ->]. simpl. split; [|done].
    eapply durable_same; [..|exact Hd']; unfold preserved; by destruct (0 <? readers)%nat.
Qed.
Lemma write_durable c n batch readers w e :
  durable c (write_cost batch + n) w e → storable batch →
  durable c n (apply_write_batch_with_snapshot_readers batch readers (w, e)).2.1
    (apply_write_batch_with_snapshot_readers batch readers (w, e)).2.2.
Proof. intros Hd Hsto. by apply write_keeps_durable. Qed.
End durable.

(** ** A concrete store *)

Module Demo.
Import Wal.Demo Batch.Demo Store.Demo.

Definition config : AppConfig := AppConfig_default 7 1 2 3.
Definition blank : World := mkWorld ∅ ∅ [] None None.

(** A store opened for the first time. *)
Definition fresh : World := (open_engine config blank).2.
Definition engine : StorageEngine :=
  match (open_engine config blank).1 with
  | Ok e => e
  | Err _ => Engine.Demo.engine
  end.

Lemma fresh_opened : open_engine config blank = (Ok engine, fresh).
Proof.
  unfold engine, fresh. assert (Hok : is_ok (open_engine config blank).1 = true) by (by vm_compute).
  by destruct (open_engine config blank) as [[e|f] w].
Qed.

Lemma not_child (w : World) root :
  forallb (λ p, negb (bool_decide (tail p = root))) (elements (dirs w)) = true →
  ∀ name, name :: root ∉ dirs w.
Proof.
  rewrite forallb_forall. intros Hall name Hin.
  specialize (Hall (name :: root)). rewrite <-list_elem_of_In, elem_of_elements in Hall.
  specialize (Hall Hin). simpl in Hall. by rewrite bool_decide_true in Hall.
Qed.

Lemma fresh_durable n : (n < 2 ^ 20)%N → durable config n fresh engine.
Proof.
  intros Hn. exists [], (∅, ∅). split.
  - by vm_compute.
  - split; [split|by vm_compute|by vm_compute].
    + by vm_compute.
    + by vm_compute.
    + by vm_compute.
    + repeat constructor; by vm_compute.
    + intros id. apply not_child. by vm_compute.
    + constructor.
    + constructor.
    + intros name _. split; [|intros (? & ?%elem_of_nil & _); done].
      assert (entries_of fresh (wal_root_dir (e_wal engine)) = []) as -> by (by vm_compute).
      by intros ?%elem_of_nil.
    + intros id rs Hin. by apply elem_of_nil in Hin.
    + constructor.
    + by vm_compute.
  - by vm_compute.
  - by vm_compute.
  - assert (total_bytes [] = 0%N) as -> by done.
    assert (max_replay_bytes (wal config) = 2 ^ 29)%N as -> by (by vm_compute). lia.
  - assert (total_bytes [] = 0%N) as -> by done. lia.
  - assert (next_lsn (e_wal engine) = 1%N) as -> by (by vm_compute). unfold u64_max. lia.
  - assert (active_segment_id (e_wal engine) = 1%N) as -> by (by vm_compute). unfold u64_max. lia.
  - constructor.
  - by vm_compute.
  - repeat constructor; by vm_compute.
  - by vm_compute.
  - by vm_compute.
  - by vm_compute.
  - by vm_compute.
  - by vm_compute.
  - assert (e_pending engine = []) as -> by (by vm_compute). constructor.
  - split.
    + apply map_Forall_to_list. vm_compute. by repeat constructor.
    + intros key [f Hf] Hpre. exfalso. revert Hf Hpre.
      assert (Hall : map_Forall (λ key _, String.prefix "deltas/" key = false) (m_files (e_manifest engine))).
      { apply map_Forall_to_list. vm_compute. by repeat constructor. }
      intros Hf. by rewrite (Hall key f Hf).
  - split; [by vm_compute|by vm_compute|]. intros name. apply not_child. by vm_compute.
Qed.

Lemma always_storable b : storable b.
Proof. intros bs. apply of_to_bytes. Qed.
End Demo.
