(* ===== verification/Checkpoint.v ===== *)
(** * [crates/storage]: checkpoints and compaction

    What a checkpoint publishes, that it keeps a durable store durable, and two ways
    in which acknowledged writes are lost: a write after a compaction, and a
    checkpoint that fails while it writes its segment. *)
From S2P Require Import Prelude RustStd Common Core Config Fs Wal Memory Batch Store Engine Recovery Durability.

#[local] Open Scope string_scope.
#[local] Open Scope list_scope.

(** ** One checkpoint *)

Section runs.
Context `{WalCodec, StorageCodec}.

Lemma strip_prefix_below root pre : (0 < length pre)%nat →
  strip_prefix root (pre ++ root) = Some (rev pre).
Proof.
  assert (Hself : ∀ p, strip_prefix p p = Some []).
  { intros [|x p]; cbn [strip_prefix]; by rewrite decide_True. }
  induction pre as [|x pre IH]; intros Hlen; simpl in Hlen; [lia|]. cbn [app strip_prefix].
  rewrite decide_False by (intros Heq; apply (f_equal length) in Heq; simpl in Heq;
    rewrite length_app in Heq; lia).
  destruct pre as [|y pre]; [by rewrite Hself|]. rewrite IH by (simpl; lia). done.
Qed.

Lemma relative_path_child l d name :
  relative_path l (name :: subdirectory l d) = Ok (d +:+ "/" +:+ name).
Proof.
  unfold relative_path. change (name :: subdirectory l d) with ([name; d] ++ root_dir l).
  by rewrite strip_prefix_below by (simpl; lia).
Qed.

(** The last steps: stamp the manifest and publish it. *)
Definition finish_checkpoint (clean : bool) (lsn : N) (w : World) (e : StorageEngine)
    : Result Failure unit * (World * StorageEngine) :=
  let e2 := set_manifest (manifest_stamp (Some lsn) clean (e_manifest e)) e in
  match persist_manifest (manifest_path (e_layout e)) (e_manifest e2) w with
  | (Err f, w') => (Err f, (w', e2))
  | (Ok _, w') => (Ok tt, (w', set_recovered (e_latest_applied_lsn e2) false e2))
  end.

(** Every branch of a checkpoint. *)
Lemma publish_run clean w e : publish_checkpoint clean (w, e) =
  match append_checkpoint (mkMarker (durable_lsn e)) (w, e_wal e) with
  | (Err f, (w1, l1)) => (Err f, (w1, set_wal l1 e))
  | (Ok r, (w1, l1)) =>
    let e1 := set_latest (lsn_of r) (set_wal l1 e) in
    match e_pending e with
    | [] => finish_checkpoint clean (lsn_of r) w1 e1
    | first :: _ =>
      match persist_delta_segment (delta_segment_path (e_layout e) (delta_lsn first) (lsn_of r))
          (mkSegment 1 (e_pending e)) w1 with
      | (Err f, w2) => (Err f, (w2, set_pending [] e1))
      | (Ok checksum, w2) => finish_checkpoint clean (lsn_of r) w2
          (set_manifest (manifest_insert (delta_relative (delta_lsn first) (lsn_of r)) checksum
            (e_manifest e)) (set_pending [] e1))
      end
    end
  end.
Proof.
  unfold publish_checkpoint, mbind, sm_bind, self, on_wal.
  destruct (append_checkpoint _ _) as [[r|f] [w1 l1]]; [|done].
  unfold modify_self at 1, publish_pending, mbind, sm_bind, self.
  change (e_pending (set_latest (lsn_of r) (set_wal l1 e))) with (e_pending e).
  destruct (e_pending e) as [|first rest] eqn:Hp.
  - unfold mret, sm_ret, modify_self, on_world, finish_checkpoint. simpl.
    by destruct (persist_manifest _ _ w1) as [[?|f] w2].
  - unfold io_res, sm_lift. unfold delta_segment_path, delta_directory.
    rewrite relative_path_child. cbn [map_err]. unfold modify_self at 1, on_world at 1.
    change (e_layout (set_latest (lsn_of r) (set_wal l1 e))) with (e_layout e).
    destruct (persist_delta_segment _ _ w1) as [[checksum|f] w2]; [|done].
    unfold modify_self, on_world, finish_checkpoint. simpl.
    by destruct (persist_manifest _ _ w2) as [[?|f] w3].
Qed.

End runs.

(** ** Order of the delta segments *)

Definition components_le (a b : list string) : Prop := components_leb a b = true.

Lemma leb_trans x y z : String.leb x y = true → String.leb y z = true → String.leb x z = true.
Proof. rewrite <-!Is_true_true. apply (transitivity (R := String.le)). Qed.

#[global] Instance components_le_total : Total components_le.
Proof.
  intros a. unfold components_le. induction a as [|x a IH]; intros [|y b]; simpl; [by left..|by right|].
  case_decide as Hxy; case_decide as Hyx; try congruence; [by apply IH|].
  apply String.leb_total.
Qed.
#[global] Instance components_le_trans : Transitive components_le.
Proof.
  intros a. unfold components_le. induction a as [|x a IH]; intros [|y b] [|z d]; simpl; try done.
  case_decide as Hxy; case_decide as Hyz; subst.
  - rewrite decide_True by done. by apply IH.
  - intros _ Hle. by rewrite decide_False.
  - intros Hle _. by rewrite decide_False.
  - intros H1 H2. case_decide as Hxz.
    + subst. destruct Hxy. by apply String.leb_antisym.
    + by apply (leb_trans x y).
Qed.
#[global] Instance components_le_antisymm : AntiSymm (=) components_le.
Proof.
  intros a. unfold components_le. induction a as [|x a IH]; intros [|y b]; simpl; try done.
  case_decide as Hxy; case_decide as Hyx; subst; try done.
  - intros H1 H2. f_equal. by apply IH.
  - intros H1 H2. destruct Hxy. by apply String.leb_antisym.
Qed.

#[global] Instance path_le_total : Total path_le.
Proof. intros p q. apply (base.total components_le). Qed.
#[global] Instance path_le_trans : Transitive path_le.
Proof. intros p q r. apply (transitivity (R := components_le)). Qed.
#[global] Instance path_le_antisymm : AntiSymm (=) path_le.
Proof. intros p q H1 H2. rewrite <-(rev_involutive p), <-(rev_involutive q). f_equal. by apply (anti_symm components_le). Qed.

(** A sorted run of paths, then a later one. *)
Lemma sort_paths_snoc l p l' : Permutation l' (l ++ [p]) → Forall (λ q, path_le q p) l →
  sort_paths l' = sort_paths l ++ [p].
Proof.
  intros Hperm Hle. unfold sort_paths. apply (StronglySorted_unique path_le).
  - apply StronglySorted_merge_sort; apply _.
  - apply StronglySorted_snoc; [apply StronglySorted_merge_sort; apply _|].
    by rewrite merge_sort_Permutation.
  - by rewrite !merge_sort_Permutation.
Qed.

Lemma compare_prefix p s t : String.compare (p +:+ s) (p +:+ t) = String.compare s t.
Proof.
  induction p as [|x p IH]; [done|]. simpl. unfold Ascii.compare. by rewrite N.compare_refl.
Qed.

Lemma compare_self s : String.compare s s = Eq.
Proof. induction s as [|x s IH]; [done|]. simpl. unfold Ascii.compare. by rewrite N.compare_refl. Qed.

Lemma delta_segment_name_lt a b a' b' : (a < a')%N → (a' ≤ u64_max)%N →
  String.compare (delta_segment_name a b) (delta_segment_name a' b') = Lt.
Proof.
  intros Hlt Hmax. unfold delta_segment_name, fmt_020. rewrite compare_prefix.
  unfold u64_max in Hmax. apply dec_fixed_lt; [..|done]; change (10 ^ N.of_nat 20)%N
    with 100000000000000000000%N; lia.
Qed.

Lemma delta_path_le l a b a' b' : (a < a')%N → (a' ≤ u64_max)%N →
  path_le (delta_segment_path l a b) (delta_segment_path l a' b') ∧
  delta_segment_name a b ≠ delta_segment_name a' b'.
Proof.
  intros Hlt Hmax. pose proof (delta_segment_name_lt a b a' b' Hlt Hmax) as Hc.
  assert (Hne : delta_segment_name a b ≠ delta_segment_name a' b').
  { intros Heq. rewrite Heq in Hc. by rewrite compare_self in Hc. }
  split; [|done]. unfold path_le, delta_segment_path, delta_directory, subdirectory. simpl.
  rewrite <-!app_assoc. simpl.
  induction (rev (root_dir l)) as [|x root IH]; simpl; [|by rewrite decide_True].
  rewrite decide_False by done. unfold String.leb. by rewrite Hc.
Qed.

(** ** The segments of a manifest *)

Definition not_slash (x : ascii) : bool := negb (bool_decide (x = "/"%char)).

Lemma split_on_none s : str_all not_slash s = true → split_on "/"%char s = [s].
Proof.
  induction s as [|x s IH]; [done|]. cbn [str_all split_on]. intros [Hx Hs]%andb_true_iff.
  unfold not_slash in Hx. rewrite decide_False by (intros ->; done). by rewrite IH.
Qed.

Lemma dec_fixed_no_slash w : ∀ n, (n < 10 ^ N.of_nat w)%N → str_all not_slash (dec_fixed w n) = true.
Proof.
  induction w as [|w IH]; intros n Hn; [done|]. cbn [dec_fixed str_all]. apply andb_true_iff. split.
  - unfold not_slash. apply negb_true_iff, bool_decide_eq_false. intros Heq.
    apply (f_equal N_of_ascii) in Heq. rewrite N_of_digit in Heq by (by apply div_pow10_lt).
    assert (N_of_ascii "/"%char = 47%N) as Hs by done. rewrite Hs in Heq. revert Heq. clear. generalize (n `div` 10 ^ N.of_nat w)%N. lia.
  - apply IH, mod_pow10_lt.
Qed.

Lemma delta_path_join l a b : (a ≤ u64_max)%N → (b ≤ u64_max)%N →
  path_join (root_dir l) (delta_relative a b) = delta_segment_path l a b.
Proof.
  intros Ha Hb. unfold path_join, delta_relative. 
  assert (Hname : str_all not_slash (delta_segment_name a b) = true).
  { assert (Hbound : ∀ n, (n ≤ u64_max)%N → str_all not_slash (fmt_020 n) = true).
    { intros n Hn. apply dec_fixed_no_slash. unfold u64_max in Hn.
      change (10 ^ N.of_nat 20)%N with 100000000000000000000%N. lia. }
    unfold delta_segment_name. by rewrite !str_all_app, !Hbound. }
  assert (Hsplit : ∀ s, split_on "/"%char ("deltas/" +:+ s) = "deltas" :: split_on "/"%char s) by done.
  by rewrite Hsplit, split_on_none.
Qed.

Section segments.
Context (l : StorageLayout) (m : Manifest).
Hypothesis Hm : manifest_ok m.
Hypothesis Hmax : (covered_lsn m ≤ u64_max)%N.

(** The segments listed are named after LSNs the manifest covers. *)
Lemma manifest_delta_elem p : p ∈ manifest_delta_segment_paths l m →
  ∃ a b, p = delta_segment_path l a b ∧ (a ≤ b)%N ∧ (b ≤ covered_lsn m)%N.
Proof.
  unfold manifest_delta_segment_paths, sort_paths. rewrite merge_sort_Permutation, list_elem_of_fmap.
  intros (f & -> & [Hpre Hf]%list_elem_of_filter). apply elem_of_btree_values in Hf as [key Hf].
  pose proof (mo_keys _ Hm _ _ Hf) as Hkey. rewrite Hkey in Hpre.
  destruct (mo_deltas _ Hm key (ex_intro _ f Hf) Hpre) as (a & b & -> & Hab & Hb). exists a, b.
  split; [|done]. rewrite Hkey. apply delta_path_join; lia.
Qed.

Context (first ck : N) (sum : N).
Hypothesis Hfirst : (covered_lsn m < first)%N.
Hypothesis Hck : (first ≤ ck)%N.
Hypothesis Hck_max : (ck ≤ u64_max)%N.

Lemma delta_relative_prefix a b : String.prefix "deltas/" (delta_relative a b) = true.
Proof. done. Qed.

Lemma delta_relative_ne a b : (a < first)%N → delta_relative a b ≠ delta_relative first ck.
Proof.
  intros Ha Heq. destruct (delta_path_le l a b first ck Ha) as [_ Hne]; [lia|].
  apply Hne. by apply (inj (String.app "deltas/")).
Qed.

Lemma segment_fresh : m_files m !! delta_relative first ck = None.
Proof.
  destruct (m_files m !! delta_relative first ck) as [f|] eqn:Hf; [|done]. exfalso.
  destruct (mo_deltas _ Hm _ (ex_intro _ f Hf) (delta_relative_prefix _ _)) as (a & b & Heq & ? & ?).
  symmetry in Heq. revert Heq. apply delta_relative_ne. lia.
Qed.

Definition extended : Manifest := manifest_insert (delta_relative first ck) sum m.

(** The new segment comes last. *)
Lemma manifest_deltas_insert : manifest_delta_segment_paths l extended =
  manifest_delta_segment_paths l m ++ [delta_segment_path l first ck].
Proof.
  unfold manifest_delta_segment_paths at 1. rewrite <-delta_path_join by lia.
  unfold manifest_delta_segment_paths. apply sort_paths_snoc.
  - set (g := λ f, path_join (root_dir l) (mf_relative_path f)).
    change [path_join (root_dir l) (delta_relative first ck)]
      with (g <$> [mkManifestFile (delta_relative first ck) sum]).
    rewrite <-fmap_app. apply fmap_Permutation. unfold btree_values. rewrite !btree_entries_perm.
    unfold extended. simpl. rewrite map_to_list_insert by apply segment_fresh.
    rewrite Permutation_app_comm. csimpl. rewrite filter_cons, decide_True by done. done.
  - apply list.Forall_forall. intros p Hp.
    destruct (manifest_delta_elem p) as (a & b & -> & Hab & Hb).
    { unfold manifest_delta_segment_paths, sort_paths. by rewrite merge_sort_Permutation. }
    rewrite delta_path_join by lia. apply delta_path_le; lia.
Qed.

Lemma extended_ok clean : manifest_ok (manifest_stamp (Some ck) clean extended).
Proof.
  split.
  - intros key f. simpl. intros [[<- <-]|[_ Hf]]%lookup_insert_Some; [done|by apply Hm].
  - intros key [f Hf] Hpre. simpl in Hf. apply lookup_insert_Some in Hf as [[<- _]|[_ Hf]].
    + exists first, ck. unfold covered_lsn. simpl. split; [done|lia].
    + destruct (mo_deltas _ Hm key (ex_intro _ f Hf) Hpre) as (a & b & -> & ? & ?).
      exists a, b. unfold covered_lsn. simpl. split; [done|lia].
Qed.
End segments.

(** ** Publishing a file *)

Section publishing.
Context `{WalCodecLaws, StorageCodecLaws}.

Lemma publish_file_ok name dir bs w : faults w = [] → storage_failpoint w = None →
  dir ≠ [] → dir_ready w dir → name :: dir ∉ dirs w → with_extension "tmp" (name :: dir) ∉ dirs w →
  write_atomically (name :: dir) bs w = (Ok tt,
    set_files (<[name :: dir := bs]> (delete (with_extension "tmp" (name :: dir)) (files w))) w).
Proof.
  intros Hf Hfp Hdir Hready Hname Htmp. unfold write_atomically, maybe_fail_storage_io.
  unfold mbind, sm_bind, sm_get, failpoint_matches. rewrite Hfp. unfold mret, sm_ret.
  unfold io_err, io_try. rewrite create_dir_all_again by done. cbn [map_err]. rewrite Hfp.
  assert (Hisdir : is_dir w dir = true).
  { destruct dir as [|d dir]; [done|]. apply list.Forall_cons in Hready as [[Hd _] _].
    unfold is_dir. by rewrite bool_decide_true by (by right). }
  cbn [with_extension] in *. unfold fs_write, mbind, sm_bind. rewrite next_fault_ok by done.
  unfold sm_get. unfold is_dir at 1. rewrite bool_decide_false by (intros [|]; done).
  rewrite Hisdir. cbn [negb]. unfold sm_modify. cbn [map_err storage_failpoint set_files].
  rewrite Hfp. unfold fs_rename. rewrite fs_call_ok by done. unfold mbind, sm_bind, sm_get.
  cbn [files set_files]. rewrite lookup_insert_eq. unfold is_dir at 1. cbn [dirs set_files].
  rewrite bool_decide_false by (intros [|]; done). unfold is_dir in *. cbn [dirs set_files tail].
  rewrite Hisdir. cbn [negb]. unfold sm_modify. cbn [map_err]. f_equal.
  unfold set_files. simpl. by rewrite delete_insert_eq.
Qed.

(** Files outside the log directory do not matter to the log. *)
Lemma wal_state_files w lg chunks f :
  wal_state lg w chunks →
  (∀ p, tail p = wal_root_dir lg ∨ p ∈ ancestors (wal_root_dir lg) → f !! p = files w !! p) →
  wal_state lg (set_files f w) chunks.
Proof.
  intros [Hd Ha Hn] Hsame. split; [|done|done]. split; simpl; try apply Hd.
  - pose proof (ds_ancestors _ _ _ Hd) as Hanc. rewrite list.Forall_forall in *. intros p Hp.
    destruct (Hanc p Hp) as [Hin Hnone]. split; [done|]. by rewrite Hsame by (by right).
  - intros name Hext. rewrite <-(ds_entries _ _ _ Hd) by done. rewrite !elem_of_entries. simpl.
    by rewrite Hsame by (by left).
  - intros id rs Hin. rewrite Hsame by (by left). by apply (ds_files _ _ _ Hd).
Qed.

Lemma ready_files w d f : dir_ready w d → (∀ p, p ∈ ancestors d → f !! p = files w !! p) →
  dir_ready (set_files f w) d.
Proof.
  unfold dir_ready. rewrite !list.Forall_forall. intros Hr Hsame p Hp. simpl. rewrite Hsame by done.
  by apply Hr.
Qed.

Lemma load_manifest_ok p w bs m : faults w = [] → files w !! p = Some bs →
  json_decode_manifest bs = Ok m → load_manifest p w = (Ok m, w).
Proof.
  intros Hf Hp Hdec. unfold load_manifest, io_err, io_try, mbind, sm_bind.
  rewrite (fs_read_ok _ _ _ Hf Hp). cbn [map_err]. unfold io_res, sm_lift. by rewrite Hdec.
Qed.

(** ** Replaying the pending entries *)

Lemma recover_entries rs : ∀ m p m' p',
  result_foldl recover_step (m, p) rs = Ok (m', p') →
  ∃ q, p' = p ++ q ∧ apply_entries m q = Ok m' ∧
    Forall (λ entry, ∃ r, r ∈ rs ∧ delta_lsn entry = lsn_of r) q.
Proof.
  induction rs as [|r rs IH]; intros m p m' p' Hrun; cbn [result_foldl] in Hrun.
  - injection Hrun as <- <-. exists []. split; [by rewrite app_nil_r|]. split; [done|constructor].
  - apply result_bind_Ok in Hrun as ([m1 p1] & Hstep & Hrun).
    destruct (IH _ _ _ _ Hrun) as (q & -> & Hq & Hlsn).
    assert (Hlsn' : Forall (λ entry, ∃ r0, r0 ∈ r :: rs ∧ delta_lsn entry = lsn_of r0) q).
    { eapply list.Forall_impl; [exact Hlsn|]. intros e (r0 & Hr0 & ?). exists r0. split; [by right|done]. }
    unfold recover_step in Hstep. destruct (h_kind (header r)).
    + apply result_bind_Ok in Hstep as (b & _ & Hstep). apply result_bind_Ok in Hstep as (m2 & Hm2 & Hst).
      injection Hst as -> <-. exists (mkDelta (lsn_of r) b :: q). rewrite <-app_assoc. split; [done|].
      split; [unfold apply_entries in *; cbn [result_foldl delta_batch]; simpl in Hm2; rewrite Hm2; done|].
      constructor; [|done]. exists r. split; [left|done].
    + apply result_bind_Ok in Hstep as (x & _ & Hst). injection Hst as -> ->. by exists q.
    + injection Hstep as -> ->. by exists q.
    + injection Hstep as -> ->. by exists q.
Qed.

Lemma tail_of_covered k records : Forall (λ r, (lsn_of r ≤ k)%N) records → tail_of k records = [].
Proof.
  intros Hle. apply filter_none. intros r Hr. rewrite list.Forall_forall in Hle.
  specialize (Hle r Hr). lia.
Qed.

(** ** Loads under a manifest with one more segment *)

Lemma read_verified_ext l m m' p rel w : relative_path l p = Ok rel →
  m_files m' !! rel = m_files m !! rel → read_verified_file l m' p w = read_verified_file l m p w.
Proof.
  intros Hrel Hfiles. unfold read_verified_file, mbind, sm_bind, io_res, sm_lift. rewrite Hrel.
  cbn [map_err]. destruct (io_err _ _ w) as [[bs|f] w']; [|done]. by rewrite Hfiles.
Qed.

Lemma sm_bind_ext {S E A B} (m m' : sm S E A) (f f' : A → sm S E B) s :
  m s = m' s → (∀ a s', m' s = (Ok a, s') → f a s' = f' a s') → (m ≫= f) s = (m' ≫= f') s.
Proof. unfold mbind, sm_bind. intros -> Hf. destruct (m' s) as [[a|e] s']; [by apply Hf|done]. Qed.

Lemma resolve_cases p q w r w' : resolve_snapshot_path p q w = (Ok (Some r), w') →
  w' = w ∧ (r = p ∨ r = q).
Proof.
  unfold resolve_snapshot_path. unfold_sm. destruct (path_exists w p); [|destruct (path_exists w q)];
    intros [= <- <-]; tauto.
Qed.

Section same_files.
Context (l : StorageLayout) (m m' : Manifest).
Hypothesis Hfiles : ∀ rel, String.prefix "deltas/" rel = false → m_files m' !! rel = m_files m !! rel.

Lemma same_snapshot d name w : String.prefix "deltas/" (d +:+ "/" +:+ name) = false →
  read_verified_snapshot l m' (name :: subdirectory l d) w =
  read_verified_snapshot l m (name :: subdirectory l d) w.
Proof. intros Hd. eapply read_verified_ext; [apply relative_path_child|by apply Hfiles]. Qed.

Ltac same_load :=
  apply sm_bind_ext; [done|]; intros [r|] w' Hr; [|done];
  apply resolve_cases in Hr as [-> [->| ->]]; (apply sm_bind_ext; [by apply same_snapshot|done]).

Lemma same_node_state w : load_node_state l m' w = load_node_state l m w.
Proof. unfold load_node_state. same_load. Qed.
Lemma same_edge_state w : load_edge_state l m' w = load_edge_state l m w.
Proof. unfold load_edge_state. same_load. Qed.
Lemma same_vectors nodes w : attach_vectors l m' nodes w = attach_vectors l m nodes w.
Proof. unfold attach_vectors. same_load. Qed.

Lemma same_segments paths : ∀ maps w,
  Forall (λ p, ∃ rel, relative_path l p = Ok rel ∧ m_files m' !! rel = m_files m !! rel) paths →
  apply_delta_segments l m' paths maps w = apply_delta_segments l m paths maps w.
Proof.
  induction paths as [|p paths IH]; intros maps w Hp; [done|]. cbn [apply_delta_segments].
  apply list.Forall_cons in Hp as [(rel & Hrel & Hf) Hp].
  apply sm_bind_ext; [by eapply read_verified_ext|]. intros bs w1 _.
  apply sm_bind_ext; [done|]. intros maps1 w2 _. by apply IH.
Qed.
End same_files.

Lemma apply_segments_app l m p1 p2 : ∀ maps w,
  apply_delta_segments l m (p1 ++ p2) maps w =
  (maps ← apply_delta_segments l m p1 maps; apply_delta_segments l m p2 maps) w.
Proof.
  induction p1 as [|p p1 IH]; intros maps w; [done|]. cbn [app apply_delta_segments].
  unfold mbind, sm_bind. destruct (read_verified_file l m p w) as [[bs|f] w1]; [|done].
  destruct (io_res _ w1) as [[maps1|f] w2]; [|done]. apply IH.
Qed.
End publishing.

(** ** A checkpoint keeps a durable store durable *)

Section checkpoint_durable.
Context `{WalCodecLaws, StorageCodecLaws}.

(** What the new segment adds to the published state. *)
Lemma load_extended l m first ck bs pending base maps w :
  manifest_ok m → (covered_lsn m < first)%N → (first ≤ ck)%N → (ck ≤ u64_max)%N →
  faults w = [] → load_published_state l m w = (Ok base, w) →
  files w !! delta_segment_path l first ck = Some bs →
  json_decode_delta bs = Ok (mkSegment 1 pending) → apply_entries base pending = Ok maps →
  load_published_state l (extended m first ck (crc32 bs)) w = (Ok maps, w).
Proof.
  intros Hm Hfirst Hck Hmax Hf Hload Hfile Hdec Happly.
  set (m' := extended m first ck (crc32 bs)).
  assert (Hne : ∀ rel, rel ≠ delta_relative first ck → m_files m' !! rel = m_files m !! rel).
  { intros rel Hrel. by apply lookup_insert_ne. }
  assert (Hother : ∀ rel, String.prefix "deltas/" rel = false → m_files m' !! rel = m_files m !! rel).
  { intros rel Hrel. apply Hne. intros ->. done. }
  assert (Hseg : apply_delta_segments l m' [delta_segment_path l first ck] base w = (Ok maps, w)).
  { cbn [apply_delta_segments]. unfold read_verified_file, delta_segment_path, delta_directory.
    unfold mbind, sm_bind, io_res, sm_lift. rewrite relative_path_child. cbn [map_err].
    unfold io_err, io_try. unfold delta_segment_path, delta_directory in Hfile.
    rewrite (fs_read_ok _ _ _ Hf Hfile). cbn [map_err].
    change ("deltas" +:+ "/" +:+ delta_segment_name first ck) with (delta_relative first ck).
    unfold m', extended, manifest_insert. cbn [m_files]. rewrite lookup_insert_eq.
    cbn [mf_checksum_crc32]. rewrite N.eqb_refl, andb_false_r. cbn [mret sm_ret].
    unfold apply_delta_bytes. rewrite Hdec. cbn [decode_err map_err mbind result_bind seg_format_version].
    change (1 =? 1)%N with true. cbn [seg_records]. by rewrite Happly. }
  revert Hload. unfold load_published_state.
  intros (nodes & w1 & Hn & Hload)%sm_bind_Ok. apply sm_bind_Ok in Hload as (edges & w2 & He & Hload).
  apply sm_bind_Ok in Hload as (nodes' & w3 & Hv & Hload).
  unfold mbind at 1, sm_bind at 1. rewrite (same_node_state l m m' Hother), Hn.
  unfold mbind at 1, sm_bind at 1. rewrite (same_edge_state l m m' Hother), He.
  unfold mbind at 1, sm_bind at 1. rewrite (same_vectors l m m' Hother), Hv.
  assert (Hpaths : manifest_delta_segment_paths l m' =
    manifest_delta_segment_paths l m ++ [delta_segment_path l first ck])
    by (apply manifest_deltas_insert; done || lia).
  rewrite Hpaths.
  rewrite apply_segments_app. unfold mbind at 1, sm_bind at 1.
  rewrite (same_segments l m m'); [by rewrite Hload|].
  apply list.Forall_forall. intros p Hp.
  destruct (manifest_delta_elem l m Hm ltac:(lia) p Hp) as (a & b & -> & Hab & Hb).
  exists (delta_relative a b). split; [apply relative_path_child|].
  apply Hne. eapply delta_relative_ne; try done; lia.
Qed.

(** Stamping a manifest changes no file of it. *)
Lemma load_stamped l m lsn clean w :
  load_published_state l (manifest_stamp lsn clean m) w = load_published_state l m w.
Proof.
  unfold load_published_state. apply sm_bind_ext; [by apply same_node_state|]. intros nodes w1 _.
  apply sm_bind_ext; [by apply same_edge_state|]. intros edges w2 _.
  apply sm_bind_ext; [by apply same_vectors|]. intros nodes' w3 _.
  change (manifest_delta_segment_paths l (manifest_stamp lsn clean m))
    with (manifest_delta_segment_paths l m).
  generalize (manifest_delta_segment_paths l m) as paths. intros paths. generalize (nodes', edges) as maps.
  revert w3. induction paths as [|p paths IH]; intros w4 maps; [done|]. cbn [apply_delta_segments].
  apply sm_bind_ext; [done|]. intros bs w5 _. apply sm_bind_ext; [done|]. intros maps1 w6 _. apply IH.
Qed.

(** A file that the manifest does not reach: it is no snapshot, nor a listed segment. *)
Definition unlisted (l : StorageLayout) (m : Manifest) (p : Path) : Prop :=
  (∀ d name, d ∈ ["nodes"; "edges"; "vectors"] → p ≠ name :: subdirectory l d) ∧
  p ∉ manifest_delta_segment_paths l m.

Lemma load_unlisted l m f w base : faults w = [] →
  (∀ p, ¬ unlisted l m p → f !! p = files w !! p) →
  load_published_state l m w = (Ok base, w) →
  load_published_state l m (set_files f w) = (Ok base, set_files f w).
Proof.
  intros Hf Hsame Hload. apply (reads_moves (λ p, ¬ unlisted l m p) _ w); [| |done].
  - apply reads_published_with.
    + intros d name Hd [Hc _]. by eapply Hc.
    + apply list.Forall_forall. intros p Hp [_ Hc]. done.
  - split; [done..|]. intros p Hp. split; [simpl; by apply Hsame|done].
Qed.

End checkpoint_durable.

Section checkpoint_steps.
Context `{WalCodecLaws, StorageCodecLaws}.

(** Paths that neither the log nor the directories of the store use. *)
Definition outside (l : StorageLayout) (p : Path) : Prop :=
  tail p ≠ subdirectory l "wal" ∧ ∀ d, d ∈ DATA_DIRECTORIES → p ∉ ancestors (subdirectory l d).

Lemma outside_root l name : name ∉ DATA_DIRECTORIES → outside l (name :: root_dir l).
Proof.
  intros Hname. split.
  - simpl. intros Heq. apply (f_equal length) in Heq. simpl in Heq. lia.
  - intros d Hd. unfold subdirectory. simpl. rewrite elem_of_cons. intros [[= ->]|Hin]; [done|].
    apply ancestors_length in Hin. simpl in Hin. lia.
Qed.

Lemma outside_deltas l name : outside l (name :: delta_directory l).
Proof.
  split; [done|]. intros d Hd Hin%ancestors_length. unfold delta_directory, subdirectory in Hin.
  simpl in Hin. lia.
Qed.

Lemma not_data name : bool_decide (name ∈ DATA_DIRECTORIES) = false → name ∉ DATA_DIRECTORIES.
Proof. apply bool_decide_eq_false. Qed.

Lemma root_not_nil c : root_dir (layout_of c) ≠ [].
Proof.
  unfold layout_of. simpl. unfold path_of_string. generalize (Config.root_dir (storage c)). intros s.
  intros Hrev. apply (f_equal (@rev string)) in Hrev. rewrite rev_involutive in Hrev. simpl in Hrev.
  destruct s as [|x s]; [done|]. cbn [split_on] in Hrev. case_decide; [done|].
  by destruct (split_on _ s).
Qed.

Lemma ready_below_root c w : Forall (λ d, dir_ready w (subdirectory (layout_of c) d)) DATA_DIRECTORIES →
  dir_ready w (root_dir (layout_of c)).
Proof. intros [Hwal _]%list.Forall_cons. by apply ready_root in Hwal as [? _]. Qed.

(** A change of files outside the log and the directories keeps them in place. *)
Lemma files_outside c w f lg chunks : wal_root_dir lg = subdirectory (layout_of c) "wal" →
  (∀ p, ¬ outside (layout_of c) p → f !! p = files w !! p) →
  Forall (λ d, dir_ready w (subdirectory (layout_of c) d)) DATA_DIRECTORIES → wal_state lg w chunks →
  wal_state lg (set_files f w) chunks ∧
  Forall (λ d, dir_ready (set_files f w) (subdirectory (layout_of c) d)) DATA_DIRECTORIES.
Proof.
  intros Hroot Hsame Hdirs Hst. split.
  - apply wal_state_files; [done|]. rewrite Hroot. intros p Hp. apply Hsame. intros [Ht Ha].
    destruct Hp as [?|Hp]; [done|]. apply (Ha "wal"); [by vm_compute; left|done].
  - rewrite list.Forall_forall in *. intros d Hd. apply ready_files; [by apply Hdirs|].
    intros p Hp. apply Hsame. intros [_ Ha]. by apply (Ha d).
Qed.

Lemma root_file_unlisted l m lsn clean name : manifest_ok (manifest_stamp (Some lsn) clean m) →
  (lsn ≤ u64_max)%N → unlisted l m (name :: root_dir l).
Proof.
  intros Hm Hmax. split.
  - intros d name' _ Heq. apply (f_equal length) in Heq. simpl in Heq. lia.
  - intros Hin. apply (manifest_delta_elem l _ Hm) in Hin as (a & b & Heq & _); [|done].
    apply (f_equal length) in Heq. simpl in Heq. lia.
Qed.

(** The last steps of a checkpoint, on files that already hold the graph. *)
Lemma finish_durable c n w e chunks base ck clean f m :
  durable_state c n w e chunks base → next_lsn (e_wal e) = (ck + 1)%N →
  (∀ p, ¬ outside (layout_of c) p → f !! p = files w !! p) →
  manifest_ok (manifest_stamp (Some ck) clean m) →
  load_published_state (layout_of c) m (set_files f w) = (Ok (e_maps e), set_files f w) →
  ∃ w' e', finish_checkpoint clean ck (set_files f w) (set_manifest m (set_pending [] e)) =
      (Ok tt, (w', e')) ∧ durable c n w' e' ∧ e_maps e' = e_maps e ∧ e_pending e' = [] ∧
    e_wal e' = e_wal e ∧ e_transactions e' = e_transactions e ∧ covered_lsn (e_manifest e') = ck.
Proof.
  intros Hd Hck Hsame Hm2 Hload. destruct Hd.
  assert (Hf : faults w = []) by apply du_wal.
  pose proof (files_outside c w f _ _ du_wal_root Hsame du_dirs du_wal) as [Hwal2 Hdirs2].
  assert (Hmax : (ck ≤ u64_max)%N) by (unfold u64_max in *; lia).
  assert (Hunl : ∀ name, unlisted (layout_of c) m (name :: root_dir (layout_of c)))
    by (intros name; by eapply root_file_unlisted).
  set (m2 := manifest_stamp (Some ck) clean m) in *.
  destruct (manifest_roundtrip m2) as (bs & Henc & Hdec).
  set (tmp := with_extension "tmp" (manifest_path (layout_of c))).
  set (f' := <[manifest_path (layout_of c) := bs]> (delete tmp f)).
  assert (Hpub : write_atomically (manifest_path (layout_of c)) bs (set_files f w) =
    (Ok tt, set_files f' w)).
  { unfold manifest_path. rewrite publish_file_ok; [done|done|done|apply root_not_nil| |apply du_names..].
    by apply ready_below_root. }
  eexists _, _. split.
  { unfold finish_checkpoint, persist_manifest. cbn [e_layout set_manifest set_pending e_manifest].
    fold m2. rewrite Henc, du_layout. unfold mbind, sm_bind, io_res, sm_lift. cbn [encode_err map_err].
    by rewrite Hpub. }
  split; [|done].
  assert (Htmp : tmp = "manifest.tmp" :: root_dir (layout_of c)) by done.
  assert (Hsame' : ∀ p, ¬ outside (layout_of c) p → f' !! p = files w !! p).
  { intros p Hp. unfold f'. rewrite lookup_insert_ne, lookup_delete_ne.
    - by apply Hsame.
    - intros <-. apply Hp. rewrite Htmp. apply outside_root, not_data. by vm_compute.
    - intros <-. apply Hp. apply outside_root, not_data. by vm_compute. }
  pose proof (files_outside c w f' _ _ du_wal_root Hsame' du_dirs du_wal) as [Hwal3 Hdirs3].
  exists chunks, (e_maps e).
  split; cbn [e_layout e_wal e_manifest e_pending set_manifest set_pending set_recovered]; try done.
  - eapply load_manifest_ok; [done| |exact Hdec]. unfold f'. simpl. by rewrite lookup_insert_eq.
  - unfold m2. rewrite load_stamped.
    change (set_files f' w) with (set_files f' (set_files f w)).
    apply load_unlisted; [done| |done]. intros p Hp. simpl. unfold f'.
    rewrite lookup_insert_ne, lookup_delete_ne; [done| |].
    + intros <-. apply Hp. rewrite Htmp. apply Hunl.
    + intros <-. apply Hp. apply Hunl.
  - unfold covered_lsn. cbn [m_last_applied_lsn m2 manifest_stamp default]. rewrite tail_of_covered; [done|].
    eapply list.Forall_impl; [exact du_lsns|]. intros r. simpl. lia.
  - unfold covered_lsn. simpl. lia.
  - unfold durable_lsn in *. simpl in *. destruct (e_latest_applied_lsn e); simpl in *; [done|].
    unfold u64_max, u64_modulus in *. lia.
Qed.

Lemma app_str_assoc s t u : (s +:+ t) +:+ u = s +:+ t +:+ u.
Proof. induction s as [|x s IH]; [done|]. change (String x ((s +:+ t) +:+ u) = String x (s +:+ t +:+ u)). by rewrite IH. Qed.

Lemma delta_name_extension a b : name_extension (delta_segment_name a b) = Some "json".
Proof.
  unfold name_extension, delta_segment_name, DELTA_SEGMENT_FILE_EXTENSION.
  assert (Hsplit : "delta-" +:+ fmt_020 a +:+ "-" +:+ fmt_020 b +:+ "." +:+ "json" =
    ("delta-" +:+ fmt_020 a +:+ "-" +:+ fmt_020 b) +:+ "." +:+ "json")
    by (by rewrite !app_str_assoc).
  rewrite Hsplit, rsplit_dot_app by done. by rewrite decide_False.
Qed.

Lemma tmp_not_delta name a b : name_stem name ≠ "" → name_stem name +:+ "." +:+ "tmp" ≠ delta_segment_name a b.
Proof.
  intros Hne Heq. apply (f_equal name_extension) in Heq. rewrite delta_name_extension in Heq.
  unfold name_extension in Heq. rewrite rsplit_dot_app in Heq by done. by rewrite decide_False in Heq.
Qed.

(** The delta segment of the pending entries, on disk and loaded back. *)
Lemma publish_segment c n w e chunks base first rest ck :
  durable_state c n w e chunks base → e_pending e = first :: rest →
  next_lsn (e_wal e) = (ck + 1)%N →
  (covered_lsn (e_manifest e) < delta_lsn first ∧ delta_lsn first ≤ ck)%N →
  apply_entries base (e_pending e) = Ok (e_maps e) →
  ∃ f sum, persist_delta_segment (delta_segment_path (e_layout e) (delta_lsn first) ck)
      (mkSegment 1 (e_pending e)) w = (Ok sum, set_files f w) ∧
    (∀ p, ¬ outside (layout_of c) p → f !! p = files w !! p) ∧
    (∀ clean, manifest_ok (manifest_stamp (Some ck) clean
      (extended (e_manifest e) (delta_lsn first) ck sum))) ∧
    load_published_state (layout_of c) (extended (e_manifest e) (delta_lsn first) ck sum)
      (set_files f w) = (Ok (e_maps e), set_files f w).
Proof.
  intros Hd Hp Hck [Hlo Hhi] Happly. destruct Hd.
  assert (Hf : faults w = []) by apply du_wal.
  assert (Hmax : (ck ≤ u64_max)%N) by (unfold u64_max in *; lia).
  destruct (delta_roundtrip (mkSegment 1 (e_pending e)) du_pending) as (bs & Henc & Hdec).
  set (l := layout_of c) in *. set (name := delta_segment_name (delta_lsn first) ck).
  set (tmp := with_extension "tmp" (name :: delta_directory l)).
  set (f := <[name :: delta_directory l := bs]> (delete tmp (files w))).
  assert (Hstem : name_stem name ≠ "").
  { unfold name. pose proof (delta_name_extension (delta_lsn first) ck) as Hext. clear -Hext.
    unfold name_extension in Hext. unfold name_stem. destruct (rsplit_dot _) as [[stem ext]|]; [|done].
    case_decide; [done|]. done. }
  assert (Hunl : unlisted l (e_manifest e) (name :: delta_directory l) ∧ unlisted l (e_manifest e) tmp).
  { split; (split; [intros d x Hdx Heq; apply (f_equal (λ p, nth 1 p "")) in Heq;
        change ("deltas" = d) in Heq; subst d; revert Hdx; set_solver|]);
      intros Hin; apply (manifest_delta_elem l _ du_manifest_ok) in Hin as (a & b & Heq & Hab & Hb); try lia.
    - apply (f_equal (λ p, nth 0 p "")) in Heq. change (name = delta_segment_name a b) in Heq.
      destruct (delta_path_le l a b (delta_lsn first) ck) as [_ Hne]; [lia..|]. by apply Hne.
    - apply (f_equal (λ p, nth 0 p "")) in Heq.
      change (name_stem name +:+ "." +:+ "tmp" = delta_segment_name a b) in Heq.
      by apply tmp_not_delta in Heq. }
  assert (Hready : dir_ready w (delta_directory l)).
  { rewrite list.Forall_forall in du_dirs. apply du_dirs. by vm_compute; set_solver. }
  exists f, (crc32 bs). split; [|split; [|split]].
  - unfold persist_delta_segment, mbind, sm_bind, io_res, sm_lift. rewrite Henc. cbn [encode_err map_err].
    rewrite du_layout. unfold delta_segment_path. fold name. fold l.
    rewrite publish_file_ok; [done|done|done|done|done|apply du_names..].
  - intros p Hpo. unfold f. rewrite lookup_insert_ne, lookup_delete_ne; [done|..].
    + intros <-. apply Hpo, outside_deltas.
    + intros <-. apply Hpo, outside_deltas.
  - intros clean. apply extended_ok; done || lia.
  - apply (load_extended l _ _ _ bs (e_pending e) base); try done.
    + apply load_unlisted; [done| |done]. intros p Hpu. unfold f.
      rewrite lookup_insert_ne, lookup_delete_ne; [done|..]; intros <-; apply Hpu, Hunl.
    + unfold f, delta_segment_path. fold name. simpl. by rewrite lookup_insert_eq.
Qed.

Lemma checkpoint_keeps_graph_ok c n clean w e :
  durable c (136 + n) w e →
  ∃ w' e', publish_checkpoint clean (w, e) = (Ok tt, (w', e')) ∧ durable c n w' e' ∧
    e_maps e' = e_maps e ∧ e_pending e' = [] ∧ e_transactions e' = e_transactions e ∧
    covered_lsn (e_manifest e') = next_lsn (e_wal e).
Proof.
  intros Hd. pose proof Hd as (chunks0 & base0 & Hd0).
  set (ck := next_lsn (e_wal e)). pose proof (du_covered _ _ _ _ _ _ Hd0) as Hcov. fold ck in Hcov.
  destruct (encode_marker_total (mkMarker (durable_lsn e))) as (payload & Henc & Hdec & Hlen);
    [apply (du_latest _ _ _ _ _ _ Hd0)|].
  destruct (append_durable c n KCheckpoint payload w e (state_of e)) as (w1 & l1 & Happ & _ & Hl1 & Hnext).
  { eapply durable_weaken; [|exact Hd]. unfold record_cost. lia. }
  { unfold u32_max. lia. }
  { unfold recover_step. cbn [h_kind header new_record Wal.payload]. by rewrite Hdec. }
  { apply Hd0. }
  fold ck in Happ, Hl1.
  set (e1 := set_latest ck (set_wal l1 e)).
  assert (Hck : (ck < u64_modulus)%N).
  { pose proof (du_next _ _ _ _ _ _ Hd0). unfold u64_max, u64_modulus in *. lia. }
  assert (Hd1 : durable c n w1 e1) by (by apply Hnext).
  destruct Hd1 as (chunks & base & Hd1).
  assert (Hckpt : append_checkpoint (mkMarker (durable_lsn e)) (w, e_wal e) =
    (Ok (new_record ck KCheckpoint payload), (w1, l1))).
  { unfold append_checkpoint, mbind, sm_bind, io_res, sm_lift. rewrite Henc. exact Happ. }
  rewrite publish_run, Hckpt. change (lsn_of (new_record ck KCheckpoint payload)) with ck. fold e1.
  cbn zeta. pose proof (du_tail _ _ _ _ _ _ Hd1) as Htail.
  destruct (recover_entries _ _ _ _ _ Htail) as (q & Hq & Happly & Hlsns).
  change (e_pending e1) with (e_pending e) in Hq. simpl in Hq. subst q.
  change (e_manifest e1) with (e_manifest e) in *. change (e_maps e1) with (e_maps e) in *.
  assert (Hf1 : faults w1 = []) by apply (du_wal _ _ _ _ _ _ Hd1).
  pose proof (du_manifest_ok _ _ _ _ _ _ Hd0) as Hmok.
  assert (Hcm : (covered_lsn (e_manifest e) ≤ u64_max)%N) by (unfold u64_max, u64_modulus in *; lia).
  pose proof (du_published _ _ _ _ _ _ Hd1) as Hload. change (e_manifest e1) with (e_manifest e) in Hload.
  destruct (e_pending e) as [|first rest] eqn:Hpend.
  - assert (Hself : e1 = set_manifest (e_manifest e) (set_pending [] e1))
      by (unfold e1; simpl; rewrite <-Hpend; by destruct e).
    assert (Hw1 : w1 = set_files (files w1) w1) by (by destruct w1).
    destruct (finish_durable c n w1 e1 chunks base ck clean (files w1) (e_manifest e))
      as (w' & e' & Hrun & Hd' & Hmaps & Hp' & _ & Htx & Hcov'); try done.
    + split; [apply Hmok|]. intros key Hkey Hpre.
      destruct (mo_deltas _ Hmok key Hkey Hpre) as (a & b & ? & ? & ?). exists a, b.
      unfold covered_lsn at 1. simpl. split; [done|lia].
    + rewrite <-Hw1, Hload. unfold apply_entries in Happly. simpl in Happly. by injection Happly as ->.
    + exists w', e'. rewrite <-Hself, <-Hw1 in Hrun. done.
  - destruct (publish_segment c n w1 e1 chunks base first rest ck) as (f & sum & Hpub & Hsame & Hm2 & Hload2);
      try done.
    { inversion Hlsns as [|? ? (r & Hr & Heq)]; subst. apply list_elem_of_filter in Hr as [Hlt Hr].
      pose proof (du_lsns _ _ _ _ _ _ Hd1) as Hall. rewrite list.Forall_forall in Hall.
      specialize (Hall r Hr). simpl in Hall. change (e_manifest e1) with (e_manifest e). lia. }
    { change (e_pending e1) with (e_pending e). by rewrite Hpend. }
    change (e_pending e1) with (e_pending e) in Hpub. rewrite Hpend in Hpub.
    change (e_layout e1) with (e_layout e) in Hpub. rewrite Hpub.
    destruct (finish_durable c n w1 e1 chunks base ck clean f
      (extended (e_manifest e) (delta_lsn first) ck sum))
      as (w' & e' & Hrun & Hd' & Hmaps & Hp' & _ & Htx & Hcov'); try done.
    exists w', e'. done.
Qed.

(** C30: A checkpoint on a working disk always succeeds; it keeps the store durable,
    leaves no pending entry, and moves the manifest's LSN to its own record, so that
    opening the files it leaves gives the same graph from the segments alone. *)
Theorem checkpoint_keeps_graph c n clean w e :
  durable c (136 + n) w e → validate c = Ok tt →
  ∃ w' e' e'', publish_checkpoint clean (w, e) = (Ok tt, (w', e')) ∧ durable c n w' e' ∧
    e_pending e' = [] ∧ covered_lsn (e_manifest e') = next_lsn (e_wal e) ∧
    open_engine c w' = (Ok e'', w') ∧ e_maps e'' = e_maps e ∧ e_pending e'' = [].
Proof.
  intros Hd Hval.
  destruct (checkpoint_keeps_graph_ok c n clean w e Hd) as (w' & e' & Hrun & Hd' & Hm & Hp & _ & Hc).
  destruct (reopen_durable c n w' e' Hd' Hval) as (e'' & Hopen & Hst & _).
  injection Hst as Hmaps Hpend. exists w', e', e''. rewrite Hmaps, Hpend. done.
Qed.
End checkpoint_steps.

(** ** What a compaction leaves *)

Section losses.
Context `{WalCodec, StorageCodec}.

Lemma append_checkpoint_lsn m w l r w' l' :
  append_checkpoint m (w, l) = (r, (w', l')) →
  match r with
  | Ok record => lsn_of record = next_lsn l ∧ next_lsn l' = u64_add (next_lsn l) 1
  | Err _ => next_lsn l' = next_lsn l
  end.
Proof.
  unfold append_checkpoint. intros Hrun. sm_inv Hrun; unfold io_res in Hm; sm_pure Hm; [|done].
  by apply append_lsn in Hrun.
Qed.

(** One step on the disk, which keeps the engine; one step on the engine. *)
Ltac world_step := match goal with
  | Hm : on_world _ _ = (_, ?st) |- _ => destruct st as [? ?]; apply on_world_self in Hm as -> end.
Ltac self_step := match goal with
  | Hm : self _ = _ |- _ => unfold self in Hm; simplify_eq
  | Hm : modify_self _ _ = _ |- _ => unfold modify_self in Hm; simplify_eq end.

Lemma sm_for_self {X A} (l : list A) (body : A → io unit) w (x : X) r w' x' :
  sm_for l (λ a, on_world (body a)) (w, x) = (r, (w', x')) → x' = x.
Proof.
  revert w. induction l as [|a l IH]; intros w Hrun; simpl in Hrun; [by sm_pure Hrun|].
  sm_inv Hrun; destruct st as [w1 x1]; apply on_world_self in Hm as ->; [by eapply IH|by simplify_eq].
Qed.

Lemma persist_state_Ok lsn clean clear w e u w' e' :
  persist_state lsn clean clear (w, e) = (Ok u, (w', e')) →
  ∃ m, e' = set_manifest m e ∧ m_last_applied_lsn m = lsn ∧ m_last_clean_shutdown m = clean.
Proof.
  unfold persist_state. intros Hrun. sm_inv Hrun; [|done]. unfold self in Hm. injection Hm as <- <-.
  do 3 (sm_inv Hrun; [|done]; unfold io_res in Hm; sm_pure Hm).
  do 3 (sm_inv Hrun; [|done]; world_step).
  destruct (if clear then _ else _) as [m obsolete].
  do 2 (sm_inv Hrun; [|done]; self_step). sm_inv Hrun; [|done]. world_step.
  apply sm_for_self in Hrun as ->. by eexists.
Qed.

Lemma truncate_Ok w l w' l' : truncate_all_segments (w, l) = (Ok tt, (w', l')) → next_lsn l' = 1%N.
Proof.
  unfold truncate_all_segments. intros Hrun. sm_inv Hrun; sm_pure Hm.
  sm_inv Hrun; [|done]. world_step. sm_inv Hrun; [|done]. destruct st as [w2 l2].
  sm_pure Hrun. done.
Qed.

Lemma compact_Ok w e w' e' : compact (w, e) = (Ok tt, (w', e')) →
  next_lsn (e_wal e') = 1%N ∧ covered_lsn (e_manifest e') = next_lsn (e_wal e) ∧
  e_maps e' = e_maps e ∧ e_pending e' = [].
Proof.
  unfold compact. intros Hrun. sm_inv Hrun; [|done]. self_step.
  sm_inv Hrun; [|done].  unfold on_wal in Hm.
  destruct (append_checkpoint _ _) as [[r|f] [w1 l1]] eqn:Happ; [|done]. simplify_eq.
  apply append_checkpoint_lsn in Happ as [Hlsn _].
  sm_inv Hrun; [|done]. self_step. sm_inv Hrun; [|done].
  destruct st as [w2 e2]. apply persist_state_Ok in Hm as (m & -> & Hlast & _).
  do 2 (sm_inv Hrun; [|done]; self_step).
  unfold on_wal in Hrun. destruct (truncate_all_segments _) as [[[]|f] [w3 l3]] eqn:Ht; [|done].
  apply truncate_Ok in Ht. simplify_eq. simpl. unfold covered_lsn. rewrite Hlast. simpl. done.
Qed.

(** A compaction restarts the log at LSN 1 but stamps the manifest with the LSN
    of its checkpoint: the next write is acknowledged with LSN 1, the graph shows it,
    and a recovery from the manifest on disk skips its record. *)
Theorem compaction_hides_next_write w e w1 e1 batch lsn w2 e2 :
  (0 < next_lsn (e_wal e))%N →
  compact (w, e) = (Ok tt, (w1, e1)) → apply_write_batch batch (w1, e1) = (Ok lsn, (w2, e2)) →
  lsn = 1%N ∧ e_maps e2 = apply_batch_to_maps_unchecked batch (e_maps e) ∧
  covered_lsn (e_manifest e2) = next_lsn (e_wal e) ∧
  ∀ record records latest st, lsn_of record = lsn →
    recover_records (covered_lsn (e_manifest e2)) (record :: records) latest st =
    recover_records (covered_lsn (e_manifest e2)) records latest st.
Proof.
  intros Hpos Hc Hw. apply compact_Ok in Hc as (Hnext & Hcov & Hmaps & _).
  unfold apply_write_batch in Hw. sm_inv Hw; [|done]. self_step.
  apply write_Ok in Hw as (_ & Hm & Hlsn & _ & _ & _ & _ & _ & _ & _ & _ & _ & Hman & _).
  rewrite Hnext in Hlsn. rewrite Hman, Hcov, Hm, Hmaps. repeat (split; [done|]).
  intros record records latest st Hr. cbn [recover_records].
  by rewrite (proj2 (N.leb_le _ _)) by lia.
Qed.

(** A checkpoint that fails while it writes its delta segment has already moved
    the pending entries out of the engine: the next checkpoint that succeeds stamps
    the manifest past them without publishing them, so that no file holds them and
    recovery skips their records. *)
Theorem failed_checkpoint_forgets_pending clean w e f w1 e1 :
  e_pending e ≠ [] → (covered_lsn (e_manifest e) < next_lsn (e_wal e))%N →
  publish_checkpoint clean (w, e) = (Err f, (w1, e1)) →
  next_lsn (e_wal e1) ≠ next_lsn (e_wal e) → e_manifest e1 = e_manifest e →
  e_maps e1 = e_maps e ∧ e_pending e1 = [] ∧
  ∀ clean' w' w2 e2, publish_checkpoint clean' (w', e1) = (Ok tt, (w2, e2)) →
    m_files (e_manifest e2) = m_files (e_manifest e) ∧
    covered_lsn (e_manifest e2) = next_lsn (e_wal e1) ∧
    ∀ record records latest st, (lsn_of record < next_lsn (e_wal e1))%N →
      recover_records (covered_lsn (e_manifest e2)) (record :: records) latest st =
      recover_records (covered_lsn (e_manifest e2)) records latest st.
Proof.
  intros Hp Hcov Hrun Hnext Hman. rewrite publish_run in Hrun.
  destruct (append_checkpoint _ _) as [[r|f'] [wa la]] eqn:Happ; apply append_checkpoint_lsn in Happ;
    [|by injection Hrun as _ _ <-].
  destruct Happ as [Hlsn _]. destruct (e_pending e) as [|first rest] eqn:Hpe; [done|]. clear Hp.
  destruct (persist_delta_segment _ _ wa) as [[sum|f'] wb].
  { exfalso. unfold finish_checkpoint in Hrun.
    destruct (persist_manifest _ _ wb) as [[?|f''] wc]; [done|]. injection Hrun as _ _ <-.
    simpl in Hman. rewrite <-Hman in Hcov. unfold covered_lsn in Hcov. simpl in Hcov. lia. }
  injection Hrun as _ <- <-. split; [done|]. split; [done|]. clear Hnext Hman.
  intros clean' w' w2 e2 Hrun. rewrite publish_run in Hrun.
  destruct (append_checkpoint _ _) as [[r'|f2] [wc lc]] eqn:Happ'; [|done].
  apply append_checkpoint_lsn in Happ' as [Hlsn' _]. cbn [e_pending set_pending set_latest] in Hrun.
  unfold finish_checkpoint in Hrun. destruct (persist_manifest _ _ wc) as [[?|f''] wd]; [|done].
  injection Hrun as <- <-. unfold covered_lsn. simpl. simpl in Hlsn'. repeat (split; [done|]).
  intros record records latest st Hr. by rewrite (proj2 (N.leb_le _ _)) by lia.
Qed.
End losses.

Section witnesses.
Import Wal.Demo Batch.Demo Store.Demo Durability.Demo.

Lemma outcome {A B} (x : A * B) a : x.1 = a → x = (a, x.2).
Proof. by destruct x; intros <-. Qed.

Lemma refused {E A B} (x : Result E A * B) : is_ok x.1 = false → ∃ f, x = (Err f, x.2).
Proof. destruct x as [[a|f] b]; [done|by exists f]. Qed.

Definition demo_batch (id : string) : WriteBatch := mkBatch [node id "person"] [] [] [].
Lemma checkpoint_keeps_graph_witness :
  ∃ w' e' e'', publish_checkpoint true (fresh, engine) = (Ok tt, (w', e')) ∧
    open_engine config w' = (Ok e'', w') ∧ e_maps e'' = (∅, ∅).
Proof.
  destruct (checkpoint_keeps_graph config 0 true fresh engine)
    as (w' & e' & e'' & Hrun & _ & _ & _ & Hopen & Hm & _).
  - apply fresh_durable. by vm_compute.
  - apply default_config_ok.
  - exists w', e', e''. split; [done|]. split; [done|]. rewrite Hm. by vm_compute.
Defined.

Definition demo_written : World * StorageEngine := (apply_write_batch (demo_batch "a") (fresh, engine)).2.
Definition demo_compacted : World * StorageEngine := (compact demo_written).2.
Definition demo_after : World * StorageEngine := (apply_write_batch (demo_batch "b") demo_compacted).2.
(** The nodes the store shows when it is opened. *)
Definition demo_reopened (w : World) (id : string) : Result Failure (option NodeRecord) :=
  match (open_engine config w).1 with
  | Ok e => Ok (get_node e (mkNodeId id))
  | Err f => Err f
  end.

Lemma compaction_hides_next_write_witness :
  (apply_write_batch (demo_batch "b") demo_compacted).1 = Ok 1%N ∧
  covered_lsn (e_manifest demo_after.2) = 2%N ∧
  get_node demo_after.2 (mkNodeId "b") = Some (node "b" "person") ∧
  demo_reopened demo_after.1 "a" = Ok (Some (node "a" "person")) ∧
  demo_reopened demo_after.1 "b" = Ok None.
Proof.
  assert (Hc : compact demo_written = (Ok tt, demo_compacted)) by (apply (outcome (compact _)); by vm_compute).
  assert (Hw : apply_write_batch (demo_batch "b") demo_compacted = (Ok 1%N, demo_after))
    by (apply (outcome (apply_write_batch _ _)); by vm_compute).
  assert (Hnext : next_lsn (e_wal demo_written.2) = 2%N) by (by vm_compute).
  pose proof (compaction_hides_next_write demo_written.1 demo_written.2 demo_compacted.1
    demo_compacted.2 (demo_batch "b") 1 demo_after.1 demo_after.2) as Hhide.
  rewrite <-!surjective_pairing, Hnext in Hhide.
  destruct (Hhide ltac:(lia) Hc Hw) as (_ & _ & Hcov & _).
  split; [by rewrite Hw|]. split; [done|]. split; [by vm_compute|]. split; by vm_compute.
Defined.

(** The disk refuses the segment of the first checkpoint, and works again after it. *)
Definition demo_full : World := (install_storage_io_failpoint "temp_write" "deltas" demo_written.1).2.
Definition demo_failed : World * StorageEngine := (checkpoint (demo_full, demo_written.2)).2.
Definition demo_freed : World := (clear_storage_io_failpoint demo_failed.1).2.
Definition demo_published : World * StorageEngine := (checkpoint (demo_freed, demo_failed.2)).2.

Lemma failed_checkpoint_forgets_pending_witness :
  is_ok (checkpoint (demo_full, demo_written.2)).1 = false ∧
  (checkpoint (demo_freed, demo_failed.2)).1 = Ok tt ∧
  get_node demo_published.2 (mkNodeId "a") = Some (node "a" "person") ∧
  covered_lsn (e_manifest demo_published.2) = 3%N ∧
  demo_reopened demo_published.1 "a" = Ok None.
Proof.
  assert (Hbad : is_ok (checkpoint (demo_full, demo_written.2)).1 = false) by (by vm_compute).
  assert (Hok : checkpoint (demo_freed, demo_failed.2) = (Ok tt, demo_published))
    by (apply (outcome (checkpoint _)); by vm_compute).
  pose proof (refused (checkpoint (demo_full, demo_written.2)) Hbad) as Hfail.
  fold demo_failed in Hfail.
  destruct Hfail as [f Hfail]. rewrite (surjective_pairing demo_failed) in Hfail.
  rewrite (surjective_pairing demo_published) in Hok.
  destruct (failed_checkpoint_forgets_pending false demo_full demo_written.2 f demo_failed.1 demo_failed.2)
    as (_ & _ & Hlost); [by vm_compute|by vm_compute|done|by vm_compute|by vm_compute|].
  destruct (Hlost _ _ _ _ Hok) as (_ & Hcov & _).
  split; [done|]. split; [by rewrite Hok|]. split; [by vm_compute|].
  split; [rewrite Hcov; by vm_compute|by vm_compute].
Defined.
End witnesses.
