(* ===== verification/Clients.v ===== *)
(** * [crates/storage]: clients of a running engine

    Runs of writes, transactions and checkpoints against an engine on disk, and what
    opening the store after a crash gives. *)
From S2P Require Import Prelude RustStd Common Core Config Fs Wal Memory Batch Store Engine Recovery Durability Checkpoint.

#[local] Open Scope string_scope.
#[local] Open Scope list_scope.

Inductive client_op :=
| CWrite (batch : WriteBatch)
| CBegin (level : IsolationLevel)
| CStage (tx : TransactionId) (op : TransactionOperation)
| CCommit (tx : TransactionId)
| CRollback (tx : TransactionId)
| CCheckpoint (clean : bool).

Section clients.
Context `{WalCodecLaws, StorageCodecLaws}.

(** Run an operation; was it acknowledged? *)
Definition client_step (op : client_op) (st : World * StorageEngine) : bool * (World * StorageEngine) :=
  match op with
  | CWrite batch => let '(r, st) := apply_write_batch batch st in (is_ok r, st)
  | CBegin level => (true, (st.1, (begin_transaction level st.2).2))
  | CStage tx op => let '(r, st) := stage_transaction_operation tx op st in (is_ok r, st)
  | CCommit tx => let '(r, st) := commit_transaction tx st in (is_ok r, st)
  | CRollback tx => let '(r, st) := rollback_transaction tx st in (is_ok r, st)
  | CCheckpoint clean => let '(r, st) := publish_checkpoint clean st in (is_ok r, st)
  end.

(** The batches an operation tries to write. *)
Definition op_batches (op : client_op) (e : StorageEngine) : list WriteBatch :=
  match op with
  | CWrite batch => [batch]
  | CCommit tx => match e_transactions e !! tx with Some s => [ses_staged_batch s] | None => [] end
  | CBegin _ | CStage _ _ | CRollback _ | CCheckpoint _ => []
  end.

Definition batches_cost (l : list WriteBatch) : N := foldr (λ b n, write_cost b + n)%N 0%N l.
(** The bytes of log an operation takes, at most. *)
Definition op_cost (op : client_op) (e : StorageEngine) : N :=
  match op with CCheckpoint _ => 136%N | _ => batches_cost (op_batches op e) end.

(** A run: the batches acknowledged, those tried, the log it needs, and the state it
    leaves. *)
Fixpoint client_run (ops : list client_op) (st : World * StorageEngine)
    : list WriteBatch * list WriteBatch * N * (World * StorageEngine) :=
  match ops with
  | [] => ([], [], 0%N, st)
  | op :: ops =>
    let '(ack, st') := client_step op st in
    let '(acked, tried, cost, st'') := client_run ops st' in
    let batches := op_batches op st.2 in
    ((if ack then batches else []) ++ acked, batches ++ tried, (op_cost op st.2 + cost)%N, st'')
  end.

Definition apply_all (l : list WriteBatch) (m : Maps) : Maps :=
  foldl (λ m b, apply_batch_to_maps_unchecked b m) m l.

Lemma write_maps batch readers st :
  let '(r, st') := apply_write_batch_with_snapshot_readers batch readers st in
  e_maps st'.2 = apply_all (if is_ok r then [batch] else []) (e_maps st.2).
Proof.
  destruct st as [w e]. rewrite write_run. destruct (normalize_write_batch batch); [|done].
  destruct (batch_is_empty batch); [done|]. destruct (validate_batch_against_maps _ _); [|done].
  assert (Hpre : e_maps (preserved readers batch e) = e_maps e)
    by (unfold preserved; by destruct (0 <? readers)%nat).
  destruct (serialize_write_batch batch); [|done].
  destruct (append _ _ _) as [[record|f] [w' l']]; [|done].
  simpl. unfold committed. by destruct (0 <? readers)%nat.
Qed.

Lemma clear_versions_state e : state_of (clear_version_history_if_unused e) = state_of e ∧
  e_maps (clear_version_history_if_unused e) = e_maps e ∧
  e_layout (clear_version_history_if_unused e) = e_layout e ∧
  e_wal (clear_version_history_if_unused e) = e_wal e ∧
  e_manifest (clear_version_history_if_unused e) = e_manifest e ∧
  e_latest_applied_lsn (clear_version_history_if_unused e) = e_latest_applied_lsn e.
Proof. unfold clear_version_history_if_unused. by case_decide. Qed.

(** Staging and rolling back leave the stored state alone. *)
Lemma stage_state tx op w e :
  (stage_transaction_operation tx op (w, e)).2.1 = w ∧
  ∃ t, (stage_transaction_operation tx op (w, e)).2.2 = set_transactions t e.
Proof.
  rewrite stage_run. destruct (e_transactions e !! tx) as [s|]; [|split; [done|]; exists (e_transactions e); by destruct e].
  cbn zeta. case_decide; [|split; [done|]; by eexists].
  destruct (stage_operation_on_session _ s op); (split; [done|]; by eexists).
Qed.

Lemma durable_transactions c n w e t : durable c n w e → durable c n w (set_transactions t e).
Proof. by apply durable_same. Qed.

Lemma durable_clear c n w e : durable c n w e → durable c n w (clear_version_history_if_unused e).
Proof. destruct (clear_versions_state e) as (? & _ & ? & ? & ? & ?). by apply durable_same. Qed.

Lemma client_step_ok c n op w e :
  durable c (op_cost op e + n) w e → Forall storable (op_batches op e) →
  let '(ack, (w', e')) := client_step op (w, e) in
  durable c n w' e' ∧ e_maps e' = apply_all (if ack then op_batches op e else []) (e_maps e).
Proof.
  intros Hd Hsto. assert (Hd0 : durable c n w e) by (eapply durable_weaken; [|exact Hd]; lia).
  destruct op as [batch|level|tx op|tx|tx|clean]; cbn [client_step op_cost] in *.
  - cbn [op_batches batches_cost foldr] in *. apply list.Forall_cons in Hsto as [Hsto _].
    unfold apply_write_batch, mbind, sm_bind, self.
    pose proof (write_durable c n batch (size (e_transactions e)) w e) as Hw.
    pose proof (write_maps batch (size (e_transactions e)) (w, e)) as Hm.
    destruct (apply_write_batch_with_snapshot_readers _ _ _) as [r [w' e']].
    split; [apply Hw; [|done]; by rewrite N.add_0_r in Hd|done].
  - split; [by eapply durable_same; [..|exact Hd0]|done].
  - destruct (stage_state tx op w e) as [Hw [t He]].
    destruct (stage_transaction_operation tx op (w, e)) as [r [w' e']]. simpl in *. subst.
    split; [by apply durable_transactions|by destruct (is_ok r)].
  - rewrite commit_run. destruct (active_session e tx) as [s|err] eqn:Hs; [|done].
    apply active_session_Ok in Hs as [Hs Hact]. cbn [op_batches] in *. rewrite Hs in *.
    cbn [batches_cost foldr] in Hd. apply list.Forall_cons in Hsto as [Hsto _].
    destruct (_ ;; _) as [[]|err]; [|done]. destruct (batch_is_empty _); [done|].
    pose proof (write_durable c n (ses_staged_batch s) (size (e_transactions e) - 1) w e) as Hw.
    pose proof (write_maps (ses_staged_batch s) (size (e_transactions e) - 1) (w, e)) as Hm.
    rewrite N.add_0_r in Hd. specialize (Hw Hd Hsto).
    destruct (apply_write_batch_with_snapshot_readers _ _ _) as [[lsn|f] [w' e']]; simpl in *; [|done].
    split; [by apply durable_clear, durable_transactions|].
    by destruct (clear_versions_state (set_transactions (delete tx (e_transactions e')) e'))
      as (_ & -> & _).
  - unfold rollback_transaction, mbind, sm_bind, self, io_res, sm_lift, ok_or.
    destruct (e_transactions e !! tx) as [s|]; [|done]. simpl.
    split; [by apply durable_clear, durable_transactions|].
    by destruct (clear_versions_state (set_transactions (delete tx (e_transactions e)) e))
      as (_ & -> & _).
  - destruct (checkpoint_keeps_graph_ok c n clean w e Hd) as (w' & e' & -> & Hd' & Hm & _). done.
Qed.

Lemma apply_all_app l1 l2 m : apply_all (l1 ++ l2) m = apply_all l2 (apply_all l1 m).
Proof. apply foldl_app. Qed.

Lemma client_run_ok c n ops : ∀ w e,
  let '(acked, tried, cost, (w', e')) := client_run ops (w, e) in
  durable c (cost + n) w e → Forall storable tried →
  durable c n w' e' ∧ e_maps e' = apply_all acked (e_maps e).
Proof.
  induction ops as [|op ops IH]; intros w e; [done|]. cbn [client_run].
  destruct (client_step op (w, e)) as [ack [w1 e1]] eqn:Hstep. specialize (IH w1 e1).
  destruct (client_run ops (w1, e1)) as [[[acked tried] cost] [w' e']]. cbn [snd].
  intros Hd [Hsto Hsto']%list.Forall_app.
  pose proof (client_step_ok c (cost + n) op w e) as Hs.
  rewrite Hstep in Hs. rewrite <-N.add_assoc in Hd. destruct (Hs Hd Hsto) as [Hd1 Hm1].
  destruct (IH Hd1 Hsto') as [Hd' Hm']. split; [done|]. by rewrite Hm', Hm1, apply_all_app.
Qed.

End clients.

Section witnesses.
Import Wal.Demo Batch.Demo Store.Demo Durability.Demo.


(** Two nodes and an edge written, an edge refused, then a
    transaction that deletes a node around a checkpoint. *)
Definition tx : TransactionId := transaction_id_of 1.
Definition ops : list client_op :=
  [ CWrite (mkBatch [node "a" "person"; node "b" "person"] [edge "ab" "a" "b"] [] []);
    CWrite (mkBatch [] [edge "xx" "x" "x"] [] []);
    CBegin Snapshot; CStage tx (DeleteNode (mkNodeId "b")); CCheckpoint false; CCommit tx ].


End witnesses.
