(* ===== verification/Snapshot.v ===== *)
(** * [crates/storage]: whole snapshots

    The records of a compaction: nodes without their vectors, the vectors apart, and
    edges, each rebuilt through the checked identifier constructors. *)
From S2P Require Import Prelude RustStd Common Core Config Fs Wal Memory Batch Store Engine Recovery.

#[local] Open Scope string_scope.
#[local] Open Scope list_scope.

(** The identifiers of a graph went through their constructors. *)
Record ids_valid (m : Maps) : Prop := {
  iv_nodes : ∀ id n, m.1 !! id = Some n → valid_identifier (node_id_str id) = true;
  iv_edges : ∀ id e, m.2 !! id = Some e → valid_identifier (edge_id_str id) = true;
}.

(** A map whose values know their keys is rebuilt from its values. *)
Lemma insert_all_values {K V} `{Countable K, OrdKey K} (key : V → K) (m : gmap K V) :
  (∀ k v, m !! k = Some v → key v = k) → insert_all key (btree_values m) ∅ = m.
Proof.
  intros Hkey. apply map_eq. intros k. rewrite lookup_insert_all, lookup_empty.
  destruct (last_with key k (btree_values m)) as [v|] eqn:Hl.
  - apply last_with_Some in Hl as [[k' Hk']%elem_of_btree_values <-]. by rewrite (Hkey _ _ Hk').
  - apply last_with_None in Hl. destruct (m !! k) as [v|] eqn:Hk; [|done]. destruct Hl.
    apply list_elem_of_fmap. exists v. split; [by rewrite (Hkey k v)|]. apply elem_of_btree_values. eauto.
Qed.

Lemma stored_value_roundtrip v : value_of_stored (stored_of_value v) = v.
Proof. by destruct v. Qed.
Lemma stored_values_roundtrip (m : gmap string PropertyValue) :
  value_of_stored <$> (stored_of_value <$> m) = m.
Proof.
  rewrite <-map_fmap_compose. rewrite <-(map_fmap_id m) at 2. apply map_fmap_ext.
  intros k v _. apply stored_value_roundtrip.
Qed.

Lemma collect_from {A B} (to_stored : A → B) (of_stored : B → Res A) (view : A → A) l :
  Forall (λ x, of_stored (to_stored x) = Ok (view x)) l →
  result_collect of_stored (to_stored <$> l) = Ok (view <$> l).
Proof. induction 1 as [|x l Hx _ IH]; [done|]. csimpl. by rewrite Hx, IH. Qed.

Definition without_vectors (n : NodeRecord) : NodeRecord := set_vectors ∅ n.

Lemma into_from_node n : valid_identifier (node_id_str (node_id n)) = true →
  into_node (from_node n) = Ok (without_vectors n).
Proof.
  intros Hv. unfold into_node, from_node. simpl. rewrite NodeId_new_Ok by done. simpl.
  unfold without_vectors, set_vectors. rewrite stored_values_roundtrip. by destruct n as [[id] ? ? ?].
Qed.

Lemma into_from_edge e : valid_identifier (edge_id_str (edge_id e)) = true →
  valid_identifier (node_id_str (edge_source e)) = true →
  valid_identifier (node_id_str (edge_target e)) = true → into_edge (from_edge e) = Ok e.
Proof.
  intros Hv Hs Ht. unfold into_edge, from_edge. simpl.
  rewrite EdgeId_new_Ok, !NodeId_new_Ok by done. simpl. rewrite stored_values_roundtrip.
  by destruct e as [[id] [s] [t] ? ?].
Qed.

Lemma into_parts_from n : valid_identifier (node_id_str (node_id n)) = true →
  into_parts (vectors_from_node n) = Ok (node_id n, node_vectors n).
Proof.
  intros Hv. unfold into_parts. simpl. rewrite NodeId_new_Ok by done. simpl. by destruct n as [[id] ? ? ?].
Qed.

(** Attaching the vectors of a run of nodes of the map. *)
Lemma attach_vectors_run (m : Nodes) l : ∀ acc,
  (∀ n, n ∈ l → m !! node_id n = Some n ∧ valid_identifier (node_id_str (node_id n)) = true) →
  (∀ id, acc !! id = without_vectors <$> m !! id ∨ acc !! id = m !! id) →
  ∃ acc', attach_vector_records acc (vectors_from_node <$> l) = Ok acc' ∧
    ∀ id, (acc' !! id = without_vectors <$> m !! id ∨ acc' !! id = m !! id) ∧
      (id ∈ node_id <$> l ∨ acc !! id = m !! id → acc' !! id = m !! id).
Proof.
  induction l as [|n l IH]; intros acc Hl Hacc.
  - exists acc. split; [done|]. intros id. split; [done|]. intros [Hin|?]; [|done]. by apply elem_of_nil in Hin.
  - destruct (Hl n) as [Hn Hv]; [left|]. unfold attach_vector_records. csimpl.
    rewrite into_parts_from by done. cbn [mbind result_bind mret result_ret].
    set (acc1 := match acc !! node_id n with
      | Some n' => <[node_id n := set_vectors (node_vectors n) n']> acc | None => acc end).
    assert (Hacc1 : ∀ id, acc1 !! id = if decide (id = node_id n) then m !! id else acc !! id).
    { intros id. unfold acc1.
      assert (Hset : ∀ n', acc !! node_id n = Some n' → set_vectors (node_vectors n) n' = n).
      { intros n' Hn'. destruct (Hacc (node_id n)) as [Heq|Heq]; rewrite Hn', Hn in Heq;
          injection Heq as ->; by destruct n. }
      destruct (acc !! node_id n) as [n'|] eqn:Hn'.
      - rewrite (Hset n' eq_refl). case_decide as Hid; [subst; by rewrite lookup_insert_eq, Hn|].
        by rewrite lookup_insert_ne.
      - exfalso. destruct (Hacc (node_id n)) as [Heq|Heq]; rewrite Hn', Hn in Heq; done. }
    destruct (IH acc1) as (acc' & Hrun & Hfin).
    + intros n' Hn'. apply Hl. by right.
    + intros id. rewrite Hacc1. case_decide; [by right|apply Hacc].
    + exists acc'. split; [exact Hrun|]. intros id. destruct (Hfin id) as [Hor Himp].
      split; [done|]. intros Hid. apply Himp. rewrite Hacc1.
      case_decide as Hd; [by right|]. csimpl in Hid. rewrite elem_of_cons in Hid. naive_solver.
Qed.

(** C31: Snapshots are faithful: the node, vector and edge records a compaction writes
    rebuild exactly the graph they were taken from, through the checked identifier
    constructors. *)
Theorem snapshot_rebuilds_graph m : maps_wf m → ids_valid m →
  (nodes ← nodes_of_records (seg_records (node_snapshot m));
   attach_vector_records nodes (seg_records (vector_snapshot m))) = Ok m.1 ∧
  edges_of_records (seg_records (edge_snapshot m)) = Ok m.2.
Proof.
  intros Hwf [Hin Hie]. split.
  - unfold nodes_of_records, node_snapshot. cbn [seg_records].
    rewrite (collect_from from_node into_node without_vectors).
    + cbn [mbind result_bind mret result_ret]. set (acc := insert_all _ _ ∅).
      assert (Hacc : ∀ id, acc !! id = without_vectors <$> m.1 !! id).
      { intros id. assert (Heq : acc = without_vectors <$> m.1); [|by rewrite Heq, lookup_fmap].
        unfold acc. transitivity (without_vectors <$> insert_all node_id (btree_values m.1) ∅).
        - generalize (btree_values m.1) as l. intros l. unfold insert_all.
          rewrite <-(fmap_empty without_vectors) at 1. generalize (∅ : Nodes) as m0.
          induction l as [|n l IHl]; intros m0; [done|]. csimpl. rewrite <-IHl. by rewrite fmap_insert.
        - f_equal. apply insert_all_values. apply Hwf. }
      destruct (attach_vectors_run m.1 (btree_values m.1) acc) as (acc' & Hrun & Hfin).
      * intros n [id Hid]%elem_of_btree_values. rewrite (mw_node_key _ Hwf id n Hid).
        split; [done|by eapply Hin].
      * intros id. left. apply Hacc.
      * unfold vector_snapshot. cbn [seg_records]. rewrite Hrun. f_equal. apply map_eq. intros id.
        destruct (Hfin id) as [_ Hid]. apply Hid.
        destruct (m.1 !! id) as [n|] eqn:Hn; [left|right; by rewrite Hacc, Hn].
        apply list_elem_of_fmap. exists n. split; [by rewrite (mw_node_key _ Hwf id n)|].
        apply elem_of_btree_values. eauto.
    + apply list.Forall_forall. intros n [id Hid]%elem_of_btree_values. apply into_from_node.
      rewrite (mw_node_key _ Hwf id n Hid). by eapply Hin.
  - unfold edges_of_records, edge_snapshot. cbn [seg_records].
    rewrite (collect_from from_edge into_edge (λ e, e)).
    + rewrite list_fmap_id. cbn [mbind result_bind mret result_ret]. f_equal.
      apply insert_all_values, Hwf.
    + apply list.Forall_forall. intros e [id Hid]%elem_of_btree_values.
      destruct (mw_source _ Hwf id e Hid) as [s Hs], (mw_target _ Hwf id e Hid) as [t Ht].
      apply into_from_edge; [|by eapply Hin..].
      rewrite (mw_edge_key _ Hwf id e Hid). by eapply Hie.
Qed.

Lemma snapshot_rebuilds_graph_witness :
  edges_of_records (seg_records (edge_snapshot Batch.Demo.maps)) = Ok Batch.Demo.maps.2.
Proof.
  apply snapshot_rebuilds_graph; [apply Batch.Demo.maps_are_wf|].
  split; apply map_Forall_to_list; vm_compute; by repeat constructor.
Defined.
