(* ===== verification/Backup.v ===== *)
(** * [crates/storage]: backup, restore, export and import

    A backup is a copy of the storage root with a manifest of its files; a restore
    checks it, copies it beside the destination and swaps it in, optionally cutting
    the log at an LSN.  The recursion over directories takes the depth of the tree as
    fuel: a tree of [n] directories is at most [n] deep. *)
From S2P Require Import Prelude RustStd Common Core Config Fs Wal Memory Batch Store Engine Recovery Snapshot.

#[local] Open Scope string_scope.
#[local] Open Scope list_scope.

Section backup.
Context `{WalCodec, StorageCodec}.

Definition too_deep {A} : io A := sm_fail (Panic "stack overflow").

Fixpoint copy_directory_fuel (fuel : nat) (source destination : Path) : io unit :=
  match fuel with
  | O => too_deep
  | S fuel =>
    io_err (quoted "failed to create directory" destination) (fs_create_dir_all destination) ;;
    names ← io_err (quoted "failed to enumerate directory" source) (fs_read_dir source);
    sm_for names (λ name,
      w ← sm_get;
      if is_dir w (name :: source) then copy_directory_fuel fuel (name :: source) (name :: destination)
      else io_err ("failed to copy '" +:+ path_display (name :: source) +:+ "' -> '" +:+
        path_display (name :: destination) +:+ "'") (fs_copy (name :: source) (name :: destination)))
  end.

Definition tree_fuel (w : World) : nat := S (size (dirs w)).

Definition copy_directory_recursive (source destination : Path) : io unit :=
  w ← sm_get; copy_directory_fuel (tree_fuel w) source destination.

Definition backup_manifest_path (root : Path) : Path := BACKUP_MANIFEST_FILE_NAME :: root.

(** [path.strip_prefix(root)] as text, for a backup. *)
Definition backup_relative (root p : Path) : Res string :=
  match strip_prefix root p with
  | Some comps => Ok (String.concat "/" comps)
  | None => Err (Io (quoted "failed to derive backup relative path for" p +:+ ": prefix not found"))
  end.

Abbreviation BackupFiles := (gmap string ManifestFile).

(** [for x in l { acc = body(acc, x)?; }]. *)
Fixpoint sm_foldl {S E A B} (body : B → A → sm S E B) (acc : B) (l : list A) : sm S E B :=
  match l with
  | [] => mret acc
  | x :: l => acc ← body acc x; sm_foldl body acc l
  end.

Fixpoint collect_backup_files_fuel (fuel : nat) (root current : Path) (found : BackupFiles)
    : io BackupFiles :=
  match fuel with
  | O => too_deep
  | S fuel =>
    names ← io_err (quoted "failed to enumerate backup directory" current) (fs_read_dir current);
    sm_foldl (λ found name,
      let p := name :: current in
      w ← sm_get;
      if is_dir w p then collect_backup_files_fuel fuel root p found
      else
        relative ← io_res (backup_relative root p);
        if decide (relative = BACKUP_MANIFEST_FILE_NAME) then mret found
        else
          bs ← io_err (quoted "failed to read backup file" p) (fs_read p);
          mret (<[relative := mkManifestFile relative (crc32 bs)]> found)) found names
  end.

Definition collect_backup_files (root : Path) : io BackupFiles :=
  w ← sm_get; collect_backup_files_fuel (tree_fuel w) root root ∅.

Definition persist_backup_manifest (source destination : Path) : io unit :=
  integrity ← verify_storage_layout (StorageLayout_new destination);
  found ← collect_backup_files destination;
  payload ← io_res (encode_err
    (quoted "failed to serialize backup manifest" (backup_manifest_path destination))
    (json_encode_backup (mkBackup (path_display source) (size found) found integrity)));
  write_atomically (backup_manifest_path destination) payload.

Definition load_backup_manifest (root : Path) : io BackupManifest :=
  let p := backup_manifest_path root in
  bs ← io_err (quoted "failed to read backup manifest" p) (fs_read p);
  io_res (encode_err (quoted "failed to deserialize backup manifest" p) (json_decode_backup bs)).

(** The comparison of the recorded integrity report with the current one. *)
Definition integrity_differs (current recorded : IntegrityReport) : bool :=
  negb (Bool.eqb (ir_manifest_present current) (ir_manifest_present recorded))
  || negb (Bool.eqb (ir_node_snapshot_valid current) (ir_node_snapshot_valid recorded))
  || negb (Bool.eqb (ir_edge_snapshot_valid current) (ir_edge_snapshot_valid recorded))
  || negb (ir_wal_replay_valid current)
  || negb (ir_node_count current =? ir_node_count recorded)%nat
  || negb (ir_edge_count current =? ir_edge_count recorded)%nat.

Definition verify_backup_directory (root : Path) : io BackupManifest :=
  manifest ← load_backup_manifest root;
  actual ← collect_backup_files root;
  if decide (actual = bm_files manifest) then
    integrity ← verify_storage_layout (StorageLayout_new root);
    if integrity_differs integrity (bm_integrity manifest) then
      io_fail (Corruption (quoted "backup integrity report for" root +:+
        " no longer matches current storage state"))
    else mret manifest
  else io_fail (Corruption (quoted "backup manifest" (backup_manifest_path root) +:+
    " does not match copied files")).

Definition backup_directory (source destination : Path) : io unit :=
  w ← sm_get;
  if negb (path_exists w source) then
    io_fail (NotFound (quoted "backup source" source +:+ " does not exist"))
  else
    (if path_exists w destination then
       io_err (quoted "failed to remove existing backup destination" destination)
         (fs_remove_dir_all destination)
     else mret tt) ;;
    copy_directory_recursive source destination ;;
    persist_backup_manifest source destination.

Definition backup_to (e : StorageEngine) (destination : Path) : io unit :=
  backup_directory (root_dir (e_layout e)) destination.

Definition trim_restored_wal_to_lsn (root : Path) (target_lsn : N) (config : WalConfig) : io unit :=
  let l := StorageLayout_new root in
  manifest ← io_catch (load_manifest (manifest_path l));
  let checkpoint_lsn := match manifest with
    | Ok m => default 0%N (m_last_applied_lsn m)
    | Err _ => 0%N
    end in
  if (target_lsn <? checkpoint_lsn)%N then
    io_fail (Validation ("requested restore target lsn " +:+ pretty target_lsn +:+
      " is older than checkpoint lsn " +:+ pretty checkpoint_lsn))
  else
    let wal_root := subdirectory l "wal" in
    records ← replay_from_dir wal_root (max_replay_bytes config);
    let latest_available_lsn := match list.last records with
      | Some r => lsn_of r
      | None => checkpoint_lsn
      end in
    if (latest_available_lsn <? target_lsn)%N then
      io_fail (Validation ("requested restore target lsn " +:+ pretty target_lsn +:+
        " exceeds latest available lsn " +:+ pretty latest_available_lsn))
    else
      rewrite_dir_from_records wal_root config (filter (λ r, (lsn_of r <= target_lsn)%N) records).

Definition restore_directory_internal (source destination : Path) (target_lsn : option N)
    (wal_config : option WalConfig) : io unit :=
  w ← sm_get;
  if negb (path_exists w source) then
    io_fail (NotFound (quoted "restore source" source +:+ " does not exist"))
  else
    verify_backup_directory source ;;
    let staging_dir := with_extension "restore-staging" destination in
    w ← sm_get;
    (if path_exists w staging_dir then
       io_err (quoted "failed to remove existing restore staging directory" staging_dir)
         (fs_remove_dir_all staging_dir)
     else mret tt) ;;
    copy_directory_recursive source staging_dir ;;
    match target_lsn with
    | Some target_lsn =>
      config ← io_res (ok_or wal_config
        (Validation "restore to lsn requires an explicit wal configuration"));
      trim_restored_wal_to_lsn staging_dir target_lsn config ;;
      integrity ← verify_storage_layout (StorageLayout_new staging_dir);
      if negb (ir_node_snapshot_valid integrity) || negb (ir_edge_snapshot_valid integrity)
        || negb (ir_wal_replay_valid integrity) then
        io_fail (Corruption (quoted "staged point-in-time restore" staging_dir +:+
          " failed integrity validation"))
      else mret tt
    | None => verify_backup_directory staging_dir ;; mret tt
    end ;;
    w ← sm_get;
    (if path_exists w destination then
       io_err (quoted "failed to remove existing restore destination" destination)
         (fs_remove_dir_all destination)
     else mret tt) ;;
    io_err ("failed to promote staged restore '" +:+ path_display staging_dir +:+ "' -> '" +:+
      path_display destination +:+ "'") (fs_rename staging_dir destination).

Definition restore_directory (source destination : Path) : io unit :=
  restore_directory_internal source destination None None.
Definition restore_directory_to_lsn (source destination : Path) (target_lsn : N) (config : WalConfig)
    : io unit :=
  restore_directory_internal source destination (Some target_lsn) (Some config).

(** ** JSON lines *)

Definition jsonl_records (m : Maps) : list JsonlRecord :=
  (JNode <$> btree_values m.1) ++ (JEdge <$> btree_values m.2).

Definition record_noun (r : JsonlRecord) : string := match r with JNode _ => "node" | JEdge _ => "edge" end.

Definition export_line (p : Path) (r : JsonlRecord) : io unit :=
  line ← io_res (encode_err ("failed to serialize " +:+ record_noun r +:+ " export record")
    (json_line_record r));
  io_err ("failed to write " +:+ record_noun r +:+ " export line")
    (fs_append p (bytes_of_string line ++ newline)).

Definition export_jsonl (e : StorageEngine) (p : Path) : io unit :=
  match p with
  | [] => mret tt
  | _ :: parent => io_err (quoted "failed to create export parent directory" parent)
      (fs_create_dir_all parent)
  end ;;
  io_err (quoted "failed to create export file" p) (fs_write p []) ;;
  sm_for (jsonl_records (e_maps e)) (export_line p).

Definition import_line (b : WriteBatch) (line : string) : Res WriteBatch :=
  if is_blank line then Ok b
  else
    record ← encode_err "failed to parse JSONL record" (json_parse_record line);
    mret (match record with
          | JNode n => mkBatch (nodes_upserted b ++ [n]) (edges_upserted b) (deleted_node_ids b)
              (deleted_edge_ids b)
          | JEdge e => mkBatch (nodes_upserted b) (edges_upserted b ++ [e]) (deleted_node_ids b)
              (deleted_edge_ids b)
          end).

(** The text of the file is read whole, and is UTF-8. *)
Definition import_jsonl (p : Path) : engine_m unit :=
  bs ← on_world (io_err (quoted "failed to open import file" p) (fs_read p));
  batch ← io_res (result_foldl import_line batch_default (lines_of (string_of_bytes bs)));
  if batch_is_empty batch then mret tt
  else apply_write_batch batch ;; mret tt.

End backup.

(** ** Exported lines read back *)

Section roundtrip.
Context `{WalCodec, StorageCodec}.

(** What [serde_json] does with a record: one line, which parses back to it. *)
Definition line_ok (r : JsonlRecord) (line : string) : Prop :=
  json_line_record r = Ok line ∧ json_parse_record line = Ok r ∧ str_all not_newline line = true ∧
  strip_cr line = line ∧ is_blank line = false.

Lemma export_line_ok p r line w old : faults w = [] → files w !! p = Some old → line_ok r line →
  export_line p r w = (Ok tt, set_files (<[p := old ++ bytes_of_string line ++ newline]> (files w)) w).
Proof.
  intros Hf Hp (Henc & _). unfold export_line, mbind, sm_bind.
  rewrite Henc. cbn [encode_err map_err io_res sm_lift]. unfold io_err, io_try, io_res, sm_lift.
  cbn [map_err]. by rewrite (fs_append_ok p _ w old).
Qed.

(** The lines are appended one after the other. *)
Lemma export_lines p line rs : ∀ w old, faults w = [] → files w !! p = Some old →
  (∀ r, r ∈ rs → line_ok r (line r)) →
  sm_for rs (export_line p) w =
    (Ok tt, set_files (<[p := old ++ bytes_of_string (text_of (line <$> rs))]> (files w)) w).
Proof.
  induction rs as [|r rs IH]; intros w old Hf Hp Hok; cbn [sm_for].
  - simpl. rewrite app_nil_r, insert_id by done. by destruct w.
  - unfold mbind, sm_bind. rewrite (export_line_ok p r (line r) w old) by (done || apply Hok; left).
    rewrite (IH _ (old ++ bytes_of_string (line r) ++ newline)).
    + unfold set_files. cbn [files dirs faults wal_failpoint storage_failpoint].
      rewrite insert_insert_eq, <-!app_assoc. csimpl. by rewrite !bytes_of_string_app.
    + done.
    + cbn [set_files files]. by rewrite lookup_insert_eq.
    + intros r' Hr'. apply Hok. by right.
Qed.

Lemma export_jsonl_ok e name dir line w : faults w = [] →
  existsb (is_file w) (ancestors dir) = false → is_dir w (name :: dir) = false →
  (∀ r, r ∈ jsonl_records (e_maps e) → line_ok r (line r)) →
  ∃ w', export_jsonl e (name :: dir) w = (Ok tt, w') ∧ faults w' = [] ∧
    files w' !! (name :: dir) = Some (bytes_of_string (text_of (line <$> jsonl_records (e_maps e)))).
Proof.
  intros Hf Hfree Hdir Hok. eexists. unfold export_jsonl, mbind, sm_bind, io_err, io_try.
  unfold fs_create_dir_all. rewrite fs_call_ok by done. unfold sm_get, mbind, sm_bind, sm_modify.
  rewrite Hfree. cbn [map_err].
  set (w1 := set_dirs _ w).
  assert (Hp : is_dir w1 (name :: dir) = false).
  { unfold is_dir in *. apply bool_decide_eq_false in Hdir. apply bool_decide_eq_false.
    unfold w1, set_dirs. cbn [dirs]. intros [|[Hin|]%elem_of_union]; [done| |naive_solver].
    apply elem_of_list_to_set, ancestors_length_le in Hin. simpl in Hin. lia. }
  assert (Hd : is_dir w1 dir = true).
  { unfold is_dir, w1, set_dirs. cbn [dirs]. apply bool_decide_eq_true.
    destruct dir; [by left|right]. apply elem_of_union_l, elem_of_list_to_set. left. }
  unfold fs_write, mbind, sm_bind, sm_get, sm_modify. rewrite next_fault_ok by done.
  rewrite Hp, Hd. cbn [negb map_err]. split.
  - apply export_lines with (old := []); [done| |done]. cbn [set_files files]. by rewrite lookup_insert_eq.
  - split; [done|]. cbn [set_files files]. by rewrite lookup_insert_eq.
Qed.

(** Reading the lines back collects the records in order. *)
Definition add_record (b : WriteBatch) (r : JsonlRecord) : WriteBatch :=
  match r with
  | JNode n => mkBatch (nodes_upserted b ++ [n]) (edges_upserted b) (deleted_node_ids b)
      (deleted_edge_ids b)
  | JEdge e => mkBatch (nodes_upserted b) (edges_upserted b ++ [e]) (deleted_node_ids b)
      (deleted_edge_ids b)
  end.

Lemma import_lines line rs : ∀ b, (∀ r, r ∈ rs → line_ok r (line r)) →
  result_foldl import_line b (line <$> rs) = Ok (foldl add_record b rs).
Proof.
  induction rs as [|r rs IH]; intros b Hok; [done|]. csimpl.
  assert (import_line b (line r) = Ok (add_record b r)) as ->.
  { destruct (Hok r) as (_ & Hparse & _ & _ & Hblank); [left|]. unfold import_line.
    rewrite Hblank, Hparse. by destruct r. }
  apply IH. intros r' Hr'. apply Hok. by right.
Qed.

Lemma add_nodes l : ∀ b, foldl add_record b (JNode <$> l) =
  mkBatch (nodes_upserted b ++ l) (edges_upserted b) (deleted_node_ids b) (deleted_edge_ids b).
Proof.
  induction l as [|n l IH]; intros b; csimpl; [rewrite app_nil_r; by destruct b|].
  rewrite IH. simpl. by rewrite <-app_assoc.
Qed.
Lemma add_edges l : ∀ b, foldl add_record b (JEdge <$> l) =
  mkBatch (nodes_upserted b) (edges_upserted b ++ l) (deleted_node_ids b) (deleted_edge_ids b).
Proof.
  induction l as [|n l IH]; intros b; csimpl; [rewrite app_nil_r; by destruct b|].
  rewrite IH. simpl. by rewrite <-app_assoc.
Qed.

(** The batch of a whole graph, and what it does to an empty one. *)
Definition graph_batch (m : Maps) : WriteBatch := mkBatch (btree_values m.1) (btree_values m.2) [] [].

Lemma graph_batch_empty m : maps_wf m → apply_batch_to_maps (graph_batch m) (∅, ∅) = Ok m.
Proof.
  intros Hwf. unfold apply_batch_to_maps.
  replace (validate_batch_against_maps (∅, ∅).1 (graph_batch m)) with (Ok tt : Res unit).
  - simpl. f_equal. unfold apply_batch_to_maps_unchecked, graph_batch. simpl.
    rewrite (insert_all_values node_id), (insert_all_values edge_id) by apply Hwf.
    by destruct m.
  - symmetry. apply validate_batch_Ok. simpl. apply list.Forall_forall.
    intros e [id Hid]%elem_of_btree_values. unfold endpoint_known. split; right; simpl.
    + destruct (mw_source _ Hwf _ _ Hid) as [n Hn]. apply list_elem_of_fmap. exists n.
      rewrite (mw_node_key _ Hwf _ _ Hn). split; [done|]. apply elem_of_btree_values. eauto.
    + destruct (mw_target _ Hwf _ _ Hid) as [n Hn]. apply list_elem_of_fmap. exists n.
      rewrite (mw_node_key _ Hwf _ _ Hn). split; [done|]. apply elem_of_btree_values. eauto.
Qed.

(** C32: Export and import are inverse: on a working disk [export_jsonl] succeeds, and
    [import_jsonl] of the file writes exactly one batch, which is accepted by an empty
    graph and rebuilds the exported one (nothing is written for an empty graph). *)
Theorem export_import_roundtrip e name dir line w : maps_wf (e_maps e) → faults w = [] →
  existsb (is_file w) (ancestors dir) = false → is_dir w (name :: dir) = false →
  (∀ r, r ∈ jsonl_records (e_maps e) → line_ok r (line r)) →
  ∃ w' b, export_jsonl e (name :: dir) w = (Ok tt, w') ∧
    apply_batch_to_maps b (∅, ∅) = Ok (e_maps e) ∧
    ∀ e0, import_jsonl (name :: dir) (w', e0) =
      if batch_is_empty b then (Ok tt, (w', e0)) else (apply_write_batch b ;; mret tt) (w', e0).
Proof.
  intros Hwf Hf Hfree Hdir Hok.
  destruct (export_jsonl_ok e name dir line w) as (w' & Hrun & Hf' & Hfile); [done..|].
  exists w', (graph_batch (e_maps e)). split; [done|]. split; [by apply graph_batch_empty|].
  intros e0. unfold import_jsonl at 1. unfold mbind at 1, sm_bind at 1.
  unfold on_world, io_err, io_try. rewrite (fs_read_ok _ _ _ Hf' Hfile). cbn [map_err].
  rewrite string_of_bytes_of_string, lines_of_text.
  2:{ apply list.Forall_forall. intros l (r & -> & Hr)%list_elem_of_fmap. apply Hok in Hr as (_ & _ & ? & ? & _). done. }
  unfold mbind at 1, sm_bind at 1, io_res, sm_lift. rewrite import_lines by done. cbn [map_err].
  unfold jsonl_records. rewrite foldl_app, add_nodes, add_edges.
  unfold mbind at 1, sm_bind at 1. cbn. unfold graph_batch. by destruct (batch_is_empty _).
Qed.
End roundtrip.

Module Demo.
Import Wal.Demo Batch.Demo Store.Demo.

Definition disk : World := mkWorld ∅ ∅ [] None None.
Definition line (r : JsonlRecord) : string := match line_of r with Ok l => l | Err _ => "" end.

Definition readable (r : JsonlRecord) : bool :=
  str_all not_newline (line r) && bool_decide (strip_cr (line r) = line r) && negb (is_blank (line r)).

Lemma lines_ok l : forallb readable l = true → ∀ r, r ∈ l → line_ok r (line r).
Proof.
  rewrite forallb_forall. intros Hall r Hr%list_elem_of_In. specialize (Hall r Hr). unfold readable in Hall.
  rewrite !andb_true_iff, bool_decide_eq_true, negb_true_iff in Hall. destruct Hall as [[Hn Hs] Hb].
  split; [done|]. split; [|done]. cbn [json_parse_record codec]. unfold of_line, line, line_of.
  rewrite String.list_ascii_of_string_of_list_ascii, <-list_fmap_compose.
  rewrite (list_fmap_ext _ id _ (λ i x _, Ascii.byte_of_ascii_of_byte x)), list_fmap_id. by apply of_to_bytes.
Qed.
End Demo.

Lemma export_import_roundtrip_witness :
  ∃ w' b, export_jsonl Engine.Demo.engine ["g.jsonl"; "out"] Demo.disk = (Ok tt, w') ∧
    apply_batch_to_maps b (∅, ∅) = Ok (e_maps Engine.Demo.engine).
Proof.
  assert (Hmaps : e_maps Engine.Demo.engine = Batch.Demo.maps) by (by vm_compute).
  destruct (export_import_roundtrip Engine.Demo.engine "g.jsonl" ["out"] Demo.line Demo.disk)
    as (w' & b & Hrun & Hb & _).
  - rewrite Hmaps. apply Batch.Demo.maps_are_wf.
  - done.
  - done.
  - done.
  - apply Demo.lines_ok. by vm_compute.
  - by exists w', b.
Defined.
