(* ===== verification/Index.v ===== *)
(** * [crates/index]: the graph indexes

    The ordered indexes over a graph (ids, unique keys, adjacency, types, time) and
    the vector index with its exact and HNSW backends.  The HNSW graphs are the crate
    [hnsw_stable], a parameter; they are shared by reference ([Arc]) between the
    clones of an index and changed in place, so they live in a store [Runtimes] and an
    index holds a position in it. *)
From S2P Require Import Prelude RustStd RustFloat Common Core Config Fs Batch Store.

#[local] Open Scope string_scope.
#[local] Open Scope list_scope.

Inductive IndexName := IxNodeId | IxUniqueKey | IxAdjacency | IxReverseAdjacency | IxLabelType
  | IxTemporal | IxVector.
Record IndexDescriptor := mkDescriptor { id_name : IndexName; persisted : bool; rebuildable : bool }.
Abbreviation IndexCatalog := (list IndexDescriptor).

Definition v1_defaults : IndexCatalog :=
  [mkDescriptor IxNodeId true true; mkDescriptor IxUniqueKey true true;
   mkDescriptor IxAdjacency true true; mkDescriptor IxReverseAdjacency true true;
   mkDescriptor IxLabelType true true; mkDescriptor IxTemporal false true;
   mkDescriptor IxVector false true].

Inductive EdgeDirection := Outgoing | Incoming | Both.

(** The crate [hnsw_stable]: graphs, vector stores, and their operations.  An insertion
    or update says whether it succeeded; both change the shared structures. *)
Class HnswLib := {
  hnsw_graph : Type;
  hnsw_vectors : Type;
  hnsw_new : N → N → N → N → N → hnsw_graph;
  vectors_new : N → N → hnsw_vectors;
  hnsw_insert : hnsw_graph * hnsw_vectors → NodeId → list f32 → bool * (hnsw_graph * hnsw_vectors);
  hnsw_set : hnsw_graph * hnsw_vectors → NodeId → list f32 → bool * (hnsw_graph * hnsw_vectors);
  hnsw_delete : hnsw_graph → NodeId → hnsw_graph;
  hnsw_search : hnsw_graph * hnsw_vectors → list f32 → N → option (NodeId → bool) →
    option (list NodeId);
  hnsw_len : hnsw_graph → nat;
  hnsw_save : hnsw_graph → Result string bytes;
  hnsw_load : bytes → Result string hnsw_graph;
  vectors_save : hnsw_vectors → nat → Result string bytes;
  vectors_load : bytes → Result string hnsw_vectors;
}.

Record ExactVectorIndex := mkExact { candidate_ids_by_name : gmap string (list NodeId) }.

(** [runtime] is the position of the shared graph. *)
Record HnswVectorSpace := mkSpace {
  sp_candidate_ids : list NodeId;
  sp_dimension : option nat;
  sp_runtime : option nat;
}.

Record HnswVectorIndex := mkHnsw {
  spaces : gmap string HnswVectorSpace;
  max_nodes : N;
  hx_semantic_top_k : N;
  hx_exact_fallback_threshold : N;
  hx_m : N;
  hx_ef_construction : N;
  hx_ef_search : N;
}.

Inductive VectorIndexState :=
| Exact (index : ExactVectorIndex)
| Hnsw (index : HnswVectorIndex).

Record GraphIndex := mkIndex {
  node_ids : gset NodeId;
  unique_key_index : gmap string NodeId;
  adjacency_index : gmap NodeId (list EdgeId);
  reverse_adjacency_index : gmap NodeId (list EdgeId);
  label_type_index : gmap string (list NodeId);
  temporal_index : gmap Z (list NodeId);
  ix_vector_index : VectorIndexState;
}.

Definition GraphIndex_default : GraphIndex := mkIndex ∅ ∅ ∅ ∅ ∅ ∅ (Exact (mkExact ∅)).

Record IndexSnapshot := mkIndexSnapshot {
  is_format_version : N;
  is_node_count : nat;
  is_unique_key_count : nat;
  is_adjacency_key_count : nat;
  is_reverse_adjacency_key_count : nat;
  is_label_bucket_count : nat;
  is_temporal_bucket_count : nat;
  is_vector_space_count : nat;
  is_vector_candidate_count : nat;
  is_vector_backend : string;
  is_vector_runtime_ready : bool;
  is_vector_dimensions : gmap string nat;
}.

Record VectorIndexLoadConfig := mkLoadConfig {
  lc_manifest_path : Path;
  lc_graph_path : Path;
  lc_vectors_path : Path;
  lc_expected_last_applied_lsn : option N;
}.

Record PersistedVectorSpaceManifest := mkSpaceManifest {
  vector_name : string;
  vector_candidate_count : nat;
  vs_dimension : nat;
}.
Record PersistedVectorIndexManifest := mkVectorManifest {
  vm_format_version : N;
  vm_backend : string;
  vm_last_applied_lsn : option N;
  vm_max_nodes : N;
  vm_semantic_top_k : N;
  vm_exact_fallback_threshold : N;
  vm_hnsw_m : N;
  vm_hnsw_ef_construction : N;
  vm_hnsw_ef_search : N;
  vector_spaces : list PersistedVectorSpaceManifest;
}.

(** serde_json on the files of this crate. *)
Class IndexCodec := {
  json_encode_vector_manifest : PersistedVectorIndexManifest → Result string bytes;
  json_decode_vector_manifest : bytes → Result string PersistedVectorIndexManifest;
}.

(** ** Buckets *)

Definition push_unique {T} `{EqDecision T} (values : list T) (value : T) : list T :=
  if decide (value ∈ values) then values else values ++ [value].

(** [values.retain(|existing| existing != value)]. *)
Definition remove_value {T} `{EqDecision T} (value : T) (values : list T) : list T :=
  filter (λ existing, existing ≠ value) values.

Section buckets.
Context {K V : Type} `{Countable K, EqDecision V}.

(** [push_unique(index.entry(key).or_default(), value)]. *)
Definition push_bucket (key : K) (value : V) (index : gmap K (list V)) : gmap K (list V) :=
  <[key := push_unique (default [] (index !! key)) value]> index.

Definition remove_from_bucket (key : K) (value : V) (index : gmap K (list V)) : gmap K (list V) :=
  match index !! key with
  | Some values =>
    let values := remove_value value values in
    if is_nil values then delete key index else <[key := values]> index
  | None => index
  end.
End buckets.

(** ** Vector spaces *)

(** [map.retain(|_, ids| !ids.is_empty())]. *)
Definition retain_nonempty {V} (ids : V → list NodeId) (m : gmap string V) : gmap string V :=
  filter (λ '(_, v), is_nil (ids v) = false) m.

Definition exact_upsert_node (n : NodeRecord) (ix : ExactVectorIndex) : ExactVectorIndex :=
  let kept := map_imap (λ name ids, Some (
      if decide (is_Some (vector n name)) then push_unique ids (node_id n)
      else remove_value (node_id n) ids)) (candidate_ids_by_name ix) in
  mkExact (foldl (λ m name, push_bucket name (node_id n) m) (retain_nonempty id kept)
    (btree_keys (node_vectors n))).

Definition exact_delete_node (n : NodeRecord) (ix : ExactVectorIndex) : ExactVectorIndex :=
  mkExact (retain_nonempty id (remove_value (node_id n) <$> candidate_ids_by_name ix)).

Section index.
Context `{HnswLib, IndexCodec}.

Definition Runtime : Type := hnsw_graph * hnsw_vectors.
Abbreviation Runtimes := (list Runtime).

(** A value with the store of the shared graphs. *)
Abbreviation shared A := (A * Runtimes)%type.

(** [let _ = runtime.graph.delete(&node.id)]. *)
Definition runtime_delete (id : NodeId) (runtime : option nat) (h : Runtimes) : Runtimes :=
  match runtime with
  | Some r => match h !! r with Some (g, v) => <[r := (hnsw_delete g id, v)]> h | None => h end
  | None => h
  end.

Definition space_delete_node (n : NodeRecord) '((sp, h) : shared HnswVectorSpace)
    : shared HnswVectorSpace :=
  (mkSpace (remove_value (node_id n) (sp_candidate_ids sp)) (sp_dimension sp) (sp_runtime sp),
   runtime_delete (node_id n) (sp_runtime sp) h).

(** [graph.set] on the shared graph; a failure drops this index's reference. *)
Definition runtime_set (id : NodeId) (v : list f32) (runtime : option nat) (h : Runtimes)
    : shared (option nat) :=
  match runtime with
  | Some r =>
    match h !! r with
    | Some g => let '(ok, g') := hnsw_set g id v in (if ok then Some r else None, <[r := g']> h)
    | None => (Some r, h)
    end
  | None => (None, h)
  end.

Definition space_upsert_node (name : string) (n : NodeRecord) '((sp, h) : shared HnswVectorSpace)
    : shared HnswVectorSpace :=
  match vector n name, sp_dimension sp with
  | Some v, Some dimension =>
    if (length v =? dimension)%nat then
      let '(runtime, h) := runtime_set (node_id n) v (sp_runtime sp) h in
      (mkSpace (push_unique (sp_candidate_ids sp) (node_id n)) (Some dimension) runtime, h)
    else
      (mkSpace (remove_value (node_id n) (sp_candidate_ids sp)) (Some dimension) None,
       runtime_delete (node_id n) (sp_runtime sp) h)
  | Some v, None =>
    (mkSpace (push_unique (sp_candidate_ids sp) (node_id n)) (Some (length v)) None, h)
  | None, _ => space_delete_node n (sp, h)
  end.

Definition space_new (dimension : option nat) : HnswVectorSpace := mkSpace [] dimension None.

(** A loop over the values of the map, in key order. *)
Definition put_space (f : string → shared HnswVectorSpace → shared HnswVectorSpace)
    (st : shared (gmap string HnswVectorSpace)) (entry : string * HnswVectorSpace)
    : shared (gmap string HnswVectorSpace) :=
  let '(sp, h) := f entry.1 (entry.2, st.2) in (<[entry.1 := sp]> st.1, h).
Definition each_space (f : string → shared HnswVectorSpace → shared HnswVectorSpace)
    (st : shared (gmap string HnswVectorSpace)) : shared (gmap string HnswVectorSpace) :=
  foldl (put_space f) st (btree_entries st.1).

Definition set_spaces (m : gmap string HnswVectorSpace) (ix : HnswVectorIndex) : HnswVectorIndex :=
  mkHnsw m (max_nodes ix) (hx_semantic_top_k ix) (hx_exact_fallback_threshold ix) (hx_m ix)
    (hx_ef_construction ix) (hx_ef_search ix).

(** [spaces.entry(name).or_insert_with(..).upsert_node(name, node)]. *)
Definition upsert_space (n : NodeRecord) (st : shared (gmap string HnswVectorSpace)) (name : string)
    : shared (gmap string HnswVectorSpace) :=
  let sp := default (space_new (length <$> vector n name)) (st.1 !! name) in
  let '(sp, h) := space_upsert_node name n (sp, st.2) in (<[name := sp]> st.1, h).

Definition hnsw_upsert_node (n : NodeRecord) '((ix, h) : shared HnswVectorIndex)
    : shared HnswVectorIndex :=
  let st := each_space (λ name, space_upsert_node name n) (spaces ix, h) in
  let '(m, h) := foldl (upsert_space n) st (btree_keys (node_vectors n)) in
  (set_spaces (retain_nonempty sp_candidate_ids m) ix, h).

Definition hnsw_delete_node (n : NodeRecord) '((ix, h) : shared HnswVectorIndex)
    : shared HnswVectorIndex :=
  let '(m, h) := each_space (λ _, space_delete_node n) (spaces ix, h) in
  (set_spaces (retain_nonempty sp_candidate_ids m) ix, h).

Definition shared_dimension (vectors : list (list f32)) : option nat :=
  match vectors with
  | [] => None
  | v :: vs => if forallb (λ w, (length w =? length v)%nat) vs then Some (length v) else None
  end.

(** The ids and the vectors of every name, in node order. *)
Abbreviation collected := (gmap string (list NodeId) * gmap string (list (list f32)))%type.
Definition collect_vector (id : NodeId) (acc : collected) (entry : string * list f32) : collected :=
  let '(name, v) := entry in
  (push_bucket name id acc.1, <[name := default [] (acc.2 !! name) ++ [v]]> acc.2).
Definition collect_vectors (acc : collected) (n : NodeRecord) : collected :=
  foldl (collect_vector (node_id n)) acc (btree_entries (node_vectors n)).

Definition hnsw_spaces_from_nodes (nodes : list NodeRecord) : gmap string HnswVectorSpace :=
  let '(ids, vectors) := foldl collect_vectors (∅, ∅) nodes in
  map_imap (λ name ids, Some (mkSpace ids (shared_dimension (default [] (vectors !! name))) None)) ids.

Definition hnsw_build (nodes : list NodeRecord) (config : VectorIndexConfig) : HnswVectorIndex :=
  mkHnsw (hnsw_spaces_from_nodes nodes)
    (N.max (N.min (N.of_nat (length nodes) + 1024) u64_max) 1)
    (semantic_top_k config) (exact_fallback_threshold config) (hnsw_m config)
    (hnsw_ef_construction config) (hnsw_ef_search config).

(** [graph.insert(..).ok()?] for each node. *)
Fixpoint insert_nodes (name : string) (nodes : list NodeRecord) (g : Runtime) : option Runtime :=
  match nodes with
  | [] => Some g
  | n :: nodes =>
    match vector n name with
    | Some v => let '(ok, g) := hnsw_insert g (node_id n) v in
      if ok then insert_nodes name nodes g else None
    | None => insert_nodes name nodes g
    end
  end.

Definition build_runtime (ix : HnswVectorIndex) (name : string) (nodes : list NodeRecord)
    (sp : HnswVectorSpace) : option Runtime :=
  dimension ← sp_dimension sp;
  if (dimension =? 0)%nat
    || (N.of_nat (length (sp_candidate_ids sp)) <=? hx_exact_fallback_threshold ix)%N then None
  else if existsb (λ v : list f32, negb (length v =? dimension)%nat) (omap (λ n, vector n name) nodes) then None
  else
    let d := N.of_nat dimension in
    insert_nodes name nodes
      (hnsw_new d (max_nodes ix) (hx_m ix) (hx_ef_construction ix) (hx_ef_search ix),
       vectors_new d (max_nodes ix)).

(** [space.runtime = space.build_runtime(..)] where there is none yet. *)
Definition initialize_space (ix : HnswVectorIndex) (nodes : list NodeRecord) (name : string)
    '((sp, h) : shared HnswVectorSpace) : shared HnswVectorSpace :=
  match sp_runtime sp with
  | Some _ => (sp, h)
  | None =>
    match build_runtime ix name nodes sp with
    | Some g => (mkSpace (sp_candidate_ids sp) (sp_dimension sp) (Some (length h)), h ++ [g])
    | None => (sp, h)
    end
  end.

Definition from_config (config : VectorIndexConfig) (nodes : list NodeRecord) : VectorIndexState :=
  match backend config with
  | BackendExact => Exact (mkExact ∅)
  | BackendHnsw => Hnsw (hnsw_build nodes config)
  end.

Definition vector_upsert_node (n : NodeRecord) '((ix, h) : shared VectorIndexState)
    : shared VectorIndexState :=
  match ix with
  | Exact ix => (Exact (exact_upsert_node n ix), h)
  | Hnsw ix => let '(ix, h) := hnsw_upsert_node n (ix, h) in (Hnsw ix, h)
  end.

Definition vector_delete_node (n : NodeRecord) '((ix, h) : shared VectorIndexState)
    : shared VectorIndexState :=
  match ix with
  | Exact ix => (Exact (exact_delete_node n ix), h)
  | Hnsw ix => let '(ix, h) := hnsw_delete_node n (ix, h) in (Hnsw ix, h)
  end.

Definition initialize_runtime_from_nodes (nodes : list NodeRecord) '((ix, h) : shared VectorIndexState)
    : shared VectorIndexState :=
  match ix with
  | Exact ix => (Exact ix, h)
  | Hnsw ix =>
    let '(m, h) := each_space (initialize_space ix nodes) (spaces ix, h) in
    (Hnsw (set_spaces m ix), h)
  end.

Definition candidate_ids (ix : VectorIndexState) (name : string) : list NodeId :=
  match ix with
  | Exact ix => default [] (candidate_ids_by_name ix !! name)
  | Hnsw ix => default [] (sp_candidate_ids <$> spaces ix !! name)
  end.

Definition sum_lengths {V} (ids : V → list NodeId) (m : gmap string V) : nat :=
  foldr (λ v total, length (ids v) + total)%nat 0%nat (btree_values m).

Definition vector_len (ix : VectorIndexState) : nat :=
  match ix with
  | Exact ix => sum_lengths id (candidate_ids_by_name ix)
  | Hnsw ix => sum_lengths sp_candidate_ids (spaces ix)
  end.

Definition space_count (ix : VectorIndexState) : nat :=
  match ix with
  | Exact ix => size (candidate_ids_by_name ix)
  | Hnsw ix => size (spaces ix)
  end.

Definition backend_name (ix : VectorIndexState) : string :=
  match ix with Exact _ => "exact" | Hnsw _ => "hnsw" end.

Definition runtime_ready (ix : VectorIndexState) : bool :=
  match ix with
  | Exact _ => true
  | Hnsw ix => forallb (λ sp, bool_decide (is_Some (sp_runtime sp))
      || (N.of_nat (length (sp_candidate_ids sp)) <=? hx_exact_fallback_threshold ix)%N)
      (btree_values (spaces ix))
  end.

Definition dimensions (ix : VectorIndexState) : gmap string nat :=
  match ix with
  | Exact _ => ∅
  | Hnsw ix => omap sp_dimension (spaces ix)
  end.

(** The approximate search; [None] sends the caller to the exact candidates. *)
Definition vector_semantic_candidate_ids (h : Runtimes) (ix : VectorIndexState) (query_vector : list f32)
    (name : string) (limit : N) (top_k_override : option N) (allowed_ids : option (gset NodeId))
    : option (list NodeId) :=
  match ix with
  | Exact _ => None
  | Hnsw ix =>
    sp ← spaces ix !! name;
    r ← sp_runtime sp;
    dimension ← sp_dimension sp;
    if (limit =? 0)%N
      || (N.of_nat (length (sp_candidate_ids sp)) <=? hx_exact_fallback_threshold ix)%N
      || negb (length query_vector =? dimension)%nat then None
    else
      let candidate_limit := N.min (N.max limit (default (hx_semantic_top_k ix) top_k_override))
        (N.of_nat (length (sp_candidate_ids sp))) in
      g ← h !! r;
      hnsw_search g query_vector candidate_limit
        ((λ ids id, bool_decide (id ∈ ids)) <$> allowed_ids)
  end.

(** ** The graph index *)

Definition set_vector (v : VectorIndexState) (ix : GraphIndex) : GraphIndex :=
  mkIndex (node_ids ix) (unique_key_index ix) (adjacency_index ix) (reverse_adjacency_index ix)
    (label_type_index ix) (temporal_index ix) v.

(** The value of a [unique_key] property that is a string. *)
Definition node_unique_key (n : NodeRecord) : option string :=
  match node_properties n !! "unique_key" with Some (PString key) => Some key | _ => None end.

Definition upsert_node (n : NodeRecord) '((ix, h) : shared GraphIndex) : shared GraphIndex :=
  let '(vectors, h) := vector_upsert_node n (ix_vector_index ix, h) in
  (mkIndex ({[node_id n]} ∪ node_ids ix)
    (match node_unique_key n with
     | Some key => <[key := node_id n]> (unique_key_index ix)
     | None => unique_key_index ix
     end)
    (adjacency_index ix) (reverse_adjacency_index ix)
    (push_bucket (node_type n) (node_id n) (label_type_index ix))
    (match timestamp_ms n with
     | Some ts => push_bucket ts (node_id n) (temporal_index ix)
     | None => temporal_index ix
     end) vectors, h).

Definition delete_node (n : NodeRecord) '((ix, h) : shared GraphIndex) : shared GraphIndex :=
  let '(vectors, h) := vector_delete_node n (ix_vector_index ix, h) in
  (mkIndex (node_ids ix ∖ {[node_id n]})
    (match node_unique_key n with
     | Some key =>
       if decide (unique_key_index ix !! key = Some (node_id n)) then delete key (unique_key_index ix)
       else unique_key_index ix
     | None => unique_key_index ix
     end)
    (adjacency_index ix) (reverse_adjacency_index ix)
    (remove_from_bucket (node_type n) (node_id n) (label_type_index ix))
    (match timestamp_ms n with
     | Some ts => remove_from_bucket ts (node_id n) (temporal_index ix)
     | None => temporal_index ix
     end) vectors, h).

Definition upsert_edge (e : EdgeRecord) (ix : GraphIndex) : GraphIndex :=
  mkIndex (node_ids ix) (unique_key_index ix)
    (push_bucket (edge_source e) (edge_id e) (adjacency_index ix))
    (push_bucket (edge_target e) (edge_id e) (reverse_adjacency_index ix))
    (label_type_index ix) (temporal_index ix) (ix_vector_index ix).

Definition delete_edge (e : EdgeRecord) (ix : GraphIndex) : GraphIndex :=
  mkIndex (node_ids ix) (unique_key_index ix)
    (remove_from_bucket (edge_source e) (edge_id e) (adjacency_index ix))
    (remove_from_bucket (edge_target e) (edge_id e) (reverse_adjacency_index ix))
    (label_type_index ix) (temporal_index ix) (ix_vector_index ix).

Definition contains_node (ix : GraphIndex) (id : NodeId) : bool := bool_decide (id ∈ node_ids ix).
Definition lookup_unique_key (ix : GraphIndex) (key : string) : option NodeId :=
  unique_key_index ix !! key.
Definition node_ids_by_type (ix : GraphIndex) (ty : string) : list NodeId :=
  default [] (label_type_index ix !! ty).

(** [EdgeRecordLookup::get_edge] is [edges]. *)
Definition edge_type_is (edges : EdgeId → option EdgeRecord) (edge_type' : option string) (id : EdgeId)
    : bool :=
  match edge_type' with
  | Some value =>
    match edges id with Some e => bool_decide (edge_type e = value) | None => false end
  | None => true
  end.

Definition edge_ids_for (ix : GraphIndex) (id : NodeId) (direction : EdgeDirection)
    (edges : EdgeId → option EdgeRecord) (edge_type' : option string) : list EdgeId :=
  let outgoing := match direction with
    | Outgoing | Both => default [] (adjacency_index ix !! id) | Incoming => [] end in
  let incoming := match direction with
    | Incoming | Both => default [] (reverse_adjacency_index ix !! id) | Outgoing => [] end in
  filter (λ id, edge_type_is edges edge_type' id = true) (outgoing ++ incoming).

(** [BTreeMap::range(from..=to)] panics when the range is inverted. *)
Definition node_ids_in_time_range (ix : GraphIndex) (from_epoch_ms to_epoch_ms : Z)
    : Result Failure (list NodeId) :=
  if (to_epoch_ms <? from_epoch_ms)%Z then
    Err (Panic "range start is greater than range end in BTreeMap")
  else
    Ok (mjoin (filter (λ '(ts, _), (from_epoch_ms <= ts <= to_epoch_ms)%Z)
      (btree_entries (temporal_index ix))).*2).

Definition vector_candidate_ids (ix : GraphIndex) (name : string) : list NodeId :=
  candidate_ids (ix_vector_index ix) name.

Definition exact_semantic_candidate_ids (ix : GraphIndex) (name : string)
    (allowed_ids : option (gset NodeId)) : list NodeId :=
  filter (λ id, from_option (λ ids, bool_decide (id ∈ ids)) true allowed_ids = true)
    (vector_candidate_ids ix name).

(** A type no node has restricts nothing: its bucket is absent. *)
Definition semantic_candidate_ids (h : Runtimes) (ix : GraphIndex) (query_vector : list f32)
    (name : string) (node_type' : option string) (limit : N) (top_k_override : option N) : list NodeId :=
  if (limit =? 0)%N then []
  else
    let allowed_ids := ty ← node_type'; list_to_set <$> (label_type_index ix !! ty) in
    default (exact_semantic_candidate_ids ix name allowed_ids)
      (vector_semantic_candidate_ids h (ix_vector_index ix) query_vector name limit top_k_override
        allowed_ids).

Definition index_snapshot (ix : GraphIndex) : IndexSnapshot :=
  mkIndexSnapshot 1 (size (node_ids ix)) (size (unique_key_index ix)) (size (adjacency_index ix))
    (size (reverse_adjacency_index ix)) (size (label_type_index ix)) (size (temporal_index ix))
    (space_count (ix_vector_index ix)) (vector_len (ix_vector_index ix))
    (backend_name (ix_vector_index ix)) (runtime_ready (ix_vector_index ix))
    (dimensions (ix_vector_index ix)).

(** The loops of [rebuild_internal]. *)
Definition index_records (nodes : list NodeRecord) (edges : list EdgeRecord) (config : VectorIndexConfig)
    (h : Runtimes) : shared GraphIndex :=
  let '(ix, h) := foldl (λ st n, upsert_node n st)
    (set_vector (from_config config nodes) GraphIndex_default, h) nodes in
  (foldl (λ ix e, upsert_edge e ix) ix edges, h).

Definition initialize_index (nodes : list NodeRecord) '((ix, h) : shared GraphIndex) : shared GraphIndex :=
  let '(v, h) := initialize_runtime_from_nodes nodes (ix_vector_index ix, h) in (set_vector v ix, h).

Definition rebuild_with_config (nodes : list NodeRecord) (edges : list EdgeRecord)
    (config : VectorIndexConfig) (h : Runtimes) : shared GraphIndex :=
  initialize_index nodes (index_records nodes edges config h).
Definition rebuild (nodes : list NodeRecord) (edges : list EdgeRecord) (h : Runtimes)
    : shared GraphIndex :=
  rebuild_with_config nodes edges VectorIndexConfig_default h.

(** ** Files of the vector index *)

Definition strip_suffix (suffix s : string) : option string :=
  if ends_with s suffix then Some (String.substring 0 (String.length s - String.length suffix) s)
  else None.

(** [file_name.strip_suffix(suffix).unwrap_or(file_name)]. *)
Definition sidecar_prefix (suffix file_name : string) : string :=
  default file_name (strip_suffix suffix file_name).

Definition sanitize_char (c : ascii) : ascii :=
  if is_ascii_alphanumeric c || bool_decide (c = "-"%char) || bool_decide (c = "_"%char) then c
  else "_"%char.

(** Whether a byte starts a UTF-8 character; the others are part of the one before,
    and a character becomes one ["_"]. *)
Definition starts_char (c : ascii) : bool :=
  let b := N_of_ascii c in (b <? 128)%N || (192 <=? b)%N.

Fixpoint sanitize_chars (s : string) : string :=
  match s with
  | EmptyString => ""
  | String c r => if starts_char c then String (sanitize_char c) (sanitize_chars r) else sanitize_chars r
  end.
Definition sanitize_vector_name (name : string) : string :=
  let sanitized := sanitize_chars name in
  if decide (sanitized = "") then "default" else sanitized.

Definition vector_space_sidecar_path (base : Path) (name suffix : string) : Path :=
  let file_name := default "" (head base) in
  (sidecar_prefix suffix file_name +:+ "." +:+ sanitize_vector_name name +:+ suffix) :: tail base.

(** [match fs::remove_file(path)], where a missing file is fine. *)
Definition remove_if_present (p : Path) : io unit := λ w,
  match fs_remove_file p w with
  | (Ok _, w') => (Ok tt, w')
  | (Err msg, w') =>
    if decide (msg = not_found) then (Ok tt, w')
    else (Err (Error (Io (quoted "failed to remove vector index sidecar" p +:+ ": " +:+ msg))), w')
  end.

Definition cleanup_matching_sidecars (base : Path) (suffix : string) : io unit := λ w,
  match base with
  | [] => (Ok tt, w)
  | file_name :: parent =>
    let prefix := sidecar_prefix suffix file_name in
    match fs_read_dir parent w with
    | (Err msg, w') =>
      if decide (msg = not_found) then (Ok tt, w')
      else (Err (Error (Io (quoted "failed to read vector index directory" parent +:+ ": " +:+ msg))), w')
    | (Ok names, w') =>
      sm_for names (λ name,
        if bool_decide (name = file_name)
          || (String.prefix (prefix +:+ ".") name && ends_with name suffix)
        then remove_if_present (name :: parent) else mret tt) w'
    end
  end.

Definition cleanup_vector_index_sidecars (manifest graph vectors : Path) : io unit :=
  cleanup_matching_sidecars graph ".hnsw.bin" ;;
  cleanup_matching_sidecars vectors ".vectors.bin" ;;
  sm_for [manifest; graph; vectors] remove_if_present.

(** Writing through a [BufWriter] to a new file: the last part, at most a buffer of
    8192 bytes, is flushed when the writer is dropped and its errors are lost. *)
Definition write_buffered (what : string → Undr9Error) (p : Path) (bs : bytes) : io unit := λ w,
  match fs_append p bs w with
  | (Ok _, w') => (Ok tt, w')
  | (Err msg, w') =>
    let written := N.of_nat (length (default [] (files w' !! p))) in
    let total := N.of_nat (length bs) in
    if (written <? total - total mod 8192)%N then (Err (Error (what msg)), w')
    else (Ok tt, w')
  end.

Definition create_and_write (create write : string) (p : Path) (payload : Result string bytes) : io unit :=
  io_try (λ e, Io (quoted create p +:+ ": " +:+ e)) (fs_write p []) ;;
  bs ← io_res (map_err (λ e, Serialization (quoted write p +:+ ": " +:+ e)) payload);
  write_buffered (λ e, Serialization (quoted write p +:+ ": " +:+ e)) p bs.

Definition write_vector_index_manifest (p : Path) (m : PersistedVectorIndexManifest) : io unit :=
  create_and_write "failed to create vector index manifest" "failed to serialize vector index manifest"
    p (json_encode_vector_manifest m).

Definition read_vector_index_manifest (p : Path) : io PersistedVectorIndexManifest :=
  bs ← io_try (λ e, Io (quoted "failed to open vector index manifest" p +:+ ": " +:+ e)) (fs_read p);
  io_res (map_err (λ e, Corruption (quoted "failed to deserialize vector index manifest" p +:+ ": " +:+ e))
    (json_decode_vector_manifest bs)).

(** Persist one space; [None] when it has no runtime or no dimension. *)
Definition persist_space (h : Runtimes) (graph vectors : Path) (name : string) (sp : HnswVectorSpace)
    : io (option PersistedVectorSpaceManifest) :=
  match sp_runtime sp ≫= (h !!.), sp_dimension sp with
  | Some (g, v), Some dimension =>
    create_and_write "failed to create vector index graph" "failed to persist HNSW graph"
      (vector_space_sidecar_path graph name ".hnsw.bin") (hnsw_save g) ;;
    create_and_write "failed to create vector store" "failed to persist vector store"
      (vector_space_sidecar_path vectors name ".vectors.bin") (vectors_save v (hnsw_len g)) ;;
    mret (Some (mkSpaceManifest name (length (sp_candidate_ids sp)) dimension))
  | _, _ => mret None
  end.

Fixpoint persist_spaces (h : Runtimes) (graph vectors : Path) (l : list (string * HnswVectorSpace))
    : io (list PersistedVectorSpaceManifest) :=
  match l with
  | [] => mret []
  | (name, sp) :: l =>
    m ← persist_space h graph vectors name sp;
    ms ← persist_spaces h graph vectors l;
    mret (option_list m ++ ms)
  end.

Definition hnsw_persist (h : Runtimes) (ix : HnswVectorIndex) (manifest graph vectors : Path)
    (last_applied_lsn : option N) : io unit :=
  if decide (spaces ix = ∅) then cleanup_vector_index_sidecars manifest graph vectors
  else
    sm_for [manifest; graph; vectors] (λ p,
      match p with
      | [] => mret tt
      | _ :: parent => io_try (λ e, Io (quoted "failed to create vector index directory" parent
          +:+ ": " +:+ e)) (fs_create_dir_all parent)
      end) ;;
    cleanup_matching_sidecars graph ".hnsw.bin" ;;
    cleanup_matching_sidecars vectors ".vectors.bin" ;;
    ms ← persist_spaces h graph vectors (btree_entries (spaces ix));
    if is_nil ms then cleanup_vector_index_sidecars manifest graph vectors
    else write_vector_index_manifest manifest
      (mkVectorManifest 1 "hnsw" last_applied_lsn (max_nodes ix) (hx_semantic_top_k ix)
        (hx_exact_fallback_threshold ix) (hx_m ix) (hx_ef_construction ix) (hx_ef_search ix) ms).

Definition persist_vector_index (h : Runtimes) (ix : GraphIndex) (manifest graph vectors : Path)
    (last_applied_lsn : option N) : io unit :=
  match ix_vector_index ix with
  | Exact _ => cleanup_vector_index_sidecars manifest graph vectors
  | Hnsw ix => hnsw_persist h ix manifest graph vectors last_applied_lsn
  end.

Definition matches_manifest (ix : HnswVectorIndex) (m : PersistedVectorIndexManifest)
    (expected_last_applied_lsn : option N) : bool :=
  (vm_format_version m =? 1)%N && bool_decide (vm_backend m = "hnsw")
  && bool_decide (vm_last_applied_lsn m = expected_last_applied_lsn)
  && (vm_max_nodes m =? max_nodes ix)%N && (vm_semantic_top_k m =? hx_semantic_top_k ix)%N
  && (vm_exact_fallback_threshold m =? hx_exact_fallback_threshold ix)%N
  && (vm_hnsw_m m =? hx_m ix)%N && (vm_hnsw_ef_construction m =? hx_ef_construction ix)%N
  && (vm_hnsw_ef_search m =? hx_ef_search ix)%N
  && (length (vector_spaces m) =? size (spaces ix))%nat
  && forallb (λ s, match spaces ix !! vector_name s with
      | Some sp => bool_decide (Some (vs_dimension s) = sp_dimension sp)
          && (vector_candidate_count s =? length (sp_candidate_ids sp))%nat
      | None => false
      end) (vector_spaces m).

(** A method on an index with its shared graphs, on the disk. *)
Abbreviation loading A := (sm (World * (HnswVectorIndex * Runtimes)) Failure A).

Definition set_runtime (name : string) (g : Runtime) '((ix, h) : shared HnswVectorIndex)
    : shared HnswVectorIndex :=
  match spaces ix !! name with
  | Some sp => (set_spaces (<[name := mkSpace (sp_candidate_ids sp) (sp_dimension sp)
      (Some (length h))]> (spaces ix)) ix, h ++ [g])
  | None => (ix, h)
  end.

(** Read the graph and the vectors of one space. *)
Definition load_space (g_path v_path : Path) : io Runtime :=
  g_bytes ← io_try (λ e, Io (quoted "failed to open vector index graph" g_path +:+ ": " +:+ e))
    (fs_read g_path);
  g ← io_res (map_err (λ e, Corruption (quoted "failed to load HNSW graph" g_path +:+ ": " +:+ e))
    (hnsw_load g_bytes));
  v_bytes ← io_try (λ e, Io (quoted "failed to open vector index vectors" v_path +:+ ": " +:+ e))
    (fs_read v_path);
  v ← io_res (map_err (λ e, Corruption (quoted "failed to load vector store" v_path +:+ ": " +:+ e))
    (vectors_load v_bytes));
  mret (g, v).

(** The loop over the spaces of the manifest; spaces loaded before a failure keep
    their runtimes. *)
Fixpoint load_spaces (graph vectors : Path) (l : list PersistedVectorSpaceManifest) : loading bool :=
  match l with
  | [] => mret true
  | m :: l => λ '(w, (ix, h)),
    match spaces ix !! vector_name m with
    | None => (Ok false, (w, (ix, h)))
    | Some _ =>
      let g_path := vector_space_sidecar_path graph (vector_name m) ".hnsw.bin" in
      let v_path := vector_space_sidecar_path vectors (vector_name m) ".vectors.bin" in
      if negb (path_exists w g_path) || negb (path_exists w v_path) then (Ok false, (w, (ix, h)))
      else
        match load_space g_path v_path w with
        | (Err f, w) => (Err f, (w, (ix, h)))
        | (Ok g, w) => load_spaces graph vectors l (w, set_runtime (vector_name m) g (ix, h))
        end
    end
  end.

Definition try_load_runtime (load : VectorIndexLoadConfig) : loading bool := λ '(w, (ix, h)),
  if negb (path_exists w (lc_manifest_path load)) then (Ok false, (w, (ix, h)))
  else
    (m ← on_world (read_vector_index_manifest (lc_manifest_path load));
     if negb (matches_manifest ix m (lc_expected_last_applied_lsn load)) then mret false
     else load_spaces (lc_graph_path load) (lc_vectors_path load) (vector_spaces m)) (w, (ix, h)).

(** [.and_then(|load| try_load_runtime(load).map_or(None, Some)).unwrap_or(false)]:
    an error is a load that did not happen. *)
Definition load_runtime (load : option VectorIndexLoadConfig) '((ix, h) : shared GraphIndex) (w : World)
    : bool * (shared GraphIndex * World) :=
  match load, ix_vector_index ix with
  | Some load, Hnsw v =>
    let '(r, (w', (v', h'))) := try_load_runtime load (w, (v, h)) in
    (match r with Ok b => b | Err _ => false end, ((set_vector (Hnsw v') ix, h'), w'))
  | _, _ => (false, ((ix, h), w))
  end.

Definition rebuild_with_config_and_vector_index_load (nodes : list NodeRecord) (edges : list EdgeRecord)
    (config : VectorIndexConfig) (load : option VectorIndexLoadConfig) (h : Runtimes) (w : World)
    : shared GraphIndex * World :=
  let '(loaded, (st, w)) := load_runtime load (index_records nodes edges config h) w in
  (if loaded then st else initialize_index nodes st, w).

(** ** What an index knows *)

(** Buckets that list exactly a relation, without duplicates or empty buckets. *)
Record buckets {K V} `{Countable K} (B : gmap K (list V)) (R : K → V → Prop) : Prop := {
  bk_nonempty : ∀ k l, B !! k = Some l → l ≠ [] ∧ NoDup l;
  bk_elem : ∀ k v, v ∈ default [] (B !! k) ↔ R k v;
}.

Section buckets.
Context {K V : Type} `{Countable K, EqDecision V}.
Implicit Types (B : gmap K (list V)) (R : K → V → Prop).

Lemma buckets_empty : buckets (∅ : gmap K (list V)) (λ _ _, False).
Proof.
  split; intros k; [intros l|intros v]; rewrite lookup_empty; [done|]. simpl.
  rewrite elem_of_nil. tauto.
Qed.

Lemma buckets_iff B R R' : buckets B R → (∀ k v, R k v ↔ R' k v) → buckets B R'.
Proof. intros [Hn He] HR. split; [done|]. intros k v. by rewrite He. Qed.

Lemma push_unique_spec (l : list V) v :
  NoDup l → NoDup (push_unique l v) ∧ push_unique l v ≠ [] ∧ ∀ v', v' ∈ push_unique l v ↔ v' ∈ l ∨ v' = v.
Proof.
  intros Hl. unfold push_unique. case_decide as Hin.
  - split; [done|]. split; [by intros ->; apply elem_of_nil in Hin|]. naive_solver.
  - split; [apply list.NoDup_app; split; [done|]; split; [|apply list.NoDup_singleton];
      intros x Hx ->%list_elem_of_singleton; done|].
    split; [by destruct l|]. intros v'. rewrite elem_of_app, list_elem_of_singleton. done.
Qed.

Lemma push_bucket_ok B R k v : buckets B R →
  buckets (push_bucket k v B) (λ k' v', R k' v' ∨ (k' = k ∧ v' = v)).
Proof.
  intros [Hn He]. unfold push_bucket.
  assert (Hnd : NoDup (default [] (B !! k))).
  { destruct (B !! k) eqn:Hk; simpl; [by eapply Hn|constructor]. }
  destruct (push_unique_spec _ v Hnd) as (Hnd' & Hne & Hel). split.
  - intros k' l. destruct (decide (k' = k)) as [->|Hk]; [rewrite lookup_insert_eq|rewrite lookup_insert_ne by done].
    + by intros [= <-].
    + apply Hn.
  - intros k' v'. destruct (decide (k' = k)) as [->|Hk].
    + rewrite lookup_insert_eq. simpl. rewrite Hel, He. naive_solver.
    + rewrite lookup_insert_ne by done. rewrite He. naive_solver.
Qed.

Lemma elem_of_remove_value (v v' : V) l : v' ∈ remove_value v l ↔ v' ∈ l ∧ v' ≠ v.
Proof. unfold remove_value. rewrite list_elem_of_filter. tauto. Qed.

Lemma remove_from_bucket_ok B R k v : buckets B R →
  buckets (remove_from_bucket k v B) (λ k' v', R k' v' ∧ ¬ (k' = k ∧ v' = v)).
Proof.
  intros [Hn He]. unfold remove_from_bucket. destruct (B !! k) as [l|] eqn:Hk.
  - assert (Hnd : NoDup (remove_value v l)) by (apply list.NoDup_filter; by eapply Hn).
    assert (HR : ∀ v', v' ∈ remove_value v l ↔ R k v' ∧ v' ≠ v).
    { intros v'. rewrite elem_of_remove_value, <-He, Hk. done. }
    destruct (remove_value v l) as [|x l'] eqn:Hrm; simpl is_nil; cbv iota.
    + split; intros k'.
      * intros l'. destruct (decide (k' = k)) as [->|]; [by rewrite lookup_delete_eq|].
        rewrite lookup_delete_ne by done. apply Hn.
      * intros v'. destruct (decide (k' = k)) as [->|].
        -- rewrite lookup_delete_eq. simpl. rewrite elem_of_nil. specialize (HR v').
           rewrite elem_of_nil in HR. destruct (decide (v' = v)); naive_solver.
        -- rewrite lookup_delete_ne by done. rewrite He. naive_solver.
    + split; intros k'.
      * intros l''. destruct (decide (k' = k)) as [->|]; [rewrite lookup_insert_eq; by intros [= <-]|].
        rewrite lookup_insert_ne by done. apply Hn.
      * intros v'. destruct (decide (k' = k)) as [->|].
        -- rewrite lookup_insert_eq. cbn [default from_option]. rewrite HR. naive_solver.
        -- rewrite lookup_insert_ne by done. rewrite He. naive_solver.
  - split; [done|]. intros k' v'. rewrite He. split; [|tauto]. intros HR. split; [done|].
    intros [-> ->]. apply He in HR. rewrite Hk in HR. by apply elem_of_nil in HR.
Qed.
End buckets.

(** What the vector index may offer: exactly the nodes with that vector for the exact
    backend; for HNSW, only such nodes (vectors of another dimension are left out). *)
Definition space_ok (nodes : NodeId → option NodeRecord) (name : string) (sp : HnswVectorSpace) : Prop :=
  NoDup (sp_candidate_ids sp) ∧
  ∀ id, id ∈ sp_candidate_ids sp → ∃ n, nodes id = Some n ∧ is_Some (vector n name).

Definition vectors_agree (nodes : NodeId → option NodeRecord) (v : VectorIndexState) : Prop :=
  match v with
  | Exact ix => buckets (candidate_ids_by_name ix)
      (λ name id, ∃ n, nodes id = Some n ∧ is_Some (vector n name))
  | Hnsw ix => map_Forall (space_ok nodes) (spaces ix)
  end.

(** The ordered indexes against the nodes and edges of a graph. *)
Record graph_agrees (nodes : NodeId → option NodeRecord) (edges : EdgeId → option EdgeRecord)
    (ix : GraphIndex) : Prop := {
  ga_ids : ∀ id, id ∈ node_ids ix ↔ is_Some (nodes id);
  ga_unique : ∀ key id, unique_key_index ix !! key = Some id →
    ∃ n, nodes id = Some n ∧ node_unique_key n = Some key;
  ga_adjacency : buckets (adjacency_index ix) (λ s id, ∃ e, edges id = Some e ∧ edge_source e = s);
  ga_reverse : buckets (reverse_adjacency_index ix) (λ t id, ∃ e, edges id = Some e ∧ edge_target e = t);
  ga_label : buckets (label_type_index ix) (λ ty id, ∃ n, nodes id = Some n ∧ node_type n = ty);
  ga_temporal : buckets (temporal_index ix) (λ ts id, ∃ n, nodes id = Some n ∧ timestamp_ms n = Some ts);
}.

Definition index_agrees (nodes : NodeId → option NodeRecord) (edges : EdgeId → option EdgeRecord)
    (ix : GraphIndex) : Prop :=
  graph_agrees nodes edges ix ∧ vectors_agree nodes (ix_vector_index ix).

(** ** Single steps *)

(** [f'] is [f] with [k] set to [v]. *)
Definition set_at {A B} `{EqDecision A} (k : A) (v : option B) (f f' : A → option B) : Prop :=
  ∀ k', f' k' = if decide (k' = k) then v else f k'.

Lemma set_at_insert {A B} `{Countable A} (m : gmap A B) k v : set_at k (Some v) (m !!.) (<[k := v]> m !!.).
Proof. intros k'. case_decide as Hk; [subst; apply lookup_insert_eq|by apply lookup_insert_ne]. Qed.
Lemma set_at_delete {A B} `{Countable A} (m : gmap A B) k : set_at k None (m !!.) (delete k m !!.).
Proof. intros k'. case_decide as Hk; [subst; apply lookup_delete_eq|by apply lookup_delete_ne]. Qed.

(** A relation read off the records of a map, after one record is added or removed. *)
Lemma related_set {A B K} `{EqDecision A} (R : B → K → Prop) (f f' : A → option B) k b x v :
  set_at k (Some b) f f' → f k = None →
  (∃ y, f' v = Some y ∧ R y x) ↔ (∃ y, f v = Some y ∧ R y x) ∨ (R b x ∧ v = k).
Proof. intros Hf Hk. rewrite (Hf v). case_decide; naive_solver. Qed.
Lemma related_unset {A B K} `{EqDecision A} (R : B → K → Prop) (f f' : A → option B) k b x v :
  set_at k None f f' → f k = Some b →
  (∃ y, f' v = Some y ∧ R y x) ↔ (∃ y, f v = Some y ∧ R y x) ∧ ¬ (R b x ∧ v = k).
Proof. intros Hf Hk. rewrite (Hf v). case_decide; naive_solver. Qed.

Lemma upsert_edge_agrees (nodes : NodeId → option NodeRecord) edges edges' e ix : set_at (edge_id e) (Some e) edges edges' → edges (edge_id e) = None →
  index_agrees nodes edges ix → index_agrees nodes edges' (upsert_edge e ix).
Proof.
  intros He Hnone [[Hi Hu Ha Hr Hl Ht] Hv]. split; [|done]. split; simpl; try done.
  - eapply buckets_iff; [by apply push_bucket_ok|]. intros s id.
    rewrite (related_set (λ e s, edge_source e = s) _ _ _ _ _ _ He Hnone). naive_solver.
  - eapply buckets_iff; [by apply push_bucket_ok|]. intros s id.
    rewrite (related_set (λ e s, edge_target e = s) _ _ _ _ _ _ He Hnone). naive_solver.
Qed.

Lemma delete_edge_agrees (nodes : NodeId → option NodeRecord) edges edges' e ix : set_at (edge_id e) None edges edges' → edges (edge_id e) = Some e →
  index_agrees nodes edges ix → index_agrees nodes edges' (delete_edge e ix).
Proof.
  intros He Hsome [[Hi Hu Ha Hr Hl Ht] Hv]. split; [|done]. split; simpl; try done.
  - eapply buckets_iff; [by apply remove_from_bucket_ok|]. intros s id.
    rewrite (related_unset (λ e s, edge_source e = s) _ _ _ _ _ _ He Hsome). naive_solver.
  - eapply buckets_iff; [by apply remove_from_bucket_ok|]. intros s id.
    rewrite (related_unset (λ e s, edge_target e = s) _ _ _ _ _ _ He Hsome). naive_solver.
Qed.

(** The fields of a node step. *)
Lemma upsert_node_graph nodes nodes' (edges : EdgeId → option EdgeRecord) n ix h : set_at (node_id n) (Some n) nodes nodes' → nodes (node_id n) = None →
  graph_agrees nodes edges ix → graph_agrees nodes' edges (upsert_node n (ix, h)).1.
Proof.
  intros Hn Hnone [Hi Hu Ha Hr Hl Ht]. unfold upsert_node.
  destruct (vector_upsert_node n (ix_vector_index ix, h)) as [v h'].
  split; simpl; try done.
  - intros id. rewrite (Hn id), elem_of_union, elem_of_singleton, Hi. case_decide; naive_solver.
  - intros key id. destruct (node_unique_key n) as [k|] eqn:Hk.
    + destruct (decide (key = k)) as [->|Hne].
      * rewrite lookup_insert_eq. intros [= <-]. exists n. by rewrite (Hn _), decide_True.
      * rewrite lookup_insert_ne by done. intros (n' & Hn' & Hk')%Hu. exists n'.
        rewrite (Hn id), decide_False; [done|]. intros ->. congruence.
    + intros (n' & Hn' & Hk')%Hu. exists n'. rewrite (Hn id), decide_False; [done|]. intros ->. congruence.
  - eapply buckets_iff; [by apply push_bucket_ok|]. intros ty id.
    rewrite (related_set (λ n ty, node_type n = ty) _ _ _ _ _ _ Hn Hnone). naive_solver.
  - destruct (timestamp_ms n) as [ts|] eqn:Hts.
    + eapply buckets_iff; [by apply push_bucket_ok|]. intros t id.
      rewrite (related_set (λ n t, timestamp_ms n = Some t) _ _ _ _ _ _ Hn Hnone). naive_solver.
    + eapply buckets_iff; [done|]. intros t id.
      rewrite (related_set (λ n t, timestamp_ms n = Some t) _ _ _ _ _ _ Hn Hnone). naive_solver.
Qed.

Lemma delete_node_graph nodes nodes' (edges : EdgeId → option EdgeRecord) n ix h : set_at (node_id n) None nodes nodes' → nodes (node_id n) = Some n →
  graph_agrees nodes edges ix → graph_agrees nodes' edges (delete_node n (ix, h)).1.
Proof.
  intros Hn Hsome [Hi Hu Ha Hr Hl Ht]. unfold delete_node.
  destruct (vector_delete_node n (ix_vector_index ix, h)) as [v h'].
  split; simpl; try done.
  - intros id. rewrite (Hn id), elem_of_difference, elem_of_singleton, Hi. case_decide; naive_solver.
  - intros key id Hkey. assert (unique_key_index ix !! key = Some id ∧ id ≠ node_id n) as [Hk Hne].
    { destruct (node_unique_key n) as [k|] eqn:Hk.
      - case_decide as Hd.
        + apply lookup_delete_Some in Hkey as [Hkk Hkey]. split; [done|]. intros ->.
          apply Hu in Hkey as (n' & Hn' & Hk'). congruence.
        + split; [done|]. intros ->. apply Hu in Hkey as Hn'. destruct Hn' as (n' & Hn' & Hk'). congruence.
      - split; [done|]. intros ->. apply Hu in Hkey as (n' & Hn' & Hk'). congruence. }
    apply Hu in Hk as (n' & Hn' & Hk'). exists n'. by rewrite (Hn id), decide_False.
  - eapply buckets_iff; [by apply remove_from_bucket_ok|]. intros ty id.
    rewrite (related_unset (λ n ty, node_type n = ty) _ _ _ _ _ _ Hn Hsome). naive_solver.
  - destruct (timestamp_ms n) as [ts|] eqn:Hts.
    + eapply buckets_iff; [by apply remove_from_bucket_ok|]. intros t id.
      rewrite (related_unset (λ n t, timestamp_ms n = Some t) _ _ _ _ _ _ Hn Hsome). naive_solver.
    + eapply buckets_iff; [done|]. intros t id.
      rewrite (related_unset (λ n t, timestamp_ms n = Some t) _ _ _ _ _ _ Hn Hsome). naive_solver.
Qed.

(** ** Vector steps *)

Lemma lookup_retain_nonempty {V} (ids : V → list NodeId) m name :
  retain_nonempty ids m !! name = v ← m !! name; if is_nil (ids v) then None else Some v.
Proof.
  unfold retain_nonempty. rewrite map_lookup_filter. destruct (m !! name) as [v|]; [|done]. simpl.
  by destruct (is_nil (ids v)).
Qed.

Lemma buckets_retain (B : gmap string (list NodeId)) R :
  (∀ k l, B !! k = Some l → NoDup l) → (∀ k v, v ∈ default [] (B !! k) ↔ R k v) →
  buckets (retain_nonempty id B) R.
Proof.
  intros Hn He. split; intros k; [intros l|intros v]; rewrite lookup_retain_nonempty.
  - destruct (B !! k) as [l'|] eqn:Hk; [|done]. cbn. destruct l'; [done|]. intros [= <-].
    split; [done|by eapply Hn].
  - rewrite <-He. destruct (B !! k) as [[|x l]|]; done.
Qed.

Lemma push_all_ok names id (B : gmap string (list NodeId)) : ∀ R, buckets B R →
  buckets (foldl (λ m name, push_bucket name id m) B names) (λ k v, R k v ∨ (k ∈ names ∧ v = id)).
Proof.
  revert B. induction names as [|name names IH]; intros B R HB; simpl.
  - eapply buckets_iff; [done|]. intros k v. rewrite elem_of_nil. naive_solver.
  - eapply buckets_iff; [apply IH; by apply push_bucket_ok|]. intros k v. simpl.
    rewrite elem_of_cons. naive_solver.
Qed.

Lemma exact_upsert_ok R n ix : buckets (candidate_ids_by_name ix) R →
  buckets (candidate_ids_by_name (exact_upsert_node n ix))
    (λ name id, (R name id ∧ id ≠ node_id n) ∨ (id = node_id n ∧ is_Some (vector n name))).
Proof.
  intros [Hn He]. unfold exact_upsert_node. cbn [candidate_ids_by_name].
  eapply buckets_iff.
  - apply push_all_ok. apply (buckets_retain _ (λ name id,
      (R name id ∧ (id = node_id n → is_Some (vector n name))) ∨
      (is_Some (candidate_ids_by_name ix !! name) ∧ id = node_id n ∧ is_Some (vector n name)))).
    + intros k l. rewrite map_lookup_imap. intros (ids & Hk & [= <-])%bind_Some.
      apply Hn in Hk as [_ Hk]. case_decide; [by apply push_unique_spec|by apply list.NoDup_filter].
    + intros k v. rewrite map_lookup_imap. rewrite <-He. destruct (candidate_ids_by_name ix !! k) as [ids|] eqn:Hk; simpl.
      * apply Hn in Hk as [_ Hk]. case_decide as Hv.
        -- destruct (push_unique_spec ids (node_id n) Hk) as (_ & _ & ->). naive_solver.
        -- rewrite elem_of_remove_value. naive_solver.
      * rewrite elem_of_nil. split; [done|]. intros [[[] _]|[[? ?] _]]; done.
  - intros k v. cbn. rewrite elem_of_btree_keys. unfold vector.
    destruct (decide (v = node_id n)); naive_solver.
Qed.

Lemma exact_delete_ok R n ix : buckets (candidate_ids_by_name ix) R →
  buckets (candidate_ids_by_name (exact_delete_node n ix)) (λ name id, R name id ∧ id ≠ node_id n).
Proof.
  intros [Hn He]. unfold exact_delete_node. cbn [candidate_ids_by_name]. apply buckets_retain.
  - intros k l. rewrite lookup_fmap. intros (ids & Hk & ->)%fmap_Some. apply list.NoDup_filter. by eapply Hn.
  - intros k v. rewrite lookup_fmap, <-He. destruct (candidate_ids_by_name ix !! k); simpl.
    + apply elem_of_remove_value.
    + rewrite elem_of_nil. tauto.
Qed.

(** A loop over the spaces transforms each. *)
Lemma each_space_spec f m h name sp' : (each_space f (m, h)).1 !! name = Some sp' →
  ∃ sp h0, m !! name = Some sp ∧ sp' = (f name (sp, h0)).1.
Proof.
  unfold each_space. intros Hres. cbn [fst] in Hres.
  enough (Hgen : ∀ l st, (foldl (put_space f) st l).1 !! name = Some sp' →
    (∃ sp h1, (name, sp) ∈ l ∧ sp' = (f name (sp, h1)).1) ∨ (¬ (name ∈ l.*1) ∧ st.1 !! name = Some sp')).
  { destruct (Hgen _ _ Hres) as [(sp & h1 & Hin & ->)|[Hnin Hm]].
    - apply elem_of_btree_entries in Hin. eauto.
    - destruct Hnin. apply (elem_of_btree_keys m name). eauto. }
  clear Hres. induction l as [|[name0 sp0] l IH]; intros [m0 h0] Hres.
  - right. split; [apply not_elem_of_nil|done].
  - simpl in Hres. unfold put_space at 2 in Hres. simpl in Hres.
    destruct (f name0 (sp0, h0)) as [sp1 h1] eqn:Hf.
    apply IH in Hres as [(sp & h2 & Hin & ->)|[Hnin Hm]].
    + left. exists sp, h2. split; [by right|done].
    + simpl in Hm. destruct (decide (name0 = name)) as [->|Hne].
      * left. rewrite lookup_insert_eq in Hm. simplify_eq. exists sp0, h0. split; [left|by rewrite Hf].
      * right. rewrite lookup_insert_ne in Hm by done. csimpl. rewrite elem_of_cons. naive_solver.
Qed.

Lemma space_delete_ok nodes nodes' n name sp h : set_at (node_id n) None nodes nodes' →
  space_ok nodes name sp → space_ok nodes' name (space_delete_node n (sp, h)).1.
Proof.
  intros Hn [Hnd He]. split; simpl; [by apply list.NoDup_filter|].
  intros id [Hin Hne]%elem_of_remove_value. rewrite (Hn id), decide_False by done. by apply He.
Qed.

Lemma space_upsert_ok nodes nodes' n name sp h : nodes' (node_id n) = Some n →
  (∀ id, id ≠ node_id n → nodes' id = nodes id) →
  space_ok nodes name sp → space_ok nodes' name (space_upsert_node name n (sp, h)).1.
Proof.
  intros Hnew Hold [Hnd He].
  assert (Hkeep : ∀ id, id ∈ remove_value (node_id n) (sp_candidate_ids sp) →
    ∃ n', nodes' id = Some n' ∧ is_Some (vector n' name)).
  { intros id [Hin Hne]%elem_of_remove_value. rewrite Hold by done. by apply He. }
  assert (Hpush : is_Some (vector n name) → ∀ id, id ∈ push_unique (sp_candidate_ids sp) (node_id n) →
    ∃ n', nodes' id = Some n' ∧ is_Some (vector n' name)).
  { intros Hv id. destruct (push_unique_spec _ (node_id n) Hnd) as (_ & _ & ->).
    intros Hin. destruct (decide (id = node_id n)) as [->|Hne]; [eauto|].
    apply Hkeep. apply elem_of_remove_value. naive_solver. }
  unfold space_upsert_node, space_delete_node.
  destruct (vector n name) as [v|] eqn:Hv; [destruct (sp_dimension sp) as [d|]|].
  - destruct (length v =? d)%nat.
    + destruct (runtime_set _ _ _ _) as [r h']. split; simpl; [by apply push_unique_spec|eauto].
    + split; simpl; [by apply list.NoDup_filter|done].
  - split; simpl; [by apply push_unique_spec|eauto].
  - split; simpl; [by apply list.NoDup_filter|done].
Qed.

Lemma hnsw_upsert_ok nodes nodes' n ix h : nodes' (node_id n) = Some n →
  (∀ id, id ≠ node_id n → nodes' id = nodes id) → map_Forall (space_ok nodes) (spaces ix) →
  map_Forall (space_ok nodes') (spaces (hnsw_upsert_node n (ix, h)).1).
Proof.
  intros Hnew Hold Hall. unfold hnsw_upsert_node.
  set (st := each_space _ _).
  assert (Hst : map_Forall (space_ok nodes') st.1).
  { intros name sp' (sp & h0 & Hin & ->)%each_space_spec. eapply space_upsert_ok; eauto. }
  clearbody st. assert (Hfold : map_Forall (space_ok nodes')
    (foldl (upsert_space n) st (btree_keys (node_vectors n))).1).
  { revert st Hst. induction (btree_keys (node_vectors n)) as [|name names IH]; intros st Hst; [done|].
    cbn [foldl]. apply IH. unfold upsert_space.
    set (sp := default _ _). pose proof (space_upsert_ok nodes' nodes' n name sp st.2 Hnew) as Hsp.
    destruct (space_upsert_node name n (sp, st.2)) as [sp1 h2].
    apply map_Forall_insert_2; [|done]. apply Hsp; [done|].
    unfold sp. destruct (st.1 !! name) eqn:Hk; simpl; [by apply Hst|]. split; simpl; [constructor|].
    intros id Hid. by apply elem_of_nil in Hid. }
  destruct (foldl _ _ _) as [m h']. intros k sp'. cbn [fst spaces set_spaces]. rewrite lookup_retain_nonempty.
  intros (sp1 & Hk & Hsp)%bind_Some. destruct (is_nil _); simplify_eq. by apply Hfold.
Qed.

Lemma vector_upsert_ok nodes nodes' n v h : set_at (node_id n) (Some n) nodes nodes' →
  vectors_agree nodes v → vectors_agree nodes' (vector_upsert_node n (v, h)).1.
Proof.
  intros Hn. destruct v as [ix|ix].
  - intros Hb%(exact_upsert_ok _ n). eapply buckets_iff; [done|]. intros name id. simpl.
    rewrite (Hn id). case_decide; naive_solver.
  - intros Hall. assert (Hok : map_Forall (space_ok nodes') (spaces (hnsw_upsert_node n (ix, h)).1)).
    { apply (hnsw_upsert_ok nodes); [by rewrite (Hn _), decide_True| |done].
      intros id Hid. by rewrite (Hn id), decide_False. }
    revert Hok. unfold vector_upsert_node. by destruct (hnsw_upsert_node n (ix, h)).
Qed.

Lemma vector_delete_ok nodes nodes' n v h : set_at (node_id n) None nodes nodes' →
  vectors_agree nodes v → vectors_agree nodes' (vector_delete_node n (v, h)).1.
Proof.
  intros Hn. destruct v as [ix|ix]; simpl.
  - intros Hb%(exact_delete_ok _ n). eapply buckets_iff; [done|]. intros name id. simpl.
    rewrite (Hn id). case_decide; naive_solver.
  - intros Hall. destruct (each_space _ _) as [m h'] eqn:Hrun. simpl. intros name sp'.
    rewrite lookup_retain_nonempty. intros (sp1 & Hk & Hsp)%bind_Some.
    destruct (is_nil _); simplify_eq.
    destruct (each_space_spec (λ _, space_delete_node n) (spaces ix) h name sp')
      as (sp & h0 & Hin & ->); [by rewrite Hrun|].
    eapply space_delete_ok; [done|by apply Hall].
Qed.

Lemma upsert_node_vector n ix h : ix_vector_index (upsert_node n (ix, h)).1 =
  (vector_upsert_node n (ix_vector_index ix, h)).1.
Proof. unfold upsert_node. by destruct (vector_upsert_node n (ix_vector_index ix, h)). Qed.
Lemma delete_node_vector n ix h : ix_vector_index (delete_node n (ix, h)).1 =
  (vector_delete_node n (ix_vector_index ix, h)).1.
Proof. unfold delete_node. by destruct (vector_delete_node n (ix_vector_index ix, h)). Qed.

Lemma upsert_node_agrees nodes nodes' edges n st : set_at (node_id n) (Some n) nodes nodes' →
  nodes (node_id n) = None → index_agrees nodes edges st.1 →
  index_agrees nodes' edges (upsert_node n st).1.
Proof.
  destruct st as [ix h]. intros Hn Hnone [Hg Hv]. split; [by eapply upsert_node_graph|].
  rewrite upsert_node_vector. by eapply vector_upsert_ok.
Qed.

Lemma delete_node_agrees nodes nodes' edges n st : set_at (node_id n) None nodes nodes' →
  nodes (node_id n) = Some n → index_agrees nodes edges st.1 →
  index_agrees nodes' edges (delete_node n st).1.
Proof.
  destruct st as [ix h]. intros Hn Hsome [Hg Hv]. split; [by eapply delete_node_graph|].
  rewrite delete_node_vector. by eapply vector_delete_ok.
Qed.

(** ** Rebuilding *)

Lemma upsert_nodes_graph edges l : ∀ (m : Nodes) st, NoDup (node_id <$> l) →
  (∀ n, n ∈ l → m !! node_id n = None) → graph_agrees (m !!.) edges st.1 →
  graph_agrees (insert_all node_id l m !!.) edges (foldl (λ st n, upsert_node n st) st l).1.
Proof.
  induction l as [|n l IH]; intros m [ix h] Hnd Hfree Hg; [done|].
  csimpl in Hnd. apply list.NoDup_cons in Hnd as [Hnin Hnd]. cbn [foldl]. apply IH; [done| |].
  - intros n' Hn'. rewrite lookup_insert_ne; [apply Hfree; by right|].
    intros Heq. apply Hnin. rewrite Heq. by apply list_elem_of_fmap_2.
  - eapply upsert_node_graph; [apply set_at_insert|apply Hfree; left|done].
Qed.

Lemma upsert_nodes_hnsw nodes l : ∀ ix h v,
  (∀ n, n ∈ l → nodes (node_id n) = Some n) → ix_vector_index ix = Hnsw v →
  vectors_agree nodes (Hnsw v) →
  vectors_agree nodes (ix_vector_index (foldl (λ st n, upsert_node n st) (ix, h) l).1).
Proof.
  induction l as [|n l IH]; intros ix h v Hl Hv Hok; [cbn [foldl fst]; by rewrite Hv|]. cbn [foldl].
  pose proof (upsert_node_vector n ix h) as Hvec. rewrite Hv in Hvec. cbn [vector_upsert_node] in Hvec.
  assert (Hn : map_Forall (space_ok nodes) (spaces (hnsw_upsert_node n (v, h)).1)).
  { apply (hnsw_upsert_ok nodes); [apply Hl; left|done|done]. }
  destruct (hnsw_upsert_node n (v, h)) as [v' h']. destruct (upsert_node n (ix, h)) as [ix' h''].
  apply (IH _ _ v'); [intros n' Hn'; apply Hl; by right|exact Hvec|exact Hn].
Qed.

Lemma upsert_nodes_exact l : ∀ (m : Nodes) ix h v, NoDup (node_id <$> l) →
  (∀ n, n ∈ l → m !! node_id n = None) → ix_vector_index ix = Exact v →
  vectors_agree (m !!.) (Exact v) →
  vectors_agree (insert_all node_id l m !!.) (ix_vector_index (foldl (λ st n, upsert_node n st) (ix, h) l).1).
Proof.
  induction l as [|n l IH]; intros m ix h v Hnd Hfree Hv Hok; [cbn [foldl fst]; by rewrite Hv|].
  csimpl in Hnd. apply list.NoDup_cons in Hnd as [Hnin Hnd]. cbn [foldl].
  pose proof (upsert_node_vector n ix h) as Hvec. rewrite Hv in Hvec. cbn [vector_upsert_node] in Hvec.
  pose proof (vector_upsert_ok (m !!.) _ n (Exact v) h (set_at_insert m (node_id n) n) Hok) as Hn.
  destruct (upsert_node n (ix, h)) as [ix' h'].
  apply (IH _ _ _ (exact_upsert_node n v)); [done| |exact Hvec|exact Hn].
  intros n' Hn'. rewrite lookup_insert_ne; [apply Hfree; by right|].
  intros Heq. apply Hnin. rewrite Heq. by apply list_elem_of_fmap_2.
Qed.

Lemma upsert_edges_fields l : ∀ ix, let ix' := foldl (λ ix e, upsert_edge e ix) ix l in
  ix_vector_index ix' = ix_vector_index ix.
Proof. induction l as [|e l IH]; intros ix; simpl; [done|]. by rewrite IH. Qed.

Lemma upsert_edges_agree nodes l : ∀ (m : Edges) ix, NoDup (edge_id <$> l) →
  (∀ e, e ∈ l → m !! edge_id e = None) → index_agrees nodes (m !!.) ix →
  index_agrees nodes (insert_all edge_id l m !!.) (foldl (λ ix e, upsert_edge e ix) ix l).
Proof.
  induction l as [|e l IH]; intros m ix Hnd Hfree Hg; [done|].
  csimpl in Hnd. apply list.NoDup_cons in Hnd as [Hnin Hnd]. cbn [foldl]. apply IH; [done| |].
  - intros e' He'. rewrite lookup_insert_ne; [apply Hfree; by right|].
    intros Heq. apply Hnin. rewrite Heq. by apply list_elem_of_fmap_2.
  - apply (upsert_edge_agrees nodes (m !!.)); [apply set_at_insert|apply Hfree; left|done].
Qed.

(** The spaces a build starts from. *)
Lemma build_spaces_ok (nodes : NodeId → option NodeRecord) l : (∀ n, n ∈ l → nodes (node_id n) = Some n) →
  map_Forall (space_ok nodes) (hnsw_spaces_from_nodes l).
Proof.
  intros Hl. unfold hnsw_spaces_from_nodes.
  assert (Hinner : ∀ id entries acc, (foldl (collect_vector id) acc entries).1 =
    foldl (λ m name, push_bucket name id m) acc.1 (entries.*1)).
  { intros id entries. induction entries as [|[name v] entries IH]; intros acc; [done|].
    csimpl. by rewrite IH. }
  assert (Hb : ∀ l acc R, buckets acc.1 R → buckets (foldl collect_vectors acc l).1
    (λ name id, R name id ∨ ∃ n, n ∈ l ∧ id = node_id n ∧ is_Some (vector n name))).
  { intros l'. induction l' as [|n l' IH]; intros acc R HR; cbn [foldl].
    - eapply buckets_iff; [done|]. set_solver.
    - eapply buckets_iff; [apply IH; unfold collect_vectors; rewrite Hinner; apply push_all_ok, HR|].
      intros name id. cbn beta. fold (btree_keys (node_vectors n)). rewrite elem_of_btree_keys. unfold vector.
      set_solver. }
  specialize (Hb l (∅, ∅) _ buckets_empty). destruct (foldl collect_vectors (∅, ∅) l) as [ids vs].
  intros name sp. rewrite map_lookup_imap. intros (cand & Hk & [= <-])%bind_Some.
  destruct Hb as [Hn He]. simpl in *. split; simpl; [by eapply Hn|].
  intros id Hid. specialize (He name id). rewrite Hk in He. apply He in Hid as [[]|(n & Hin & -> & Hv)].
  exists n. split; [by apply Hl|done].
Qed.

(** Initialisation and loading only change the runtimes. *)
Lemma initialize_ok (nodes : NodeId → option NodeRecord) l v h :
  vectors_agree nodes v → vectors_agree nodes (initialize_runtime_from_nodes l (v, h)).1.
Proof.
  destruct v as [ix|ix]; [done|]. cbn [initialize_runtime_from_nodes]. intros Hall.
  assert (Hok : map_Forall (space_ok nodes) (each_space (initialize_space ix l) (spaces ix, h)).1).
  { intros name sp' (sp & h0 & Hin & ->)%each_space_spec. apply Hall in Hin. unfold initialize_space.
    destruct (sp_runtime sp); [done|]. by destruct (build_runtime ix name l sp). }
  revert Hok. by destruct (each_space _ _).
Qed.

Lemma set_vector_agrees nodes edges v ix : index_agrees nodes edges ix → vectors_agree nodes v →
  index_agrees nodes edges (set_vector v ix).
Proof. intros [[] _]. by split. Qed.

Lemma initialize_agrees nodes edges l st : index_agrees nodes edges st.1 →
  index_agrees nodes edges (initialize_index l st).1.
Proof.
  destruct st as [ix h]. cbn [fst]. intros [Hg Hv]. pose proof (initialize_ok nodes l _ h Hv) as Hi.
  unfold initialize_index. destruct (initialize_runtime_from_nodes l (ix_vector_index ix, h)).
  apply set_vector_agrees; [by split|exact Hi].
Qed.

Lemma from_values {K V} `{Countable K, OrdKey K} (key : V → K) (m : gmap K V) :
  (∀ k v, m !! k = Some v → key v = k) →
  insert_all key (btree_values m) ∅ = m ∧ NoDup (key <$> btree_values m) ∧
  ∀ v, v ∈ btree_values m → m !! key v = Some v.
Proof.
  intros Hkey. split; [|split].
  - apply map_eq. intros k. rewrite lookup_insert_all, lookup_empty.
    destruct (last_with key k (btree_values m)) as [v|] eqn:Hl.
    + apply last_with_Some in Hl as [[k' Hk']%elem_of_btree_values <-]. by rewrite (Hkey _ _ Hk').
    + apply last_with_None in Hl. destruct (m !! k) as [v|] eqn:Hk; [|done]. destruct Hl.
      apply list_elem_of_fmap. exists v. split; [by rewrite (Hkey k v)|]. apply elem_of_btree_values. eauto.
  - assert (key <$> btree_values m = btree_keys m) as ->; [|apply btree_keys_NoDup].
    unfold btree_values, btree_keys. rewrite <-list_fmap_compose. apply list_fmap_ext.
    intros i [k v] Hi. apply (Hkey k v). apply elem_of_btree_entries. by apply list_elem_of_lookup_2 in Hi.
  - intros v [k Hk]%elem_of_btree_values. by rewrite (Hkey k v).
Qed.

Lemma index_records_agree (m : Maps) config h : maps_wf m →
  index_agrees (m.1 !!.) (m.2 !!.) (index_records (btree_values m.1) (btree_values m.2) config h).1.
Proof.
  intros Hwf. destruct (from_values node_id m.1 (mw_node_key _ Hwf)) as (Hn1 & Hn2 & Hn3).
  destruct (from_values edge_id m.2 (mw_edge_key _ Hwf)) as (He1 & He2 & _).
  unfold index_records. set (ix0 := set_vector _ _).
  assert (Hg : graph_agrees (m.1 !!.) (λ _, None) (foldl (λ st n, upsert_node n st) (ix0, h) (btree_values m.1)).1).
  { pose proof (upsert_nodes_graph (λ _, None) (btree_values m.1) ∅ (ix0, h) Hn2) as Hg.
    rewrite Hn1 in Hg. apply Hg; [intros; by rewrite lookup_empty|].
    split; simpl.
    - intros id. rewrite lookup_empty. split; [set_solver|by intros []].
    - intros key id. by rewrite lookup_empty.
    - eapply buckets_iff; [apply buckets_empty|]. naive_solver.
    - eapply buckets_iff; [apply buckets_empty|]. naive_solver.
    - eapply buckets_iff; [apply buckets_empty|]. setoid_rewrite lookup_empty. naive_solver.
    - eapply buckets_iff; [apply buckets_empty|]. setoid_rewrite lookup_empty. naive_solver. }
  assert (Hv : vectors_agree (m.1 !!.) (ix_vector_index (foldl (λ st n, upsert_node n st) (ix0, h) (btree_values m.1)).1)).
  { destruct (backend config) eqn:Hb.
    - pose proof (upsert_nodes_exact (btree_values m.1) ∅ ix0 h (mkExact ∅) Hn2) as Hv.
      rewrite Hn1 in Hv. apply Hv; [intros; by rewrite lookup_empty| |].
      + unfold ix0, from_config. by rewrite Hb.
      + eapply buckets_iff; [apply buckets_empty|]. setoid_rewrite lookup_empty. naive_solver.
    - eapply upsert_nodes_hnsw; [done| |].
      + unfold ix0, from_config. by rewrite Hb.
      + by apply build_spaces_ok. }
  destruct (foldl (λ st n, upsert_node n st) (ix0, h) (btree_values m.1)) as [ix1 h1].
  pose proof (upsert_edges_agree (m.1 !!.) (btree_values m.2) ∅ ix1 He2) as He.
  rewrite He1 in He. apply He; [intros; by rewrite lookup_empty|].
  split; [|done]. destruct Hg as [Hi Hu Ha Hr Hl Ht]. by split.
Qed.

Lemma set_runtime_ok (nodes : NodeId → option NodeRecord) name g v h :
  map_Forall (space_ok nodes) (spaces v) → map_Forall (space_ok nodes) (spaces (set_runtime name g (v, h)).1).
Proof.
  intros Hv. unfold set_runtime. destruct (spaces v !! name) as [sp|] eqn:Hsp; [|done].
  apply map_Forall_insert_2; [|done]. by apply Hv in Hsp.
Qed.

Lemma load_spaces_ok (nodes : NodeId → option NodeRecord) graph vectors l : ∀ w v h r w' v' h',
  load_spaces graph vectors l (w, (v, h)) = (r, (w', (v', h'))) →
  map_Forall (space_ok nodes) (spaces v) → map_Forall (space_ok nodes) (spaces v').
Proof.
  induction l as [|m l IH]; intros w v h r w' v' h' Hrun Hv.
  { cbn [load_spaces] in Hrun. by sm_pure Hrun. }
  cbn [load_spaces] in Hrun. destruct (spaces v !! vector_name m) as [sp|]; [|by simplify_eq].
  destruct (negb _ || negb _); [by simplify_eq|].
  destruct (load_space _ _ w) as [[g|f] w1]; [|by simplify_eq].
  pose proof (set_runtime_ok nodes (vector_name m) g v h Hv) as Hv1.
  destruct (set_runtime _ _ _) as [v1 h1]. by eapply IH.
Qed.

Lemma try_load_ok (nodes : NodeId → option NodeRecord) load w v h r w' v' h' :
  try_load_runtime load (w, (v, h)) = (r, (w', (v', h'))) →
  map_Forall (space_ok nodes) (spaces v) → map_Forall (space_ok nodes) (spaces v').
Proof.
  intros Hrun Hv. unfold try_load_runtime in Hrun. destruct (negb _); [by simplify_eq|].
  unfold mbind, sm_bind, on_world in Hrun.
  destruct (read_vector_index_manifest _ w) as [[m|f] w1]; [|by simplify_eq].
  destruct (negb _); [by sm_pure Hrun|by eapply load_spaces_ok].
Qed.

Lemma load_runtime_agrees nodes edges load ix h w : index_agrees nodes edges ix →
  index_agrees nodes edges (load_runtime load (ix, h) w).2.1.1.
Proof.
  intros [Hg Hv]. unfold load_runtime. destruct load as [load|]; [|by split].
  destruct (ix_vector_index ix) as [v|v] eqn:Hvix; [by split; cbn [fst snd]; [|rewrite Hvix]|].
  destruct (try_load_runtime load (w, (v, h))) as [r [w' [v' h']]] eqn:Hrun.
  apply set_vector_agrees; [by split; [|rewrite Hvix]|]. by eapply try_load_ok.
Qed.

Lemma rebuilt_index_agrees_both (m : Maps) config load h w : maps_wf m →
  index_agrees (m.1 !!.) (m.2 !!.)
    (rebuild_with_config_and_vector_index_load (btree_values m.1) (btree_values m.2) config load h w).1.1 ∧
  index_agrees (m.1 !!.) (m.2 !!.) (rebuild_with_config (btree_values m.1) (btree_values m.2) config h).1.
Proof.
  intros Hwf. pose proof (index_records_agree m config h Hwf) as Hix.
  split; [|by apply initialize_agrees].
  unfold rebuild_with_config_and_vector_index_load.
  destruct (index_records _ _ _ _) as [ix h0].
  pose proof (load_runtime_agrees _ _ load ix h0 w Hix) as Hload.
  destruct (load_runtime load (ix, h0) w) as [[|] [st w']]; [done|]. by apply initialize_agrees.
Qed.

(** C27: A rebuilt index knows exactly the graph: its ids, types, timestamps and
    adjacency list the nodes and edges it was built from, a unique key leads to a node
    that has it, and the vector candidates are nodes that have the vector (all of them
    for the exact backend), whether or not a saved vector index is loaded. *)
Theorem rebuilt_index_agrees (m : Maps) config load h w : maps_wf m →
  index_agrees (m.1 !!.) (m.2 !!.)
    (rebuild_with_config_and_vector_index_load (btree_values m.1) (btree_values m.2) config load h w).1.1 ∧
  index_agrees (m.1 !!.) (m.2 !!.) (rebuild_with_config (btree_values m.1) (btree_values m.2) config h).1.
Proof. apply rebuilt_index_agrees_both. Qed.
End index.

(** ** Concrete inputs *)

Module Demo.
Import Batch.Demo.

(** A library whose approximate search is exact: a graph is the list of its keys. *)
#[global] Instance library : HnswLib := {|
  hnsw_graph := list NodeId;
  hnsw_vectors := list (list f32);
  hnsw_new _ _ _ _ _ := [];
  vectors_new _ _ := [];
  hnsw_insert g id v := (true, (id :: g.1, v :: g.2));
  hnsw_set g id v := (true, (id :: g.1, v :: g.2));
  hnsw_delete g id := remove_value id g;
  hnsw_search g _ k keep := Some (take (N.to_nat k) (filter (λ id, from_option (λ f, f id) true keep = true) g.1));
  hnsw_len := length;
  hnsw_save g := Store.Demo.to_bytes g;
  hnsw_load bs := Store.Demo.of_bytes bs;
  vectors_save v _ := Store.Demo.to_bytes v;
  vectors_load bs := Store.Demo.of_bytes bs;
|}.

Definition no_codec : IndexCodec := {|
  json_encode_vector_manifest _ := Ok [];
  json_decode_vector_manifest _ := Err "expected value";
|}.
#[global] Existing Instance no_codec.

(** The index of the example graph. *)
Definition index : GraphIndex :=
  (rebuild_with_config (btree_values maps.1) (btree_values maps.2) VectorIndexConfig_default []).1.
End Demo.

Lemma rebuilt_index_agrees_witness : index_agrees (Batch.Demo.maps.1 !!.) (Batch.Demo.maps.2 !!.) Demo.index.
Proof.
  apply (rebuilt_index_agrees Batch.Demo.maps VectorIndexConfig_default None [] (mkWorld ∅ ∅ [] None None)).
  apply Batch.Demo.maps_are_wf.
Defined.
