(* ===== verification/Query.v ===== *)
(** * [crates/query]: requests, planning and graph views

    The query language with its validation, and the [GraphView] interface with its two
    implementations: the published snapshot and the overlay of a transaction on it.
    What a view promises is [view_of]; the executor is verified against it. *)
From S2P Require Import Prelude RustStd RustFloat Common Core Config Fs Memory Batch Index.

#[local] Open Scope string_scope.
#[local] Open Scope list_scope.

Definition DEFAULT_MAX_DEPTH : N := 5.
Definition DEFAULT_RESULT_LIMIT : N := 100.
Definition DEFAULT_QUERY_TIMEOUT_MS : N := 5000.
Definition MAX_RESULT_LIMIT : N := 1000.
Definition MAX_QUERY_TIMEOUT_MS : N := 30000.
Definition DEFAULT_VECTOR_NAME : string := "default".

Record TraversalConstraints := mkConstraints { edge_types : list string; node_labels : list string }.
Definition TraversalConstraints_default : TraversalConstraints := mkConstraints [] [].

Inductive FilterExpression :=
| FEq (field : string) (value : PropertyValue)
| FGt (field : string) (value : PropertyValue)
| FGte (field : string) (value : PropertyValue)
| FLt (field : string) (value : PropertyValue)
| FLte (field : string) (value : PropertyValue)
| FAnd (conditions : list FilterExpression)
| FOr (conditions : list FilterExpression).

Inductive QueryRequest :=
| GetNodeById (id : NodeId)
| GetNodeByUniqueKey (key : string)
| FilterNodes (label : option string) (filter : FilterExpression) (limit : option N)
| ListNeighbors (id : NodeId) (edge_type' : option string) (direction : EdgeDirection) (limit : option N)
| Traverse (start_node_id : NodeId) (edge_type' : option string) (direction : EdgeDirection)
    (max_hops : option N) (limit : option N) (timeout_ms : option N)
    (constraints : option TraversalConstraints)
| ShortestPath (source_node_id target_node_id : NodeId) (direction : EdgeDirection)
    (max_depth : option N) (limit : option N) (timeout_ms : option N)
    (constraints : option TraversalConstraints)
| SearchByLabel (label : string) (limit : option N)
| TimeRange (field : string) (from_epoch_ms to_epoch_ms : Z) (limit : N)
| VectorSearch (query_vector : list f32) (node_type' : option string) (vector_name' : option string)
    (limit : N) (top_k : option N)
| RankedRetrieval (query_vector : option (list f32)) (reference_node_id : option NodeId)
    (edge_type' : option string) (from_epoch_ms to_epoch_ms : option Z) (vector_name' : option string)
    (limit : N) (top_k : option N) (now_epoch_ms : Z) (retrieval_profile : option string).

Inductive PlanKind := ExactLookup | FilterScan | Traversal | ShortestPathPlan | NeighborLookup
  | LabelScan | TemporalRange | VectorSimilarity | RankedHybrid.
Record QueryFilter := mkFilter { qf_field : string; qf_value : PropertyValue }.
Record QueryPlan := mkPlan { plan_kind : PlanKind; plan_filters : list QueryFilter }.

(** ** Planning *)

Definition resolve_required_result_limit (limit : N) : Res N :=
  if (limit =? 0)%N then Err (Validation "limit must be greater than zero")
  else if (MAX_RESULT_LIMIT <? limit)%N then
    Err (Validation ("limit must be less than or equal to " +:+ pretty MAX_RESULT_LIMIT))
  else Ok limit.
Definition resolve_result_limit (limit : option N) : Res N :=
  resolve_required_result_limit (default DEFAULT_RESULT_LIMIT limit).

Definition resolve_timeout_ms (timeout_ms : N) : Res N :=
  if (timeout_ms =? 0)%N then Err (Validation "timeout_ms must be greater than zero")
  else if (MAX_QUERY_TIMEOUT_MS <? timeout_ms)%N then
    Err (Validation ("timeout_ms must be less than or equal to " +:+ pretty MAX_QUERY_TIMEOUT_MS))
  else Ok timeout_ms.

Record TraversalRuntime := mkRuntime {
  rt_max_depth : N;
  rt_limit : N;
  rt_timeout_ms : N;
  rt_constraints : TraversalConstraints;
}.

Definition resolve_traversal_runtime (max_depth limit timeout_ms : option N)
    (constraints : option TraversalConstraints) : Res TraversalRuntime :=
  let max_depth := default DEFAULT_MAX_DEPTH max_depth in
  if (max_depth =? 0)%N then Err (Validation "max_depth must be greater than zero")
  else
    limit ← resolve_required_result_limit (default DEFAULT_RESULT_LIMIT limit);
    timeout_ms ← resolve_timeout_ms (default DEFAULT_QUERY_TIMEOUT_MS timeout_ms);
    mret (mkRuntime max_depth limit timeout_ms (default TraversalConstraints_default constraints)).

Definition merge_legacy_edge_type (edge_type' : option string) (r : TraversalRuntime) : TraversalRuntime :=
  match edge_type' with
  | Some ty =>
    let c := rt_constraints r in
    if decide (ty ∈ edge_types c) then r
    else mkRuntime (rt_max_depth r) (rt_limit r) (rt_timeout_ms r)
      (mkConstraints (edge_types c ++ [ty]) (node_labels c))
  | None => r
  end.

Definition validate_query_vector (v : list f32) : Res unit :=
  if is_nil v then Err (Validation "query_vector must not be empty") else Ok tt.

Definition property_value_as_f64 (v : PropertyValue) : option f64 :=
  match v with
  | PInteger z => Some (F64.of_Z z)
  | PFloat f => Some f
  | _ => None
  end.

Definition check_field (field : string) : Res unit :=
  if is_blank field then Err (Validation "filter field cannot be empty") else Ok tt.
Definition check_numeric (value : PropertyValue) : Res unit :=
  match property_value_as_f64 value with
  | Some _ => Ok tt
  | None => Err (Validation "gt/gte/lt/lte filter values must be numeric")
  end.

Fixpoint validate_filter_expression (f : FilterExpression) : Res unit :=
  let validate_all := fix go (l : list FilterExpression) : Res unit :=
    match l with
    | [] => Ok tt
    | f :: l => validate_filter_expression f ;; go l
    end in
  match f with
  | FEq field _ => check_field field
  | FGt field value | FGte field value | FLt field value | FLte field value =>
    check_field field ;; check_numeric value
  | FAnd conditions | FOr conditions =>
    if is_nil conditions then Err (Validation "filter conditions cannot be empty")
    else validate_all conditions
  end.

Fixpoint filter_expression_leaf_count (f : FilterExpression) : nat :=
  match f with
  | FAnd conditions | FOr conditions =>
    (fix go (l : list FilterExpression) : nat :=
      match l with [] => 0 | f :: l => filter_expression_leaf_count f + go l end)%nat conditions
  | _ => 1
  end.

(** [i64::try_from(n).unwrap_or(i64::MAX)]. *)
Definition i64_of_usize (n : N) : PropertyValue := PInteger (Z.min (Z.of_N n) i64_max).

Definition runtime_filters (depth_name : string) (r : TraversalRuntime) : list QueryFilter :=
  [mkFilter depth_name (PInteger (Z.of_N (rt_max_depth r)));
   mkFilter "limit" (PInteger (Z.of_N (rt_limit r)));
   mkFilter "timeout_ms" (PInteger (Z.of_N (rt_timeout_ms r)))].

Definition result_transpose {A B} (f : A → Res B) (o : option A) : Res (option B) :=
  match o with Some a => Some <$> f a | None => Ok None end.

Definition range_inverted (from to : option Z) : bool :=
  match from, to with Some from, Some to => (to <? from)%Z | _, _ => false end.

Definition limit_filter (limit : N) : QueryFilter := mkFilter "limit" (i64_of_usize limit).
Definition optional_filter (name : string) (v : option PropertyValue) : list QueryFilter :=
  option_list (mkFilter name <$> v).

(** [Planner::plan]. *)
Definition plan (request : QueryRequest) : Res QueryPlan :=
  match request with
  | GetNodeById _ => Ok (mkPlan ExactLookup [])
  | GetNodeByUniqueKey key => Ok (mkPlan ExactLookup [mkFilter "unique_key" (PString key)])
  | FilterNodes label filter limit =>
    validate_filter_expression filter ;;
    limit ← resolve_result_limit limit;
    match label with
    | Some label => if is_blank label then Err (Validation "filter label cannot be empty") else Ok tt
    | None => Ok tt
    end ;;
    mret (mkPlan FilterScan ([limit_filter limit] ++ optional_filter "label" (PString <$> label) ++
      [mkFilter "predicate_count" (i64_of_usize (N.of_nat (filter_expression_leaf_count filter)))]))
  | ListNeighbors _ _ _ limit =>
    limit ← resolve_result_limit limit; mret (mkPlan NeighborLookup [limit_filter limit])
  | Traverse _ _ _ max_hops limit timeout_ms _ =>
    r ← resolve_traversal_runtime max_hops limit timeout_ms None;
    mret (mkPlan Traversal (runtime_filters "max_hops" r))
  | ShortestPath _ _ _ max_depth limit timeout_ms _ =>
    r ← resolve_traversal_runtime max_depth limit timeout_ms None;
    mret (mkPlan ShortestPathPlan (runtime_filters "max_depth" r))
  | SearchByLabel label limit =>
    limit ← resolve_result_limit limit;
    mret (mkPlan LabelScan [mkFilter "label" (PString label); limit_filter limit])
  | TimeRange field from_epoch_ms to_epoch_ms limit =>
    if (to_epoch_ms <? from_epoch_ms)%Z then Err (Validation "time range start must be before end")
    else
      limit ← resolve_required_result_limit limit;
      mret (mkPlan TemporalRange [mkFilter "field" (PString field);
        mkFilter "from_epoch_ms" (PInteger from_epoch_ms);
        mkFilter "to_epoch_ms" (PInteger to_epoch_ms); limit_filter limit])
  | VectorSearch query_vector node_type' vector_name' limit top_k =>
    validate_query_vector query_vector ;;
    limit ← resolve_required_result_limit limit;
    top_k ← result_transpose resolve_required_result_limit top_k;
    mret (mkPlan VectorSimilarity
      ([mkFilter "vector_dimensions" (PInteger (Z.of_nat (length query_vector)));
        mkFilter "vector_name" (PString (default DEFAULT_VECTOR_NAME vector_name'))] ++
       optional_filter "node_type" (PString <$> node_type') ++ [limit_filter limit] ++
       optional_filter "top_k" (i64_of_usize <$> top_k)))
  | RankedRetrieval query_vector reference_node_id _ from_epoch_ms to_epoch_ms vector_name' limit top_k _ _ =>
    match query_vector with Some v => validate_query_vector v | None => Ok tt end ;;
    if range_inverted from_epoch_ms to_epoch_ms then
      Err (Validation "ranked retrieval time range start must be before end")
    else if negb (bool_decide (is_Some query_vector)) && negb (bool_decide (is_Some reference_node_id)) then
      Err (Validation "ranked retrieval requires at least a query_vector or reference_node_id")
    else
      limit ← resolve_required_result_limit limit;
      top_k ← result_transpose resolve_required_result_limit top_k;
      mret (mkPlan RankedHybrid ([limit_filter limit;
        mkFilter "vector_name" (PString (default DEFAULT_VECTOR_NAME vector_name'))] ++
        optional_filter "top_k" (i64_of_usize <$> top_k)))
  end.

(** ** Filters *)

Definition field_matches_eq (n : NodeRecord) (field : string) (value : PropertyValue) : bool :=
  if decide (field = "id") then
    match value with PString expected => bool_decide (node_id_str (node_id n) = expected) | _ => false end
  else if decide (field = "label") then
    match value with PString expected => bool_decide (node_type n = expected) | _ => false end
  else false.

Definition property_values_equal (v w : PropertyValue) : bool :=
  match property_value_as_f64 v, property_value_as_f64 w with
  | Some a, Some b => f_eq a b
  | _, _ => PropertyValue_eq v w
  end.

Definition compare_numeric_property_values (v : option f64) (w : PropertyValue)
    : option comparison :=
  a ← v; b ← property_value_as_f64 w; f_partial_cmp a b.

#[global] Instance comparison_eq_dec : EqDecision comparison.
Proof. solve_decision. Defined.

Definition compare_property_values (v : option f64) (w : PropertyValue) (expected : comparison)
    : bool :=
  match compare_numeric_property_values v w with
  | Some ordering => bool_decide (ordering = expected)
  | None => false
  end.
Definition compare_property_values_inclusive (v : option f64) (w : PropertyValue)
    (expected : comparison) : bool :=
  match compare_numeric_property_values v w with
  | Some ordering => bool_decide (ordering = expected) || bool_decide (ordering = Eq)
  | None => false
  end.

Fixpoint node_matches_filter (n : NodeRecord) (f : FilterExpression) : bool :=
  let numeric field := property n field ≫= property_value_as_f64 in
  match f with
  | FEq field value => field_matches_eq n field value ||
      match property n field with Some candidate => property_values_equal candidate value | None => false end
  | FGt field value => compare_property_values (numeric field) value Gt
  | FGte field value => compare_property_values_inclusive (numeric field) value Gt
  | FLt field value => compare_property_values (numeric field) value Lt
  | FLte field value => compare_property_values_inclusive (numeric field) value Lt
  | FAnd conditions => forallb (node_matches_filter n) conditions
  | FOr conditions => existsb (node_matches_filter n) conditions
  end.

(** ** Views *)

Record SemanticCandidateQuery := mkSemantic {
  sq_query_vector : list f32;
  sq_vector_name : string;
  sq_node_type : option string;
  sq_limit : N;
  sq_top_k_override : option N;
}.

(** The trait [GraphView]; an iterator is the list it yields. *)
Record GraphView := mkView {
  gv_get_node : NodeId → option NodeRecord;
  gv_get_edge : EdgeId → option EdgeRecord;
  gv_contains_node : NodeId → bool;
  gv_lookup_unique_key : string → option NodeId;
  gv_node_ids_by_type : string → list NodeId;
  gv_edge_ids_for : NodeId → EdgeDirection → option string → list EdgeId;
  gv_node_ids_in_time_range : Z → Z → Result Failure (list NodeId);
  gv_vector_candidate_ids : string → list NodeId;
  gv_semantic_candidate_ids : SemanticCandidateQuery → list NodeId;
  gv_all_nodes : list NodeRecord;
}.

Record GraphSnapshot := mkSnapshot { gs_maps : Maps; gs_indexes : GraphIndex }.

Record GraphMutation := mkMutation {
  removed_node_ids : gset NodeId;
  removed_edge_ids : gset EdgeId;
  gm_added_nodes : Nodes;
  gm_added_edges : Edges;
}.

Definition edge_matches (e : EdgeRecord) (id : NodeId) (direction : EdgeDirection)
    (edge_type' : option string) : bool :=
  match direction with
  | Outgoing => bool_decide (edge_source e = id)
  | Incoming => bool_decide (edge_target e = id)
  | Both => bool_decide (edge_source e = id) || bool_decide (edge_target e = id)
  end && match edge_type' with Some expected => bool_decide (edge_type e = expected) | None => true end.

Definition within_required_time_range (n : NodeRecord) (from_epoch_ms to_epoch_ms : Z) : bool :=
  match timestamp_ms n with
  | Some ts => (from_epoch_ms <=? ts)%Z && (ts <=? to_epoch_ms)%Z
  | None => false
  end.

Section views.
Context `{HnswLib, IndexCodec}.

Definition snapshot_view (h : list Runtime) (s : GraphSnapshot) : GraphView := {|
  gv_get_node id := (gs_maps s).1 !! id;
  gv_get_edge id := (gs_maps s).2 !! id;
  gv_contains_node := contains_node (gs_indexes s);
  gv_lookup_unique_key := lookup_unique_key (gs_indexes s);
  gv_node_ids_by_type := node_ids_by_type (gs_indexes s);
  gv_edge_ids_for id direction ty := edge_ids_for (gs_indexes s) id direction ((gs_maps s).2 !!.) ty;
  gv_node_ids_in_time_range := node_ids_in_time_range (gs_indexes s);
  gv_vector_candidate_ids := vector_candidate_ids (gs_indexes s);
  gv_semantic_candidate_ids q := semantic_candidate_ids h (gs_indexes s) (sq_query_vector q)
    (sq_vector_name q) (sq_node_type q) (sq_limit q) (sq_top_k_override q);
  gv_all_nodes := btree_values (gs_maps s).1;
|}.

(** [OverlayGraphView]. *)
Section overlay.
Context (base : GraphView) (base_nodes : Nodes) (m : GraphMutation).

Definition overlay_get_node (id : NodeId) : option NodeRecord :=
  match gm_added_nodes m !! id with
  | Some n => Some n
  | None => if decide (id ∈ removed_node_ids m) then None else gv_get_node base id
  end.
Definition overlay_get_edge (id : EdgeId) : option EdgeRecord :=
  match gm_added_edges m !! id with
  | Some e => Some e
  | None => if decide (id ∈ removed_edge_ids m) then None else gv_get_edge base id
  end.

(** [ids.filter(|id| get(id).map(test).unwrap_or(false))] with the matching added
    records, collected into an ordered set. *)
Definition overlay_ids {K V} `{Countable K, OrdKey K} (get : K → option V) (test : V → bool)
    (key : V → K) (base_ids : list K) (added : gmap K V) : list K :=
  bset_elements (list_to_set (filter (λ id, from_option test false (get id) = true) base_ids) ∪
    list_to_set (key <$> filter (λ v, test v = true) (btree_values added)) : gset K).

Definition has_unique_key (key : string) (n : NodeRecord) : bool :=
  bool_decide (node_unique_key n = Some key).

Definition overlay_lookup_unique_key (key : string) : option NodeId :=
  match List.find (has_unique_key key) (btree_values (gm_added_nodes m)) with
  | Some n => Some (node_id n)
  | None =>
    id ← gv_lookup_unique_key base key;
    if from_option (has_unique_key key) false (overlay_get_node id) then Some id else None
  end.

Definition overlay_node_ids_by_type (ty : string) : list NodeId :=
  overlay_ids overlay_get_node (λ n, bool_decide (node_type n = ty)) node_id
    (gv_node_ids_by_type base ty) (gm_added_nodes m).

Definition overlay_vector_candidate_ids (name : string) : list NodeId :=
  overlay_ids overlay_get_node (λ n, bool_decide (is_Some (vector n name))) node_id
    (gv_vector_candidate_ids base name) (gm_added_nodes m).

Definition overlay_view : GraphView := {|
  gv_get_node := overlay_get_node;
  gv_get_edge := overlay_get_edge;
  gv_contains_node id := bool_decide (is_Some (overlay_get_node id));
  gv_lookup_unique_key := overlay_lookup_unique_key;
  gv_node_ids_by_type := overlay_node_ids_by_type;
  gv_edge_ids_for id direction ty :=
    overlay_ids overlay_get_edge (λ e, edge_matches e id direction ty) edge_id
      (gv_edge_ids_for base id direction ty) (gm_added_edges m);
  gv_node_ids_in_time_range from to :=
    base_ids ← gv_node_ids_in_time_range base from to;
    mret (overlay_ids overlay_get_node (λ n, within_required_time_range n from to) node_id
      base_ids (gm_added_nodes m));
  gv_vector_candidate_ids := overlay_vector_candidate_ids;
  gv_semantic_candidate_ids q :=
    match sq_node_type q with
    | Some ty => filter (λ id, is_Some (overlay_get_node id ≫= λ n, vector n (sq_vector_name q)))
        (overlay_node_ids_by_type ty)
    | None => overlay_vector_candidate_ids (sq_vector_name q)
    end;
  gv_all_nodes := omap overlay_get_node (bset_elements
    (filter (λ id, id ∉ removed_node_ids m) (dom base_nodes) ∪ dom (gm_added_nodes m)));
|}.
End overlay.

(** [OverlayGraphView::new(base, mutation)]. *)
Definition overlay (h : list Runtime) (s : GraphSnapshot) (m : GraphMutation) : GraphView :=
  overlay_view (snapshot_view h s) (gs_maps s).1 m.
End views.

(** ** Results *)

Record RankedNodeResult := mkRanked {
  rr_node : NodeRecord;
  rr_score : f32;
  rr_breakdown : ScoreBreakdown;
}.

Record GraphPath := mkPath {
  path_node_ids : list NodeId;
  path_edge_ids : list EdgeId;
  hop_count : nat;
}.

Record QueryResponse := mkResponse {
  qr_plan_kind : PlanKind;
  qr_nodes : list NodeRecord;
  qr_edges : list EdgeRecord;
  qr_ranked_results : list RankedNodeResult;
  qr_path : option GraphPath;
  qr_retrieval_profile : option string;
}.

Inductive QueryExecutionItem :=
| INode (n : NodeRecord)
| IEdge (e : EdgeRecord)
| IRanked (r : RankedNodeResult)
| IPath (p : GraphPath).

(** ** What a view promises *)

(** [v] shows the graph with these nodes and edges.  A unique key leads to a node that
    has it; the candidates of a vector search have the vector. *)
Record view_of (v : GraphView) (m : Maps) : Prop := {
  vo_get_node : ∀ id, gv_get_node v id = m.1 !! id;
  vo_get_edge : ∀ id, gv_get_edge v id = m.2 !! id;
  vo_contains : ∀ id, gv_contains_node v id = true ↔ is_Some (m.1 !! id);
  vo_unique : ∀ key id, gv_lookup_unique_key v key = Some id →
    ∃ n, m.1 !! id = Some n ∧ node_unique_key n = Some key;
  vo_type : ∀ ty id, id ∈ gv_node_ids_by_type v ty ↔ ∃ n, m.1 !! id = Some n ∧ node_type n = ty;
  vo_type_NoDup : ∀ ty, NoDup (gv_node_ids_by_type v ty);
  vo_edges : ∀ id direction ty eid, eid ∈ gv_edge_ids_for v id direction ty ↔
    ∃ e, m.2 !! eid = Some e ∧ edge_matches e id direction ty = true;
  vo_time : ∀ from to, (from <= to)%Z → ∃ l, gv_node_ids_in_time_range v from to = Ok l ∧
    ∀ id, id ∈ l ↔ ∃ n, m.1 !! id = Some n ∧ within_required_time_range n from to = true;
  vo_vectors : ∀ name id, id ∈ gv_vector_candidate_ids v name →
    ∃ n, m.1 !! id = Some n ∧ is_Some (vector n name);
  vo_all : gv_all_nodes v = btree_values m.1;
}.

(** The identifiers of the records are their keys. *)
Record keyed (m : Maps) : Prop := {
  kd_nodes : ∀ id n, m.1 !! id = Some n → node_id n = id;
  kd_edges : ∀ id e, m.2 !! id = Some e → edge_id e = id;
}.

Lemma within_range n from to : within_required_time_range n from to = true ↔
  ∃ ts, timestamp_ms n = Some ts ∧ (from <= ts <= to)%Z.
Proof.
  unfold within_required_time_range. destruct (timestamp_ms n) as [ts|]; [|naive_solver].
  rewrite andb_true_iff, !Z.leb_le. naive_solver.
Qed.

Lemma edge_matches_spec e id direction ty : edge_matches e id direction ty = true ↔
  match direction with
  | Outgoing => edge_source e = id
  | Incoming => edge_target e = id
  | Both => edge_source e = id ∨ edge_target e = id
  end ∧ match ty with Some ty => edge_type e = ty | None => True end.
Proof.
  unfold edge_matches. rewrite andb_true_iff.
  destruct direction, ty; rewrite ?orb_true_iff, ?bool_decide_eq_true; tauto.
Qed.

Section laws.
Context `{HnswLib, IndexCodec}.

Lemma snapshot_edges s id direction ty eid : index_agrees ((gs_maps s).1 !!.) ((gs_maps s).2 !!.) (gs_indexes s) →
  eid ∈ edge_ids_for (gs_indexes s) id direction ((gs_maps s).2 !!.) ty ↔
  ∃ e, (gs_maps s).2 !! eid = Some e ∧ edge_matches e id direction ty = true.
Proof.
  intros [[_ _ Ha Hr _ _] _]. unfold edge_ids_for. rewrite list_elem_of_filter, elem_of_app.
  setoid_rewrite edge_matches_spec. unfold edge_type_is.
  pose proof (bk_elem _ _ Ha id eid) as Hadj. pose proof (bk_elem _ _ Hr id eid) as Hrev.
  cbn beta in Hadj, Hrev.
  destruct ((gs_maps s).2 !! eid) as [e|].
  - assert (Hadj' : eid ∈ default [] (adjacency_index (gs_indexes s) !! id) ↔ edge_source e = id)
      by (rewrite Hadj; split; [by intros (? & [= <-] & ?)|eauto]).
    assert (Hrev' : eid ∈ default [] (reverse_adjacency_index (gs_indexes s) !! id) ↔ edge_target e = id)
      by (rewrite Hrev; split; [by intros (? & [= <-] & ?)|eauto]).
    destruct direction, ty; rewrite ?bool_decide_eq_true, ?Hadj', ?Hrev', ?elem_of_nil; naive_solver.
  - destruct direction; rewrite ?Hadj, ?Hrev, ?elem_of_nil; naive_solver.
Qed.

Lemma snapshot_times s from to l : index_agrees ((gs_maps s).1 !!.) ((gs_maps s).2 !!.) (gs_indexes s) →
  node_ids_in_time_range (gs_indexes s) from to = Ok l →
  ∀ id, id ∈ l ↔ ∃ n, (gs_maps s).1 !! id = Some n ∧ within_required_time_range n from to = true.
Proof.
  intros [[_ _ _ _ _ Ht] _]. unfold node_ids_in_time_range. destruct (to <? from)%Z; [done|].
  intros [= <-] id. setoid_rewrite within_range. rewrite list_elem_of_join. split.
  - intros (ids & Hid & Hids). apply list_elem_of_fmap in Hids as ([ts ids'] & -> & Hin).
    apply list_elem_of_filter in Hin as [Hr Hin]. apply elem_of_btree_entries in Hin.
    assert (Hid' : id ∈ default [] (temporal_index (gs_indexes s) !! ts)) by (by rewrite Hin).
    apply (bk_elem _ _ Ht) in Hid' as (n & Hn & Hts). eauto.
  - intros (n & Hn & ts & Hts & Hr).
    assert (Hid : id ∈ default [] (temporal_index (gs_indexes s) !! ts)) by (apply (bk_elem _ _ Ht); eauto).
    destruct (temporal_index (gs_indexes s) !! ts) as [ids|] eqn:Hids; [|by apply elem_of_nil in Hid].
    exists ids. split; [done|]. apply list_elem_of_fmap. exists (ts, ids). split; [done|].
    apply list_elem_of_filter. by rewrite elem_of_btree_entries.
Qed.

(** The published snapshot is a view of its graph when its index agrees with it. *)
Lemma snapshot_view_of h s : index_agrees ((gs_maps s).1 !!.) ((gs_maps s).2 !!.) (gs_indexes s) →
  view_of (snapshot_view h s) (gs_maps s).
Proof.
  intros Hix. pose proof Hix as [[Hi Hu _ _ Hl _] Hv]. split; simpl; try done.
  - intros id. unfold contains_node. rewrite bool_decide_eq_true. apply Hi.
  - intros ty id. apply (bk_elem _ _ Hl).
  - intros ty. unfold node_ids_by_type. destruct (label_type_index (gs_indexes s) !! ty) eqn:Hty; simpl;
      [by eapply (bk_nonempty _ _ Hl)|constructor].
  - intros id direction ty eid. by apply snapshot_edges.
  - intros from to Hr. destruct (node_ids_in_time_range (gs_indexes s) from to) as [l|] eqn:Hrun.
    + exists l. split; [done|]. by apply snapshot_times.
    + unfold node_ids_in_time_range in Hrun. by destruct (Z.ltb_spec to from); [lia|].
  - intros name id. unfold vector_candidate_ids. destruct (ix_vector_index (gs_indexes s)) as [v|v]; simpl.
    + apply (bk_elem _ _ Hv).
    + destruct (spaces v !! name) as [sp|] eqn:Hsp; simpl; [|by intros ?%elem_of_nil]. intros Hin.
      apply Hv in Hsp as [_ Hs]. by apply Hs.
Qed.

(** The graph a transaction sees: the base without what it removed, with what it added. *)
Definition overlay_maps (base : Maps) (m : GraphMutation) : Maps :=
  (gm_added_nodes m ∪ filter (λ '(id, _), id ∉ removed_node_ids m) base.1,
   gm_added_edges m ∪ filter (λ '(id, _), id ∉ removed_edge_ids m) base.2).

Lemma lookup_overlay {K V} `{Countable K} (added base : gmap K V) (removed : gset K) k :
  (added ∪ filter (λ '(k, _), k ∉ removed) base) !! k =
  match added !! k with Some v => Some v | None => if decide (k ∈ removed) then None else base !! k end.
Proof.
  rewrite lookup_union. destruct (added !! k) as [v|]; simpl.
  - by destruct (filter _ base !! k).
  - rewrite map_lookup_filter. destruct (base !! k) as [v|]; simpl; [|by case_decide].
    case_decide; repeat case_guard; try done; naive_solver.
Qed.

Lemma elem_of_overlay_ids {K V} `{Countable K, OrdKey K} (get : K → option V) test (key : V → K) base_ids
    (added : gmap K V) k :
  (∀ k v, added !! k = Some v → key v = k) → (∀ k v, added !! k = Some v → get k = Some v) →
  (∀ k v, get k = Some v → added !! k = None → test v = true → k ∈ base_ids) →
  k ∈ overlay_ids get test key base_ids added ↔ ∃ v, get k = Some v ∧ test v = true.
Proof.
  intros Hkey Hget Hbase. unfold overlay_ids.
  rewrite elem_of_bset_elements, elem_of_union, !elem_of_list_to_set, list_elem_of_filter, list_elem_of_fmap.
  setoid_rewrite list_elem_of_filter. setoid_rewrite elem_of_btree_values. split.
  - intros [[Ht _]|(v & -> & Ht & k' & Hk')].
    + destruct (get k); simpl in Ht; [eauto|done].
    + rewrite (Hkey _ _ Hk'). eauto.
  - intros (v & Hv & Ht). destruct (added !! k) as [v'|] eqn:Ha.
    + right. exists v'. rewrite (Hkey _ _ Ha). pose proof (Hget _ _ Ha). simplify_eq. eauto.
    + left. rewrite Hv. split; [done|by eapply Hbase].
Qed.

Section overlay.
Context (base : GraphView) (bm : Maps) (m : GraphMutation).
Context (Hbase : view_of base bm) (Hkeyed : keyed (gm_added_nodes m, gm_added_edges m)).

Lemma overlay_node id : overlay_get_node base m id = (overlay_maps bm m).1 !! id.
Proof.
  unfold overlay_get_node, overlay_maps. cbn [fst]. rewrite lookup_overlay, (vo_get_node _ _ Hbase). done.
Qed.
Lemma overlay_edge id : overlay_get_edge base m id = (overlay_maps bm m).2 !! id.
Proof.
  unfold overlay_get_edge, overlay_maps. cbn [snd]. rewrite lookup_overlay, (vo_get_edge _ _ Hbase). done.
Qed.

Lemma overlay_node_added id n : gm_added_nodes m !! id = Some n → overlay_get_node base m id = Some n.
Proof. unfold overlay_get_node. by intros ->. Qed.
Lemma overlay_edge_added id e : gm_added_edges m !! id = Some e → overlay_get_edge base m id = Some e.
Proof. unfold overlay_get_edge. by intros ->. Qed.
Lemma overlay_node_base id n : overlay_get_node base m id = Some n → gm_added_nodes m !! id = None →
  bm.1 !! id = Some n.
Proof. unfold overlay_get_node. intros Hn Ha. rewrite Ha in Hn. revert Hn. rewrite (vo_get_node _ _ Hbase). by case_decide. Qed.
Lemma overlay_edge_base id e : overlay_get_edge base m id = Some e → gm_added_edges m !! id = None →
  bm.2 !! id = Some e.
Proof. unfold overlay_get_edge. intros Hn Ha. rewrite Ha in Hn. revert Hn. rewrite (vo_get_edge _ _ Hbase). by case_decide. Qed.

Lemma overlay_ids_NoDup {K V} `{Countable K, OrdKey K} (get : K → option V) test (key : V → K) base_ids added :
  NoDup (overlay_ids get test key base_ids added).
Proof. apply bset_elements_NoDup. Qed.

Lemma overlay_all : omap (overlay_get_node base m) (bset_elements
    (filter (λ id, id ∉ removed_node_ids m) (dom bm.1) ∪ dom (gm_added_nodes m))) =
  btree_values (overlay_maps bm m).1.
Proof.
  assert (Hdom : ∀ id, id ∈ filter (λ id, id ∉ removed_node_ids m) (dom bm.1) ∪ dom (gm_added_nodes m) ↔
    is_Some ((overlay_maps bm m).1 !! id)).
  { intros id. rewrite elem_of_union, elem_of_filter, !elem_of_dom. unfold overlay_maps. cbn [fst].
    rewrite lookup_overlay. destruct (gm_added_nodes m !! id); [naive_solver|]. case_decide; naive_solver. }
  assert (Hkeys : bset_elements (filter (λ id, id ∉ removed_node_ids m) (dom bm.1) ∪ dom (gm_added_nodes m)) =
    btree_keys (overlay_maps bm m).1).
  { apply (Sorted_unique ord_le).
    - apply StronglySorted_Sorted, bset_elements_sorted.
    - apply StronglySorted_Sorted. unfold btree_keys. generalize (btree_entries_sorted (overlay_maps bm m).1).
      induction 1 as [|x l _ IH Hx]; csimpl; constructor; [done|]. by apply list.Forall_fmap.
    - apply NoDup_Permutation; [apply bset_elements_NoDup|apply btree_keys_NoDup|].
      intros id. by rewrite elem_of_bset_elements, elem_of_btree_keys, Hdom. }
  rewrite Hkeys. unfold btree_keys, btree_values.
  assert (Hall : ∀ p, p ∈ btree_entries (overlay_maps bm m).1 → overlay_get_node base m p.1 = Some p.2).
  { intros [id n] Hin%elem_of_btree_entries. by rewrite overlay_node. }
  induction (btree_entries (overlay_maps bm m).1) as [|p l IH]; csimpl; [done|].
  rewrite (Hall p) by left. f_equal. apply IH. intros q Hq. apply Hall. by right.
Qed.

Lemma overlay_view_of : view_of (overlay_view base bm.1 m) (overlay_maps bm m).
Proof.
  destruct Hkeyed as [Hkn Hke]. simpl in Hkn, Hke.
  split; cbn [overlay_view gv_get_node gv_get_edge gv_contains_node gv_lookup_unique_key gv_node_ids_by_type
    gv_edge_ids_for gv_node_ids_in_time_range gv_vector_candidate_ids gv_all_nodes].
  - apply overlay_node.
  - apply overlay_edge.
  - intros id. by rewrite bool_decide_eq_true, overlay_node.
  - intros key id. unfold overlay_lookup_unique_key. destruct (List.find _ _) as [n|] eqn:Hfind.
    + intros [= <-]. apply List.find_some in Hfind as [Hin Hk]. apply list_elem_of_In in Hin.
      apply elem_of_btree_values in Hin as [id Hid]. rewrite (Hkn _ _ Hid). exists n.
      rewrite <-overlay_node. split; [by apply overlay_node_added|]. by apply bool_decide_eq_true in Hk.
    + intros (id' & Hl & Hid)%bind_Some. destruct (overlay_get_node base m id') as [n|] eqn:Hn; simpl in Hid; [|done].
      destruct (has_unique_key key n) eqn:Hk; simplify_eq. exists n. rewrite <-overlay_node.
      by apply bool_decide_eq_true in Hk.
  - intros ty id. unfold overlay_node_ids_by_type.
    rewrite elem_of_overlay_ids; [|done|apply overlay_node_added|].
    + setoid_rewrite bool_decide_eq_true. by setoid_rewrite overlay_node.
    + intros k n Hn Ha Hty%bool_decide_eq_true. apply (vo_type _ _ Hbase). exists n.
      split; [by eapply overlay_node_base|done].
  - intros ty. apply bset_elements_NoDup.
  - intros id direction ty eid. rewrite elem_of_overlay_ids; [by setoid_rewrite overlay_edge|done|apply overlay_edge_added|].
    intros k e He Ha Hm. apply (vo_edges _ _ Hbase). exists e. split; [by eapply overlay_edge_base|done].
  - intros from to Hr. destruct (vo_time _ _ Hbase from to Hr) as (l & -> & Hl). eexists. split; [done|].
    intros id. rewrite elem_of_overlay_ids; [by setoid_rewrite overlay_node|done|apply overlay_node_added|].
    intros k n Hn Ha Ht. apply Hl. exists n. split; [by eapply overlay_node_base|done].
  - intros name id. unfold overlay_vector_candidate_ids, overlay_ids.
    rewrite elem_of_bset_elements, elem_of_union, !elem_of_list_to_set, list_elem_of_filter, list_elem_of_fmap.
    setoid_rewrite list_elem_of_filter. setoid_rewrite elem_of_btree_values.
    intros [[Hv _]|(n & -> & Hv & k & Hk)].
    + destruct (overlay_get_node base m id) as [n|] eqn:Hn; simpl in Hv; [|done]. exists n.
      rewrite <-overlay_node. split; [done|]. by apply bool_decide_eq_true in Hv.
    + exists n. rewrite (Hkn _ _ Hk), <-overlay_node. split; [by apply overlay_node_added|].
      by apply bool_decide_eq_true in Hv.
  - apply overlay_all.
Qed.
End overlay.

End laws.

(** ** Concrete inputs *)

Module Demo.
Import Batch.Demo Index.Demo.

Definition snapshot : GraphSnapshot := mkSnapshot maps Index.Demo.index.
Lemma snapshot_agrees : index_agrees ((gs_maps snapshot).1 !!.) ((gs_maps snapshot).2 !!.) (gs_indexes snapshot).
Proof.
  apply (rebuilt_index_agrees_both maps VectorIndexConfig_default None [] (mkWorld ∅ ∅ [] None None)), maps_are_wf.
Qed.

Definition view : GraphView := snapshot_view [] snapshot.
Lemma view_ok : view_of view maps.
Proof. apply (snapshot_view_of [] snapshot), snapshot_agrees. Qed.
Lemma maps_keyed : keyed maps.
Proof. split; apply maps_are_wf. Qed.

(** A transaction that adds a node and an edge to it, and removes [b]. *)
Definition mutation : GraphMutation :=
  mkMutation {[mkNodeId "b"]} {[mkEdgeId "ab"]} {[mkNodeId "c" := node "c" "robot"]}
    {[mkEdgeId "ac" := edge "ac" "a" "c"]}.
End Demo.

