(* ===== verification/Traversal.v ===== *)
(** * [crates/query]: bounded traversal

    [TraversalExecutionIter]: a breadth-first search with a depth bound, a bound on the
    nodes and edges it returns and a time limit.  [clock k] is what the [k]-th reading
    of the elapsed milliseconds gives. *)
From S2P Require Import Prelude RustStd RustFloat Common Core Config Fs Memory Batch Index Query.

#[local] Open Scope string_scope.
#[local] Open Scope list_scope.

Definition neighbor_of (direction : EdgeDirection) (id : NodeId) (e : EdgeRecord) : NodeId :=
  match direction with
  | Outgoing => edge_target e
  | Incoming => edge_source e
  | Both => if decide (edge_source e = id) then edge_target e else edge_source e
  end.

Definition type_allowed (c : TraversalConstraints) (ty : string) : bool :=
  is_nil (edge_types c) || bool_decide (ty ∈ edge_types c).
Definition label_allowed (c : TraversalConstraints) (ty : string) : bool :=
  is_nil (node_labels c) || bool_decide (ty ∈ node_labels c).

(** [expand_neighbors_iter], which [expand_neighbors] collects. *)
Definition expand_neighbors (v : GraphView) (id : NodeId) (direction : EdgeDirection)
    (c : TraversalConstraints) : list (EdgeRecord * NodeId) :=
  omap (λ e,
      let neighbor_id := neighbor_of direction id e in
      neighbor ← gv_get_node v neighbor_id;
      if label_allowed c (node_type neighbor) then Some (e, neighbor_id) else None)
    (filter (λ e, type_allowed c (edge_type e) = true)
      (omap (gv_get_edge v) (gv_edge_ids_for v id direction None))).

Record TraversalState := mkTraversal {
  visited_nodes : gset NodeId;
  visited_edges : gset EdgeId;
  t_queue : list (NodeId * N);
  t_pending : list QueryExecutionItem;
}.

Section traversal.
Context (v : GraphView) (direction : EdgeDirection) (rt : TraversalRuntime).

(** [TraversalExecutionIter::new]. *)
Definition traversal_new (start : NodeId) : TraversalState :=
  if gv_contains_node v start then
    mkTraversal {[start]} ∅ [(start, 0%N)] (INode <$> option_list (gv_get_node v start))
  else mkTraversal ∅ ∅ [] [].

Definition below_limit (n : nat) : bool := (N.of_nat n <? rt_limit rt)%N.

Definition visit_edge (st : TraversalState) (e : EdgeRecord) : TraversalState :=
  if below_limit (size (visited_edges st)) && negb (bool_decide (edge_id e ∈ visited_edges st)) then
    mkTraversal (visited_nodes st) ({[edge_id e]} ∪ visited_edges st) (t_queue st)
      (t_pending st ++ [IEdge e])
  else st.

(** [visited_nodes.insert(..)] happens before the limit is looked at. *)
Definition visit_node (depth : N) (st : TraversalState) (id : NodeId) : TraversalState :=
  if decide (id ∈ visited_nodes st) then st
  else
    let visited := {[id]} ∪ visited_nodes st in
    if (N.of_nat (size visited) <=? rt_limit rt)%N then
      mkTraversal visited (visited_edges st) (t_queue st ++ [(id, (depth + 1)%N)])
        (t_pending st ++ (INode <$> option_list (gv_get_node v id)))
    else mkTraversal visited (visited_edges st) (t_queue st) (t_pending st).

Definition visit (depth : N) (st : TraversalState) (neighbor : EdgeRecord * NodeId) : TraversalState :=
  visit_node depth (visit_edge st neighbor.1) neighbor.2.

(** The body of the loop once the pending items are out: the node at the front of the
    queue, with what it leaves pending. *)
Definition traversal_step (id : NodeId) (depth : N) (queue : list (NodeId * N)) (st : TraversalState)
    : TraversalState :=
  let st := mkTraversal (visited_nodes st) (visited_edges st) queue [] in
  if (depth =? rt_max_depth rt)%N || negb (below_limit (size (visited_nodes st))) then st
  else foldl (visit depth) st (expand_neighbors v id direction (rt_constraints rt)).

(** The items [next] returns, until the first [None]. *)
Fixpoint traversal_items (clock : nat → N) (fuel tick : nat) (st : TraversalState)
    : option (list QueryExecutionItem) :=
  match fuel with
  | O => None
  | S fuel =>
    app (t_pending st) <$>
    match t_queue st with
    | [] => Some []
    | (id, depth) :: queue =>
      if (rt_timeout_ms rt <=? clock tick)%N then Some []
      else traversal_items clock fuel (S tick) (traversal_step id depth queue st)
    end
  end.

(** Every turn takes a node off the queue, and at most [limit] are put on it. *)
Definition traverse (clock : nat → N) (start : NodeId) : option (list QueryExecutionItem) :=
  traversal_items clock (S (S (N.to_nat (rt_limit rt)))) 0 (traversal_new start).
End traversal.

(** ** Bounds *)

Definition nodes_in (items : list QueryExecutionItem) : list NodeRecord :=
  omap (λ i, match i with INode n => Some n | _ => None end) items.
Definition edges_in (items : list QueryExecutionItem) : list EdgeRecord :=
  omap (λ i, match i with IEdge e => Some e | _ => None end) items.

Lemma nodes_in_app l k : nodes_in (l ++ k) = nodes_in l ++ nodes_in k.
Proof. apply omap_app. Qed.
Lemma edges_in_app l k : edges_in (l ++ k) = edges_in l ++ edges_in k.
Proof. apply omap_app. Qed.
Lemma elem_of_nodes_in items n : n ∈ nodes_in items ↔ INode n ∈ items.
Proof.
  unfold nodes_in. rewrite list_elem_of_omap. split; [|by eexists].
  by intros ([] & Hin & [= ->]).
Qed.
Lemma elem_of_edges_in items e : e ∈ edges_in items ↔ IEdge e ∈ items.
Proof.
  unfold edges_in. rewrite list_elem_of_omap. split; [|by eexists].
  by intros ([] & Hin & [= ->]).
Qed.
Lemma nodes_in_nodes l : nodes_in (INode <$> l) = l.
Proof. induction l; csimpl; [done|]. by f_equal. Qed.
Lemma edges_in_nodes l : edges_in (INode <$> l) = [].
Proof. induction l; csimpl; done. Qed.

Section bounds.
Context (v : GraphView) (m : Maps) (direction : EdgeDirection) (rt : TraversalRuntime).
Context (Hview : view_of v m) (Hkeyed : keyed m).

Definition room {A} `{Countable A} (s : gset A) : nat := N.to_nat (rt_limit rt) - size s.

(** What a piece of the traversal does to the state. *)
Record advances (st st' : TraversalState) (new : list QueryExecutionItem) : Prop := {
  ad_pending : t_pending st' = t_pending st ++ new;
  ad_nodes : visited_nodes st ⊆ visited_nodes st';
  ad_edges : visited_edges st ⊆ visited_edges st';
  ad_queue : (length (t_queue st') + room (visited_nodes st') ≤ length (t_queue st) + room (visited_nodes st))%nat;
  ad_node_count : (length (nodes_in new) + room (visited_nodes st') ≤ room (visited_nodes st))%nat;
  ad_edge_count : (length (edges_in new) + room (visited_edges st') ≤ room (visited_edges st))%nat;
  ad_node_new : ∀ n, n ∈ nodes_in new → (node_id n ∉ visited_nodes st) ∧ node_id n ∈ visited_nodes st';
  ad_edge_new : ∀ e, e ∈ edges_in new → (edge_id e ∉ visited_edges st) ∧ edge_id e ∈ visited_edges st';
  ad_node_once : NoDup (node_id <$> nodes_in new);
  ad_edge_once : NoDup (edge_id <$> edges_in new);
}.

Lemma advances_refl st : advances st st [].
Proof.
  split; csimpl; try done; try lia; try (by rewrite app_nil_r); try apply base.NoDup_nil_2;
    by intros ? ?%elem_of_nil.
Qed.

(** Lists of records found one after the other stay without repetition. *)
Lemma NoDup_later {A B} (key : A → B) (P : B → Prop) l k :
  NoDup (key <$> l) → NoDup (key <$> k) → (∀ a, a ∈ l → P (key a)) → (∀ a, a ∈ k → ¬ P (key a)) →
  NoDup (key <$> (l ++ k)).
Proof.
  intros Hl Hk HP HQ. rewrite fmap_app. apply list.NoDup_app. split; [done|]. split; [|done].
  intros b (a & -> & Ha)%list_elem_of_fmap (a' & Heq & Ha')%list_elem_of_fmap.
  apply (HQ a' Ha'). rewrite <-Heq. by apply HP.
Qed.

Lemma advances_trans st1 st2 st3 new1 new2 :
  advances st1 st2 new1 → advances st2 st3 new2 → advances st1 st3 (new1 ++ new2).
Proof.
  intros [] []. split; rewrite ?nodes_in_app, ?edges_in_app, ?length_app; try lia; try (by etrans).
  - rewrite ad_pending1, ad_pending0. by rewrite app_assoc.
  - intros n [Hn|Hn]%elem_of_app; [apply ad_node_new0 in Hn|apply ad_node_new1 in Hn]; naive_solver.
  - intros e [He|He]%elem_of_app; [apply ad_edge_new0 in He|apply ad_edge_new1 in He]; naive_solver.
  - apply (NoDup_later _ (.∈ visited_nodes st2)); [done|done| |]; intros n Hn;
      [by apply ad_node_new0|by apply ad_node_new1].
  - apply (NoDup_later _ (.∈ visited_edges st2)); [done|done| |]; intros e He;
      [by apply ad_edge_new0|by apply ad_edge_new1].
Qed.

Lemma room_insert {A} `{Countable A} (a : A) (s : gset A) : a ∉ s →
  room ({[a]} ∪ s) = (room s - 1)%nat ∧ size ({[a]} ∪ s) = S (size s).
Proof.
  intros Ha. assert (Hs : size ({[a]} ∪ s) = S (size s)).
  { rewrite size_union by set_solver. by rewrite size_singleton. }
  unfold room. rewrite Hs. lia.
Qed.

Lemma visit_edge_advances st e : ∃ new, advances st (visit_edge rt st e) new.
Proof.
  unfold visit_edge, below_limit. destruct (N.ltb_spec (N.of_nat (size (visited_edges st))) (rt_limit rt)) as [Hlt|];
    [|exists []; apply advances_refl].
  case_bool_decide as Hin; [exists []; apply advances_refl|]. simpl.
  destruct (room_insert (edge_id e) (visited_edges st) Hin) as [Hroom _].
  assert (0 < room (visited_edges st))%nat by (unfold room; lia).
  exists [IEdge e]. split; simpl; try done; try lia; try set_solver; try apply list.NoDup_singleton; apply base.NoDup_nil_2.
Qed.

Lemma visit_node_advances depth st id : ∃ new, advances st (visit_node v rt depth st id) new.
Proof.
  unfold visit_node. case_decide as Hin; [exists []; apply advances_refl|].
  destruct (room_insert id (visited_nodes st) Hin) as [Hroom Hsize].
  case_match eqn:Hle.
  - apply N.leb_le in Hle. assert (0 < room (visited_nodes st))%nat by (unfold room; lia).
    exists (INode <$> option_list (gv_get_node v id)).
    assert (Hid : ∀ n, n ∈ option_list (gv_get_node v id) → node_id n = id).
    { intros n. rewrite (vo_get_node _ _ Hview). destruct (m.1 !! id) eqn:Hn; simpl; [|by intros ?%elem_of_nil].
      intros ->%list_elem_of_singleton. by apply (kd_nodes _ Hkeyed). }
    assert (Hlen : (length (option_list (gv_get_node v id)) ≤ 1)%nat)
      by (destruct (gv_get_node v id); simpl; lia).
    split; cbn [t_pending visited_nodes visited_edges t_queue];
      rewrite ?nodes_in_nodes, ?edges_in_nodes, ?length_app; cbn [length]; try done; try lia.
    + set_solver.
    + intros n Hn. rewrite (Hid n Hn). set_solver.
    + by intros e ?%elem_of_nil.
    + destruct (gv_get_node v id); simpl; [apply list.NoDup_singleton|apply base.NoDup_nil_2].
    + apply base.NoDup_nil_2.
  - exists []. split; simpl; try done; try lia; try set_solver; try (by rewrite app_nil_r); apply base.NoDup_nil_2.
Qed.

Lemma visit_advances depth st neighbor : ∃ new, advances st (visit v rt depth st neighbor) new.
Proof.
  unfold visit. destruct (visit_edge_advances st neighbor.1) as [new1 H1].
  destruct (visit_node_advances depth (visit_edge rt st neighbor.1) neighbor.2) as [new2 H2].
  exists (new1 ++ new2). by eapply advances_trans.
Qed.

Lemma visits_advance depth l : ∀ st, ∃ new, advances st (foldl (visit v rt depth) st l) new.
Proof.
  induction l as [|x l IH]; intros st; simpl; [exists []; apply advances_refl|].
  destruct (visit_advances depth st x) as [new1 H1]. destruct (IH (visit v rt depth st x)) as [new2 H2].
  exists (new1 ++ new2). by eapply advances_trans.
Qed.

(** The state a turn starts from. *)
Definition drained (queue : list (NodeId * N)) (st : TraversalState) : TraversalState :=
  mkTraversal (visited_nodes st) (visited_edges st) queue [].

Lemma step_advances id depth queue st :
  advances (drained queue st) (traversal_step v direction rt id depth queue st)
    (t_pending (traversal_step v direction rt id depth queue st)).
Proof.
  unfold traversal_step. fold (drained queue st). destruct (_ || _); [apply advances_refl|].
  destruct (visits_advance depth (expand_neighbors v id direction (rt_constraints rt)) (drained queue st))
    as [new Hnew]. pose proof (ad_pending _ _ _ Hnew) as Hp. simpl in Hp. by rewrite Hp.
Qed.

(** Enough turns, and what the items after the pending ones can be. *)
Record later_items (st : TraversalState) (items : list QueryExecutionItem) : Prop := {
  li_nodes : (length (nodes_in items) ≤ room (visited_nodes st))%nat;
  li_edges : (length (edges_in items) ≤ room (visited_edges st))%nat;
  li_node_new : ∀ n, n ∈ nodes_in items → node_id n ∉ visited_nodes st;
  li_edge_new : ∀ e, e ∈ edges_in items → edge_id e ∉ visited_edges st;
  li_node_once : NoDup (node_id <$> nodes_in items);
  li_edge_once : NoDup (edge_id <$> edges_in items);
}.

Lemma later_nil st : later_items st [].
Proof. split; simpl; try lia; try apply base.NoDup_nil_2; by intros ? ?%elem_of_nil. Qed.

Lemma traversal_items_total clock fuel : ∀ tick st,
  (length (t_queue st) + room (visited_nodes st) < fuel)%nat →
  ∃ items, traversal_items v direction rt clock fuel tick st = Some (t_pending st ++ items) ∧ later_items st items.
Proof.
  induction fuel as [|fuel IH]; intros tick st Hfuel; [lia|]. cbn [traversal_items].
  destruct (t_queue st) as [|[id depth] queue] eqn:Hq; [exists []; split; [done|apply later_nil]|].
  destruct (rt_timeout_ms rt <=? clock tick)%N; [exists []; split; [done|apply later_nil]|].
  pose proof (step_advances id depth queue st) as Had.
  set (st' := traversal_step v direction rt id depth queue st) in *.
  destruct (IH (S tick) st') as (items & Hrun & Hl).
  { pose proof (ad_queue _ _ _ Had). simpl in *. lia. }
  exists (t_pending st' ++ items). split; [by rewrite Hrun|]. destruct Had, Hl. simpl in *.
  split; rewrite ?nodes_in_app, ?edges_in_app, ?length_app; try lia.
  - intros n [Hn|Hn]%elem_of_app; [by apply ad_node_new0|]. apply li_node_new0 in Hn. naive_solver.
  - intros e [He|He]%elem_of_app; [by apply ad_edge_new0|]. apply li_edge_new0 in He. naive_solver.
  - apply (NoDup_later _ (.∈ visited_nodes st')); [done|done| |]; intros n Hn;
      [by apply ad_node_new0|by apply li_node_new0].
  - apply (NoDup_later _ (.∈ visited_edges st')); [done|done| |]; intros e He;
      [by apply ad_edge_new0|by apply li_edge_new0].
Qed.
End bounds.

(** ** Reachability *)

Section reach.
Context (m : Maps) (direction : EdgeDirection) (c : TraversalConstraints).

Definition connects (a : NodeId) (e : EdgeRecord) (b : NodeId) : Prop :=
  match direction with
  | Outgoing => edge_source e = a ∧ edge_target e = b
  | Incoming => edge_target e = a ∧ edge_source e = b
  | Both => (edge_source e = a ∧ edge_target e = b) ∨ (edge_target e = a ∧ edge_source e = b)
  end.

(** An edge the constraints allow, into a node they allow. *)
Definition hop_by (a : NodeId) (e : EdgeRecord) (b : NodeId) : Prop :=
  m.2 !! edge_id e = Some e ∧ connects a e b ∧ type_allowed c (edge_type e) = true ∧
  ∃ n, m.1 !! b = Some n ∧ label_allowed c (node_type n) = true.
Definition hop (a b : NodeId) : Prop := ∃ e, hop_by a e b.

Inductive reach (s : NodeId) : N → NodeId → Prop :=
| reach_start : reach s 0 s
| reach_hop d x y : reach s d x → hop x y → reach s (d + 1) y.

Lemma connects_neighbor a e b : connects a e b ↔
  edge_matches e a direction None = true ∧ neighbor_of direction a e = b.
Proof.
  rewrite edge_matches_spec. unfold connects, neighbor_of. destruct direction; [naive_solver..|].
  case_decide as Hs; split.
  - intros [[? ?]|[? ?]]; split; try tauto; congruence.
  - naive_solver.
  - intros [[? ?]|[? ?]]; split; try tauto; congruence.
  - naive_solver.
Qed.

Lemma elem_of_expand v a e b : view_of v m → keyed m →
  (e, b) ∈ expand_neighbors v a direction c ↔ hop_by a e b.
Proof.
  intros Hv Hk. unfold expand_neighbors, hop_by. rewrite connects_neighbor, list_elem_of_omap. split.
  - intros (e' & Hin & Hsome). apply list_elem_of_filter in Hin as [Hty Hin].
    apply list_elem_of_omap in Hin as (eid & Heid & He).
    rewrite (vo_get_edge _ _ Hv) in He. apply (vo_edges _ _ Hv) in Heid as (e'' & He'' & Hm).
    rewrite He'' in He. simplify_eq. apply bind_Some in Hsome as (n & Hn & Hsome).
    destruct (label_allowed c (node_type n)) eqn:Hl; simplify_eq.
    rewrite (vo_get_node _ _ Hv) in Hn. rewrite (kd_edges _ Hk _ _ He''). eauto 10.
  - intros (He & [Hm Hb] & Hty & n & Hn & Hl). exists e. split.
    + apply list_elem_of_filter. split; [done|]. apply list_elem_of_omap. exists (edge_id e).
      rewrite (vo_get_edge _ _ Hv). split; [|done]. apply (vo_edges _ _ Hv). eauto.
    + rewrite Hb, (vo_get_node _ _ Hv), Hn. simpl. by rewrite Hl.
Qed.
End reach.

Section correct.
Context (v : GraphView) (m : Maps) (direction : EdgeDirection) (rt : TraversalRuntime) (start : NodeId).
Context (Hview : view_of v m) (Hkeyed : keyed m).
Abbreviation c := (rt_constraints rt).

(** What an item of the answer is. *)
Definition item_ok (item : QueryExecutionItem) : Prop :=
  match item with
  | INode n => m.1 !! node_id n = Some n ∧
      ∃ d, (d <= rt_max_depth rt)%N ∧ reach m direction c start d (node_id n)
  | IEdge e => ∃ a b d, (d < rt_max_depth rt)%N ∧ reach m direction c start d a ∧ hop_by m direction c a e b
  | IRanked _ | IPath _ => False
  end.

Record sound (st : TraversalState) : Prop := {
  so_queue : ∀ x d, (x, d) ∈ t_queue st → (d <= rt_max_depth rt)%N ∧ reach m direction c start d x;
  so_pending : Forall item_ok (t_pending st);
}.

Lemma visit_sound depth st x e b : sound st → (depth < rt_max_depth rt)%N →
  reach m direction c start depth x → hop_by m direction c x e b → sound (visit v rt depth st (e, b)).
Proof.
  intros Hst Hd Hx Hh. assert (Hse : sound (visit_edge rt st e)).
  { destruct Hst as [Hq Hp]. unfold visit_edge. destruct (_ && _); [|by split]. split; simpl; [done|].
    apply list.Forall_app. split; [done|]. repeat constructor. exists x, b, depth. done. }
  unfold visit, visit_node. cbn [fst snd]. case_decide; [done|]. case_match; [|by destruct Hse].
  assert (Hb : reach m direction c start (depth + 1) b) by (econstructor; [done|by exists e]).
  destruct Hse as [Hq Hp]. split; simpl.
  - intros y d [Hy|Hy%list_elem_of_singleton]%elem_of_app; [by apply Hq|]. simplify_eq. split; [lia|done].
  - apply list.Forall_app. split; [done|]. rewrite (vo_get_node _ _ Hview).
    destruct (m.1 !! b) as [n|] eqn:Hn; simpl; [|constructor]. repeat constructor.
    + by rewrite (kd_nodes _ Hkeyed _ _ Hn).
    + rewrite (kd_nodes _ Hkeyed _ _ Hn). exists (depth + 1)%N. split; [lia|done].
Qed.

Lemma step_sound x depth queue st : sound (drained ((x, depth) :: queue) st) →
  sound (traversal_step v direction rt x depth queue st).
Proof.
  intros [Hq _]. assert (Hst : sound (drained queue st)).
  { split; [|constructor]. intros y d Hy. apply Hq. by right. }
  destruct (Hq x depth) as [Hle Hx]; [left|]. unfold traversal_step. fold (drained queue st).
  destruct (depth =? rt_max_depth rt)%N eqn:Hd; [done|]. apply N.eqb_neq in Hd. simpl.
  destruct (negb _); [done|].
  assert (Hall : ∀ e b, (e, b) ∈ expand_neighbors v x direction c → hop_by m direction c x e b).
  { intros e b. by apply elem_of_expand. }
  revert Hst Hall. generalize (drained queue st). induction (expand_neighbors v x direction c) as [|[e b] l IH];
    intros st' Hst Hall; [done|]. cbn [foldl]. apply IH; [|intros e' b' Hin; apply Hall; by right].
  apply (visit_sound depth st' x); [done|lia|done|apply Hall; left].
Qed.

Lemma items_sound clock fuel : ∀ tick st items, sound st →
  traversal_items v direction rt clock fuel tick st = Some items → Forall item_ok items.
Proof.
  induction fuel as [|fuel IH]; intros tick st items Hst; [done|]. cbn [traversal_items].
  pose proof (so_pending _ Hst) as Hp.
  destruct (t_queue st) as [|[x d] queue] eqn:Hq; [intros [= <-]; by rewrite app_nil_r|].
  destruct (rt_timeout_ms rt <=? clock tick)%N; [intros [= <-]; by rewrite app_nil_r|].
  intros (items' & Hrun & ->)%fmap_Some. apply list.Forall_app. split; [done|].
  eapply IH; [|done]. apply step_sound. split; [|constructor]. simpl. rewrite <-Hq. apply Hst.
Qed.

Lemma new_sound : sound (traversal_new v start).
Proof.
  unfold traversal_new. destruct (gv_contains_node v start) eqn:Hc; [|split; [by intros ? ? ?%elem_of_nil|constructor]].
  split; simpl.
  - intros x d Hx%list_elem_of_singleton. simplify_eq. split; [lia|constructor].
  - rewrite (vo_get_node _ _ Hview). destruct (m.1 !! start) as [n|] eqn:Hn; simpl; [|constructor].
    repeat constructor; rewrite (kd_nodes _ Hkeyed _ _ Hn); [done|]. exists 0%N. split; [lia|constructor].
Qed.

(** ** Completeness

    While fewer nodes than the limit are reachable and time remains, nothing is left
    out.  [known] is the depth at which each visited node was found. *)
Context (B : gset NodeId) (HB : (N.of_nat (size B) < rt_limit rt)%N).
Context (Hin_B : ∀ d x, (d <= rt_max_depth rt)%N → reach m direction c start d x → x ∈ B).
Abbreviation depths := (gmap NodeId N).

Lemma insert_below (x : NodeId) V : V ⊆ B → x ∈ B → (N.of_nat (size ({[x]} ∪ V)) <= rt_limit rt)%N.
Proof.
  intros HV Hx. assert (size ({[x]} ∪ V) ≤ size B)%nat by (apply subseteq_size; set_solver). lia.
Qed.

(** What the visits of the neighbours of a node at [depth] add. *)
Record visits (depth : N) (st st' : TraversalState) (known known' : depths) (new : list NodeId)
    (l : list (EdgeRecord * NodeId)) : Prop := {
  vi_dom : visited_nodes st' = dom known';
  vi_queue : t_queue st' = t_queue st ++ ((λ b, (b, (depth + 1)%N)) <$> new);
  vi_known : ∀ b, known' !! b = if decide (b ∈ new) then Some (depth + 1)%N else known !! b;
  vi_new : ∀ b, b ∈ new → known !! b = None ∧ ∃ e, (e, b) ∈ l;
  vi_all : ∀ e b, (e, b) ∈ l → is_Some (known' !! b);
  vi_pending : t_pending st `prefix_of` t_pending st';
  vi_emitted : ∀ b, b ∈ new → ∃ n, INode n ∈ t_pending st' ∧ node_id n = b;
}.

Lemma visit_edge_same st e : visited_nodes (visit_edge rt st e) = visited_nodes st ∧
  t_queue (visit_edge rt st e) = t_queue st ∧ t_pending st `prefix_of` t_pending (visit_edge rt st e).
Proof. unfold visit_edge. destruct (_ && _); [|done]. simpl. split; [done|]. split; [done|]. by apply prefix_app_r. Qed.

Lemma visit_one depth st e b known : visited_nodes st = dom known → dom known ⊆ B → b ∈ B →
  is_Some (m.1 !! b) → ∃ known' new, visits depth st (visit v rt depth st (e, b)) known known' new [(e, b)].
Proof.
  intros Hdom HsubB Hb [n Hn]. destruct (visit_edge_same st e) as (HV & HQ & HP).
  unfold visit, visit_node. cbn [fst snd]. rewrite HV. case_decide as Hin.
  - exists known, []. rewrite Hdom in Hin. split; rewrite ?HV; try done.
    + by rewrite HQ, app_nil_r.
    + by intros ? ?%elem_of_nil.
    + intros e' b' ?%list_elem_of_singleton. simplify_eq. by apply elem_of_dom.
    + by intros ? ?%elem_of_nil.
  - rewrite Hdom in Hin. case_match eqn:Hle.
    2:{ apply N.leb_gt in Hle. rewrite Hdom in Hle. pose proof (insert_below b (dom known) HsubB Hb). lia. }
    exists (<[b := (depth + 1)%N]> known), [b]. split; cbn [visited_nodes t_queue t_pending].
    + by rewrite dom_insert_L, Hdom.
    + by rewrite HQ.
    + intros b'. case_decide as Hb'.
      * apply list_elem_of_singleton in Hb' as ->. by rewrite lookup_insert_eq.
      * rewrite list_elem_of_singleton in Hb'. by rewrite lookup_insert_ne.
    + intros b' ->%list_elem_of_singleton. split; [by apply not_elem_of_dom|]. exists e. by left.
    + intros e' b' ?%list_elem_of_singleton. simplify_eq. rewrite lookup_insert_eq. eauto.
    + by apply prefix_app_r.
    + intros b' ->%list_elem_of_singleton. exists n. rewrite (vo_get_node _ _ Hview), Hn.
      split; [apply elem_of_app; right; left|by apply (kd_nodes _ Hkeyed)].
Qed.

Lemma visit_many depth l : ∀ st known, visited_nodes st = dom known → dom known ⊆ B →
  (∀ e b, (e, b) ∈ l → b ∈ B ∧ is_Some (m.1 !! b)) →
  ∃ known' new, visits depth st (foldl (visit v rt depth) st l) known known' new l.
Proof.
  induction l as [|[e b] l IH]; intros st known Hdom HsubB Hl.
  - exists known, []. split; simpl; try done; try (by intros ? ?%elem_of_nil); [by rewrite app_nil_r|].
    by intros ? ? ?%elem_of_nil.
  - destruct (Hl e b) as [Hb Hsome]; [left|].
    destruct (visit_one depth st e b known) as (known1 & new1 & H1); [done..|].
    assert (HsubB1 : dom known1 ⊆ B).
    { intros x [d Hd]%elem_of_dom. rewrite (vi_known _ _ _ _ _ _ _ H1) in Hd. case_decide as Hx.
      - apply (vi_new _ _ _ _ _ _ _ H1) in Hx as [_ (e' & Hx%list_elem_of_singleton)]. by simplify_eq.
      - apply HsubB, elem_of_dom. eauto. }
    destruct (IH (visit v rt depth st (e, b)) known1) as (known2 & new2 & H2);
      [apply (vi_dom _ _ _ _ _ _ _ H1)|done|intros e' b' Hin; apply (Hl e' b'); by right|].
    exists known2, (new1 ++ new2). cbn [foldl]. destruct H1, H2. split; try done.
    + rewrite vi_queue1, vi_queue0. by rewrite fmap_app, app_assoc.
    + intros b'. rewrite vi_known1, vi_known0. repeat case_decide; try done; set_solver.
    + intros b' [Hb'|Hb']%elem_of_app.
      * apply vi_new0 in Hb' as [? (e' & ?%list_elem_of_singleton)]. simplify_eq. split; [done|]. exists e. left.
      * apply vi_new1 in Hb' as [Hnone (e' & He')]. split; [|exists e'; by right].
        rewrite vi_known0 in Hnone. by case_decide.
    + intros e' b' [?|Hin]%elem_of_cons; [|by eapply vi_all1].
      simplify_eq. rewrite vi_known1. case_decide; [eauto|]. apply (vi_all0 e). left.
    + by etrans.
    + intros b' [Hb'|Hb']%elem_of_app; [|by apply vi_emitted1].
      apply vi_emitted0 in Hb' as (n & Hn & Hid). exists n. split; [|done].
      by eapply elem_of_prefix.
Qed.

(** The state of a search that has left nothing out so far. *)
Record complete (st : TraversalState) (known : depths) : Prop := {
  co_dom : visited_nodes st = dom known;
  co_known : ∀ x d, known !! x = Some d → (d <= rt_max_depth rt)%N ∧ reach m direction c start d x;
  co_queue : ∀ x d, (x, d) ∈ t_queue st → known !! x = Some d;
  co_sorted : StronglySorted (λ p q, (p.2 <= q.2)%N) (t_queue st);
  co_near : ∀ x d y d', known !! x = Some d → (y, d') ∈ t_queue st → (d <= d' + 1)%N;
  co_closed : ∀ x d y, known !! x = Some d → (d < rt_max_depth rt)%N → (∀ d', (x, d') ∉ t_queue st) →
    hop m direction c x y → ∃ d', known !! y = Some d' ∧ (d' <= d + 1)%N;
}.

Lemma complete_bound st known : complete st known → dom known ⊆ B.
Proof.
  intros Hc x [d Hd]%elem_of_dom. apply (co_known _ _ Hc) in Hd as [Hd Hr]. by eapply Hin_B.
Qed.

Lemma complete_room st known : complete st known → below_limit rt (size (visited_nodes st)) = true.
Proof.
  intros Hc. apply N.ltb_lt. rewrite (co_dom _ _ Hc).
  pose proof (subseteq_size _ _ (complete_bound _ _ Hc)). lia.
Qed.

(** A node at the full depth is only taken off the queue. *)
Lemma complete_skip x depth queue st known : t_queue st = (x, depth) :: queue →
  depth = rt_max_depth rt → complete st known → complete (drained queue st) known.
Proof.
  intros Hq -> [Hdom Hk Hqu Hs Hnear Hcl]. rewrite Hq in Hqu, Hs, Hnear, Hcl.
  split; cbn [drained visited_nodes t_queue]; try done.
  - intros y d Hy. apply Hqu. by right.
  - by apply StronglySorted_inv in Hs as [? _].
  - intros z d y d' Hz Hy. apply (Hnear z d y d' Hz). by right.
  - intros z d y Hz Hd Hnin. apply Hcl; [done..|]. intros d' [[= -> ->]|Hin]%elem_of_cons; [|by eapply Hnin].
    rewrite (Hqu x (rt_max_depth rt)) in Hz by left. simplify_eq. lia.
Qed.

Lemma complete_expand x depth queue st known st' known' new : t_queue st = (x, depth) :: queue →
  (depth < rt_max_depth rt)%N → complete st known →
  visits depth (drained queue st) st' known known' new (expand_neighbors v x direction c) →
  complete st' known'.
Proof.
  intros Hq Hd [Hdom Hk Hqu Hs Hnear Hcl] [Vd Vq Vk Vn Va _ _]. rewrite Hq in Hqu, Hs, Hnear, Hcl.
  cbn [drained t_queue] in Vq.
  assert (Hx : known !! x = Some depth) by (apply Hqu; left).
  assert (Hold : ∀ y d, known !! y = Some d → known' !! y = Some d).
  { intros y d Hy. rewrite Vk, decide_False; [done|]. intros [Hnone _]%Vn. congruence. }
  assert (Hcase : ∀ y d, known' !! y = Some d → known !! y = Some d ∨ (y ∈ new ∧ d = (depth + 1)%N)).
  { intros y d. rewrite Vk. case_decide; [right|by left]. by simplify_eq. }
  assert (Hhead : ∀ y d', (y, d') ∈ queue → (depth <= d')%N).
  { intros y d' Hy. apply StronglySorted_inv in Hs as [_ Hall]. rewrite list.Forall_forall in Hall.
    apply (Hall _ Hy). }
  assert (Hle : ∀ y d, known !! y = Some d → (d <= depth + 1)%N).
  { intros y d Hy. apply (Hnear y d x depth Hy). left. }
  split; rewrite ?Vq.
  - done.
  - intros y d [Hy|[Hy ->]]%Hcase; [by apply Hk|]. split; [lia|].
    apply Vn in Hy as [_ (e & He)]. apply (elem_of_expand m) in He; [|done..].
    econstructor; [by apply Hk|by exists e].
  - intros y d [Hy|Hy]%elem_of_app; [apply Hold, Hqu; by right|].
    apply list_elem_of_fmap in Hy as (b & ? & Hb). simplify_eq. rewrite Vk. by rewrite decide_True.
  - apply StronglySorted_inv in Hs as [Hs _].
    assert (Hnew : StronglySorted (λ p q, (p.2 <= q.2)%N) ((λ b, (b, (depth + 1)%N)) <$> new)).
    { clear. induction new as [|b new IH]; csimpl; constructor; [done|]. apply list.Forall_fmap.
      apply list.Forall_forall. intros b' _. simpl. lia. }
    clear -Hs Hnew Hle Hqu. induction Hs as [|p l Hs IH Hp]; [done|]. simpl. constructor.
    + apply IH. intros y d Hy. apply Hqu. apply elem_of_cons in Hy as [->|Hy]; [left|right; by right].
    + apply list.Forall_app. split; [done|]. apply list.Forall_fmap, list.Forall_forall. intros b _. simpl.
      destruct p as [y d]. apply (Hle y). apply Hqu. right. left.
  - intros z d y d' Hz Hy. assert (Hzd : (d <= depth + 1)%N) by (apply Hcase in Hz as [Hz|[_ ->]]; [by eapply Hle|lia]).
    apply elem_of_app in Hy as [Hy|Hy]; [apply Hhead in Hy; lia|].
    apply list_elem_of_fmap in Hy as (b & ? & _). simplify_eq. lia.
  - intros z d y Hz Hdz Hnin Hhop. assert (Hzk : known !! z = Some d).
    { apply Hcase in Hz as [Hz|[Hz ->]]; [done|]. exfalso. apply (Hnin (depth + 1)%N).
      apply elem_of_app. right. by apply (list_elem_of_fmap_2 (λ b, (b, (depth + 1)%N))). }
    destruct (decide (z = x)) as [->|Hne].
    + simplify_eq. destruct Hhop as [e He]. apply (elem_of_expand m direction c v) in He; [|done..].
      apply Va in He as [d' Hd']. exists d'. split; [done|]. apply Hcase in Hd' as [Hd'|[_ ->]]; [by eapply Hle|lia].
    + destruct (Hcl z d y) as (d' & Hd' & Hle'); [done|done| |done|exists d'; eauto].
      intros d' [?|Hin]%elem_of_cons; [by simplify_eq|]. apply (Hnin d'). apply elem_of_app. by left.
Qed.

(** With the queue empty, every node within reach is known, no deeper than it is. *)
Lemma complete_reach st known : complete st known → t_queue st = [] → known !! start = Some 0%N →
  ∀ d x, reach m direction c start d x → (d <= rt_max_depth rt)%N → ∃ d', known !! x = Some d' ∧ (d' <= d)%N.
Proof.
  intros Hc Hq Hs d x. induction 1 as [|d x y Hr IH Hhop]; intros Hd; [by exists 0%N|].
  destruct IH as (d' & Hd' & Hle); [lia|].
  destruct (co_closed _ _ Hc x d' y) as (d'' & Hd'' & Hle'); [done|lia| |done|].
  - rewrite Hq. by intros ? ?%elem_of_nil.
  - exists d''. split; [done|lia].
Qed.

Lemma items_complete clock fuel : (∀ k, (clock k < rt_timeout_ms rt)%N) → ∀ tick st known items,
  complete st known → traversal_items v direction rt clock fuel tick st = Some items →
  ∃ st' known', complete st' known' ∧ t_queue st' = [] ∧ known ⊆ known' ∧
    ∀ x, is_Some (known' !! x) → is_Some (known !! x) ∨ ∃ n, INode n ∈ items ∧ node_id n = x.
Proof.
  intros Hclock. induction fuel as [|fuel IH]; intros tick st known items Hc; [done|]. cbn [traversal_items].
  destruct (t_queue st) as [|[x depth] queue] eqn:Hq; [intros _; exists st, known; eauto|].
  destruct (N.leb_spec (rt_timeout_ms rt) (clock tick)); [specialize (Hclock tick); lia|].
  intros (items' & Hrun & ->)%fmap_Some.
  enough (Hstep : ∃ known1, complete (traversal_step v direction rt x depth queue st) known1 ∧ known ⊆ known1 ∧
    ∀ y, is_Some (known1 !! y) → is_Some (known !! y) ∨
      ∃ n, INode n ∈ t_pending (traversal_step v direction rt x depth queue st) ∧ node_id n = y).
  { destruct Hstep as (known1 & Hc1 & Hsub1 & Hem1).
    destruct (IH _ _ _ _ Hc1 Hrun) as (st' & known' & Hc' & Hq' & Hsub & Hem).
    exists st', known'. split; [done|]. split; [done|]. split; [by etrans|].
    intros y [Hy|(n & Hn & Hid)]%Hem.
    - apply Hem1 in Hy as [Hy|(n & Hn & Hid)]; [by left|]. right. exists n. split; [|done].
      apply elem_of_app. right. destruct fuel; [done|]. cbn [traversal_items] in Hrun.
      apply fmap_Some in Hrun as (rest & _ & ->). apply elem_of_app. by left.
    - right. exists n. split; [|done]. apply elem_of_app. by right. }
  unfold traversal_step. fold (drained queue st).
  assert (Hroom : below_limit rt (size (visited_nodes (drained queue st))) = true)
    by (exact (complete_room st known Hc)).
  change (mkTraversal _ _ _ _) with (drained queue st). rewrite Hroom. cbn [negb]. rewrite orb_false_r.
  destruct (N.eqb_spec depth (rt_max_depth rt)) as [Heq|Hne].
  - exists known. split; [by eapply complete_skip|]. split; [done|]. by left.
  - assert ((depth < rt_max_depth rt)%N ∧ reach m direction c start depth x) as [Hd Hx].
    { destruct (co_known _ _ Hc x depth) as [? ?]; [|split; [lia|done]]. apply (co_queue _ _ Hc). rewrite Hq. left. }
    destruct (visit_many depth (expand_neighbors v x direction c) (drained queue st) known)
      as (known' & new & Hvis).
    + apply (co_dom _ _ Hc).
    + by eapply complete_bound.
    + intros e b He. apply (elem_of_expand m) in He; [|done..]. split.
      * apply (Hin_B (depth + 1)); [lia|]. econstructor; [done|by exists e].
      * destruct He as (_ & _ & _ & n & Hn & _). eauto.
    + exists known'. split; [by eapply complete_expand|]. split.
      * apply map_subseteq_spec. intros y d Hy. rewrite (vi_known _ _ _ _ _ _ _ Hvis).
        rewrite decide_False; [done|]. intros [Hnone _]%(vi_new _ _ _ _ _ _ _ Hvis). congruence.
      * intros y. rewrite (vi_known _ _ _ _ _ _ _ Hvis). case_decide as Hy; [|by left].
        intros _. right. by apply (vi_emitted _ _ _ _ _ _ _ Hvis).
Qed.
End correct.

(** ** Properties *)

Lemma traverse_bounded v m direction rt clock start : view_of v m → keyed m → (0 < rt_limit rt)%N →
  ∃ items, traverse v direction rt clock start = Some items ∧
    (length (nodes_in items) ≤ N.to_nat (rt_limit rt))%nat ∧ NoDup (node_id <$> nodes_in items) ∧
    (length (edges_in items) ≤ N.to_nat (rt_limit rt))%nat ∧ NoDup (edge_id <$> edges_in items) ∧
    Forall (item_ok m direction rt start) items.
Proof.
  intros Hv Hk Hlimit. pose proof (new_sound v m direction rt start Hv Hk) as Hsound.
  destruct (traversal_items_total v m direction rt Hv Hk clock (S (S (N.to_nat (rt_limit rt)))) 0
    (traversal_new v start)) as (items & Hrun & Hl).
  { unfold traversal_new. destruct (gv_contains_node v start); simpl; unfold room; rewrite ?size_singleton; lia. }
  exists (t_pending (traversal_new v start) ++ items). split; [done|].
  pose proof (items_sound v m direction rt start Hv Hk _ _ _ _ _ Hsound Hrun) as Hok.
  enough (Hnew : (length (nodes_in (t_pending (traversal_new v start))) +
      room rt (visited_nodes (traversal_new v start)) ≤ N.to_nat (rt_limit rt))%nat ∧
    edges_in (t_pending (traversal_new v start)) = [] ∧
    NoDup (node_id <$> nodes_in (t_pending (traversal_new v start))) ∧
    ∀ n, n ∈ nodes_in (t_pending (traversal_new v start)) → node_id n ∈ visited_nodes (traversal_new v start)).
  { destruct Hnew as (Hcount & Hedges & Honce & Hin), Hl. rewrite nodes_in_app, edges_in_app, Hedges, length_app.
    split; [lia|]. split.
    - apply (NoDup_later _ (.∈ visited_nodes (traversal_new v start))); [done|done|done|].
      intros n Hn. by apply li_node_new0.
    - simpl. unfold room in li_edges0. split; [lia|]. done. }
  unfold traversal_new. destruct (gv_contains_node v start); simpl.
  - rewrite nodes_in_nodes, edges_in_nodes, (vo_get_node _ _ Hv). unfold room. rewrite size_singleton.
    destruct (m.1 !! start) as [n|] eqn:Hn; simpl; repeat split; try lia; try apply base.NoDup_nil_2;
      try apply list.NoDup_singleton.
    + intros n' ->%list_elem_of_singleton. rewrite (kd_nodes _ Hk _ _ Hn). by apply elem_of_singleton.
    + by intros n' ?%elem_of_nil.
  - unfold room. rewrite size_empty. repeat split; try lia; [apply base.NoDup_nil_2|by intros n ?%elem_of_nil].
Qed.

(** C23: A traversal ends, whatever the graph: the loop takes at most one turn per node
    of the limit and one more.  Its answer has no node and no edge twice, at most
    [limit] of each, and holds only nodes within [max_depth] hops of the start along
    edges the constraints allow, and such edges. *)
Theorem traversal_terminates v m direction rt clock start : view_of v m → keyed m → (0 < rt_limit rt)%N →
  ∃ items, traverse v direction rt clock start = Some items ∧
    (length (nodes_in items) ≤ N.to_nat (rt_limit rt))%nat ∧ NoDup (node_id <$> nodes_in items) ∧
    (length (edges_in items) ≤ N.to_nat (rt_limit rt))%nat ∧ NoDup (edge_id <$> edges_in items) ∧
    Forall (item_ok m direction rt start) items.
Proof. apply traverse_bounded. Qed.

(** C22: A traversal that is not cut short finds everything: when time does not run out
    and fewer nodes than the limit are within [max_depth] hops of the start, the answer
    has every one of them. *)
Theorem traversal_finds_all v m direction rt clock start (B : gset NodeId) : view_of v m → keyed m →
  (∀ k, (clock k < rt_timeout_ms rt)%N) → (N.of_nat (size B) < rt_limit rt)%N →
  (∀ d x, (d <= rt_max_depth rt)%N → reach m direction (rt_constraints rt) start d x → x ∈ B) →
  is_Some (m.1 !! start) →
  ∃ items, traverse v direction rt clock start = Some items ∧
    ∀ d x, (d <= rt_max_depth rt)%N → reach m direction (rt_constraints rt) start d x →
      ∃ n, INode n ∈ items ∧ node_id n = x.
Proof.
  intros Hv Hk Hclock HB Hin Hstart.
  destruct (traverse_bounded v m direction rt clock start Hv Hk) as (items & Hrun & _); [lia|].
  exists items. split; [done|]. intros d x Hd Hx. unfold traverse in Hrun.
  assert (Hnew : traversal_new v start = mkTraversal {[start]} ∅ [(start, 0%N)]
    (INode <$> option_list (m.1 !! start))).
  { unfold traversal_new. apply (vo_contains _ _ Hv) in Hstart. by rewrite Hstart, (vo_get_node _ _ Hv). }
  rewrite Hnew in Hrun.
  assert (Hc : complete m direction rt start (mkTraversal {[start]} ∅ [(start, 0%N)]
    (INode <$> option_list (m.1 !! start))) {[start := 0%N]}).
  { split; cbn [visited_nodes t_queue].
    - by rewrite dom_singleton_L.
    - intros y dy [<- <-]%lookup_singleton_Some. split; [lia|constructor].
    - intros y dy ?%list_elem_of_singleton. simplify_eq. by rewrite lookup_singleton_eq.
    - repeat constructor.
    - intros y dy z dz [<- <-]%lookup_singleton_Some _. lia.
    - intros y dy z [<- <-]%lookup_singleton_Some _ Hnin. destruct (Hnin 0%N). left. }
  destruct (items_complete v m direction rt start Hv Hk B HB Hin clock _ Hclock _ _ _ _ Hc Hrun)
    as (st' & known' & Hc' & Hq' & Hsub & Hem).
  assert (Hs : known' !! start = Some 0%N).
  { eapply lookup_weaken; [|done]. by rewrite lookup_singleton_eq. }
  destruct (complete_reach m direction rt start B HB st' known' Hc' Hq' Hs d x Hx Hd) as (d' & Hd' & _).
  destruct (Hem x) as [Hx'|Hx']; [eauto| |done].
  destruct Hx' as [dx [<- <-]%lookup_singleton_Some]. destruct Hstart as [n Hn]. exists n.
  split; [|by apply (kd_nodes _ Hk)]. cbn [traversal_items t_pending] in Hrun.
  apply fmap_Some in Hrun as (rest & _ & ->). rewrite Hn. left.
Qed.

(** ** Concrete inputs *)

Module Demo.
Import Batch.Demo Query.Demo.

Definition runtime : TraversalRuntime := mkRuntime 5 100 5000 TraversalConstraints_default.
Definition clock (k : nat) : N := 1.
Definition items : list QueryExecutionItem :=
  [INode (node "a" "person"); IEdge (edge "ab" "a" "b"); INode (node "b" "person")].

Lemma in_graph d x : reach maps Outgoing (rt_constraints runtime) (mkNodeId "a") d x → x ∈ dom maps.1.
Proof.
  induction 1 as [|d x y _ _ (e & _ & _ & _ & n & Hn & _)]; apply elem_of_dom; [by vm_compute; eexists|eauto].
Qed.
End Demo.

Lemma traversal_terminates_witness :
  traverse Query.Demo.view Outgoing Demo.runtime Demo.clock (mkNodeId "a") = Some Demo.items ∧
  NoDup (node_id <$> nodes_in Demo.items).
Proof.
  assert (Hrun : traverse Query.Demo.view Outgoing Demo.runtime Demo.clock (mkNodeId "a") = Some Demo.items).
  { vm_compute. reflexivity. }
  split; [exact Hrun|].
  destruct (traversal_terminates Query.Demo.view Batch.Demo.maps Outgoing Demo.runtime Demo.clock (mkNodeId "a"))
    as (items & Hitems & _ & Honce & _); [apply Query.Demo.view_ok|apply Query.Demo.maps_keyed|done|].
  rewrite Hrun in Hitems. by injection Hitems as <-.
Defined.

Lemma traversal_finds_all_witness : ∃ items n,
  traverse Query.Demo.view Outgoing Demo.runtime Demo.clock (mkNodeId "a") = Some items ∧
  INode n ∈ items ∧ node_id n = mkNodeId "b".
Proof.
  destruct (traversal_finds_all Query.Demo.view Batch.Demo.maps Outgoing Demo.runtime Demo.clock (mkNodeId "a")
    (dom Batch.Demo.maps.1)) as (items & Hitems & Hall).
  - apply Query.Demo.view_ok.
  - apply Query.Demo.maps_keyed.
  - done.
  - vm_compute. reflexivity.
  - intros d x _. apply Demo.in_graph.
  - vm_compute. eexists. reflexivity.
  - destruct (Hall 1%N (mkNodeId "b")) as (n & Hn & Hid);
      [vm_compute; congruence| |exists items, n; split; [exact Hitems|exact (conj Hn Hid)]].
    apply (reach_hop _ _ _ _ 0%N (mkNodeId "a")); [constructor|].
    exists (Batch.Demo.edge "ab" "a" "b"). split; [vm_compute; reflexivity|]. split; [by split|]. split; [done|].
    exists (Batch.Demo.node "b" "person"). split; [vm_compute; reflexivity|done].
Defined.
