(* ===== verification/Paths.v ===== *)
(** * [crates/query]: shortest paths

    [shortest_path], [expand_frontier] and [reconstruct_path]: a breadth-first search from
    both ends, one level at a time, whose parent tables are then walked back.  The fuel of
    the loops comes from the depth bound: no side goes more than [max_depth] levels, and no
    chain of parents is longer. *)
From S2P Require Import Prelude RustStd RustFloat Common Core Config Fs Memory Batch Index Query Traversal.

#[local] Open Scope string_scope.
#[local] Open Scope list_scope.

Record PathParent := mkParent { previous : option NodeId; via_edge : option EdgeId }.
Abbreviation Parents := (gmap NodeId PathParent).
(** A side of the search: its queue and its parents. *)
Abbreviation frontier := (list (NodeId * N) * Parents)%type.

Definition reverse_direction (direction : EdgeDirection) : EdgeDirection :=
  match direction with Outgoing => Incoming | Incoming => Outgoing | Both => Both end.

(** The two loops of [reconstruct_path], in the order they push. *)
Fixpoint left_walk (fuel : nat) (parents : Parents) (cursor : NodeId)
    : option (list NodeId * list EdgeId) :=
  match fuel with
  | O => None
  | S fuel =>
    match parents !! cursor with
    | None => Some ([], [])
    | Some parent =>
      match previous parent with
      | None => Some ([cursor], option_list (via_edge parent))
      | Some prev =>
        '(nodes, edges) ← left_walk fuel parents prev;
        Some (cursor :: nodes, option_list (via_edge parent) ++ edges)
      end
    end
  end.

Fixpoint right_walk (fuel : nat) (parents : Parents) (cursor : NodeId)
    : option (list NodeId * list EdgeId) :=
  match fuel with
  | O => None
  | S fuel =>
    match parents !! cursor with
    | None => Some ([], [])
    | Some parent =>
      match previous parent with
      | None => Some ([], [])
      | Some prev =>
        '(nodes, edges) ← right_walk fuel parents prev;
        Some (prev :: nodes, option_list (via_edge parent) ++ edges)
      end
    end
  end.

Definition reconstruct_path (fuel : nat) (source target meet : NodeId) (forward backward : Parents)
    : option (option GraphPath) :=
  '(left_nodes, left_edges) ← left_walk fuel forward meet;
  '(right_nodes, right_edges) ← right_walk fuel backward meet;
  let node_ids := reverse left_nodes ++ right_nodes in
  let edge_ids := reverse left_edges ++ right_edges in
  if bool_decide (head node_ids ≠ Some source) || bool_decide (list.last node_ids ≠ Some target) then
    Some None
  else Some (Some (mkPath node_ids edge_ids (length edge_ids))).

Section search.
Context (v : GraphView) (rt : TraversalRuntime).

(** The inner loop of [expand_frontier]. *)
Fixpoint expand_edges (id : NodeId) (depth : N) (other : Parents) (l : list (EdgeRecord * NodeId))
    (st : frontier) : option NodeId * frontier :=
  match l with
  | [] => (None, st)
  | (e, neighbor) :: l =>
    let '(queue, parents) := st in
    if decide (is_Some (parents !! neighbor)) then expand_edges id depth other l st
    else
      let parents := <[neighbor := mkParent (Some id) (Some (edge_id e))]> parents in
      if decide (is_Some (other !! neighbor)) then (Some neighbor, (queue, parents))
      else expand_edges id depth other l (queue ++ [(neighbor, (depth + 1)%N)], parents)
  end.

Fixpoint expand_level (level_size : nat) (other : Parents) (direction : EdgeDirection) (st : frontier)
    : option NodeId * frontier :=
  match level_size, st.1 with
  | O, _ | _, [] => (None, st)
  | S level_size, (id, depth) :: queue =>
    if (depth =? rt_max_depth rt)%N then expand_level level_size other direction (queue, st.2)
    else
      match expand_edges id depth other (expand_neighbors v id direction (rt_constraints rt)) (queue, st.2) with
      | (Some meet, st) => (Some meet, st)
      | (None, st) => expand_level level_size other direction st
      end
  end.

Definition expand_frontier (other : Parents) (direction : EdgeDirection) (st : frontier)
    : option NodeId * frontier := expand_level (length st.1) other direction st.

Definition chain_fuel : nat := S (N.to_nat (rt_max_depth rt)).

Fixpoint search (clock : nat → N) (fuel tick : nat) (direction : EdgeDirection) (source target : NodeId)
    (forward backward : frontier) : option (option GraphPath) :=
  match fuel with
  | O => None
  | S fuel =>
    if is_nil forward.1 || is_nil backward.1 then Some None
    else if (rt_timeout_ms rt <=? clock tick)%N then Some None
    else if (rt_limit rt <=? N.of_nat (size forward.2 + size backward.2))%N then Some None
    else
      match expand_frontier backward.2 direction forward with
      | (Some meet, forward) => reconstruct_path chain_fuel source target meet forward.2 backward.2
      | (None, forward) =>
        match expand_frontier forward.2 (reverse_direction direction) backward with
        | (Some meet, backward) => reconstruct_path chain_fuel source target meet forward.2 backward.2
        | (None, backward) => search clock fuel (S tick) direction source target forward backward
        end
      end
  end.

Definition starting (id : NodeId) : frontier := ([(id, 0%N)], {[id := mkParent None None]}).

Definition shortest_path (clock : nat → N) (source target : NodeId) (direction : EdgeDirection)
    : option (option GraphPath) :=
  if negb (gv_contains_node v source) || negb (gv_contains_node v target) then Some None
  else if decide (source = target) then Some (Some (mkPath [source] [] 0))
  else search clock (S chain_fuel) 0 direction source target (starting source) (starting target).

End search.

(** ** Paths *)

Section path.
Context (m : Maps) (direction : EdgeDirection) (c : TraversalConstraints).

(** The edge [e], of an allowed type, goes from [a] to [b]. *)
Definition link (a : NodeId) (e : EdgeRecord) (b : NodeId) : Prop :=
  m.2 !! edge_id e = Some e ∧ connects direction a e b ∧ type_allowed c (edge_type e) = true.

Inductive graph_path : list NodeId → list EdgeId → Prop :=
| path_one x : graph_path [x] []
| path_more x e y ns es : link x e y → graph_path (y :: ns) es → graph_path (x :: y :: ns) (edge_id e :: es).

Definition allowed (x : NodeId) : Prop := ∃ n, m.1 !! x = Some n ∧ label_allowed c (node_type n) = true.

(** A path from [s] to [t], the nodes between them allowed. *)
Record joins (s t : NodeId) (p : GraphPath) : Prop := {
  jo_path : graph_path (path_node_ids p) (path_edge_ids p);
  jo_source : head (path_node_ids p) = Some s;
  jo_target : list.last (path_node_ids p) = Some t;
  jo_hops : hop_count p = length (path_edge_ids p);
  jo_allowed : ∀ x, x ∈ path_node_ids p → x = s ∨ x = t ∨ allowed x;
}.

Lemma graph_path_app l x r es es' : graph_path (l ++ [x]) es → graph_path (x :: r) es' →
  graph_path (l ++ x :: r) (es ++ es').
Proof.
  revert es. induction l as [|a l IH]; intros es H1 H2; simpl in *.
  - by inversion H1.
  - destruct l as [|b l]; inversion H1; simplify_list_eq.
    + match goal with H : graph_path [x] _ |- _ => inversion H; subst end. by constructor.
    + constructor; [done|]. by apply IH.
Qed.
End path.

(** ** One side of the search *)

Abbreviation depths := (gmap NodeId N).

Section side.
Context (v : GraphView) (m : Maps) (rt : TraversalRuntime) (direction : EdgeDirection) (s : NodeId).
Context (Hview : view_of v m) (Hkeyed : keyed m).
Abbreviation c := (rt_constraints rt).

Record tree (p : Parents) (known : depths) : Prop := {
  tr_known : known !! s = Some 0%N;
  tr_root : p !! s = Some (mkParent None None);
  tr_dom : ∀ x, is_Some (p !! x) ↔ is_Some (known !! x);
  tr_step : ∀ x pr, p !! x = Some pr → x ≠ s → ∃ y e d, pr = mkParent (Some y) (Some (edge_id e)) ∧
    hop_by m direction c y e x ∧ known !! y = Some d ∧ known !! x = Some (d + 1)%N;
  tr_depth : ∀ x d, known !! x = Some d → (d <= rt_max_depth rt)%N;
}.

(** While level [k] is expanded: [pend] is what is left of it and [next] what was found. *)
Record level (k : N) (pend next : list NodeId) (p : Parents) (known : depths) : Prop := {
  le_tree : tree p known;
  le_pend : ∀ x, x ∈ pend → known !! x = Some k;
  le_next : ∀ x, x ∈ next ↔ known !! x = Some (k + 1)%N;
  le_depth : ∀ x d, known !! x = Some d → (d <= k + 1)%N;
  le_closed : ∀ x d y, known !! x = Some d → (d <= k)%N → x ∉ pend → hop m direction c x y →
    ∃ d', known !! y = Some d' ∧ (d' <= d + 1)%N;
}.

Definition at_depth (d : N) (l : list NodeId) : list (NodeId * N) := (λ x, (x, d)) <$> l.

(** What is known is at most as far as the shortest way to it. *)
Lemma level_ball k pend p known d x : level k pend [] p known → reach m direction c s d x → (d <= k)%N →
  ∃ d', known !! x = Some d' ∧ (d' <= d)%N.
Proof.
  intros Hl. induction 1 as [|d x y Hr IH Hxy]; intros Hd.
  - exists 0%N. split; [apply (tr_known _ _ (le_tree _ _ _ _ _ Hl))|done].
  - destruct IH as (d' & Hx & Hd'); [lia|].
    destruct (le_closed _ _ _ _ _ Hl x d' y Hx ltac:(lia)) as (d'' & Hy & Hd''); [|done|].
    + intros Hin%(le_pend _ _ _ _ _ Hl). rewrite Hx in Hin. simplify_eq. lia.
    + exists d''. split; [done|]. lia.
Qed.

Lemma level_bound k pend p known x d : level k pend [] p known → known !! x = Some d → (d <= k)%N.
Proof.
  intros Hl Hx. pose proof (le_depth _ _ _ _ _ Hl _ _ Hx).
  destruct (decide (d = k + 1)%N) as [->|]; [|lia]. apply (le_next _ _ _ _ _ Hl) in Hx.
  by apply elem_of_nil in Hx.
Qed.

(** With nothing left to expand, everything within reach is known. *)
Lemma level_all k p known d x : level k [] [] p known → reach m direction c s d x → is_Some (known !! x).
Proof.
  intros Hl. induction 1 as [|d x y Hr [d' Hx] Hxy].
  - rewrite (tr_known _ _ (le_tree _ _ _ _ _ Hl)). by eexists.
  - destruct (le_closed _ _ _ _ _ Hl x d' y Hx) as (d'' & Hy & _); [|by apply not_elem_of_nil|done|by eexists].
    by apply (level_bound k [] p known x).
Qed.

Lemma level_next k next p known : level k [] next p known → level (k + 1) next [] p known.
Proof.
  intros Hl. split.
  - apply (le_tree _ _ _ _ _ Hl).
  - intros x. apply (le_next _ _ _ _ _ Hl).
  - intros x. split; [by intros ?%elem_of_nil|]. intros Hx.
    pose proof (le_depth _ _ _ _ _ Hl _ _ Hx). lia.
  - intros x d Hx. pose proof (le_depth _ _ _ _ _ Hl _ _ Hx). lia.
  - intros x d y Hx Hd Hnin. destruct (decide (d = k + 1)%N) as [->|].
    + by apply (le_next _ _ _ _ _ Hl) in Hx.
    + intros Hxy. apply (le_closed _ _ _ _ _ Hl x d y Hx); [lia|by apply not_elem_of_nil|done].
Qed.

Lemma tree_insert p known x e y k : tree p known → known !! x = Some k → (k < rt_max_depth rt)%N →
  p !! y = None → hop_by m direction c x e y →
  tree (<[y := mkParent (Some x) (Some (edge_id e))]> p) (<[y := (k + 1)%N]> known).
Proof.
  intros Ht Hx Hk Hy Hxy.
  assert (Hy' : known !! y = None).
  { apply eq_None_not_Some. rewrite <-(tr_dom _ _ Ht), Hy. by intros []. }
  assert (Hys : y ≠ s) by (intros ->; by rewrite (tr_root _ _ Ht) in Hy).
  assert (Hyx : y ≠ x) by (intros ->; congruence).
  split.
  - rewrite lookup_insert_ne by done. apply (tr_known _ _ Ht).
  - rewrite lookup_insert_ne by done. apply (tr_root _ _ Ht).
  - intros z. destruct (decide (y = z)) as [<-|Hne].
    + rewrite !lookup_insert_eq. split; by eexists.
    + rewrite !lookup_insert_ne by done. apply (tr_dom _ _ Ht).
  - intros z pr Hz Hzs. destruct (decide (y = z)) as [<-|Hne].
    + rewrite lookup_insert_eq in Hz. simplify_eq. exists x, e, k. split; [done|]. split; [done|].
      rewrite lookup_insert_ne, lookup_insert_eq by done. done.
    + rewrite lookup_insert_ne in Hz by done.
      destruct (tr_step _ _ Ht z pr Hz Hzs) as (w & e' & d & -> & Hw & Hkw & Hkz).
      exists w, e', d. split; [done|]. split; [done|].
      rewrite !lookup_insert_ne by (done || intros <-; congruence). done.
  - intros z d Hz. destruct (decide (y = z)) as [<-|Hne].
    + rewrite lookup_insert_eq in Hz. simplify_eq. lia.
    + rewrite lookup_insert_ne in Hz by done. by apply (tr_depth _ _ Ht) in Hz.
Qed.

Lemma level_insert k pend next p known x e y : level k pend next p known → x ∈ pend →
  (k < rt_max_depth rt)%N → p !! y = None → hop_by m direction c x e y →
  level k pend (next ++ [y]) (<[y := mkParent (Some x) (Some (edge_id e))]> p) (<[y := (k + 1)%N]> known).
Proof.
  intros Hl Hx Hk Hy Hxy. pose proof (le_tree _ _ _ _ _ Hl) as Ht.
  assert (Hy' : known !! y = None).
  { apply eq_None_not_Some. rewrite <-(tr_dom _ _ Ht), Hy. by intros []. }
  split.
  - by apply tree_insert; [|apply (le_pend _ _ _ _ _ Hl)| | |].
  - intros z Hz%(le_pend _ _ _ _ _ Hl). rewrite lookup_insert_ne by (intros ->; congruence). done.
  - intros z. rewrite elem_of_app, list_elem_of_singleton, (le_next _ _ _ _ _ Hl).
    destruct (decide (y = z)) as [<-|Hne]; [rewrite lookup_insert_eq; naive_solver|].
    rewrite lookup_insert_ne by done. naive_solver.
  - intros z d. destruct (decide (y = z)) as [<-|Hne].
    + rewrite lookup_insert_eq. intros [= <-]. lia.
    + rewrite lookup_insert_ne by done. apply (le_depth _ _ _ _ _ Hl).
  - intros z d w Hz Hd Hnin Hzw. destruct (decide (y = z)) as [<-|Hne].
    { rewrite lookup_insert_eq in Hz. simplify_eq. lia. }
    rewrite lookup_insert_ne in Hz by done.
    destruct (le_closed _ _ _ _ _ Hl z d w Hz Hd Hnin Hzw) as (d' & Hw & Hd').
    exists d'. rewrite lookup_insert_ne by (intros ->; congruence). done.
Qed.

(** What expanding edges or a level does when the other side is not met: nothing it adds is
    known to the other side. *)
Definition apart (known known' : depths) (other : Parents) : Prop :=
  known ⊆ known' ∧ ∀ x, is_Some (known' !! x) → is_Some (known !! x) ∨ other !! x = None.

Lemma apart_refl known other : apart known known other.
Proof. split; [done|]. auto. Qed.
Lemma apart_trans known1 known2 known3 other :
  apart known1 known2 other → apart known2 known3 other → apart known1 known3 other.
Proof.
  intros [H1 H1'] [H2 H2']. split; [by etrans|]. intros x [?%H1'|?]%H2'; auto.
Qed.

(** The two sides meet in [meet], at depth [k + 1] of this one. *)
Definition meets (k : N) (meet : NodeId) (p : Parents) (other : Parents) : Prop :=
  ∃ known, tree p known ∧ known !! meet = Some (k + 1)%N ∧ is_Some (other !! meet).

Lemma expand_edges_ok k pend other x l : x ∈ pend → (k < rt_max_depth rt)%N →
  (∀ e y, (e, y) ∈ l → hop_by m direction c x e y) →
  ∀ queue next p known, level k pend next p known →
  match expand_edges x k other l (queue, p) with
  | (None, (queue', p')) => ∃ new known', queue' = queue ++ at_depth (k + 1) new ∧
      level k pend (next ++ new) p' known' ∧ apart known known' other ∧
      ∀ e y, (e, y) ∈ l → ∃ d, known' !! y = Some d
  | (Some meet, (_, p')) => meets k meet p' other
  end.
Proof.
  intros Hx Hk. induction l as [|[e y] l IH]; intros Hhops queue next p known Hl; cbn [expand_edges].
  - exists [], known. rewrite !app_nil_r. repeat split; [apply Hl..|done|auto|].
    by intros ? ? ?%elem_of_nil.
  - assert (Hhops' : ∀ e' y', (e', y') ∈ l → hop_by m direction c x e' y') by (intros; apply Hhops; by right).
    pose proof (Hhops e y (list_elem_of_here _ _)) as Hxy.
    case_decide as Hy.
    + specialize (IH Hhops' queue next p known Hl).
      destruct (expand_edges _ _ _ _ _) as [[meet|] [queue' p']]; [done|].
      destruct IH as (new & known' & -> & Hl' & Hap & Hall). exists new, known'.
      split; [done|]. split; [done|]. split; [done|].
      intros e' y' [[= -> ->]|Hin]%elem_of_cons; [|by apply (Hall e')].
      apply (tr_dom _ _ (le_tree _ _ _ _ _ Hl)) in Hy as [d Hd]. exists d.
      by apply (lookup_weaken _ _ _ _ Hd), Hap.
    + apply eq_None_not_Some in Hy.
      pose proof (level_insert k pend next p known x e y Hl Hx Hk Hy Hxy) as Hl1.
      assert (Hky : known !! y = None).
      { apply eq_None_not_Some. rewrite <-(tr_dom _ _ (le_tree _ _ _ _ _ Hl)), Hy. by intros []. }
      case_decide as Hother.
      * exists (<[y := (k + 1)%N]> known). split; [apply Hl1|]. split; [by rewrite lookup_insert_eq|done].
      * apply eq_None_not_Some in Hother.
        specialize (IH Hhops' (queue ++ [(y, (k + 1)%N)]) _ _ _ Hl1).
        destruct (expand_edges _ _ _ _ _) as [[meet|] [queue' p']]; [done|].
        destruct IH as (new & known' & -> & Hl' & Hap & Hall).
        assert (apart known (<[y := (k + 1)%N]> known) other).
        { split; [by apply insert_subseteq|]. intros z. destruct (decide (y = z)) as [<-|Hne]; [by right|].
          rewrite lookup_insert_ne by done. auto. }
        exists (y :: new), known'. split; [by rewrite <-app_assoc|].
        split; [by rewrite <-app_assoc in Hl'|]. split; [by eapply apart_trans|].
        intros e' y' [[= -> ->]|Hin]%elem_of_cons; [|by apply (Hall e')].
        exists (k + 1)%N. eapply lookup_weaken; [|apply Hap]. by rewrite lookup_insert_eq.
Qed.

Lemma level_drop k x pend next p known : level k (x :: pend) next p known →
  (∀ y, hop m direction c x y → ∃ d, known !! y = Some d) → level k pend next p known.
Proof.
  intros Hl Hx. split.
  - apply (le_tree _ _ _ _ _ Hl).
  - intros y Hy. apply (le_pend _ _ _ _ _ Hl). by right.
  - apply (le_next _ _ _ _ _ Hl).
  - apply (le_depth _ _ _ _ _ Hl).
  - intros y d z Hy Hd Hnin Hyz. destruct (decide (y = x)) as [->|Hne].
    + destruct (Hx z Hyz) as [d' Hz]. exists d'. split; [done|].
      pose proof (le_pend _ _ _ _ _ Hl x (list_elem_of_here _ _)).
      pose proof (le_depth _ _ _ _ _ Hl _ _ Hz). simplify_eq. lia.
    + apply (le_closed _ _ _ _ _ Hl y d z Hy Hd); [|done]. by rewrite not_elem_of_cons.
Qed.

Lemma expand_level_ok k other : (k < rt_max_depth rt)%N → ∀ pend next p known, level k pend next p known →
  match expand_level v rt (length pend) other direction (at_depth k pend ++ at_depth (k + 1) next, p) with
  | (None, st') => ∃ next' p' known', st' = (at_depth (k + 1) next', p') ∧
      level k [] next' p' known' ∧ apart known known' other
  | (Some meet, st') => meets k meet st'.2 other
  end.
Proof.
  intros Hk. induction pend as [|x pend IH]; intros next p known Hl.
  - exists next, p, known. split; [done|]. split; [done|]. apply apart_refl.
  - cbn [length at_depth fmap list_fmap app expand_level fst snd].
    replace (k =? rt_max_depth rt)%N with false by (symmetry; apply N.eqb_neq; lia).
    pose proof (expand_edges_ok k (x :: pend) other x
      (expand_neighbors v x direction (rt_constraints rt)) (list_elem_of_here _ _) Hk
      (λ e y, proj1 (elem_of_expand m direction _ v x e y Hview Hkeyed))
      (at_depth k pend ++ at_depth (k + 1) next) next p known Hl) as Hex.
    destruct (expand_edges _ _ _ _ _) as [[meet|] [queue' p']]; [done|].
    destruct Hex as (new & known' & -> & Hl' & Hap & Hall).
    apply level_drop in Hl'.
    2: { intros y [e He]. apply (Hall e). by apply (elem_of_expand m direction _ v x e y Hview Hkeyed). }
    specialize (IH _ _ _ Hl'). unfold at_depth in *. rewrite fmap_app, app_assoc in IH.
    destruct (expand_level _ _ _ _ _ _) as [[meet'|] st']; [done|].
    destruct IH as (next' & p'' & known'' & -> & Hl'' & Hap'). exists next', p'', known''.
    split; [done|]. split; [done|]. by eapply apart_trans.
Qed.

Lemma expand_level_deepest other k : k = rt_max_depth rt → ∀ pend p,
  expand_level v rt (length pend) other direction (at_depth k pend, p) = (None, ([], p)).
Proof.
  intros Hk. induction pend as [|x pend IH]; intros p; [done|].
  cbn [length at_depth fmap list_fmap expand_level fst snd]. rewrite (proj2 (N.eqb_eq _ _) Hk). apply IH.
Qed.

Lemma expand_frontier_ok k other pend p known : level k pend [] p known → (k <= rt_max_depth rt)%N →
  match expand_frontier v rt other direction (at_depth k pend, p) with
  | (None, st') =>
      (k < rt_max_depth rt)%N ∧ (∃ next' p' known', st' = (at_depth (k + 1) next', p') ∧
        level (k + 1) next' [] p' known' ∧ apart known known' other) ∨
      k = rt_max_depth rt ∧ st' = ([], p)
  | (Some meet, st') => (k < rt_max_depth rt)%N ∧ meets k meet st'.2 other
  end.
Proof.
  intros Hl Hk. unfold expand_frontier. cbn [fst].
  replace (length (at_depth k pend)) with (length pend) by (unfold at_depth; by rewrite length_fmap).
  destruct (decide (k = rt_max_depth rt)) as [Heq|Hne].
  - rewrite (expand_level_deepest other k Heq). by right.
  - assert (Hlt : (k < rt_max_depth rt)%N) by lia.
    pose proof (expand_level_ok k other Hlt pend [] p known Hl) as Hex.
    change (at_depth (k + 1) []) with (@nil (NodeId * N)) in Hex. rewrite app_nil_r in Hex.
    destruct (expand_level _ _ _ _ _ _) as [[meet|] st']; [done|].
    destruct Hex as (next' & p' & known' & -> & Hl' & Hap). left. split; [done|].
    exists next', p', known'. split; [done|]. split; [by apply level_next|done].
Qed.

(** ** Walking back *)

Lemma hop_link y e x : hop_by m direction c y e x → link m direction c y e x ∧ allowed m c x.
Proof. intros (He & Hc & Ht & Hn). by repeat split. Qed.

Lemma left_walk_ok p known : tree p known → ∀ fuel x d, known !! x = Some d → (N.to_nat d < fuel)%nat →
  ∃ ns es, left_walk fuel p x = Some (x :: ns, es) ∧ graph_path m direction c (reverse (x :: ns)) (reverse es) ∧
    list.last (x :: ns) = Some s ∧ length es = N.to_nat d ∧ ∀ y, y ∈ x :: ns → y = s ∨ allowed m c y.
Proof.
  intros Ht. induction fuel as [|fuel IH]; intros x d Hx Hd; [lia|]. cbn [left_walk].
  destruct (decide (x = s)) as [->|Hne].
  - rewrite (tr_root _ _ Ht). pose proof (tr_known _ _ Ht). simplify_eq. exists [], [].
    repeat split; [constructor|]. intros y ->%list_elem_of_singleton. by left.
  - destruct (proj2 (tr_dom _ _ Ht x) ltac:(by eexists)) as [pr Hp]. rewrite Hp.
    destruct (tr_step _ _ Ht x pr Hp Hne) as (y & e & d' & -> & Hyx & Hy & Hx').
    simplify_eq. cbn [previous via_edge].
    destruct (IH y d' Hy ltac:(lia)) as (ns & es & -> & Hpath & Hlast & Hlen & Hall).
    destruct (hop_link _ _ _ Hyx) as [Hlink Hallowed].
    exists (y :: ns), (edge_id e :: es). split; [done|]. split; [|split; [done|split]].
    + rewrite (reverse_cons (y :: ns)), (reverse_cons es), reverse_cons, <-app_assoc.
      rewrite reverse_cons in Hpath. apply graph_path_app; [done|]. constructor; [done|constructor].
    + simpl. lia.
    + intros z [->|Hz]%elem_of_cons; [by right|by apply Hall].
Qed.

(** The other side's table is walked forward. *)
Lemma right_walk_ok forward p known : direction = reverse_direction forward → tree p known →
  ∀ fuel x d, known !! x = Some d → (N.to_nat d < fuel)%nat →
  ∃ ns es, right_walk fuel p x = Some (ns, es) ∧ graph_path m forward c (x :: ns) es ∧
    list.last (x :: ns) = Some s ∧ length es = N.to_nat d ∧ ∀ y, y ∈ x :: ns → y = s ∨ allowed m c y.
Proof.
  intros Hdir Ht. induction fuel as [|fuel IH]; intros x d Hx Hd; [lia|]. cbn [right_walk].
  destruct (decide (x = s)) as [->|Hne].
  - rewrite (tr_root _ _ Ht). pose proof (tr_known _ _ Ht). simplify_eq. exists [], [].
    repeat split; [constructor|]. intros y ->%list_elem_of_singleton. by left.
  - destruct (proj2 (tr_dom _ _ Ht x) ltac:(by eexists)) as [pr Hp]. rewrite Hp.
    destruct (tr_step _ _ Ht x pr Hp Hne) as (y & e & d' & -> & Hyx & Hy & Hx').
    simplify_eq. cbn [previous via_edge].
    destruct (IH y d' Hy ltac:(lia)) as (ns & es & -> & Hpath & Hlast & Hlen & Hall).
    destruct (hop_link _ _ _ Hyx) as [(He & Hc & Hty) Hallowed].
    exists (y :: ns), (edge_id e :: es). split; [done|]. split; [|split; [done|split]].
    + constructor; [|done]. split; [done|]. split; [|done]. rewrite Hdir in Hc. destruct forward; simpl in *; tauto.
    + simpl. lia.
    + intros z [->|Hz]%elem_of_cons; [by right|by apply Hall].
Qed.
End side.

(** ** Both sides *)

Section both.
Context (v : GraphView) (m : Maps) (rt : TraversalRuntime) (direction : EdgeDirection) (s t : NodeId).
Context (Hview : view_of v m) (Hkeyed : keyed m) (Hs : is_Some (m.1 !! s)) (Ht : is_Some (m.1 !! t)).
Abbreviation c := (rt_constraints rt).
Abbreviation reached := (reach m direction c).
Abbreviation reached_back := (reach m (reverse_direction direction) c).

Lemma hop_back x y : node_labels c = [] → is_Some (m.1 !! x) → hop m direction c x y →
  hop m (reverse_direction direction) c y x.
Proof.
  intros Hc [n Hn] (e & He & Hxy & Hty & _). exists e. split; [done|].
  split; [destruct direction; simpl in *; tauto|]. split; [done|].
  exists n. split; [done|]. unfold label_allowed. by rewrite Hc.
Qed.

Lemma reach_node dir a d x : is_Some (m.1 !! a) → reach m dir c a d x → is_Some (m.1 !! x).
Proof.
  intros Ha Hr. destruct Hr as [|? ? ? _ (e & _ & _ & _ & n & Hn & _)]; [exact Ha|by exists n].
Qed.

Lemma reach_first dir a x d y : hop m dir c a x → reach m dir c x d y → reach m dir c a (d + 1) y.
Proof.
  intros Hax. induction 1 as [|d y z _ IH Hyz].
  - by apply (reach_hop _ _ _ _ 0%N a); [constructor|].
  - by apply (reach_hop _ _ _ _ _ y).
Qed.

Lemma reach_split d y : node_labels c = [] → reached s d y → ∀ i, (i <= d)%N →
  ∃ x, reached s i x ∧ reached_back y (d - i) x.
Proof.
  intros Hc. induction 1 as [|d x y Hr IH Hxy]; intros i Hi.
  - exists s. replace i with 0%N by lia. split; constructor.
  - destruct (decide (i = d + 1)%N) as [->|Hne].
    + exists y. rewrite N.sub_diag. split; [by eapply reach_hop|constructor].
    + destruct (IH i ltac:(lia)) as (z & Hz & Hback). exists z. split; [done|].
      replace (d + 1 - i)%N with (d - i + 1)%N by lia.
      apply (reach_first _ _ x); [|done]. apply hop_back; [done| |done]. by apply (reach_node direction s d x).
Qed.

Definition unmet (known known' : depths) : Prop := ∀ x, is_Some (known !! x) → known' !! x = None.

(** While the sides have not met, no path is as short as what they have covered. *)
Lemma covered i j pend pend' p p' known known' d : node_labels c = [] →
  level m rt direction s i pend [] p known →
  level m rt (reverse_direction direction) t j pend' [] p' known' →
  unmet known known' → reached s d t → (i + j < d)%N.
Proof.
  intros Hc Hi Hj Hun Hr. destruct (decide (i + j < d)%N) as [|Hd]; [done|].
  destruct (reach_split d t Hc Hr (N.min i d) ltac:(lia)) as (x & Hx & Hback).
  destruct (level_ball _ _ _ _ _ _ _ _ _ _ Hi Hx ltac:(lia)) as (d1 & Hk1 & _).
  destruct (level_ball _ _ _ _ _ _ _ _ _ _ Hj Hback ltac:(lia)) as (d2 & Hk2 & _).
  rewrite (Hun x) in Hk2 by (by eexists). done.
Qed.

Lemma reconstruct_ok pf kf pb kb meet df db :
  tree m rt direction s pf kf → tree m rt (reverse_direction direction) t pb kb →
  kf !! meet = Some df → kb !! meet = Some db →
  ∃ p, reconstruct_path (chain_fuel rt) s t meet pf pb = Some (Some p) ∧ joins m direction c s t p ∧
    hop_count p = N.to_nat (df + db).
Proof.
  intros Hf Hb Hdf Hdb. pose proof (tr_depth _ _ _ _ _ _ Hf _ _ Hdf). pose proof (tr_depth _ _ _ _ _ _ Hb _ _ Hdb).
  destruct (left_walk_ok m rt direction s pf kf Hf (chain_fuel rt) meet df Hdf)
    as (ns & es & Hl & Hpl & Hll & Hel & Hal); [unfold chain_fuel; lia|].
  destruct (right_walk_ok m rt _ t direction pb kb eq_refl Hb (chain_fuel rt) meet db Hdb)
    as (ns' & es' & Hr & Hpr & Hlr & Her & Har); [unfold chain_fuel; lia|].
  assert (Hjoin : reverse (meet :: ns) ++ ns' = reverse ns ++ meet :: ns').
  { by rewrite reverse_cons, <-app_assoc. }
  assert (Hhead : head (reverse (meet :: ns) ++ ns') = Some s).
  { rewrite <-head_reverse in Hll. destruct (reverse (meet :: ns)); [done|]. exact Hll. }
  assert (Hlast : list.last (reverse (meet :: ns) ++ ns') = Some t).
  { rewrite Hjoin, last_app, Hlr. done. }
  exists (mkPath (reverse (meet :: ns) ++ ns') (reverse es ++ es') (length (reverse es ++ es'))).
  unfold reconstruct_path. rewrite Hl. cbn [mbind option_bind]. rewrite Hr. cbn [mbind option_bind].
  rewrite Hhead, Hlast, !bool_decide_eq_false_2 by (intros Hneq; by apply Hneq). split; [done|]. split.
  - split; cbn [path_node_ids path_edge_ids hop_count]; [|done..|].
    + rewrite Hjoin. apply graph_path_app; [|done]. by rewrite <-reverse_cons.
    + intros x [Hx|Hx]%elem_of_app.
      * rewrite elem_of_reverse in Hx. destruct (Hal x Hx); auto.
      * destruct (Har x ltac:(by right)); auto.
  - cbn [hop_count]. rewrite length_app, length_reverse. lia.
Qed.

(** What the answer of the search has to be. *)
Definition in_time (clock : nat → N) : Prop := ∀ k, (clock k < rt_timeout_ms rt)%N.
Definition answer (clock : nat → N) (r : option GraphPath) : Prop :=
  match r with
  | Some p => joins m direction c s t p ∧ (N.of_nat (hop_count p) <= 2 * rt_max_depth rt)%N ∧
      (node_labels c = [] → ∀ d, reached s d t → (N.of_nat (hop_count p) <= d)%N)
  | None => node_labels c = [] → in_time clock → (N.of_nat (size m.1) < rt_limit rt)%N →
      ∀ d, reached s d t → (2 * rt_max_depth rt < d)%N
  end.

Lemma tree_nodes dir a p known : is_Some (m.1 !! a) → tree m rt dir a p known → dom p ⊆ dom m.1.
Proof.
  intros Ha Htree x [pr Hx]%elem_of_dom. apply elem_of_dom. destruct (decide (x = a)) as [->|Hne]; [done|].
  destruct (tr_step _ _ _ _ _ _ Htree x pr Hx Hne) as (y & e & d & _ & (_ & _ & _ & n & Hn & _) & _).
  by eexists.
Qed.

Lemma sides_size pf kf pb kb : tree m rt direction s pf kf → tree m rt (reverse_direction direction) t pb kb →
  unmet kf kb → (size pf + size pb <= size m.1)%nat.
Proof.
  intros Hf Hb Hun. rewrite <-!size_dom, <-size_union.
  - apply subseteq_size, union_least; [by apply (tree_nodes direction s _ kf)|].
    by apply (tree_nodes (reverse_direction direction) t _ kb).
  - intros x [y Hx]%elem_of_dom [z Hz]%elem_of_dom.
    apply mk_is_Some, (tr_dom _ _ _ _ _ _ Hf), Hun in Hx.
    apply mk_is_Some, (tr_dom _ _ _ _ _ _ Hb) in Hz. rewrite Hx in Hz. by destruct Hz.
Qed.

(** Meeting one step past what both sides have covered gives a shortest path. *)
Lemma met_answer clock i j pend pend' pf kf pb kb meet pf' kf' pb' kb' df db :
  level m rt direction s i pend [] pf kf → level m rt (reverse_direction direction) t j pend' [] pb kb →
  unmet kf kb → tree m rt direction s pf' kf' → tree m rt (reverse_direction direction) t pb' kb' →
  kf' !! meet = Some df → kb' !! meet = Some db → (df + db <= i + j + 1)%N →
  ∃ r, reconstruct_path (chain_fuel rt) s t meet pf' pb' = Some r ∧ answer clock r.
Proof.
  intros Hi Hj Hun Hf Hb Hdf Hdb Hlen.
  destruct (reconstruct_ok _ _ _ _ _ _ _ Hf Hb Hdf Hdb) as (q & Hq & Hjoins & Hhops).
  exists (Some q). split; [done|]. split; [done|].
  pose proof (tr_depth _ _ _ _ _ _ Hf _ _ Hdf). pose proof (tr_depth _ _ _ _ _ _ Hb _ _ Hdb).
  split; [lia|]. intros Hc d Hd. pose proof (covered i j _ _ _ _ _ _ d Hc Hi Hj Hun Hd). lia.
Qed.

Lemma unmet_sym known known' : unmet known known' → unmet known' known.
Proof.
  intros Hun x Hx. apply eq_None_not_Some. intros Hk. rewrite (Hun x Hk) in Hx. by destruct Hx.
Qed.

Lemma apart_unmet known known' other kother : apart known known' other → unmet known kother →
  (∀ x, is_Some (other !! x) ↔ is_Some (kother !! x)) → unmet known' kother.
Proof.
  intros [_ Hap] Hun Hdom x [Hx|Hx]%Hap; [by apply Hun|].
  apply eq_None_not_Some. rewrite <-Hdom, Hx. by intros [].
Qed.

(** The other side empty-handed: whatever it can reach is known to it. *)
Lemma stuck_answer clock i j pend pend' pf kf pb kb : 
  level m rt direction s i pend [] pf kf → level m rt (reverse_direction direction) t j pend' [] pb kb →
  unmet kf kb → pend = [] ∨ pend' = [] → answer clock None.
Proof.
  intros Hi Hj Hun Hempty Hc _ _ d Hd. exfalso. destruct Hempty as [->| ->].
  - apply (level_all _ _ _ _ _ _ _ _ _ Hi) in Hd. specialize (Hun t Hd).
    by rewrite (tr_known _ _ _ _ _ _ (le_tree _ _ _ _ _ _ _ _ _ Hj)) in Hun.
  - destruct (reach_split d t Hc Hd 0%N ltac:(lia)) as (x & Hx & Hback). rewrite N.sub_0_r in Hback.
    inversion Hx as [|? ? ? ? ? Hd0]; [subst x|lia].
    apply (level_all _ _ _ _ _ _ _ _ _ Hj) in Hback.
    assert (Hks : is_Some (kf !! s)) by (rewrite (tr_known _ _ _ _ _ _ (le_tree _ _ _ _ _ _ _ _ _ Hi)); by eexists).
    rewrite (Hun s Hks) in Hback. by destruct Hback.
Qed.

Lemma search_ok clock fuel : ∀ tick k pend pend' pf kf pb kb,
  level m rt direction s k pend [] pf kf → level m rt (reverse_direction direction) t k pend' [] pb kb →
  unmet kf kb → (k <= rt_max_depth rt)%N → (N.to_nat (rt_max_depth rt - k) + 1 < fuel)%nat →
  ∃ r, search v rt clock fuel tick direction s t (at_depth k pend, pf) (at_depth k pend', pb) = Some r ∧
    answer clock r.
Proof.
  induction fuel as [|fuel IH]; intros tick k pend pend' pf kf pb kb Hi Hj Hun Hk Hfuel; [lia|].
  cbn [search fst snd]. pose proof (le_tree _ _ _ _ _ _ _ _ _ Hi) as Htf. pose proof (le_tree _ _ _ _ _ _ _ _ _ Hj) as Htb.
  destruct (is_nil (at_depth k pend) || is_nil (at_depth k pend')) eqn:Hnil.
  { exists None. split; [done|]. eapply (stuck_answer clock k k); [exact Hi|exact Hj|done|].
    apply orb_true_iff in Hnil as [Hn|Hn]; [left; by destruct pend|right; by destruct pend']. }
  clear Hnil. destruct (rt_timeout_ms rt <=? clock tick)%N eqn:Htime.
  { exists None. split; [done|]. intros _ Hclock. specialize (Hclock tick). apply N.leb_le in Htime. lia. }
  destruct (rt_limit rt <=? N.of_nat (size pf + size pb))%N eqn:Hlimit.
  { exists None. split; [done|]. intros _ _ Hroom. apply N.leb_le in Hlimit.
    pose proof (sides_size _ _ _ _ Htf Htb Hun). lia. }
  pose proof (expand_frontier_ok v m rt direction s Hview Hkeyed k pb pend pf kf Hi Hk) as Hf.
  destruct (expand_frontier v rt pb direction (at_depth k pend, pf)) as [[meet|] stf].
  { destruct Hf as (_ & kf' & Htf' & Hmeet & Hother). apply (tr_dom _ _ _ _ _ _ Htb) in Hother as [db Hdb].
    pose proof (level_bound _ _ _ _ _ _ _ _ _ _ Hj Hdb).
    eapply (met_answer clock k k); [exact Hi|exact Hj|done..|exact Hdb|lia]. }
  destruct Hf as [(Hlt & next & pf' & kf' & -> & Hi' & Hap)|[Heq ->]]; cbn [snd].
  - assert (Hun' : unmet kf' kb) by (eapply apart_unmet; [done..|apply (tr_dom _ _ _ _ _ _ Htb)]).
    pose proof (expand_frontier_ok v m rt _ t Hview Hkeyed k pf' pend' pb kb Hj Hk) as Hb.
    destruct (expand_frontier v rt pf' (reverse_direction direction) (at_depth k pend', pb)) as [[meet|] stb].
    { destruct Hb as (_ & kb' & Htb' & Hmeet & Hother).
      pose proof (le_tree _ _ _ _ _ _ _ _ _ Hi') as Htf'.
      apply (tr_dom _ _ _ _ _ _ Htf') in Hother as [df Hdf].
      pose proof (level_bound _ _ _ _ _ _ _ _ _ _ Hi' Hdf).
      eapply (met_answer clock (k + 1) k); [exact Hi'|exact Hj|done..|exact Hmeet|lia]. }
    destruct Hb as [(_ & next' & pb' & kb' & -> & Hj' & Hap')|[Heq _]]; [|lia].
    apply (IH (S tick) (k + 1)%N next next' pf' kf' pb' kb' Hi' Hj'); [|lia|lia].
    apply unmet_sym. eapply apart_unmet; [done|by apply unmet_sym|].
    apply (tr_dom _ _ _ _ _ _ (le_tree _ _ _ _ _ _ _ _ _ Hi')).
  - destruct fuel as [|fuel]; [lia|].
    pose proof (expand_frontier_ok v m rt _ t Hview Hkeyed k pf pend' pb kb Hj Hk) as Hb.
    destruct (expand_frontier v rt pf (reverse_direction direction) (at_depth k pend', pb)) as [[meet|] stb].
    { destruct Hb as (Hlt & _). lia. }
    destruct Hb as [(Hlt & _)|[_ ->]]; [lia|]. exists None. split; [done|].
    intros Hc _ _ d Hd. pose proof (covered k k _ _ _ _ _ _ d Hc Hi Hj Hun Hd). lia.
Qed.

Lemma starting_level dir a : is_Some (m.1 !! a) →
  level m rt dir a 0 [a] [] {[a := mkParent None None]} {[a := 0%N]}.
Proof.
  intros Ha. split.
  - split.
    + by rewrite lookup_singleton_eq.
    + by rewrite lookup_singleton_eq.
    + intros x. rewrite !lookup_singleton_is_Some. done.
    + by intros x pr [<- _]%lookup_singleton_Some.
    + intros x d [_ <-]%lookup_singleton_Some. lia.
  - intros x ->%list_elem_of_singleton. by rewrite lookup_singleton_eq.
  - intros x. split; [by intros ?%elem_of_nil|]. by intros [_ ?]%lookup_singleton_Some.
  - intros x d [_ <-]%lookup_singleton_Some. lia.
  - intros x d y [<- _]%lookup_singleton_Some _ Hnin. destruct Hnin. left.
Qed.
End both.

Lemma shortest_path_answers v m rt direction clock s t : view_of v m → keyed m →
  is_Some (m.1 !! s) → is_Some (m.1 !! t) →
  ∃ r, shortest_path v rt clock s t direction = Some r ∧ answer m rt direction s t clock r.
Proof.
  intros Hv Hk Hs Ht. unfold shortest_path.
  rewrite (proj2 (vo_contains _ _ Hv s) Hs), (proj2 (vo_contains _ _ Hv t) Ht). simpl negb. cbn [orb].
  case_decide as Hst.
  - subst t. eexists. split; [done|]. split; [|split; [simpl; lia|intros; simpl; lia]].
    split; [constructor|done..|]. intros x ->%list_elem_of_singleton. by left.
  - apply (search_ok v m rt direction s t Hv Hk Hs Ht clock _ 0 0%N [s] [t] _ {[s := 0%N]} _ {[t := 0%N]}).
    + by apply starting_level.
    + by apply starting_level.
    + intros x [y [<- _]%lookup_singleton_Some]. by rewrite lookup_singleton_ne.
    + lia.
    + unfold chain_fuel. lia.
Qed.


(** A quirk: both ends count against the limit, so with a limit of two or less no path
    between two nodes is found, not even an edge. *)
Lemma limit_two_finds_nothing v rt clock s t direction : s ≠ t → (rt_limit rt <= 2)%N →
  shortest_path v rt clock s t direction = Some None.
Proof.
  intros Hst Hlimit. unfold shortest_path. destruct (negb _ || negb _); [done|]. case_decide; [done|].
  cbn [search fst snd starting is_nil orb]. destruct (_ <=? clock 0%nat)%N; [done|].
  replace (rt_limit rt <=? _)%N with true; [done|]. symmetry. apply N.leb_le.
  rewrite !map_size_singleton. lia.
Qed.

(** ** A concrete input *)

Module Demo.
Import Batch.Demo.

Definition path : GraphPath := mkPath [mkNodeId "a"; mkNodeId "b"] [mkEdgeId "ab"] 1.
End Demo.

