(* ===== verification/Ranking.v ===== *)
(** * [crates/query]: ranked results

    [vector_search] and [ranked_retrieval]: the candidates, their scores, and the bounded
    heap that keeps the best [limit] of them. *)
From S2P Require Import Prelude RustStd RustFloat Common Core Config Fs Memory Batch Index Query.

#[local] Open Scope string_scope.
#[local] Open Scope list_scope.

Definition distance_to_score (distance : N) : f32 :=
  F32.div F32.one (F32.add F32.one (F32.of_Z (Z.of_N distance))).

(** ** Ordering *)

(** [Ordering::then_with]. *)
Definition then_with (c d : comparison) : comparison := match c with Eq => d | _ => c end.

Definition compare_ids (l r : RankedNodeResult) : comparison :=
  String.compare (node_id_str (node_id (rr_node l))) (node_id_str (node_id (rr_node r))).

(** The comparator of [sort_ranked_results]; scores that do not compare are taken as equal. *)
Definition compare_ranked (l r : RankedNodeResult) : comparison :=
  then_with (default Eq (f_partial_cmp (rr_score r) (rr_score l))) (compare_ids l r).

(** [RankedHeapEntry::cmp]: the better entry is the smaller one. *)
Definition compare_entries (l r : RankedNodeResult) : comparison :=
  then_with (f_total_cmp (rr_score r) (rr_score l)) (compare_ids l r).

Definition ranked_le : relation RankedNodeResult := λ l r, compare_ranked l r ≠ Gt.
#[global] Instance ranked_le_dec : RelDecision ranked_le.
Proof. intros l r. unfold ranked_le. apply _. Defined.

(** A stable sort. *)
Definition sort_ranked_results (l : list RankedNodeResult) : list RankedNodeResult := merge_sort ranked_le l.

(** ** The heap *)

(** A [BinaryHeap] as the list of its entries: [pop] takes a greatest entry, here the
    worst result, and [peek] looks at it. *)
Fixpoint heap_pop (heap : list RankedNodeResult) : option (RankedNodeResult * list RankedNodeResult) :=
  match heap with
  | [] => None
  | x :: heap =>
    match heap_pop heap with
    | None => Some (x, [])
    | Some (worst, rest) =>
      match compare_entries x worst with
      | Gt => Some (x, worst :: rest)
      | _ => Some (worst, x :: rest)
      end
    end
  end.

Definition push_top_ranked_result (limit : N) (heap : list RankedNodeResult) (result : RankedNodeResult)
    : list RankedNodeResult :=
  if (limit =? 0)%N then heap
  else if (N.of_nat (length heap) <? limit)%N then result :: heap
  else
    match heap_pop heap with
    | Some (worst, rest) =>
      match compare_entries result worst with Lt => result :: rest | _ => heap end
    | None => heap
    end.

Definition finalize_top_ranked_results (heap : list RankedNodeResult) : list RankedNodeResult :=
  sort_ranked_results heap.

Definition top_ranked (limit : N) (results : list RankedNodeResult) : list RankedNodeResult :=
  finalize_top_ranked_results (foldl (push_top_ranked_result limit) [] results).

(** ** Searches *)

Section searches.
Context (v : GraphView).

Definition score_candidate (query_vector : list f32) (vector_name : string) (n : NodeRecord)
    : option RankedNodeResult :=
  embedding ← vector n vector_name;
  let semantic := default F32.zero (cosine_similarity query_vector embedding) in
  Some (mkRanked n semantic (mkScore F32.zero semantic F32.zero F32.zero F32.zero)).

Definition vector_search (query_vector : list f32) (vector_name : string) (ty : option string) (limit : N)
    (top_k_override : option N) : list RankedNodeResult :=
  let candidate_ids := gv_semantic_candidate_ids v
    (mkSemantic query_vector vector_name ty limit top_k_override) in
  top_ranked limit (omap (score_candidate query_vector vector_name) (omap (gv_get_node v) candidate_ids)).

(** The edges of a node in the search of [graph_distances]: what is pushed on the queue, and
    the distances. *)
Definition distance_edge (id : NodeId) (depth : N) (st : list NodeId * gmap NodeId N) (eid : EdgeId)
    : list NodeId * gmap NodeId N :=
  match gv_get_edge v eid with
  | None => st
  | Some e =>
    let neighbor := if decide (edge_source e = id) then edge_target e else edge_source e in
    match st.2 !! neighbor with
    | Some _ => st
    | None => (st.1 ++ [neighbor], <[neighbor := (depth + 1)%N]> st.2)
    end
  end.

Definition distance_node (ty : option string) (depth : N) (st : list NodeId * gmap NodeId N) (id : NodeId)
    : list NodeId * gmap NodeId N :=
  foldl (distance_edge id depth) st (gv_edge_ids_for v id Both ty).

(** The queue holds the nodes of one depth and then those of the next: a turn of [levels] is
    the stretch of the loop that takes out the nodes of depth [depth].  At depth three they
    are only taken out. *)
Fixpoint distance_levels (ty : option string) (levels : nat) (depth : N) (queue : list NodeId)
    (distances : gmap NodeId N) : gmap NodeId N :=
  match levels with
  | O => distances
  | S levels =>
    let '(next, distances) := foldl (distance_node ty depth) ([], distances) queue in
    distance_levels ty levels (depth + 1) next distances
  end.

Definition graph_distances (start : NodeId) (ty : option string) : gmap NodeId N :=
  if gv_contains_node v start then distance_levels ty 3 0 [start] {[start := 0%N]} else ∅.

Record RankedRetrievalParams := mkParams {
  rp_query_vector : option (list f32);
  rp_vector_name : string;
  rp_reference_node_id : option NodeId;
  rp_edge_type : option string;
  rp_from_epoch_ms : option Z;
  rp_to_epoch_ms : option Z;
  rp_limit : N;
  rp_top_k_override : option N;
  rp_now_epoch_ms : Z;
  rp_profile : RetrievalProfile;
}.

Definition within_optional_time_range (from to : option Z) (n : NodeRecord) : bool :=
  match from, to with
  | None, None => true
  | Some from, Some to =>
    from_option (λ ts, (from <=? ts)%Z && (ts <=? to)%Z) false (timestamp_ms n)
  | Some from, None => from_option (λ ts, (from <=? ts)%Z) false (timestamp_ms n)
  | None, Some to => from_option (λ ts, (ts <=? to)%Z) false (timestamp_ms n)
  end.

Definition candidate_set (params : RankedRetrievalParams) (query_vector : list f32)
    (distances : option (gmap NodeId N)) : gset NodeId :=
  list_to_set (gv_semantic_candidate_ids v
    (mkSemantic query_vector (rp_vector_name params) None (rp_limit params) (rp_top_k_override params))) ∪
  from_option dom ∅ distances.

Definition ranked_retrieval_candidates (params : RankedRetrievalParams) (distances : option (gmap NodeId N))
    : Result Failure (list NodeRecord) :=
  let in_range := within_optional_time_range (rp_from_epoch_ms params) (rp_to_epoch_ms params) in
  let candidate_ids := from_option (λ q, candidate_set params q distances) ∅ (rp_query_vector params) in
  if decide (candidate_ids = ∅) then
    match rp_from_epoch_ms params, rp_to_epoch_ms params with
    | Some from, Some to =>
      fmap (M:=Result Failure) (omap (gv_get_node v)) (gv_node_ids_in_time_range v from to)
    | _, _ => Ok (filter (λ n, in_range n = true) (gv_all_nodes v))
    end
  else Ok (filter (λ n, in_range n = true) (omap (gv_get_node v) (bset_elements candidate_ids))).

Definition rank_node (params : RankedRetrievalParams) (distances : option (gmap NodeId N)) (n : NodeRecord)
    : RankedNodeResult :=
  let structural := from_option distance_to_score F32.zero
    (distances ≫= λ d, d !! node_id n) in
  let semantic := default F32.zero
    (q ← rp_query_vector params; embedding ← vector n (rp_vector_name params); cosine_similarity q embedding) in
  let temporal := from_option (λ ts, temporal_recency_score ts (rp_now_epoch_ms params)) F32.zero
    (timestamp_ms n) in
  let breakdown := mkScore structural semantic temporal (normalize_signal (importance n))
    (normalize_signal (confidence n)) in
  mkRanked n (rank breakdown (profile_weights (rp_profile params))) breakdown.

Definition ranked_retrieval (params : RankedRetrievalParams) : Result Failure (list RankedNodeResult) :=
  let distances := (λ id, graph_distances id (rp_edge_type params)) <$> rp_reference_node_id params in
  fmap (M:=Result Failure) (λ nodes, top_ranked (rp_limit params) (rank_node params distances <$> nodes))
    (ranked_retrieval_candidates params distances).
End searches.

Definition resolve_retrieval_profile (name : option string) : Res RetrievalProfile :=
  match name with
  | None => Ok v1_default
  | Some name =>
    if decide (name = "v1-default") then Ok v1_default
    else Err (Validation ("unsupported retrieval profile '" +:+ name +:+ "'"))
  end.

(** ** Scores as a lexicographic order *)

(** Where a float stands: sign and kind, exponent, significand. *)
Definition float_key (a : spec_float) : Z * Z * Z :=
  match a with
  | S754_infinity true => (-2, 0, 0)%Z
  | S754_finite true m e => (-1, - e, Zneg m)%Z
  | S754_zero _ => (0, 0, 0)%Z
  | S754_finite false m e => (1, e, Zpos m)%Z
  | S754_infinity false => (2, 0, 0)%Z
  | S754_nan => (3, 0, 0)%Z
  end.

Definition lex_compare '((a1, a2, a3) : Z * Z * Z) '((b1, b2, b3) : Z * Z * Z) : comparison :=
  then_with (a1 ?= b1)%Z (then_with (a2 ?= b2)%Z (a3 ?= b3)%Z).

Lemma compare_key a b : a ≠ S754_nan → b ≠ S754_nan →
  f_partial_cmp a b = Some (lex_compare (float_key a) (float_key b)).
Proof.
  intros Ha Hb. unfold f_partial_cmp.
  destruct a as [[]|[]| |[] m1 e1], b as [[]|[]| |[] m2 e2]; try done; simpl.
  - replace (- e1 ?= - e2)%Z with (CompOpp (e1 ?= e2)%Z)
      by (rewrite (Z.compare_opp e1 e2); symmetry; apply Z.compare_antisym).
    by destruct (e1 ?= e2)%Z.
  - by destruct (e1 ?= e2)%Z.
Qed.

Lemma lex_le a b : lex_compare a b ≠ Gt ↔
  (a.1.1 < b.1.1 ∨ a.1.1 = b.1.1 ∧ (a.1.2 < b.1.2 ∨ a.1.2 = b.1.2 ∧ a.2 <= b.2))%Z.
Proof.
  destruct a as [[a1 a2] a3], b as [[b1 b2] b3]. simpl.
  destruct (Z.compare_spec a1 b1); simpl; [|split; [lia|done]|split; [done|lia]].
  destruct (Z.compare_spec a2 b2); simpl; [|split; [lia|done]|split; [done|lia]].
  destruct (Z.compare_spec a3 b3); split; (done || lia).
Qed.
Lemma lex_eq a b : lex_compare a b = Eq ↔ a = b.
Proof.
  destruct a as [[a1 a2] a3], b as [[b1 b2] b3]. simpl. split.
  - destruct (Z.compare_spec a1 b1); simpl; try done. destruct (Z.compare_spec a2 b2); simpl; try done.
    intros ?%Z.compare_eq. congruence.
  - intros [= -> -> ->]. by rewrite !Z.compare_refl.
Qed.
Lemma lex_opp a b : lex_compare b a = CompOpp (lex_compare a b).
Proof.
  destruct a as [[a1 a2] a3], b as [[b1 b2] b3]. simpl.
  rewrite (Z.compare_antisym a1 b1), (Z.compare_antisym a2 b2), (Z.compare_antisym a3 b3).
  by destruct (a1 ?= b1)%Z, (a2 ?= b2)%Z.
Qed.

(** A score that [total_cmp] and [partial_cmp] order alike. *)
Definition ordinary (a : spec_float) : Prop := a ≠ S754_nan ∧ a ≠ S754_zero true.

Lemma compare_agree l r : ordinary (rr_score l) → ordinary (rr_score r) →
  compare_entries l r = compare_ranked l r.
Proof.
  intros [Hl Hl0] [Hr Hr0]. unfold compare_entries, compare_ranked, f_partial_cmp, f_total_cmp.
  by destruct (rr_score r) as [[]|[]| |[]], (rr_score l) as [[]|[]| |[]].
Qed.

(** Best first: the higher score, and the lesser id among equals. *)
Lemma ranked_le_spec l r : ordinary (rr_score l) → ordinary (rr_score r) →
  ranked_le l r ↔ lex_compare (float_key (rr_score r)) (float_key (rr_score l)) = Lt ∨
    float_key (rr_score r) = float_key (rr_score l) ∧ ord_le (node_id (rr_node l)) (node_id (rr_node r)).
Proof.
  intros [Hl _] [Hr _]. unfold ranked_le, compare_ranked. rewrite compare_key by done. simpl default.
  rewrite <-lex_eq. destruct (lex_compare _ _) eqn:Hc; simpl; [|intuition congruence..].
  unfold compare_ids. change (ord_le ?a ?b) with (String.le (node_id_str a) (node_id_str b)).
  unfold String.le, String.leb. destruct (String.compare _ _); simpl; intuition congruence.
Qed.

Lemma ranked_le_trans a b c : ordinary (rr_score a) → ordinary (rr_score b) → ordinary (rr_score c) →
  ranked_le a b → ranked_le b c → ranked_le a c.
Proof.
  intros Ha Hb Hc. rewrite !ranked_le_spec by done.
  set (ka := float_key (rr_score a)). set (kb := float_key (rr_score b)). set (kc := float_key (rr_score c)).
  intros [H1|[<- H1]] [H2|[<- H2]]; [|by left..|right; split; [done|by etrans]].
  left. assert (Hle : ∀ x y, lex_compare x y = Lt → lex_compare x y ≠ Gt ∧ lex_compare y x = Gt).
  { intros x y Hxy. rewrite (lex_opp x y), Hxy. done. }
  destruct (Hle _ _ H1) as [L1 G1]. destruct (Hle _ _ H2) as [L2 G2].
  assert (N1 : ¬ lex_compare ka kb ≠ Gt) by tauto. assert (N2 : ¬ lex_compare kb kc ≠ Gt) by tauto.
  clear G1 G2 H1 H2. rewrite lex_le in L1, L2, N1, N2.
  destruct (lex_compare kc ka) eqn:Hk; [|done|].
  - apply lex_eq in Hk. rewrite Hk in *. exfalso. lia.
  - assert (N3 : ¬ lex_compare kc ka ≠ Gt) by tauto. rewrite lex_le in N3. exfalso. lia.
Qed.

Lemma compare_ids_opp l r : compare_ids r l = CompOpp (compare_ids l r).
Proof. apply String.compare_antisym. Qed.

Lemma compare_ranked_opp l r : compare_ranked r l = CompOpp (compare_ranked l r).
Proof.
  unfold compare_ranked, f_partial_cmp. rewrite (SFcompare_swap (rr_score r) (rr_score l)), compare_ids_opp.
  destruct (SFcompare (rr_score r) (rr_score l)) as [[]|]; done.
Qed.

#[global] Instance ranked_le_total : Total ranked_le.
Proof.
  intros l r. unfold ranked_le. rewrite (compare_ranked_opp l r). destruct (compare_ranked l r); simpl; auto.
Qed.

Definition rr_id (r : RankedNodeResult) : NodeId := node_id (rr_node r).
Abbreviation ordinary_scores := (Forall (λ r, ordinary (rr_score r))).

Lemma ranked_le_antisymm a b : ordinary (rr_score a) → ordinary (rr_score b) →
  ranked_le a b → ranked_le b a → rr_id a = rr_id b.
Proof.
  intros Ha Hb. rewrite !ranked_le_spec by done. intros [H1|[Hk H1]] [H2|[Hk' H2]].
  - rewrite lex_opp, H1 in H2. done.
  - rewrite Hk', (proj2 (lex_eq _ _) eq_refl) in H1. done.
  - rewrite Hk, (proj2 (lex_eq _ _) eq_refl) in H2. done.
  - by apply (anti_symm ord_le).
Qed.

Lemma heap_pop_spec heap : ordinary_scores heap →
  match heap_pop heap with
  | Some (worst, rest) => heap ≡ₚ worst :: rest ∧ ∀ x, x ∈ rest → ranked_le x worst
  | None => heap = []
  end.
Proof.
  induction heap as [|x heap IH]; intros Hord; [done|]. apply list.Forall_cons in Hord as [Hx Hord].
  specialize (IH Hord). cbn [heap_pop]. destruct (heap_pop heap) as [[worst rest]|].
  2: { subst heap. split; [done|]. by intros ? ?%elem_of_nil. }
  destruct IH as [Hperm Hworst].
  assert (Hw : ordinary (rr_score worst)).
  { rewrite list.Forall_forall in Hord. apply Hord. rewrite Hperm. left. }
  rewrite compare_agree by done.
  assert (Hle : ∀ y, y ∈ rest → ordinary (rr_score y)).
  { intros y Hy. rewrite list.Forall_forall in Hord. apply Hord. rewrite Hperm. by right. }
  destruct (compare_ranked x worst) eqn:Hc.
  1,2: split; [rewrite Hperm; constructor|intros y [->|Hy]%elem_of_cons; [unfold ranked_le; by rewrite Hc|auto]].
  split; [by rewrite Hperm|].
  assert (Hwx : ranked_le worst x) by (unfold ranked_le; by rewrite compare_ranked_opp, Hc).
  intros y [->|Hy]%elem_of_cons; [done|]. apply (ranked_le_trans _ worst); auto.
Qed.

(** The heap keeps the best of what was pushed. *)
Record keeps_best (limit : N) (pushed heap rest : list RankedNodeResult) : Prop := {
  kb_perm : pushed ≡ₚ heap ++ rest;
  kb_best : ∀ a b, a ∈ heap → b ∈ rest → ranked_le a b;
  kb_full : rest = [] ∨ N.of_nat (length heap) = limit;
  kb_size : (N.of_nat (length heap) <= limit)%N;
}.

Lemma push_keeps_best limit pushed heap rest r : ordinary_scores (r :: pushed) →
  keeps_best limit pushed heap rest →
  ∃ rest', keeps_best limit (pushed ++ [r]) (push_top_ranked_result limit heap r) rest'.
Proof.
  intros [Hr Hord]%list.Forall_cons [Hperm Hbest Hfull Hsize]. unfold push_top_ranked_result.
  rewrite Hperm, list.Forall_app in Hord. destruct Hord as [Hoh Hor].
  assert (Hkeep : (N.of_nat (length heap) = limit)%N → (∀ a, a ∈ heap → ranked_le a r) →
    keeps_best limit (pushed ++ [r]) heap (r :: rest)).
  { intros Hlen Hle. split.
    - rewrite Hperm, <-app_assoc, (Permutation_app_comm rest [r]). done.
    - intros a b Ha [->|Hb]%elem_of_cons; auto.
    - by right.
    - done. }
  destruct (N.eqb_spec limit 0) as [->|Hlimit].
  { exists (r :: rest). destruct heap; [|simpl in Hsize; lia]. apply Hkeep; [done|]. by intros ? ?%elem_of_nil. }
  destruct (N.ltb_spec (N.of_nat (length heap)) limit) as [Hlt|Hge].
  { destruct Hfull as [->|]; [|lia]. exists []. split.
    - rewrite Hperm, !app_nil_r. symmetry. apply Permutation_cons_append.
    - by intros ? ? ? ?%elem_of_nil.
    - by left.
    - simpl. lia. }
  pose proof (heap_pop_spec heap Hoh) as Hpop. destruct (heap_pop heap) as [[worst rest0]|].
  2: { subst heap. simpl in Hge. lia. }
  destruct Hpop as [Hp Hworst].
  assert (Hin : ∀ a, a ∈ heap ↔ a = worst ∨ a ∈ rest0) by (intros a; by rewrite Hp, elem_of_cons).
  rewrite list.Forall_forall in Hoh, Hor.
  assert (Hw : ordinary (rr_score worst)) by (apply Hoh, Hin; by left).
  rewrite compare_agree by done. destruct (compare_ranked r worst) eqn:Hc.
  1,3: exists (r :: rest); apply Hkeep; [lia|]; intros a Ha;
    assert (Hwr : ranked_le worst r) by (unfold ranked_le; by rewrite compare_ranked_opp, Hc);
    apply (ranked_le_trans _ worst); [auto..| |done];
    apply Hin in Ha as [->|Ha]; [unfold ranked_le; by destruct (base.total ranked_le worst worst)|auto].
  assert (Hrw : ranked_le r worst) by (unfold ranked_le; by rewrite Hc).
  exists (worst :: rest). split.
  - rewrite Hperm, Hp, <-(Permutation_cons_append _ r). cbn [app].
    apply Permutation_skip, Permutation_middle.
  - intros a b Ha [->|Hb]%elem_of_cons.
    + apply elem_of_cons in Ha as [->|Ha]; auto.
    + apply elem_of_cons in Ha as [->|Ha]; [|apply Hbest; [apply Hin; by right|done]].
      apply (ranked_le_trans _ worst); [auto..|]. apply Hbest; [apply Hin; by left|done].
  - right. apply Permutation_length in Hp. simpl in *. lia.
  - apply Permutation_length in Hp. simpl in *. lia.
Qed.

Lemma pushes_keep_best limit l : ∀ pushed heap rest, ordinary_scores (pushed ++ l) →
  keeps_best limit pushed heap rest →
  ∃ rest', keeps_best limit (pushed ++ l) (foldl (push_top_ranked_result limit) heap l) rest'.
Proof.
  induction l as [|r l IH]; intros pushed heap rest Hord Hk; simpl.
  - rewrite app_nil_r. by exists rest.
  - destruct (push_keeps_best limit pushed heap rest r) as [rest' Hk']; [|done|].
    + rewrite list.Forall_app, list.Forall_cons in Hord. apply list.Forall_cons. tauto.
    + rewrite cons_middle, app_assoc. apply (IH _ _ rest'); [|done].
      by rewrite <-app_assoc, <-cons_middle.
Qed.

Lemma sort_strongly l : ordinary_scores l → StronglySorted ranked_le (sort_ranked_results l).
Proof.
  intros Hord. assert (Hs : Sorted ranked_le (sort_ranked_results l)) by (apply Sorted_merge_sort, _).
  assert (Hord' : ordinary_scores (sort_ranked_results l)).
  { unfold sort_ranked_results. by rewrite merge_sort_Permutation. }
  induction Hs as [|a k Hs IH Hhd]; [constructor|]. apply list.Forall_cons in Hord' as [Ha Hk].
  specialize (IH Hk). constructor; [done|]. clear Hs. destruct Hhd as [|b k Hab]; [constructor|].
  apply list.Forall_cons in Hk as [Hb Hk]. apply StronglySorted_inv in IH as [_ Hall].
  constructor; [done|]. rewrite list.Forall_forall in *. intros x Hx.
  apply (ranked_le_trans _ b); auto.
Qed.

(** C28: The heap of bounded size computes what sorting everything would: for results of distinct
    nodes whose scores are neither NaN nor a negative zero, the results kept are the first
    [limit] of the sorted list, best score first and lesser identifier first among equals. *)
Theorem top_ranked_is_sorted_prefix limit results : ordinary_scores results → NoDup (rr_id <$> results) →
  top_ranked limit results = take (N.to_nat limit) (sort_ranked_results results).
Proof.
  intros Hord Hnodup. unfold top_ranked, finalize_top_ranked_results.
  destruct (pushes_keep_best limit results [] [] []) as (rest & [Hperm Hbest Hfull Hsize]); [done| |].
  { split; [done|by intros ? ? ?%elem_of_nil|by left|simpl; lia]. }
  set (heap := foldl _ _ _) in *. simpl in Hperm.
  assert (Hords : ordinary_scores heap ∧ ordinary_scores rest).
  { by rewrite <-list.Forall_app, <-Hperm. }
  destruct Hords as [Hoh Hor].
  assert (Heq : sort_ranked_results results = sort_ranked_results heap ++ sort_ranked_results rest).
  { apply (StronglySorted_unique_strong ranked_le).
    - intros x y Hx Hy Hxy Hyx. unfold sort_ranked_results in Hx, Hy.
      rewrite merge_sort_Permutation in Hx. rewrite !merge_sort_Permutation, <-Hperm in Hy.
      rewrite list.Forall_forall in Hord.
      assert (Hid : rr_id x = rr_id y) by (apply ranked_le_antisymm; auto).
      apply list_elem_of_lookup in Hx as [i Hi]. apply list_elem_of_lookup in Hy as [j Hj].
      assert (i = j); [|congruence].
      apply (NoDup_lookup (rr_id <$> results) i j (rr_id x)); [done|by rewrite list_lookup_fmap, Hi|].
      by rewrite list_lookup_fmap, Hj, Hid.
    - by apply sort_strongly.
    - apply StronglySorted_app. split; [|split; by apply sort_strongly].
      intros a b Ha Hb. unfold sort_ranked_results in Ha, Hb.
      rewrite merge_sort_Permutation in Ha, Hb. by apply Hbest.
    - unfold sort_ranked_results. by rewrite !merge_sort_Permutation. }
  assert (Hlen : length (sort_ranked_results heap) = length heap).
  { apply Permutation_length, merge_sort_Permutation. }
  rewrite Heq. destruct Hfull as [->|Hfull].
  - cbn [sort_ranked_results merge_sort]. rewrite app_nil_r, take_ge; [done|]. lia.
  - rewrite take_app_le, take_ge; [done|lia..].
Qed.

(** ** Concrete inputs *)

Module Demo.
Import Batch.Demo.

Definition scored (id : string) (score : f32) : RankedNodeResult :=
  mkRanked (node id "memory") score (mkScore score score score score score).
Definition results : list RankedNodeResult :=
  [scored "b" F32.one; scored "c" F32.zero; scored "a" F32.one; scored "d" (F32.of_Z 2)].
(** A vector whose square overflows. *)
Definition huge : list f32 := [F32.of_Z (2 ^ 100)].
End Demo.

Lemma top_ranked_is_sorted_prefix_witness :
  top_ranked 2 Demo.results = take 2 (sort_ranked_results Demo.results) ∧
  rr_id <$> top_ranked 2 Demo.results = [mkNodeId "d"; mkNodeId "a"].
Proof.
  split; [|vm_compute; reflexivity]. apply (top_ranked_is_sorted_prefix 2 Demo.results).
  - repeat (constructor; [split; vm_compute; congruence|]). constructor.
  - cut (bool_decide (NoDup (rr_id <$> Demo.results)) = true); [apply bool_decide_eq_true|vm_compute; reflexivity].
Defined.

(** Scores need not be numbers: the similarity of vectors whose squares overflow is NaN, and
    with a NaN among the results the comparator of the sort is not transitive. *)
Lemma similarity_overflows : cosine_similarity Demo.huge Demo.huge = Some S754_nan.
Proof. vm_compute. reflexivity. Qed.

Lemma nan_breaks_order :
  ranked_le (Demo.scored "a" F32.zero) (Demo.scored "b" S754_nan) ∧
  ranked_le (Demo.scored "b" S754_nan) (Demo.scored "c" F32.one) ∧
  ¬ ranked_le (Demo.scored "a" F32.zero) (Demo.scored "c" F32.one).
Proof. unfold ranked_le. vm_compute. split; [|split]; congruence. Qed.
