(* ===== verification/Executor.v ===== *)
(** * [crates/query]: execution of a request

    [Executor::execute_iter] and [Executor::execute]: a request is planned, which checks its
    bounds, and then answered from a view of the graph.  The outer option is the fuel of the
    two searches; [clock] gives the readings of their timers. *)
From S2P Require Import Prelude RustStd RustFloat Common Core Config Fs Memory Batch Index Query Traversal Paths Ranking.

#[local] Open Scope string_scope.
#[local] Open Scope list_scope.

Record QueryExecution := mkExecution {
  qe_plan_kind : PlanKind;
  qe_retrieval_profile : option string;
  qe_items : list QueryExecutionItem;
}.

(** [QueryExecution::from_response]. *)
Definition from_response (r : QueryResponse) : QueryExecution :=
  mkExecution (qr_plan_kind r) (qr_retrieval_profile r)
    ((if is_nil (qr_ranked_results r) then INode <$> qr_nodes r else IRanked <$> qr_ranked_results r) ++
     (IEdge <$> qr_edges r) ++ (IPath <$> option_list (qr_path r))).

Definition collect_item (r : QueryResponse) (item : QueryExecutionItem) : QueryResponse :=
  let '(mkResponse kind nodes edges ranked path profile) := r in
  match item with
  | INode n => mkResponse kind (nodes ++ [n]) edges ranked path profile
  | IEdge e => mkResponse kind nodes (edges ++ [e]) ranked path profile
  | IRanked result => mkResponse kind (nodes ++ [rr_node result]) edges (ranked ++ [result]) path profile
  | IPath p => mkResponse kind nodes edges ranked (Some p) profile
  end.

(** [QueryExecution::collect_response]. *)
Definition collect_response (e : QueryExecution) : QueryResponse :=
  foldl collect_item (mkResponse (qe_plan_kind e) [] [] [] None (qe_retrieval_profile e)) (qe_items e).

Section execute.
Context (v : GraphView).

Definition collect_neighbor (direction : EdgeDirection) (id : NodeId)
    (acc : gset NodeId * list NodeRecord * list EdgeRecord) (eid : EdgeId)
    : gset NodeId * list NodeRecord * list EdgeRecord :=
  let '(seen, nodes, edges) := acc in
  match gv_get_edge v eid with
  | None => acc
  | Some e =>
    let neighbor := neighbor_of direction id e in
    (if decide (neighbor ∈ seen) then seen else {[neighbor]} ∪ seen,
     if decide (neighbor ∈ seen) then nodes else nodes ++ option_list (gv_get_node v neighbor),
     edges ++ [e])
  end.

Definition collect_neighbor_results (id : NodeId) (direction : EdgeDirection) (ty : option string) (limit : N)
    : list NodeRecord * list EdgeRecord :=
  let '(_, nodes, edges) := foldl (collect_neighbor direction id) (∅, [], [])
    (take (N.to_nat limit) (gv_edge_ids_for v id direction ty)) in
  (nodes, edges).

(** [LabelScanExecutionIter]: [offset] and [yielded] are how far the list and the limit go. *)
Fixpoint label_scan (node_ids : list NodeId) (yielded limit : nat) : list NodeRecord :=
  match node_ids with
  | [] => []
  | id :: node_ids =>
    if (yielded <? limit)%nat then
      match gv_get_node v id with
      | Some n => n :: label_scan node_ids (S yielded) limit
      | None => label_scan node_ids yielded limit
      end
    else []
  end.

Definition filter_nodes (label : option string) (f : FilterExpression) (limit : N) : list NodeRecord :=
  let candidates :=
    match label with
    | Some label => omap (gv_get_node v) (gv_node_ids_by_type v label)
    | None => gv_all_nodes v
    end in
  take (N.to_nat limit) (filter (λ n, node_matches_filter n f = true) candidates).

Definition field_in_range (field : string) (from_epoch_ms to_epoch_ms : Z) (n : NodeRecord) : bool :=
  from_option (λ value, (from_epoch_ms <=? value)%Z && (value <=? to_epoch_ms)%Z) false
    (property n field ≫= as_i64).

Definition time_range (field : string) (from_epoch_ms to_epoch_ms : Z) (limit : N)
    : Result Failure (list NodeRecord) :=
  if decide (field = "timestamp") then
    fmap (M:=Result Failure) (λ ids, take (N.to_nat limit) (omap (gv_get_node v) ids))
      (gv_node_ids_in_time_range v from_epoch_ms to_epoch_ms)
  else Ok (take (N.to_nat limit)
    (filter (λ n, field_in_range field from_epoch_ms to_epoch_ms n = true) (gv_all_nodes v))).

(** The answer to a [ShortestPath] request. *)
Definition path_response (kind : PlanKind) (path : option GraphPath) : QueryResponse :=
  mkResponse kind
    (from_option (λ p, omap (gv_get_node v) (path_node_ids p)) [] path)
    (from_option (λ p, omap (gv_get_edge v) (path_edge_ids p)) [] path) [] path None.

Definition ranked_response (kind : PlanKind) (profile : option string) (ranked : list RankedNodeResult)
    : QueryResponse :=
  mkResponse kind (rr_node <$> ranked) [] ranked None profile.

Definition failed {A} (e : Undr9Error) : option (Result Failure A) := Some (Err (Error e)).

(** [r?] in a function that may also run out of fuel. *)
Definition try_res {A B} (r : Res A) (k : A → option (Result Failure B)) : option (Result Failure B) :=
  match r with Ok a => k a | Err e => failed e end.
Definition try_failure {A B} (r : Result Failure A) (k : A → option (Result Failure B))
    : option (Result Failure B) :=
  match r with Ok a => k a | Err e => Some (Err e) end.

(** [Executor::execute_iter]. *)
Definition execute_iter (clock : nat → N) (request : QueryRequest)
    : option (Result Failure QueryExecution) :=
  try_res (plan request) (λ p,
  let streamed items := Some (Ok (mkExecution (plan_kind p) None items)) in
  let respond r := Some (Ok (from_response r)) in
  match request with
  | GetNodeById id => streamed (INode <$> option_list (gv_get_node v id))
  | GetNodeByUniqueKey key =>
    streamed (INode <$> option_list (gv_lookup_unique_key v key ≫= gv_get_node v))
  | FilterNodes label f limit =>
    try_res (resolve_result_limit limit) (λ limit, streamed (INode <$> filter_nodes label f limit))
  | ListNeighbors id ty direction limit =>
    try_res (resolve_result_limit limit) (λ limit,
      let '(nodes, edges) := collect_neighbor_results id direction ty limit in
      respond (mkResponse (plan_kind p) nodes edges [] None None))
  | Traverse start ty direction max_hops limit timeout_ms constraints =>
    try_res (resolve_traversal_runtime max_hops limit timeout_ms constraints) (λ rt,
      items ← traverse v direction (merge_legacy_edge_type ty rt) clock start;
      streamed items)
  | ShortestPath source target direction max_depth limit timeout_ms constraints =>
    try_res (resolve_traversal_runtime max_depth limit timeout_ms constraints) (λ rt,
      path ← shortest_path v rt clock source target direction;
      respond (path_response (plan_kind p) path))
  | SearchByLabel label limit =>
    try_res (resolve_result_limit limit) (λ limit,
      streamed (INode <$> label_scan (gv_node_ids_by_type v label) 0 (N.to_nat limit)))
  | TimeRange field from_epoch_ms to_epoch_ms limit =>
    try_failure (time_range field from_epoch_ms to_epoch_ms limit) (λ nodes, streamed (INode <$> nodes))
  | VectorSearch query_vector ty name limit top_k =>
    respond (ranked_response (plan_kind p) None
      (vector_search v query_vector (default DEFAULT_VECTOR_NAME name) ty limit top_k))
  | RankedRetrieval query_vector reference ty from_epoch_ms to_epoch_ms name limit top_k now profile =>
    try_res (resolve_retrieval_profile profile) (λ profile,
    try_failure (ranked_retrieval v (mkParams query_vector (default DEFAULT_VECTOR_NAME name) reference ty
      from_epoch_ms to_epoch_ms limit top_k now profile)) (λ ranked,
    respond (ranked_response (plan_kind p) (Some (profile_name profile)) ranked)))
  end).

(** [Executor::execute]. *)
Definition execute (clock : nat → N) (request : QueryRequest) : option (Result Failure QueryResponse) :=
  r ← execute_iter clock request;
  Some (fmap (M:=Result Failure) collect_response r).
End execute.

(** ** Answers *)

(** A response goes through its items unchanged. *)
Lemma collect_nodes nodes : ∀ k ns es rs p f,
  foldl collect_item (mkResponse k ns es rs p f) (INode <$> nodes) = mkResponse k (ns ++ nodes) es rs p f.
Proof.
  induction nodes as [|n nodes IH]; intros; csimpl; [by rewrite app_nil_r|]. by rewrite IH, <-app_assoc.
Qed.
Lemma collect_edges edges : ∀ k ns es rs p f,
  foldl collect_item (mkResponse k ns es rs p f) (IEdge <$> edges) = mkResponse k ns (es ++ edges) rs p f.
Proof.
  induction edges as [|e edges IH]; intros; csimpl; [by rewrite app_nil_r|]. by rewrite IH, <-app_assoc.
Qed.
Lemma collect_ranked ranked : ∀ k ns es rs p f,
  foldl collect_item (mkResponse k ns es rs p f) (IRanked <$> ranked) =
    mkResponse k (ns ++ (rr_node <$> ranked)) es (rs ++ ranked) p f.
Proof.
  induction ranked as [|r ranked IH]; intros; csimpl; [by rewrite !app_nil_r|]. by rewrite IH, <-!app_assoc.
Qed.

Lemma collect_from_response r : qr_ranked_results r = [] ∨ qr_nodes r = rr_node <$> qr_ranked_results r →
  collect_response (from_response r) = r.
Proof.
  destruct r as [k ns es rs p f]. simpl. intros Hr. unfold collect_response, from_response. simpl.
  rewrite foldl_app, foldl_app.
  assert (Hpath : ∀ k ns es rs f, foldl collect_item (mkResponse k ns es rs None f) (IPath <$> option_list p) =
    mkResponse k ns es rs p f) by (intros; by destruct p).
  destruct rs as [|r rs]; cbn [is_nil].
  - by rewrite collect_nodes, collect_edges, Hpath.
  - destruct Hr as [?| ->]; [done|]. by rewrite collect_ranked, collect_edges, Hpath.
Qed.

Lemma collect_stream k f nodes :
  collect_response (mkExecution k f (INode <$> nodes)) = mkResponse k nodes [] [] None f.
Proof. apply collect_nodes. Qed.

(** Items without ranked results or paths. *)
Lemma collect_traversal items : Forall (λ i, match i with INode _ | IEdge _ => True | _ => False end) items →
  ∀ k ns es rs p f, foldl collect_item (mkResponse k ns es rs p f) items =
    mkResponse k (ns ++ nodes_in items) (es ++ edges_in items) rs p f.
Proof.
  induction 1 as [|[n|e|?|?] items Hi _ IH]; intros; csimpl; try done.
  - by rewrite !app_nil_r.
  - rewrite IH. by rewrite <-app_assoc.
  - rewrite IH. by rewrite <-app_assoc.
Qed.

Definition request_limit (request : QueryRequest) : N :=
  match request with
  | GetNodeById _ | GetNodeByUniqueKey _ => 1
  | FilterNodes _ _ limit | ListNeighbors _ _ _ limit | Traverse _ _ _ _ limit _ _
  | SearchByLabel _ limit => default DEFAULT_RESULT_LIMIT limit
  | ShortestPath _ _ _ max_depth _ _ _ => 2 * default DEFAULT_MAX_DEPTH max_depth + 1
  | TimeRange _ _ _ limit | VectorSearch _ _ _ limit _ | RankedRetrieval _ _ _ _ _ _ limit _ _ _ => limit
  end.

(** What a request asks of a node of its answer. *)
Definition wanted (m : Maps) (request : QueryRequest) (n : NodeRecord) : Prop :=
  match request with
  | GetNodeById id => node_id n = id
  | GetNodeByUniqueKey key => node_unique_key n = Some key
  | FilterNodes label f _ => (∀ l, label = Some l → node_type n = l) ∧ node_matches_filter n f = true
  | ListNeighbors id ty direction _ => ∃ e, m.2 !! edge_id e = Some e ∧
      edge_matches e id direction ty = true ∧ neighbor_of direction id e = node_id n
  | Traverse start ty direction max_hops limit timeout_ms constraints => ∃ rt d,
      resolve_traversal_runtime max_hops limit timeout_ms constraints = Ok rt ∧ (d <= rt_max_depth rt)%N ∧
      reach m direction (rt_constraints (merge_legacy_edge_type ty rt)) start d (node_id n)
  | ShortestPath source target _ max_depth limit timeout_ms constraints => ∃ rt,
      resolve_traversal_runtime max_depth limit timeout_ms constraints = Ok rt ∧
      (node_id n = source ∨ node_id n = target ∨ allowed m (rt_constraints rt) (node_id n))
  | SearchByLabel label _ => node_type n = label
  | TimeRange field from_epoch_ms to_epoch_ms _ => field_in_range field from_epoch_ms to_epoch_ms n = true
  | VectorSearch _ _ name _ _ => is_Some (vector n (default DEFAULT_VECTOR_NAME name))
  | RankedRetrieval _ _ _ from_epoch_ms to_epoch_ms _ _ _ _ _ =>
      within_optional_time_range from_epoch_ms to_epoch_ms n = true
  end.

(** An answer: nodes and edges of the graph, no more than asked for, all of them wanted. *)
Record answers (m : Maps) (request : QueryRequest) (r : QueryResponse) : Prop := {
  an_nodes : ∀ n, n ∈ qr_nodes r → m.1 !! node_id n = Some n ∧ wanted m request n;
  an_edges : ∀ e, e ∈ qr_edges r → m.2 !! edge_id e = Some e;
  an_nodes_limit : (N.of_nat (length (qr_nodes r)) <= request_limit request)%N;
  an_edges_limit : (N.of_nat (length (qr_edges r)) <= request_limit request)%N;
}.

Lemma length_omap_le {A B} (f : A → option B) l : (length (omap f l) <= length l)%nat.
Proof. induction l as [|a l IH]; csimpl; [lia|]. destruct (f a); simpl; lia. Qed.

(** [heap_pop] takes one entry out. *)
Lemma heap_pop_perm heap worst rest : heap_pop heap = Some (worst, rest) → heap ≡ₚ worst :: rest.
Proof.
  revert worst rest. induction heap as [|x heap IH]; intros worst rest; cbn [heap_pop]; [done|].
  destruct (heap_pop heap) as [[w k]|] eqn:Hpop.
  - specialize (IH w k eq_refl). destruct (compare_entries x w); intros [= <- <-]; rewrite IH; [constructor..|done].
  - intros [= <- <-]. destruct heap as [|y heap]; [done|]. simpl in Hpop.
    destruct (heap_pop heap) as [[??]|]; [|done]. by destruct (compare_entries y r).
Qed.

Lemma push_members limit heap r : (N.of_nat (length heap) <= limit)%N →
  (N.of_nat (length (push_top_ranked_result limit heap r)) <= limit)%N ∧
  ∀ x, x ∈ push_top_ranked_result limit heap r → x = r ∨ x ∈ heap.
Proof.
  intros Hlen. unfold push_top_ranked_result. destruct (N.eqb_spec limit 0); [by auto|].
  destruct (N.ltb_spec (N.of_nat (length heap)) limit).
  - split; [simpl; lia|]. by intros x ?%elem_of_cons.
  - destruct (heap_pop heap) as [[worst rest]|] eqn:Hpop; [|by auto].
    apply heap_pop_perm in Hpop. destruct (compare_entries r worst); [by auto| |by auto]. split.
    + apply Permutation_length in Hpop. simpl in *. lia.
    + intros x [->|Hx]%elem_of_cons; [by left|]. right. rewrite Hpop. by right.
Qed.

Lemma top_ranked_members limit results :
  (N.of_nat (length (top_ranked limit results)) <= limit)%N ∧
  ∀ r, r ∈ top_ranked limit results → r ∈ results.
Proof.
  unfold top_ranked, finalize_top_ranked_results, sort_ranked_results.
  enough (∀ heap, (N.of_nat (length heap) <= limit)%N →
    (N.of_nat (length (foldl (push_top_ranked_result limit) heap results)) <= limit)%N ∧
    ∀ r, r ∈ foldl (push_top_ranked_result limit) heap results → r ∈ heap ∨ r ∈ results) as Hfold.
  { destruct (Hfold []) as [Hlen Hin]; [simpl; lia|]. split.
    - by rewrite (Permutation_length (merge_sort_Permutation _ _)).
    - intros r. rewrite merge_sort_Permutation. intros [?%elem_of_nil|]%Hin; done. }
  induction results as [|x results IH]; intros heap Hlen; simpl; [by auto|].
  destruct (push_members limit heap x Hlen) as [Hlen' Hin]. destruct (IH _ Hlen') as [H1 H2].
  split; [done|]. intros r [[->|?]%Hin|?]%H2; [right; left|by left|right; by right].
Qed.

Section answers.
Context (v : GraphView) (m : Maps) (Hv : view_of v m) (Hk : keyed m).

Lemma elem_of_nodes (ids : list NodeId) n : n ∈ omap (gv_get_node v) ids → m.1 !! node_id n = Some n ∧ node_id n ∈ ids.
Proof.
  intros (id & Hin & Hn)%list_elem_of_omap. rewrite (vo_get_node _ _ Hv) in Hn.
  by rewrite (kd_nodes _ Hk _ _ Hn).
Qed.

Lemma elem_of_all n : n ∈ gv_all_nodes v → m.1 !! node_id n = Some n.
Proof.
  rewrite (vo_all _ _ Hv). intros [id Hn]%elem_of_btree_values. by rewrite (kd_nodes _ Hk _ _ Hn).
Qed.

Lemma get_node id n : gv_get_node v id = Some n → m.1 !! node_id n = Some n ∧ node_id n = id.
Proof. rewrite (vo_get_node _ _ Hv). intros Hn. by rewrite (kd_nodes _ Hk _ _ Hn). Qed.

Lemma elem_of_edges (ids : list EdgeId) e : e ∈ omap (gv_get_edge v) ids → m.2 !! edge_id e = Some e.
Proof.
  intros (id & Hin & He)%list_elem_of_omap. rewrite (vo_get_edge _ _ Hv) in He.
  by rewrite (kd_edges _ Hk _ _ He).
Qed.

(** The label scan is the first [limit] nodes of the type. *)
Lemma label_scan_take ids : ∀ yielded limit,
  label_scan v ids yielded limit = take (limit - yielded) (omap (gv_get_node v) ids).
Proof.
  induction ids as [|id ids IH]; intros yielded limit; csimpl; [by rewrite take_nil|].
  destruct (Nat.ltb_spec yielded limit).
  - destruct (gv_get_node v id) as [n|]; [|apply IH].
    replace (limit - yielded)%nat with (S (limit - S yielded)) by lia. simpl. by rewrite IH.
  - replace (limit - yielded)%nat with 0%nat by lia. done.
Qed.

Lemma take_members {A} n (l : list A) x : x ∈ take n l → x ∈ l.
Proof. intros Hx. rewrite <-(take_drop n l). apply elem_of_app. by left. Qed.

Lemma stream_answers request kind f limit nodes : request_limit request = limit →
  (∀ n, n ∈ nodes → m.1 !! node_id n = Some n ∧ wanted m request n) →
  (N.of_nat (length nodes) <= limit)%N →
  answers m request (collect_response (mkExecution kind f (INode <$> nodes))).
Proof.
  intros <- Hn Hlen. rewrite collect_stream. split; cbn [qr_nodes qr_edges]; [done| |done|simpl; lia].
  by intros e ?%elem_of_nil.
Qed.

Lemma neighbors_ok id direction ty l : (∀ eid, eid ∈ l → eid ∈ gv_edge_ids_for v id direction ty) →
  ∀ seen nodes edges, 
  (∀ n, n ∈ nodes → m.1 !! node_id n = Some n ∧ wanted m (ListNeighbors id ty direction None) n) →
  (∀ e, e ∈ edges → m.2 !! edge_id e = Some e) →
  let '(_, nodes', edges') := foldl (collect_neighbor v direction id) (seen, nodes, edges) l in
  (∀ n, n ∈ nodes' → m.1 !! node_id n = Some n ∧ wanted m (ListNeighbors id ty direction None) n) ∧
  (∀ e, e ∈ edges' → m.2 !! edge_id e = Some e) ∧
  (length nodes' <= length nodes + length l)%nat ∧ (length edges' <= length edges + length l)%nat.
Proof.
  induction l as [|eid l IH]; intros Hl seen nodes edges Hn He; simpl; [split_and!; [done..|lia|lia]|].
  assert (Hl' : ∀ eid, eid ∈ l → eid ∈ gv_edge_ids_for v id direction ty) by (intros; apply Hl; by right).
  destruct (gv_get_edge v eid) as [e|] eqn:Hget.
  2: { specialize (IH Hl' seen nodes edges Hn He).
       destruct (foldl _ _ l) as [[??]?]. destruct IH as (?&?&?&?). split_and!; [done..|lia|lia]. }
  rewrite (vo_get_edge _ _ Hv) in Hget. pose proof (kd_edges _ Hk _ _ Hget) as Hid. subst eid.
  destruct (proj1 (vo_edges _ _ Hv _ _ _ _) (Hl _ (list_elem_of_here _ _))) as (e' & He' & Hmatch).
  rewrite Hget in He'. simplify_eq.
  assert (He1 : ∀ x, x ∈ edges ++ [e'] → m.2 !! edge_id x = Some x).
  { intros x [?| ->%list_elem_of_singleton]%elem_of_app; auto. }
  set (neighbor := neighbor_of direction id e').
  assert (Hn1 : ∀ n, n ∈ nodes ++ option_list (gv_get_node v neighbor) →
    m.1 !! node_id n = Some n ∧ wanted m (ListNeighbors id ty direction None) n).
  { intros n [?|Hin]%elem_of_app; [by apply Hn|].
    destruct (gv_get_node v neighbor) as [n'|] eqn:Hn'; [|by apply elem_of_nil in Hin].
    apply list_elem_of_singleton in Hin as ->. apply get_node in Hn' as [Hn' Hid]. split; [done|].
    exists e'. split; [done|]. split; [done|]. by rewrite Hid. }
  assert (Hlen1 : (length (option_list (gv_get_node v neighbor)) <= 1)%nat) by (destruct (gv_get_node v neighbor); simpl; lia).
  destruct (decide (neighbor ∈ seen)).
  - specialize (IH Hl' seen nodes (edges ++ [e']) Hn He1).
    destruct (foldl _ _ l) as [[??]?]. destruct IH as (?&?&?&?). rewrite length_app in *. simpl in *.
    split_and!; [done..|lia|lia].
  - specialize (IH Hl' ({[neighbor]} ∪ seen) _ (edges ++ [e']) Hn1 He1).
    destruct (foldl _ _ l) as [[??]?]. destruct IH as (?&?&?&?). rewrite !length_app in *. simpl in *.
    split_and!; [done..|lia|lia].
Qed.
End answers.

(** ** Planned requests are answered *)

Lemma resolve_required_ok limit l : resolve_required_result_limit limit = Ok l → l = limit ∧ (0 < l)%N.
Proof.
  unfold resolve_required_result_limit. destruct (N.eqb_spec limit 0); [done|]. case_match; [done|].
  intros [= <-]. split; [done|lia].
Qed.

Lemma resolve_timeout_ok timeout t : resolve_timeout_ms timeout = Ok t → t = timeout.
Proof. unfold resolve_timeout_ms. by repeat case_match; intros [= <-]. Qed.

Lemma resolve_runtime_ok max_depth limit timeout_ms c rt :
  resolve_traversal_runtime max_depth limit timeout_ms c = Ok rt →
  rt_max_depth rt = default DEFAULT_MAX_DEPTH max_depth ∧ rt_limit rt = default DEFAULT_RESULT_LIMIT limit ∧
  (0 < rt_limit rt)%N.
Proof.
  unfold resolve_traversal_runtime. case_match; [done|].
  destruct (resolve_required_result_limit _) as [l|] eqn:Hl; [|done]. cbn [mbind result_bind].
  apply resolve_required_ok in Hl as [-> ?].
  destruct (resolve_timeout_ms _) as [t|] eqn:Ht; [|done]. cbn [mbind result_bind]. by intros [= <-].
Qed.

Lemma resolve_runtime_constraints max_depth limit timeout_ms c rt :
  resolve_traversal_runtime max_depth limit timeout_ms None = Ok rt →
  ∃ rt', resolve_traversal_runtime max_depth limit timeout_ms c = Ok rt'.
Proof.
  unfold resolve_traversal_runtime. case_match; [done|].
  destruct (resolve_required_result_limit _) as [l|]; [|done]. cbn [mbind result_bind].
  destruct (resolve_timeout_ms _) as [t|]; [|done]. cbn [mbind result_bind]. by eexists.
Qed.

Lemma merge_runtime ty rt : rt_max_depth (merge_legacy_edge_type ty rt) = rt_max_depth rt ∧
  rt_limit (merge_legacy_edge_type ty rt) = rt_limit rt.
Proof. unfold merge_legacy_edge_type. by repeat case_match. Qed.

Lemma graph_path_length m direction c ns es : graph_path m direction c ns es → length ns = S (length es).
Proof. induction 1; simpl in *; lia. Qed.

Section planned.
Context (v : GraphView) (m : Maps) (Hv : view_of v m) (Hk : keyed m).

Lemma filter_nodes_ok label f limit n : n ∈ filter_nodes v label f limit →
  m.1 !! node_id n = Some n ∧ wanted m (FilterNodes label f None) n.
Proof.
  intros [Hf Hin]%take_members%list_elem_of_filter. destruct label as [label|].
  - apply (elem_of_nodes v m Hv Hk) in Hin as [Hn Hid]. split; [done|]. split; [|done].
    intros l [= <-]. apply (vo_type _ _ Hv) in Hid as (n' & Hn' & Hty). congruence.
  - split; [by apply (elem_of_all v m Hv Hk)|]. done.
Qed.

Lemma time_range_ok field from_epoch_ms to_epoch_ms limit : (from_epoch_ms <= to_epoch_ms)%Z →
  ∃ nodes, time_range v field from_epoch_ms to_epoch_ms limit = Ok nodes ∧
    (N.of_nat (length nodes) <= limit)%N ∧
    ∀ n, n ∈ nodes → m.1 !! node_id n = Some n ∧ field_in_range field from_epoch_ms to_epoch_ms n = true.
Proof.
  intros Hle. unfold time_range. case_decide as Hfield.
  - destruct (vo_time _ _ Hv _ _ Hle) as (ids & -> & Hids). eexists. split; [done|].
    split; [rewrite length_take; lia|]. intros n [Hn Hid]%take_members%(elem_of_nodes v m Hv Hk).
    split; [done|]. apply Hids in Hid as (n' & Hn' & Hin). assert (n' = n) as -> by congruence.
    subst field. unfold field_in_range. unfold within_required_time_range, timestamp_ms in Hin.
    by destruct (property n "timestamp" ≫= as_i64).
  - eexists. split; [done|]. split; [rewrite length_take; lia|].
    intros n [Hf Hin]%take_members%list_elem_of_filter. split; [by apply (elem_of_all v m Hv Hk)|done].
Qed.

Lemma vector_search_ok query_vector name ty limit top_k r :
  r ∈ vector_search v query_vector name ty limit top_k →
  m.1 !! node_id (rr_node r) = Some (rr_node r) ∧ is_Some (vector (rr_node r) name).
Proof.
  intros (n & Hin & Hr)%(proj2 (top_ranked_members _ _))%list_elem_of_omap.
  apply (elem_of_nodes v m Hv Hk) in Hin as [Hn _].
  unfold score_candidate in Hr. apply bind_Some in Hr as (e & He & [= <-]). simpl. split; [done|by eexists].
Qed.

Lemma candidates_ok params distances : range_inverted (rp_from_epoch_ms params) (rp_to_epoch_ms params) = false →
  ∃ nodes, ranked_retrieval_candidates v params distances = Ok nodes ∧
    ∀ n, n ∈ nodes → m.1 !! node_id n = Some n ∧
      within_optional_time_range (rp_from_epoch_ms params) (rp_to_epoch_ms params) n = true.
Proof.
  intros Hrange. unfold ranked_retrieval_candidates. case_decide as Hempty.
  - assert (Hall : ∃ nodes, Ok (E:=Failure) (filter (λ n,
        within_optional_time_range (rp_from_epoch_ms params) (rp_to_epoch_ms params) n = true)
        (gv_all_nodes v)) = Ok nodes ∧
      ∀ n, n ∈ nodes → m.1 !! node_id n = Some n ∧
        within_optional_time_range (rp_from_epoch_ms params) (rp_to_epoch_ms params) n = true).
    { eexists. split; [done|]. intros n [Hf Hin]%list_elem_of_filter. split; [|done].
      by apply (elem_of_all v m Hv Hk). }
    destruct (rp_from_epoch_ms params) as [from|]; [|done]. destruct (rp_to_epoch_ms params) as [to|]; [|done].
    simpl in Hrange. destruct (vo_time _ _ Hv from to) as (ids & -> & Hids); [lia|]. eexists. split; [done|].
    intros n [Hn Hid]%(elem_of_nodes v m Hv Hk). split; [done|].
    apply Hids in Hid as (n' & Hn' & Hin). assert (n' = n) as -> by congruence.
    unfold within_required_time_range in Hin. simpl. by destruct (timestamp_ms n).
  - eexists. split; [done|]. intros n [Hf Hin]%list_elem_of_filter. split; [|done].
    by apply (elem_of_nodes v m Hv Hk) in Hin as [Hn _].
Qed.

Lemma ranked_ok request kind f limit ranked : request_limit request = limit →
  (N.of_nat (length ranked) <= limit)%N →
  (∀ r, r ∈ ranked → m.1 !! node_id (rr_node r) = Some (rr_node r) ∧ wanted m request (rr_node r)) →
  qr_plan_kind (collect_response (from_response (ranked_response kind f ranked))) = kind ∧
  answers m request (collect_response (from_response (ranked_response kind f ranked))).
Proof.
  intros <- Hlen Hin. rewrite collect_from_response by (by right). split; [done|].
  split; cbn [ranked_response qr_nodes qr_edges].
  - intros n (r & -> & Hr)%list_elem_of_fmap. by apply Hin.
  - by intros e ?%elem_of_nil.
  - by rewrite length_fmap.
  - simpl. lia.
Qed.

Lemma path_ok source target direction max_depth limit timeout_ms constraints rt clock kind :
  resolve_traversal_runtime max_depth limit timeout_ms constraints = Ok rt →
  ∃ path, shortest_path v rt clock source target direction = Some path ∧
    answers m (ShortestPath source target direction max_depth limit timeout_ms constraints)
      (path_response v kind path).
Proof.
  intros Hrt. destruct (resolve_runtime_ok _ _ _ _ _ Hrt) as (Hdepth & _).
  assert (Hnone : answers m (ShortestPath source target direction max_depth limit timeout_ms constraints)
    (path_response v kind None)).
  { split; simpl; [by intros n ?%elem_of_nil|by intros n ?%elem_of_nil|lia..]. }
  destruct (gv_contains_node v source) eqn:Hs; [|exists None; unfold shortest_path; by rewrite Hs].
  destruct (gv_contains_node v target) eqn:Ht; [|exists None; unfold shortest_path; by rewrite Ht, orb_true_r].
  apply (vo_contains _ _ Hv) in Hs, Ht.
  destruct (shortest_path_answers v m rt direction clock source target Hv Hk Hs Ht) as (path & Hpath & Hok).
  exists path. split; [done|]. destruct path as [p|]; [|done]. destruct Hok as ([Hgp _ _ Hhops Hallowed] & Hlen & _).
  apply graph_path_length in Hgp.
  pose proof (length_omap_le (gv_get_node v) (path_node_ids p)).
  pose proof (length_omap_le (gv_get_edge v) (path_edge_ids p)).
  split; cbn [path_response qr_nodes qr_edges from_option request_limit]; [| |lia..].
  - intros n [Hn Hid]%(elem_of_nodes v m Hv Hk). split; [done|]. exists rt. split; [done|]. by apply Hallowed.
  - intros e He. by apply (elem_of_edges v m Hv Hk) in He.
Qed.

Lemma traverse_ok start ty direction max_hops limit timeout_ms constraints rt clock kind :
  resolve_traversal_runtime max_hops limit timeout_ms constraints = Ok rt →
  ∃ items, traverse v direction (merge_legacy_edge_type ty rt) clock start = Some items ∧
    qr_plan_kind (collect_response (mkExecution kind None items)) = kind ∧
    answers m (Traverse start ty direction max_hops limit timeout_ms constraints)
      (collect_response (mkExecution kind None items)).
Proof.
  intros Hrt. destruct (resolve_runtime_ok _ _ _ _ _ Hrt) as (_ & Hlimit & Hpos).
  destruct (merge_runtime ty rt) as [Hmd Hml].
  destruct (traverse_bounded v m direction (merge_legacy_edge_type ty rt) clock start Hv Hk)
    as (items & Hrun & Hln & _ & Hle & _ & Hok); [by rewrite Hml|].
  exists items. split; [done|]. unfold collect_response. cbn [qe_items qe_plan_kind qe_retrieval_profile].
  rewrite list.Forall_forall in Hok. rewrite collect_traversal.
  2: { apply list.Forall_forall. intros [| | |] Hi; by specialize (Hok _ Hi). }
  rewrite Hml in Hln, Hle. split; [done|]. split; cbn [qr_nodes qr_edges app request_limit]; [| |lia..].
  - intros n Hn%elem_of_nodes_in. destruct (Hok _ Hn) as (Hm & d & Hd & Hr). split; [done|].
    exists rt, d. by rewrite <-Hmd.
  - intros e He%elem_of_edges_in. by destruct (Hok _ He) as (a & b & d & _ & _ & Hm & _).
Qed.
End planned.

(** The retrieval profile is looked at when the request is executed, not when it is planned. *)
Definition unknown_profile (request : QueryRequest) : Prop :=
  match request with
  | RankedRetrieval _ _ _ _ _ _ _ _ _ (Some name) => name ≠ "v1-default"
  | _ => False
  end.

Lemma resolve_profile_cases profile : match resolve_retrieval_profile profile with
  | Ok p => p = v1_default
  | Err e => ∃ name, profile = Some name ∧ name ≠ "v1-default" ∧
      e = Validation ("unsupported retrieval profile '" +:+ name +:+ "'")
  end.
Proof.
  unfold resolve_retrieval_profile. destruct profile as [name|]; [|done]. case_decide; [done|].
  by exists name.
Qed.

Lemma plan_result_ok {A B} (r : Res A) (k : A → Res B) p : r ≫= k = Ok p → ∃ a, r = Ok a ∧ k a = Ok p.
Proof. destruct r as [a|]; [|done]. intros Hk. by exists a. Qed.

(** What executing a planned request gives. *)
Inductive QueryFamily := LookupQuery | GraphQuery | RankedQuery.
Definition query_family (request : QueryRequest) : QueryFamily :=
  match request with
  | ListNeighbors _ _ _ _ | Traverse _ _ _ _ _ _ _ | ShortestPath _ _ _ _ _ _ _ => GraphQuery
  | VectorSearch _ _ _ _ _ | RankedRetrieval _ _ _ _ _ _ _ _ _ _ => RankedQuery
  | _ => LookupQuery
  end.

Section executed.
Context (v : GraphView) (m : Maps) (clock : nat → N) (Hv : view_of v m) (Hk : keyed m).

Definition executed (request : QueryRequest) (p : QueryPlan) : Prop :=
  ∃ r, execute v clock request = Some r ∧
    match r with
    | Ok response => qr_plan_kind response = plan_kind p ∧ answers m request response
    | Err f => unknown_profile request ∧ ∃ e, f = Error e
    end.

Lemma lookup_executed request p : query_family request = LookupQuery → plan request = Ok p → executed request p.
Proof.
  intros Hf Hplan. unfold executed, execute, execute_iter. rewrite Hplan. cbn [try_res].
  destruct request as [id|key|label f limit|id ty direction limit|start ty direction max_hops limit timeout_ms c
    |source target direction max_depth limit timeout_ms c|label limit|field from_ms to_ms limit
    |query_vector ty name limit top_k|query_vector reference ty from_ms to_ms name limit top_k now profile]; try done; clear Hf;
    cbn [plan] in Hplan.
  - eexists. split; [done|]. cbn [fmap result_fmap]. split; [by rewrite collect_stream|].
    eapply stream_answers; [done| |by destruct (gv_get_node v id)].
    intros n Hn. destruct (gv_get_node v id) as [n'|] eqn:Hget; [|by apply elem_of_nil in Hn].
    apply list_elem_of_singleton in Hn as ->. by apply (get_node v m Hv Hk) in Hget.
  - eexists. split; [done|]. cbn [fmap result_fmap]. split; [by rewrite collect_stream|].
    eapply stream_answers; [done| |by destruct (gv_lookup_unique_key v key ≫= _)].
    intros n Hn. destruct (gv_lookup_unique_key v key) as [id|] eqn:Hkey; [|by apply elem_of_nil in Hn].
    simpl in Hn. destruct (gv_get_node v id) as [n'|] eqn:Hget; [|by apply elem_of_nil in Hn].
    apply list_elem_of_singleton in Hn as ->.
    destruct (vo_unique _ _ Hv _ _ Hkey) as (n2 & Hn2 & Huk). rewrite (vo_get_node _ _ Hv) in Hget.
    assert (n2 = n') as -> by congruence. by rewrite (kd_nodes _ Hk _ _ Hn2).
  - apply plan_result_ok in Hplan as (u & _ & Hplan).
    apply plan_result_ok in Hplan as (l & Hl & _). rewrite Hl. cbn [try_res].
    apply resolve_required_ok in Hl as [-> _]. eexists. split; [done|]. cbn [fmap result_fmap].
    split; [by rewrite collect_stream|]. eapply stream_answers; [done| |].
    + intros n Hn. by apply (filter_nodes_ok v m Hv Hk) in Hn.
    + unfold filter_nodes. rewrite length_take. cbn [request_limit]. lia.
  - apply plan_result_ok in Hplan as (l & Hl & _). rewrite Hl. cbn [try_res].
    apply resolve_required_ok in Hl as [-> _]. eexists. split; [done|]. cbn [fmap result_fmap].
    split; [by rewrite collect_stream|]. rewrite label_scan_take, Nat.sub_0_r.
    eapply stream_answers; [done| |rewrite length_take; cbn [request_limit]; lia].
    intros n [Hn Hid]%take_members%(elem_of_nodes v m Hv Hk). split; [done|].
    apply (vo_type _ _ Hv) in Hid as (n' & Hn' & Hty). simpl. congruence.
  - destruct (Z.ltb_spec to_ms from_ms) as [|Hle]; [done|].
    destruct (time_range_ok v m Hv Hk field from_ms to_ms limit Hle) as (nodes & -> & Hlen & Hin).
    eexists. split; [done|]. cbn [fmap result_fmap]. split; [by rewrite collect_stream|].
    by eapply stream_answers.
Qed.

Lemma graph_executed request p : query_family request = GraphQuery → plan request = Ok p → executed request p.
Proof.
  intros Hf Hplan. unfold executed, execute, execute_iter. rewrite Hplan. cbn [try_res].
  destruct request as [id|key|label f limit|id ty direction limit|start ty direction max_hops limit timeout_ms c
    |source target direction max_depth limit timeout_ms c|label limit|field from_ms to_ms limit
    |query_vector ty name limit top_k|query_vector reference ty from_ms to_ms name limit top_k now profile]; try done; clear Hf;
    cbn [plan] in Hplan.
  - apply plan_result_ok in Hplan as (l & Hl & Hp). rewrite Hl. cbn [try_res].
    apply resolve_required_ok in Hl as [-> _].
    destruct (collect_neighbor_results v id direction ty _) as [nodes edges] eqn:Hc.
    eexists. split; [done|]. cbn [fmap result_fmap]. rewrite collect_from_response by (by left).
    split; [done|]. unfold collect_neighbor_results in Hc.
    pose proof (neighbors_ok v m Hv Hk id direction ty
      (take (N.to_nat (default DEFAULT_RESULT_LIMIT limit)) (gv_edge_ids_for v id direction ty))
      (λ eid, take_members _ _ eid) ∅ [] []) as Hok.
    destruct (foldl _ _ _) as [[seen ns] es]. simplify_eq.
    destruct Hok as (Hns & Hes & Hln & Hle); [by intros n ?%elem_of_nil|by intros n ?%elem_of_nil|].
    rewrite length_take in Hln, Hle. cbn [length] in Hln, Hle.
    split; cbn [qr_nodes qr_edges request_limit]; [exact Hns|exact Hes|lia|lia].
  - apply plan_result_ok in Hplan as (rt0 & Hrt0 & Hp).
    destruct (resolve_runtime_constraints _ _ _ c _ Hrt0) as [rt Hrt]. rewrite Hrt. cbn [try_res].
    destruct (traverse_ok v m Hv Hk start ty direction max_hops limit timeout_ms c rt clock (plan_kind p) Hrt)
      as (items & -> & Hkind & Hans). eexists. split; [done|]. done.
  - apply plan_result_ok in Hplan as (rt0 & Hrt0 & Hp).
    destruct (resolve_runtime_constraints _ _ _ c _ Hrt0) as [rt Hrt]. rewrite Hrt. cbn [try_res].
    destruct (path_ok v m Hv Hk source target direction max_depth limit timeout_ms c rt clock (plan_kind p) Hrt)
      as (path & -> & Hans). eexists. split; [done|]. cbn [fmap result_fmap].
    rewrite collect_from_response by (by left). done.
Qed.

Lemma ranked_executed request p : query_family request = RankedQuery → plan request = Ok p → executed request p.
Proof.
  intros Hf Hplan. unfold executed, execute, execute_iter. rewrite Hplan. cbn [try_res].
  destruct request as [id|key|label f limit|id ty direction limit|start ty direction max_hops limit timeout_ms c
    |source target direction max_depth limit timeout_ms c|label limit|field from_ms to_ms limit
    |query_vector ty name limit top_k|query_vector reference ty from_ms to_ms name limit top_k now profile]; try done; clear Hf;
    cbn [plan] in Hplan.
  - eexists. split; [done|]. cbn [fmap result_fmap]. eapply ranked_ok; [done| |].
    + apply top_ranked_members.
    + intros r Hr. by apply (vector_search_ok v m Hv Hk) in Hr.
  - apply plan_result_ok in Hplan as (u & _ & Hplan).
    destruct (range_inverted from_ms to_ms) eqn:Hrange; [done|].
    pose proof (resolve_profile_cases profile) as Hprofile.
    destruct (resolve_retrieval_profile profile) as [prof|e]; cbn [try_res].
    2: { destruct Hprofile as (nm & -> & Hnm & ->). eexists. split; [done|]. split; [done|]. by eexists. }
    unfold ranked_retrieval. cbn [rp_reference_node_id rp_edge_type].
    set (params := mkParams _ _ _ _ _ _ _ _ _ _). set (distances := _ <$> reference).
    destruct (candidates_ok v m Hv Hk params distances Hrange) as (nodes & -> & Hin).
    cbn [fmap result_fmap try_failure]. eexists. split; [done|]. cbn [fmap result_fmap].
    eapply ranked_ok; [done| |].
    + apply top_ranked_members.
    + intros r Hr%(proj2 (top_ranked_members _ _)). apply list_elem_of_fmap in Hr as (n & -> & Hn).
      simpl. by apply Hin.
Qed.

Lemma execute_ok request : ∃ r, execute v clock request = Some r ∧
  match plan request, r with
  | Err e, _ => r = Err (Error e)
  | Ok p, Ok response => qr_plan_kind response = plan_kind p ∧ answers m request response
  | Ok _, Err f => unknown_profile request ∧ ∃ e, f = Error e
  end.
Proof.
  destruct (plan request) as [p|e] eqn:Hplan.
  - destruct (query_family request) eqn:Hf;
      [apply lookup_executed|apply graph_executed|apply ranked_executed]; done.
  - exists (Err (Error e)). unfold execute, execute_iter. by rewrite Hplan.
Qed.
End executed.

(** C25: Every request has an answer or an error, and no request makes the executor panic: what
    the planner refuses fails with the planner's error, and what it accepts is answered,
    unless it names an unknown retrieval profile.  The answer has the planned kind, its nodes
    and edges are in the graph, there are no more of them than the limit (for a path, than
    twice the depth plus one), and each node is one the request asks for. *)
Theorem execute_answers v m clock request : view_of v m → keyed m →
  ∃ r, execute v clock request = Some r ∧
    match plan request, r with
    | Err e, _ => r = Err (Error e)
    | Ok p, Ok response => qr_plan_kind response = plan_kind p ∧ answers m request response
    | Ok _, Err f => unknown_profile request ∧ ∃ e, f = Error e
    end.
Proof. intros Hv Hk. by apply execute_ok. Qed.

(** ** A concrete input *)

Module Demo.
Import Batch.Demo.

Definition request : QueryRequest := SearchByLabel "person" (Some 1%N).
Definition response : QueryResponse := mkResponse LabelScan [node "a" "person"] [] [] None None.
End Demo.

Lemma execute_answers_witness :
  execute Query.Demo.view Traversal.Demo.clock Demo.request = Some (Ok Demo.response) ∧
  answers Batch.Demo.maps Demo.request Demo.response.
Proof.
  destruct (execute_answers Query.Demo.view Batch.Demo.maps Traversal.Demo.clock Demo.request)
    as (r & Hr & Hanswer); [apply Query.Demo.view_ok|apply Query.Demo.maps_keyed|].
  assert (Hrun : execute Query.Demo.view Traversal.Demo.clock Demo.request = Some (Ok Demo.response))
    by (vm_compute; reflexivity).
  split; [exact Hrun|]. rewrite Hrun in Hr. injection Hr as <-. exact (proj2 Hanswer).
Defined.
