(* ===== verification/Database.v ===== *)
(** * [crates/api]: the database behind the service

    [Database]: a storage engine, the indexes over it, the snapshot that queries read, the
    replication and cluster state, and the methods that keep them together.  A method is a
    computation on the disk, the database and the store of the shared vector graphs; an early
    error return keeps what was done before it. *)
From S2P Require Import Prelude RustStd RustFloat Common Core Config Fs Wal Memory Batch Store Engine Recovery Backup Index Query.
From S2P Require Cluster Replication.

#[local] Open Scope string_scope.
#[local] Open Scope list_scope.

Abbreviation ReplicationManager := Replication.ReplicationManager.
Abbreviation ReplicationRecord := Replication.ReplicationRecord.
Abbreviation ClusterTopology := Cluster.ClusterTopology.

Definition REPLICATION_METADATA_FILE_NAME : string := "replication-state.json".
Definition CLUSTER_METADATA_FILE_NAME : string := "cluster-topology.json".

Record Database := mkDatabase {
  db_engine : StorageEngine;
  db_indexes : GraphIndex;
  db_vector_index_config : VectorIndexConfig;
  db_published_snapshot : GraphSnapshot;
  db_replication : ReplicationManager;
  db_cluster : ClusterTopology;
  db_wal_replay_latency_ms : N;
}.

Record BatchMutation := mkBatchMutation {
  mu_removed_nodes : Nodes;
  mu_removed_edges : Edges;
  mu_added_nodes : Nodes;
  mu_added_edges : Edges;
}.

(** [impl From<TransactionDelta> for BatchMutation]. *)
Definition mutation_of_delta (d : TransactionDelta) : BatchMutation :=
  mkBatchMutation (removed_nodes d) (removed_edges d) (added_nodes d) (added_edges d).

Record ReplicationStatusResponse := mkStatusResponse {
  sr_status : Replication.ReplicationStatus;
  sr_replica_lag : gmap string N;
}.

(** serde_json on the metadata files of this crate. *)
Class DatabaseCodec := {
  json_encode_replication : ReplicationManager → Result string bytes;
  json_decode_replication : bytes → Result string ReplicationManager;
  json_encode_cluster : ClusterTopology → Result string bytes;
  json_decode_cluster : bytes → Result string ClusterTopology;
  json_encode_index_snapshot : IndexSnapshot → Result string bytes;
}.

(** ** Planned mutations *)

Definition plan_node_upsert (e : StorageEngine) (deleted : gset NodeId) (mu : BatchMutation) (n : NodeRecord)
    : BatchMutation :=
  mkBatchMutation
    (match Engine.get_node e (node_id n) with
     | Some previous => <[node_id n := previous]> (mu_removed_nodes mu)
     | None => mu_removed_nodes mu
     end) (mu_removed_edges mu)
    (if decide (node_id n ∈ deleted) then mu_added_nodes mu else <[node_id n := n]> (mu_added_nodes mu))
    (mu_added_edges mu).

Definition plan_node_delete (e : StorageEngine) (mu : BatchMutation) (id : NodeId) : BatchMutation :=
  mkBatchMutation
    (match Engine.get_node e id with
     | Some previous => <[id := previous]> (mu_removed_nodes mu)
     | None => mu_removed_nodes mu
     end) (mu_removed_edges mu) (mu_added_nodes mu) (mu_added_edges mu).

Definition plan_edge_upsert (e : StorageEngine) (deleted : gset NodeId) (deleted_edges : gset EdgeId)
    (mu : BatchMutation) (edge : EdgeRecord) : BatchMutation :=
  mkBatchMutation (mu_removed_nodes mu)
    (match Engine.get_edge e (edge_id edge) with
     | Some previous => <[edge_id edge := previous]> (mu_removed_edges mu)
     | None => mu_removed_edges mu
     end) (mu_added_nodes mu)
    (if decide (edge_id edge ∈ deleted_edges ∨ incident_to deleted edge) then mu_added_edges mu
     else <[edge_id edge := edge]> (mu_added_edges mu)).

Definition plan_edge_delete (e : StorageEngine) (mu : BatchMutation) (id : EdgeId) : BatchMutation :=
  mkBatchMutation (mu_removed_nodes mu)
    (match Engine.get_edge e id with
     | Some previous => <[id := previous]> (mu_removed_edges mu)
     | None => mu_removed_edges mu
     end) (mu_added_nodes mu) (mu_added_edges mu).

(** An edge of the engine that touches a deleted node. *)
Definition plan_incident_edge (deleted : gset NodeId) (mu : BatchMutation) (edge : EdgeRecord) : BatchMutation :=
  if decide (incident_to deleted edge) then
    mkBatchMutation (mu_removed_nodes mu) (<[edge_id edge := edge]> (mu_removed_edges mu))
      (mu_added_nodes mu) (delete (edge_id edge) (mu_added_edges mu))
  else mu.

Definition plan_batch_mutation (e : StorageEngine) (batch : WriteBatch) : Res BatchMutation :=
  result_each normalize_memory_metadata (nodes_upserted batch) ;;
  let deleted := deleted_nodes batch in
  let deleted_edges : gset EdgeId := list_to_set (deleted_edge_ids batch) in
  let mu := mkBatchMutation ∅ ∅ ∅ ∅ in
  let mu := foldl (plan_node_upsert e deleted) mu (nodes_upserted batch) in
  let mu := foldl (plan_node_delete e) mu (deleted_node_ids batch) in
  let mu := foldl (plan_edge_upsert e deleted deleted_edges) mu (edges_upserted batch) in
  let mu := foldl (plan_edge_delete e) mu (deleted_edge_ids batch) in
  mret (if decide (deleted = ∅) then mu else foldl (plan_incident_edge deleted) mu (all_edges e)).

(** [graph_mutation_from_batch]. *)
Definition graph_mutation_from_batch (mu : BatchMutation) : GraphMutation :=
  mkMutation (dom (mu_removed_nodes mu)) (dom (mu_removed_edges mu)) (mu_added_nodes mu) (mu_added_edges mu).

(** The maps of [snapshot_with_mutation]: keys removed, then entries inserted. *)
Definition mutate_map {K V} `{Countable K, OrdKey K} (removed added base : gmap K V) : gmap K V :=
  foldl (λ m '(k, v), <[k := v]> m) (remove_all (btree_keys removed) base) (btree_entries added).

Section database.
Context `{WalCodec, StorageCodec, HnswLib, IndexCodec, DatabaseCodec}.
Abbreviation Runtimes := (list Runtime).

Definition indexes_with_mutation (mu : BatchMutation) '((base, h) : GraphIndex * Runtimes)
    : GraphIndex * Runtimes :=
  let ix := foldl (λ ix e, Index.delete_edge e ix) base (btree_values (mu_removed_edges mu)) in
  let st := foldl (λ st n, Index.delete_node n st) (ix, h) (btree_values (mu_removed_nodes mu)) in
  let '(ix, h) := foldl (λ st n, Index.upsert_node n st) st (btree_values (mu_added_nodes mu)) in
  (foldl (λ ix e, Index.upsert_edge e ix) ix (btree_values (mu_added_edges mu)), h).

Definition snapshot_with_mutation (mu : BatchMutation) '((base, h) : GraphSnapshot * Runtimes)
    : GraphSnapshot * Runtimes :=
  let '(ix, h) := indexes_with_mutation mu (gs_indexes base, h) in
  (mkSnapshot (mutate_map (mu_removed_nodes mu) (mu_added_nodes mu) (gs_maps base).1,
    mutate_map (mu_removed_edges mu) (mu_added_edges mu) (gs_maps base).2) ix, h).

Definition build_snapshot (e : StorageEngine) (ix : GraphIndex) : GraphSnapshot :=
  mkSnapshot (insert_all node_id (all_nodes e) ∅, insert_all edge_id (all_edges e) ∅) ix.

(** ** Computations on a database *)

Definition db_m (A : Type) : Type := sm (World * (Database * Runtimes)) Failure A.

Definition db_self : db_m Database := λ '(w, (d, h)), (Ok d, (w, (d, h))).

Definition set_engine (e : StorageEngine) (d : Database) : Database :=
  mkDatabase e (db_indexes d) (db_vector_index_config d) (db_published_snapshot d) (db_replication d)
    (db_cluster d) (db_wal_replay_latency_ms d).
Definition set_indexes (ix : GraphIndex) (d : Database) : Database :=
  mkDatabase (db_engine d) ix (db_vector_index_config d) (db_published_snapshot d) (db_replication d)
    (db_cluster d) (db_wal_replay_latency_ms d).
Definition set_vector_config (c : VectorIndexConfig) (d : Database) : Database :=
  mkDatabase (db_engine d) (db_indexes d) c (db_published_snapshot d) (db_replication d)
    (db_cluster d) (db_wal_replay_latency_ms d).
Definition set_published (s : GraphSnapshot) (d : Database) : Database :=
  mkDatabase (db_engine d) (db_indexes d) (db_vector_index_config d) s (db_replication d)
    (db_cluster d) (db_wal_replay_latency_ms d).
Definition set_replication (r : ReplicationManager) (d : Database) : Database :=
  mkDatabase (db_engine d) (db_indexes d) (db_vector_index_config d) (db_published_snapshot d) r
    (db_cluster d) (db_wal_replay_latency_ms d).
Definition set_cluster (c : ClusterTopology) (d : Database) : Database :=
  mkDatabase (db_engine d) (db_indexes d) (db_vector_index_config d) (db_published_snapshot d)
    (db_replication d) c (db_wal_replay_latency_ms d).

Definition db_modify (f : Database → Database) : db_m unit := λ '(w, (d, h)), (Ok tt, (w, (f d, h))).
Definition db_shared (f : Database * Runtimes → Database * Runtimes) : db_m unit := λ '(w, st), (Ok tt, (w, f st)).
Definition on_disk {A} (m : io A) : db_m A := on_world m.
Definition on_engine {A} (m : engine_m A) : db_m A := λ '(w, (d, h)),
  let '(r, (w, e)) := m (w, db_engine d) in (r, (w, (set_engine e d, h))).
Definition on_replication {A} (m : Replication.repl_op A) : db_m A := λ '(w, (d, h)),
  let '(r, m') := m (db_replication d) in (map_err Error r, (w, (set_replication m' d, h))).
Definition on_cluster {A} (m : Cluster.cluster_op A) : db_m A := λ '(w, (d, h)),
  let '(r, c) := m (db_cluster d) in (map_err Error r, (w, (set_cluster c d, h))).

(** ** Metadata files *)

Definition load_json_file {A} (decode : bytes → Result string A) (p : Path) : io (option A) :=
  w ← sm_get;
  if negb (path_exists w p) then mret None
  else
    payload ← io_err (quoted "failed to read metadata file" p) (fs_read p);
    value ← io_res (decode_err (quoted "failed to deserialize metadata file" p) (decode payload));
    mret (Some value).

(** Create the directory of a file and write it. *)
Definition write_with_parent (directory serialize write : string) (p : Path) (payload : Result string bytes)
    : io unit :=
  io_err (quoted directory (tail p)) (fs_create_dir_all (tail p)) ;;
  bs ← io_res (encode_err serialize payload);
  io_err (quoted write p) (fs_write p bs).

Definition persist_json_file (p : Path) (payload : Result string bytes) : io unit :=
  write_with_parent "failed to create metadata directory" (quoted "failed to serialize metadata file" p)
    "failed to write metadata file" p payload.

Definition metadata_path (e : StorageEngine) (name : string) : Path :=
  name :: subdirectory (e_layout e) "meta".
Definition replication_metadata_path (e : StorageEngine) : Path := metadata_path e REPLICATION_METADATA_FILE_NAME.
Definition cluster_metadata_path (e : StorageEngine) : Path := metadata_path e CLUSTER_METADATA_FILE_NAME.

Definition persist_replication_metadata : db_m unit :=
  d ← db_self;
  on_disk (persist_json_file (replication_metadata_path (db_engine d)) (json_encode_replication (db_replication d))).
Definition persist_cluster_topology : db_m unit :=
  d ← db_self;
  on_disk (persist_json_file (cluster_metadata_path (db_engine d)) (json_encode_cluster (db_cluster d))).

Definition persist_index_snapshot : db_m IndexSnapshot := λ '(w, (d, h)),
  (let l := e_layout (db_engine d) in
   let snapshot := index_snapshot (db_indexes d) in
   on_disk (write_with_parent "failed to create index snapshot directory" "failed to serialize index snapshot"
     "failed to write index snapshot" (index_snapshot_path l) (json_encode_index_snapshot snapshot)) ;;
   on_disk (persist_vector_index h (db_indexes d) (vector_index_manifest_path l) (vector_index_graph_path l)
     (vector_index_vectors_path l) (e_latest_applied_lsn (db_engine d))) ;;
   mret snapshot : db_m IndexSnapshot) (w, (d, h)).

(** ** Opening *)

(** [latency_ms] is the time the start took. *)
Definition open_with_identity (config : AppConfig) (local_node_id advertise_address : string) (latency_ms : N)
    (h : Runtimes) : io (Database * Runtimes) :=
  engine ← open_engine config;
  let l := e_layout engine in
  let allow_vector_index_load := m_last_clean_shutdown (e_manifest engine) &&
    bool_decide (e_latest_applied_lsn engine = m_last_applied_lsn (e_manifest engine)) in
  '(indexes, h) ← (λ w, let '(st, w) := rebuild_with_config_and_vector_index_load (all_nodes engine)
      (all_edges engine) (vector_index config)
      (if allow_vector_index_load then
         Some (mkLoadConfig (vector_index_manifest_path l) (vector_index_graph_path l)
           (vector_index_vectors_path l) (e_latest_applied_lsn engine))
       else None) h w in (Ok st, w));
  replication ← load_json_file json_decode_replication (replication_metadata_path engine);
  cluster ← load_json_file json_decode_cluster (cluster_metadata_path engine);
  let database := mkDatabase engine indexes (vector_index config) (build_snapshot engine indexes)
    (default (Replication.manager_single_node local_node_id) replication)
    (default (Cluster.single_node_with_id local_node_id advertise_address) cluster) latency_ms in
  with_self (persist_index_snapshot ;; persist_replication_metadata ;; persist_cluster_topology ;;
    ((λ '(w, st), (Ok st, (w, st))) : db_m (Database * Runtimes))) (database, h).

Definition open_database (config : AppConfig) (latency_ms : N) (h : Runtimes) : io (Database * Runtimes) :=
  open_with_identity config "node-1" (bind_address (server config)) latency_ms h.

Definition graceful_shutdown : db_m unit :=
  on_engine Recovery.graceful_shutdown ;;
  persist_index_snapshot ;;
  mret tt.

(** ** Writes *)

Definition follower_error : Undr9Error :=
  Conflict "node is in follower mode and only accepts replicated writes".

Definition ensure_client_write_allowed : db_m unit :=
  d ← db_self;
  if decide (Replication.mode (Replication.status (db_replication d)) = Replication.Follower) then
    io_fail follower_error
  else mret tt.

Definition record_local_commit (committed_lsn : N) (batch : WriteBatch) : db_m unit :=
  db_modify (λ d, set_replication (Replication.observe_local_apply committed_lsn (db_replication d)) d) ;;
  d ← db_self;
  (if decide (Replication.mode (Replication.status (db_replication d)) = Replication.Leader) then
     on_replication (Replication.record_leader_commit committed_lsn batch)
   else mret tt) ;;
  persist_replication_metadata.

Definition apply_batch_mutation (mu : BatchMutation) : db_m unit :=
  db_shared (λ '(d, h),
    let '(ix, h) := indexes_with_mutation mu (db_indexes d, h) in
    let '(s, h) := snapshot_with_mutation mu (db_published_snapshot d, h) in
    (set_published s (set_indexes ix d), h)).

(** The part the four single writes share. *)
Definition write_batch (batch : WriteBatch) : db_m unit :=
  d ← db_self;
  mutation ← io_res (plan_batch_mutation (db_engine d) batch);
  lsn ← on_engine (apply_write_batch batch);
  record_local_commit lsn batch ;;
  apply_batch_mutation mutation.

Definition upsert_node (n : NodeRecord) : db_m NodeRecord :=
  ensure_client_write_allowed ;;
  write_batch (mkBatch [n] [] [] []) ;;
  mret n.
Definition get_node (d : Database) (id : NodeId) : option NodeRecord := Engine.get_node (db_engine d) id.
Definition delete_node (id : NodeId) : db_m (option NodeRecord) :=
  ensure_client_write_allowed ;;
  d ← db_self;
  match get_node d id with
  | None => mret None
  | Some removed => write_batch (mkBatch [] [] [id] []) ;; mret (Some removed)
  end.
Definition upsert_edge (edge : EdgeRecord) : db_m EdgeRecord :=
  ensure_client_write_allowed ;;
  write_batch (mkBatch [] [edge] [] []) ;;
  mret edge.
Definition get_edge (d : Database) (id : EdgeId) : option EdgeRecord := Engine.get_edge (db_engine d) id.
Definition delete_edge (id : EdgeId) : db_m (option EdgeRecord) :=
  ensure_client_write_allowed ;;
  d ← db_self;
  match get_edge d id with
  | None => mret None
  | Some removed => write_batch (mkBatch [] [] [] [id]) ;; mret (Some removed)
  end.

(** ** Transactions *)

Definition begin_transaction (level : IsolationLevel) : db_m TransactionSummary :=
  ensure_client_write_allowed ;;
  on_engine (λ '(w, e), let '(summary, e) := Engine.begin_transaction level e in (Ok summary, (w, e))).
Definition transaction_summary (d : Database) (tx : TransactionId) : Res TransactionSummary :=
  Engine.transaction_summary (db_engine d) tx.
Definition list_transactions (d : Database) : list TransactionSummary := Engine.list_transactions (db_engine d).
Definition stage_transaction_operation (tx : TransactionId) (op : TransactionOperation) : db_m TransactionSummary :=
  ensure_client_write_allowed ;;
  on_engine (Engine.stage_transaction_operation tx op).

Definition commit_transaction (tx : TransactionId) : db_m TransactionCommitResult :=
  ensure_client_write_allowed ;;
  d ← db_self;
  batch ← io_res (transaction_staged_batch (db_engine d) tx);
  mutation ← io_res (plan_batch_mutation (db_engine d) batch);
  result ← on_engine (Engine.commit_transaction tx);
  record_local_commit (cr_committed_lsn result) batch ;;
  apply_batch_mutation mutation ;;
  mret result.

Definition rollback_transaction (tx : TransactionId) : db_m TransactionSummary :=
  ensure_client_write_allowed ;;
  on_engine (Engine.rollback_transaction tx).

Definition transaction_query_view (d : Database) (tx : TransactionId) : Res (GraphSnapshot * GraphMutation) :=
  delta ← transaction_delta_from_current (db_engine d) tx;
  mret (db_published_snapshot d, graph_mutation_from_batch (mutation_of_delta delta)).

(** ** Maintenance *)

Definition publish_snapshot : db_m unit :=
  db_modify (λ d, set_published (build_snapshot (db_engine d) (db_indexes d)) d).

Definition refresh_indexes (persist_snapshot : bool) : db_m IndexSnapshot :=
  db_shared (λ '(d, h), let '(ix, h) := rebuild_with_config (all_nodes (db_engine d)) (all_edges (db_engine d))
    (db_vector_index_config d) h in (set_indexes ix d, h)) ;;
  publish_snapshot ;;
  if persist_snapshot then persist_index_snapshot
  else d ← db_self; mret (index_snapshot (db_indexes d)).

Definition rebuild_indexes : db_m IndexSnapshot := refresh_indexes true.

Definition compact : db_m unit :=
  on_engine Recovery.compact ;;
  refresh_indexes true ;;
  mret tt.
Definition verify_integrity (d : Database) : io IntegrityReport := Recovery.verify_integrity (db_engine d).
Definition backup_to (d : Database) (destination : Path) : io unit := Backup.backup_to (db_engine d) destination.

(** Take over an engine that was opened again. *)
Definition reopen (config : AppConfig) : db_m unit :=
  e ← on_disk (open_engine config);
  db_modify (λ d, set_vector_config (vector_index config) (set_engine e d)) ;;
  rebuild_indexes ;;
  mret tt.

Definition restore_from (config : AppConfig) (source : Path) (target_lsn : option N) : db_m unit :=
  on_disk (match target_lsn with
    | Some target_lsn => restore_directory_to_lsn source (path_of_string (Config.root_dir (storage config)))
        target_lsn (wal config)
    | None => restore_directory source (path_of_string (Config.root_dir (storage config)))
    end) ;;
  reopen config.

Definition repair (config : AppConfig) : db_m IntegrityReport :=
  report ← on_disk (repair_storage config);
  reopen config ;;
  mret report.

(** ** Replication and cluster *)

Definition replication_status (d : Database) : ReplicationStatusResponse :=
  mkStatusResponse (Replication.status (db_replication d)) (Replication.replica_lag_map (db_replication d)).
Definition replication_history_since (d : Database) (after_source_lsn : N) : list ReplicationRecord :=
  Replication.history_since after_source_lsn (db_replication d).
Definition cluster_topology (d : Database) : ClusterTopology := db_cluster d.

Definition gets {A} (f : Database → A) : db_m A := d ← db_self; mret (f d).
Definition persist_both : db_m unit := persist_cluster_topology ;; persist_replication_metadata.

Definition configure_as_leader : db_m ReplicationStatusResponse :=
  d ← db_self;
  plan ← on_cluster (Cluster.ensure_leader (Replication.local_node_id (Replication.status (db_replication d))));
  db_modify (λ d, set_replication (Replication.promote_to_leader (Cluster.plan_term plan) (db_replication d)) d) ;;
  persist_both ;;
  gets replication_status.

Definition configure_as_follower (leader_node_id leader_address : string) : db_m ReplicationStatusResponse :=
  db_modify (λ d, set_cluster
    (Cluster.upsert_node leader_node_id leader_address Cluster.Replica true (db_cluster d)) d) ;;
  on_cluster (Cluster.observe_leader leader_node_id) ;;
  db_modify (λ d, set_replication (Replication.failover_to_follower leader_node_id
    (Cluster.term (db_cluster d)) (db_replication d)) d) ;;
  persist_both ;;
  gets replication_status.

Definition register_replica (node_id address : string) : db_m ClusterTopology :=
  on_cluster (Cluster.add_replica node_id address) ;;
  on_replication (Replication.register_replica node_id) ;;
  persist_both ;;
  gets cluster_topology.

Definition acknowledge_replica (replica_node_id : string) (source_lsn : N) : db_m ReplicationStatusResponse :=
  on_replication (Replication.acknowledge_replica replica_node_id source_lsn) ;;
  persist_replication_metadata ;;
  gets replication_status.

(** The loop of [validate_replication_records], on its two locals. *)
Fixpoint validate_records (current_term last_applied : N) (records : list ReplicationRecord)
    : Res (list ReplicationRecord) :=
  match records with
  | [] => Ok []
  | record :: records =>
    if (Replication.source_term record <? current_term)%N then
      Err (Conflict ("replication term regression: follower term " +:+ pretty current_term +:+
        " leader term " +:+ pretty (Replication.source_term record)))
    else if (Replication.source_lsn record <=? last_applied)%N then
      validate_records current_term last_applied records
    else
      rest ← validate_records (Replication.source_term record) (Replication.source_lsn record) records;
      mret (record :: rest)
  end.
Definition validate_replication_records (m : ReplicationManager) (records : list ReplicationRecord)
    : Res (list ReplicationRecord) :=
  validate_records (Replication.current_term (Replication.status m))
    (Replication.last_applied_source_lsn (Replication.status m)) records.

Definition apply_replicated (batch : WriteBatch) : db_m N :=
  d ← db_self;
  mutation ← io_res (plan_batch_mutation (db_engine d) batch);
  lsn ← on_engine (apply_write_batch batch);
  apply_batch_mutation mutation ;;
  mret lsn.

Fixpoint apply_records (last_local_lsn : option N) (records : list ReplicationRecord) : db_m (option N) :=
  match records with
  | [] => mret last_local_lsn
  | record :: records =>
    lsn ← apply_replicated (Replication.rr_batch record);
    apply_records (Some lsn) records
  end.

Definition apply_replication_records (records : list ReplicationRecord) : db_m ReplicationStatusResponse :=
  d ← db_self;
  if decide (Replication.mode (Replication.status (db_replication d)) = Replication.Follower) then
    accepted ← io_res (validate_replication_records (db_replication d) records);
    last_local_lsn ← apply_records None accepted;
    on_replication (Replication.apply_follower_records accepted) ;;
    match last_local_lsn with
    | Some lsn => db_modify (λ d, set_replication (Replication.observe_local_apply lsn (db_replication d)) d)
    | None => mret tt
    end ;;
    persist_replication_metadata ;;
    gets replication_status
  else io_fail (Conflict "replication apply requires follower mode").

Definition mark_node_health (node_id : string) (healthy : bool) : db_m ClusterTopology :=
  on_cluster (Cluster.mark_node_health node_id healthy) ;;
  persist_cluster_topology ;;
  gets cluster_topology.

Definition promote_node (node_id : string) : db_m Cluster.FailoverPlan :=
  plan ← on_cluster (Cluster.promote_node node_id);
  db_modify (λ d, set_replication
    (if decide (Replication.local_node_id (Replication.status (db_replication d)) = node_id) then
       Replication.promote_to_leader (Cluster.plan_term plan) (db_replication d)
     else Replication.failover_to_follower node_id (Cluster.plan_term plan) (db_replication d)) d) ;;
  persist_both ;;
  mret plan.
End database.
