(* ===== verification/Publish.v ===== *)
(** * [crates/api]: what the database publishes

    The mutation planned for a batch, applied to a snapshot, gives the graph the engine holds
    after the batch, and the indexes that go with it.  The exception is a batch that moves an
    edge away from a node it deletes, or that upserts an edge twice. *)
From S2P Require Import Prelude RustStd RustFloat Common Core Config Fs Wal Memory Batch Store Engine Recovery Backup Index Query Database.

#[local] Open Scope string_scope.
#[local] Open Scope list_scope.

(** ** Maps *)

Section maps.
Context {K V : Type} `{Countable K, OrdKey K}.

Lemma lookup_foldl_insert (l : list (K * V)) (m : gmap K V) k : NoDup l.*1 →
  foldl (λ m '(k, v), <[k := v]> m) m l !! k = match (list_to_map l : gmap K V) !! k with
    | Some v => Some v | None => m !! k end.
Proof.
  revert m. induction l as [|[k' v] l IH]; intros m Hl; simpl; [by rewrite lookup_empty|].
  apply list.NoDup_cons in Hl as [Hk Hl]. rewrite IH by done.
  destruct (decide (k' = k)) as [->|Hne].
  - rewrite !lookup_insert_eq. destruct ((list_to_map l : gmap K V) !! k) as [w|] eqn:Hw; [|done].
    apply elem_of_list_to_map_2 in Hw. destruct Hk. apply list_elem_of_fmap. by exists (k, w).
  - by rewrite !lookup_insert_ne.
Qed.

Lemma lookup_mutate_map (removed added base : gmap K V) k :
  mutate_map removed added base !! k = match added !! k with
    | Some v => Some v
    | None => match removed !! k with Some _ => None | None => base !! k end
    end.
Proof.
  unfold mutate_map. rewrite lookup_foldl_insert by apply btree_keys_NoDup.
  rewrite list_to_map_btree_entries. destruct (added !! k); [done|].
  rewrite lookup_remove_all. case_decide as Hk.
  - apply elem_of_btree_keys in Hk as [v ->]. done.
  - destruct (removed !! k) as [v|] eqn:Hv; [|done]. destruct Hk. apply elem_of_btree_keys. by eexists.
Qed.

(** Insert the entries of a map for the given keys that are in it. *)
Definition copy_keys (m : gmap K V) (l : list K) (acc : gmap K V) : gmap K V :=
  foldl (λ acc k, match m !! k with Some v => <[k := v]> acc | None => acc end) acc l.

Lemma lookup_copy_keys m l : ∀ acc k, copy_keys m l acc !! k =
  if decide (k ∈ l ∧ is_Some (m !! k)) then m !! k else acc !! k.
Proof.
  induction l as [|k' l IH]; intros acc k.
  - rewrite decide_False; [done|]. intros [?%elem_of_nil _]. done.
  - change (copy_keys m (k' :: l) acc) with
      (copy_keys m l match m !! k' with Some v => <[k' := v]> acc | None => acc end).
    rewrite IH. destruct (decide (k ∈ l ∧ is_Some (m !! k))) as [[Hin Hs]|Hn].
    + rewrite decide_True; [done|]. split; [by right|done].
    + destruct (decide (k = k')) as [->|Hne].
      * destruct (m !! k') as [v|] eqn:Hv.
        -- rewrite decide_True by (split; [left|by eexists]). by rewrite lookup_insert_eq.
        -- rewrite decide_False; [done|]. by intros [_ []].
      * rewrite decide_False.
        2: { intros [[->|Hin]%elem_of_cons Hs]; [done|by apply Hn]. }
        destruct (m !! k'); [by rewrite lookup_insert_ne|done].
Qed.

Lemma filter_same (P Q : V → Prop) `{!∀ v, Decision (P v), !∀ v, Decision (Q v)} (l : list V) :
  (∀ v, v ∈ l → P v ↔ Q v) → filter P l = filter Q l.
Proof.
  induction l as [|v l IH]; intros Hl; [done|]. rewrite !filter_cons, IH by (intros; apply Hl; by right).
  pose proof (Hl v (list_elem_of_here _ _)). repeat case_decide; tauto.
Qed.

Lemma last_with_filter (key : V → K) (P : V → Prop) `{!∀ v, Decision (P v)} k l :
  (∀ v w, v ∈ l → w ∈ l → key v = k → key w = k → P v → P w) →
  last_with key k (filter P l) =
    match last_with key k l with Some v => if decide (P v) then Some v else None | None => None end.
Proof.
  intros Hsame. destruct (last_with key k l) as [v|] eqn:Hl.
  - apply last_with_Some in Hl as Hv. destruct Hv as [Hin Hk]. case_decide as HP.
    + rewrite <-Hl. unfold last_with. rewrite list_filter_filter. f_equal. apply filter_same.
      intros w Hw. split; [tauto|]. intros Hkw. split; [done|]. by apply (Hsame v w).
    + apply last_with_None. intros (w & Hkw & [HPw Hw]%list_elem_of_filter)%list_elem_of_fmap.
      apply HP. by apply (Hsame w v).
  - apply last_with_None. apply last_with_None in Hl. intros (w & -> & [_ Hw]%list_elem_of_filter)%list_elem_of_fmap.
    apply Hl. apply list_elem_of_fmap. eauto.
Qed.
End maps.

(** ** The planned mutation *)

Section plan.
Context (e : StorageEngine).
Abbreviation m := (e_maps e).

Lemma plan_node_upserts deleted l : ∀ mu, foldl (plan_node_upsert e deleted) mu l =
  mkBatchMutation (copy_keys m.1 (node_id <$> l) (mu_removed_nodes mu)) (mu_removed_edges mu)
    (insert_all node_id (filter (λ n, node_id n ∉ deleted) l) (mu_added_nodes mu)) (mu_added_edges mu).
Proof.
  induction l as [|n l IH]; intros mu; [by destruct mu|]. cbn [foldl]. rewrite IH, filter_cons.
  cbn [plan_node_upsert mu_removed_nodes mu_removed_edges mu_added_nodes mu_added_edges].
  destruct (decide (node_id n ∈ deleted)).
  - rewrite (decide_False (P := node_id n ∉ deleted)) by auto. done.
  - rewrite (decide_True (P := node_id n ∉ deleted)) by auto. done.
Qed.

Lemma plan_node_deletes l : ∀ mu, foldl (plan_node_delete e) mu l =
  mkBatchMutation (copy_keys m.1 l (mu_removed_nodes mu)) (mu_removed_edges mu)
    (mu_added_nodes mu) (mu_added_edges mu).
Proof. induction l as [|n l IH]; intros mu; [by destruct mu|]. cbn [foldl]. by rewrite IH. Qed.

Lemma plan_edge_upserts deleted (deleted_edges : gset EdgeId) l : ∀ mu,
  foldl (plan_edge_upsert e deleted deleted_edges) mu l =
  mkBatchMutation (mu_removed_nodes mu) (copy_keys m.2 (edge_id <$> l) (mu_removed_edges mu))
    (mu_added_nodes mu) (insert_all edge_id
      (filter (λ x, ¬ (edge_id x ∈ deleted_edges ∨ incident_to deleted x)) l) (mu_added_edges mu)).
Proof.
  induction l as [|x l IH]; intros mu; [by destruct mu|]. cbn [foldl]. rewrite IH, filter_cons.
  cbn [plan_edge_upsert mu_removed_nodes mu_removed_edges mu_added_nodes mu_added_edges].
  destruct (decide (edge_id x ∈ deleted_edges ∨ incident_to deleted x)).
  - rewrite (decide_False (P := ¬ _)) by auto. done.
  - rewrite (decide_True (P := ¬ _)) by auto. done.
Qed.

Lemma plan_edge_deletes l : ∀ mu, foldl (plan_edge_delete e) mu l =
  mkBatchMutation (mu_removed_nodes mu) (copy_keys m.2 l (mu_removed_edges mu))
    (mu_added_nodes mu) (mu_added_edges mu).
Proof. induction l as [|x l IH]; intros mu; [by destruct mu|]. cbn [foldl]. by rewrite IH. Qed.

Lemma plan_incident_edges deleted l : ∀ mu,
  let mu' := foldl (plan_incident_edge deleted) mu l in
  mu_removed_nodes mu' = mu_removed_nodes mu ∧ mu_added_nodes mu' = mu_added_nodes mu ∧
  (∀ k, mu_removed_edges mu' !! k =
    match last_with edge_id k (filter (incident_to deleted) l) with
    | Some x => Some x | None => mu_removed_edges mu !! k end) ∧
  (∀ k, mu_added_edges mu' !! k =
    if decide (k ∈ edge_id <$> filter (incident_to deleted) l) then None else mu_added_edges mu !! k).
Proof.
  intros mu mu'.
  enough (mu' = mkBatchMutation (mu_removed_nodes mu)
    (insert_all edge_id (filter (incident_to deleted) l) (mu_removed_edges mu)) (mu_added_nodes mu)
    (remove_all (edge_id <$> filter (incident_to deleted) l) (mu_added_edges mu))) as ->.
  { cbn [mu_removed_nodes mu_removed_edges mu_added_nodes mu_added_edges]. split_and!; [done|done| |];
      intros k; [apply lookup_insert_all|apply lookup_remove_all]. }
  unfold mu'. clear mu'. revert mu. induction l as [|x l IH]; intros mu; [by destruct mu|].
  cbn [foldl]. rewrite IH, filter_cons. unfold plan_incident_edge. by case_decide.
Qed.
End plan.

(** A batch whose upserts of an edge agree on whether they touch a deleted node, and that
    moves no edge away from one. *)
Definition settled (m : Maps) (b : WriteBatch) : Prop := ∀ x, x ∈ edges_upserted b →
  (∀ y, y ∈ edges_upserted b → edge_id y = edge_id x →
    incident_to (deleted_nodes b) y → incident_to (deleted_nodes b) x) ∧
  (∀ old, m.2 !! edge_id x = Some old → incident_to (deleted_nodes b) old → incident_to (deleted_nodes b) x).

Definition mutated (mu : BatchMutation) (m : Maps) : Maps :=
  (mutate_map (mu_removed_nodes mu) (mu_added_nodes mu) m.1,
   mutate_map (mu_removed_edges mu) (mu_added_edges mu) m.2).

(** What a mutation of a graph has to be for the indexes to follow it. *)
Record mutation_ok (m : Maps) (mu : BatchMutation) : Prop := {
  mo_removed_nodes : ∀ k n, mu_removed_nodes mu !! k = Some n → m.1 !! k = Some n;
  mo_removed_edges : ∀ k x, mu_removed_edges mu !! k = Some x → m.2 !! k = Some x;
  mo_added_nodes : ∀ k n, mu_added_nodes mu !! k = Some n →
    node_id n = k ∧ (is_Some (m.1 !! k) → is_Some (mu_removed_nodes mu !! k));
  mo_added_edges : ∀ k x, mu_added_edges mu !! k = Some x →
    edge_id x = k ∧ (is_Some (m.2 !! k) → is_Some (mu_removed_edges mu !! k));
}.

Section planned.
Context (e : StorageEngine) (Hwf : maps_wf (e_maps e)).
Abbreviation m := (e_maps e).

(** The edge under a key goes with a node the batch deletes. *)
Definition goes (b : WriteBatch) (k : EdgeId) : bool :=
  from_option (λ old, bool_decide (incident_to (deleted_nodes b) old)) false (m.2 !! k).

Definition kept_edges (b : WriteBatch) : list EdgeRecord :=
  filter (λ x, ¬ (edge_id x ∈ (list_to_set (deleted_edge_ids b) : gset EdgeId) ∨
    incident_to (deleted_nodes b) x)) (edges_upserted b).

Lemma goes_keys b k : k ∈ edge_id <$> filter (incident_to (deleted_nodes b)) (all_edges e) ↔ goes b k = true.
Proof.
  unfold goes, all_edges. split.
  - intros (x & -> & [Hi [k' Hx]%elem_of_btree_values]%list_elem_of_filter)%list_elem_of_fmap.
    rewrite (mw_edge_key _ Hwf _ _ Hx), Hx. simpl. by apply bool_decide_eq_true.
  - destruct (m.2 !! k) as [x|] eqn:Hx; [|done]. simpl. intros Hi%bool_decide_eq_true.
    apply list_elem_of_fmap. exists x. split; [by rewrite (mw_edge_key _ Hwf _ _ Hx)|].
    apply list_elem_of_filter. split; [done|]. apply elem_of_btree_values. by exists k.
Qed.

(** The four maps of a plan. *)
Lemma plan_lookup b mu : plan_batch_mutation e b = Ok mu →
  (∀ k, mu_removed_nodes mu !! k =
    if decide (k ∈ node_id <$> nodes_upserted b ∨ k ∈ deleted_node_ids b) then m.1 !! k else None) ∧
  (∀ k, mu_added_nodes mu !! k =
    if decide (k ∈ deleted_node_ids b) then None else last_with node_id k (nodes_upserted b)) ∧
  (∀ k, mu_removed_edges mu !! k =
    if decide (k ∈ edge_id <$> edges_upserted b ∨ k ∈ deleted_edge_ids b ∨ goes b k = true)
    then m.2 !! k else None) ∧
  (∀ k, mu_added_edges mu !! k = if goes b k then None else last_with edge_id k (kept_edges b)).
Proof.
  unfold plan_batch_mutation. intros [_ Hplan]%result_seq_Ok. injection Hplan as <-.
  rewrite plan_node_upserts, plan_node_deletes, plan_edge_upserts, plan_edge_deletes.
  cbn [mu_removed_nodes mu_removed_edges mu_added_nodes mu_added_edges]. fold (kept_edges b).
  set (rn := copy_keys _ _ (copy_keys _ _ _)). set (re := copy_keys m.2 _ (copy_keys _ _ _)).
  set (an := insert_all node_id _ _). set (ae := insert_all edge_id (kept_edges b) _).
  assert (Hrn : ∀ k, rn !! k =
    if decide (k ∈ node_id <$> nodes_upserted b ∨ k ∈ deleted_node_ids b) then m.1 !! k else None).
  { intros k. unfold rn. rewrite !lookup_copy_keys, lookup_empty.
    destruct (m.1 !! k) as [n|]; repeat case_decide; naive_solver. }
  assert (Han : ∀ k, an !! k =
    if decide (k ∈ deleted_node_ids b) then None else last_with node_id k (nodes_upserted b)).
  { intros k. unfold an. rewrite lookup_insert_all, lookup_empty, last_with_filter.
    - destruct (last_with node_id k (nodes_upserted b)) as [n|] eqn:Hl; [|by case_decide].
      apply last_with_Some in Hl as [_ <-]. unfold deleted_nodes. repeat case_decide; try done;
        rewrite elem_of_list_to_set in *; tauto.
    - intros v w _ _ Hv Hw. by rewrite Hv, Hw. }
  assert (Hre : ∀ k, re !! k =
    if decide (k ∈ edge_id <$> edges_upserted b ∨ k ∈ deleted_edge_ids b) then m.2 !! k else None).
  { intros k. unfold re. rewrite !lookup_copy_keys, lookup_empty.
    destruct (m.2 !! k) as [x|]; repeat case_decide; naive_solver. }
  assert (Hae : ∀ k, ae !! k = last_with edge_id k (kept_edges b)).
  { intros k. unfold ae. rewrite lookup_insert_all, lookup_empty. by destruct (last_with _ _ _). }
  case_decide as Hempty.
  - assert (Hno : ∀ k, goes b k = false).
    { intros k. unfold goes. destruct (m.2 !! k) as [x|]; [|done]. simpl. apply bool_decide_eq_false.
      unfold incident_to. rewrite Hempty. set_solver. }
    cbn [mu_removed_nodes mu_removed_edges mu_added_nodes mu_added_edges]. split_and!; [done|done| |].
    + intros k. rewrite Hre, Hno. apply decide_ext. naive_solver.
    + intros k. by rewrite Hae, Hno.
  - destruct (plan_incident_edges (deleted_nodes b) (all_edges e) (mkBatchMutation rn re an ae))
      as (-> & -> & Hrm & Hadd). cbn [mu_removed_nodes mu_removed_edges mu_added_nodes mu_added_edges] in *.
    split_and!; [done|done| |].
    + intros k. rewrite Hrm. destruct (last_with edge_id k _) as [x|] eqn:Hl.
      * assert (Hgoes : goes b k = true).
        { apply goes_keys. apply last_with_is_Some. by eexists. }
        rewrite decide_True by auto. apply last_with_Some in Hl as [[Hi Hx]%list_elem_of_filter <-].
        unfold all_edges in Hx. apply elem_of_btree_values in Hx as [k Hx].
        by rewrite (mw_edge_key _ Hwf _ _ Hx), Hx.
      * apply last_with_None in Hl. rewrite goes_keys in Hl. rewrite Hre. apply decide_ext. naive_solver.
    + intros k. rewrite Hadd, Hae. destruct (goes b k) eqn:Hgoes.
      * by rewrite decide_True by (by apply goes_keys).
      * rewrite decide_False; [done|]. by rewrite goes_keys, Hgoes.
Qed.

Lemma plan_ok b mu : plan_batch_mutation e b = Ok mu → mutation_ok m mu.
Proof.
  intros (Hrn & Han & Hre & Hae)%plan_lookup. split.
  - intros k n. rewrite Hrn. by case_decide.
  - intros k x. rewrite Hre. by case_decide.
  - intros k n. rewrite Han, Hrn. case_decide; [done|]. intros Hl.
    rewrite decide_True by (left; apply last_with_is_Some; by eexists).
    by apply last_with_Some in Hl as [_ ?].
  - intros k x. rewrite Hae, Hre. destruct (goes b k); [done|]. intros Hl.
    rewrite decide_True; [by apply last_with_Some in Hl as [_ ?]|]. left.
    apply last_with_Some in Hl as [[_ Hx]%list_elem_of_filter <-]. apply list_elem_of_fmap. by exists x.
Qed.

Lemma kept_last b k : settled m b → last_with edge_id k (kept_edges b) =
  match last_with edge_id k (edges_upserted b) with
  | Some x => if decide (k ∈ deleted_edge_ids b ∨ incident_to (deleted_nodes b) x) then None else Some x
  | None => None
  end.
Proof.
  intros Hset. unfold kept_edges. rewrite last_with_filter.
  - destruct (last_with edge_id k (edges_upserted b)) as [x|] eqn:Hl; [|done].
    apply last_with_Some in Hl as [_ <-]. repeat case_decide; try done; rewrite elem_of_list_to_set in *; tauto.
  - intros v w Hv Hw Hkv Hkw HP [Hd|Hi]; apply HP.
    + left. by rewrite Hkv, <-Hkw.
    + right. apply (proj1 (Hset v Hv) w); [done|congruence|done].
Qed.

(** The plan of a settled batch is what the batch does. *)
Lemma plan_applies b mu : plan_batch_mutation e b = Ok mu → settled m b →
  mutated mu m = apply_batch_to_maps_unchecked b m.
Proof.
  intros (Hrn & Han & Hre & Hae)%plan_lookup Hset.
  rewrite (surjective_pairing (apply_batch_to_maps_unchecked b m)). unfold mutated. f_equal; apply map_eq; intros k.
  - rewrite lookup_mutate_map, apply_batch_nodes, Han, Hrn. unfold node_after.
    destruct (decide (k ∈ deleted_node_ids b)) as [Hd|Hd].
    + rewrite decide_True by auto. by destruct (m.1 !! k).
    + destruct (last_with node_id k (nodes_upserted b)) eqn:Hl; [done|]. apply last_with_None in Hl.
      rewrite decide_False by tauto. done.
  - rewrite lookup_mutate_map, apply_batch_edges, Hae, Hre, kept_last by done. unfold edge_after.
    destruct (last_with edge_id k (edges_upserted b)) as [x|] eqn:Hl.
    + apply last_with_Some in Hl as [Hx Hk]. cbn [mbind option_bind].
      assert (Hup : k ∈ edge_id <$> edges_upserted b) by (apply list_elem_of_fmap; by exists x).
      rewrite (decide_True (P := k ∈ edge_id <$> _ ∨ _)) by auto.
      destruct (decide (k ∈ deleted_edge_ids b)) as [Hd|Hd].
      { rewrite decide_True by tauto. by destruct (goes b k), (m.2 !! k). }
      destruct (decide (incident_to (deleted_nodes b) x)) as [Hi|Hi].
      { rewrite decide_True by tauto. by destruct (goes b k), (m.2 !! k). }
      rewrite decide_False by tauto. destruct (goes b k) eqn:Hg; [|done]. exfalso. apply Hi.
      unfold goes in Hg. destruct (m.2 !! k) as [old|] eqn:Hold; [|done]. simpl in Hg.
      apply bool_decide_eq_true in Hg. apply (proj2 (Hset x Hx) old); [by rewrite Hk|done].
    + apply last_with_None in Hl. cbn [mbind option_bind].
      replace (if goes b k then None else @None EdgeRecord) with (@None EdgeRecord) by (by destruct (goes b k)).
      unfold goes. destruct (m.2 !! k) as [old|] eqn:Hold; simpl; [|by repeat case_decide].
      destruct (decide (k ∈ deleted_edge_ids b)) as [Hd|Hd]; [by rewrite decide_True by auto|].
      destruct (decide (incident_to (deleted_nodes b) old)) as [Hi|Hi].
      * rewrite decide_True; [done|]. right; right. by apply bool_decide_eq_true.
      * rewrite decide_False; [done|]. rewrite bool_decide_eq_true. tauto.
Qed.
End planned.

(** ** The indexes follow *)

Section indexes.
Context `{WalCodec, StorageCodec, HnswLib, IndexCodec, DatabaseCodec}.

Lemma index_agrees_ext (nodes nodes' : NodeId → option NodeRecord) (edges edges' : EdgeId → option EdgeRecord) ix :
  (∀ k, nodes k = nodes' k) → (∀ k, edges k = edges' k) →
  index_agrees nodes edges ix → index_agrees nodes' edges' ix.
Proof.
  intros Hn He [[G1 G2 G3 G4 G5 G6] Hv]. split.
  - split.
    + intros id. by rewrite <-Hn.
    + intros key id Hk. rewrite <-Hn. by apply G2.
    + eapply buckets_iff; [exact G3|]. intros ??. by setoid_rewrite He.
    + eapply buckets_iff; [exact G4|]. intros ??. by setoid_rewrite He.
    + eapply buckets_iff; [exact G5|]. intros ??. by setoid_rewrite Hn.
    + eapply buckets_iff; [exact G6|]. intros ??. by setoid_rewrite Hn.
  - destruct (ix_vector_index ix) as [v|v]; simpl in *.
    + eapply buckets_iff; [exact Hv|]. intros ??. by setoid_rewrite Hn.
    + eapply map_Forall_impl; [exact Hv|]. intros name sp [Hd Hs]. split; [done|].
      intros id. rewrite <-Hn. apply Hs.
Qed.

(** [f] without, or with, the records of a list. *)
Definition without {K V} `{EqDecision K} (key : V → K) (l : list V) (f : K → option V) (k : K) : option V :=
  if decide (k ∈ key <$> l) then None else f k.
Definition with_all {K V} `{EqDecision K} (key : V → K) (l : list V) (f : K → option V) (k : K) : option V :=
  match last_with key k l with Some v => Some v | None => f k end.

Lemma without_cons {K V} `{EqDecision K} (key : V → K) v l f k :
  without key (v :: l) f k = without key l (λ k, if decide (k = key v) then None else f k) k.
Proof. unfold without. rewrite fmap_cons. repeat case_decide; set_solver. Qed.

Lemma last_with_cons {K V} `{EqDecision K} (key : V → K) v l k : key v ∉ key <$> l →
  last_with key k (v :: l) = if decide (k = key v) then Some v else last_with key k l.
Proof.
  intros Hv. unfold last_with. rewrite filter_cons. destruct (decide (k = key v)) as [->|Hne].
  - rewrite decide_True by done. rewrite filter_none; [done|]. intros w Hw Hkw. apply Hv.
    apply list_elem_of_fmap. by exists w.
  - rewrite decide_False by congruence. done.
Qed.

Lemma with_all_cons {K V} `{EqDecision K} (key : V → K) v l f k : key v ∉ key <$> l →
  with_all key (v :: l) f k = with_all key l (λ k, if decide (k = key v) then Some v else f k) k.
Proof.
  intros Hv. unfold with_all. rewrite last_with_cons by done. destruct (decide (k = key v)) as [->|Hne].
  - destruct (last_with key (key v) l) as [w|] eqn:Hl; [|done]. apply last_with_Some in Hl as [Hw Hk].
    destruct Hv. apply list_elem_of_fmap. by exists w.
  - done.
Qed.

Lemma delete_edges_agree (nodes : NodeId → option NodeRecord) l : ∀ (edges : EdgeId → option EdgeRecord) ix,
  NoDup (edge_id <$> l) → (∀ x, x ∈ l → edges (edge_id x) = Some x) → index_agrees nodes edges ix →
  index_agrees nodes (without edge_id l edges) (foldl (λ ix x, Index.delete_edge x ix) ix l).
Proof.
  induction l as [|x l IH]; intros edges ix Hl Hin Hix; csimpl in *.
  - eapply index_agrees_ext; [done| |exact Hix]. intros k. unfold without. by rewrite decide_False by apply not_elem_of_nil.
  - apply list.NoDup_cons in Hl as [Hx Hl].
    eapply index_agrees_ext; [done| |apply (IH (λ k, if decide (k = edge_id x) then None else edges k))].
    + intros k. by rewrite without_cons.
    + done.
    + intros y Hy. rewrite decide_False; [apply Hin; by right|]. intros Heq. apply Hx. rewrite <-Heq.
      apply list_elem_of_fmap. by exists y.
    + apply (delete_edge_agrees nodes edges _ x); [done|apply Hin; left|exact Hix].
Qed.

Lemma delete_nodes_agree (edges : EdgeId → option EdgeRecord) l : ∀ (nodes : NodeId → option NodeRecord) st,
  NoDup (node_id <$> l) → (∀ n, n ∈ l → nodes (node_id n) = Some n) → index_agrees nodes edges st.1 →
  index_agrees (without node_id l nodes) edges (foldl (λ st n, Index.delete_node n st) st l).1.
Proof.
  induction l as [|n l IH]; intros nodes st Hl Hin Hix; csimpl in *.
  - eapply index_agrees_ext; [|done|exact Hix]. intros k. unfold without. by rewrite decide_False by apply not_elem_of_nil.
  - apply list.NoDup_cons in Hl as [Hn Hl].
    eapply index_agrees_ext; [|done|apply (IH (λ k, if decide (k = node_id n) then None else nodes k))].
    + intros k. by rewrite without_cons.
    + done.
    + intros y Hy. rewrite decide_False; [apply Hin; by right|]. intros Heq. apply Hn. rewrite <-Heq.
      apply list_elem_of_fmap. by exists y.
    + apply (delete_node_agrees nodes _ edges n); [done|apply Hin; left|exact Hix].
Qed.

Lemma upsert_nodes_agree (edges : EdgeId → option EdgeRecord) l : ∀ (nodes : NodeId → option NodeRecord) st,
  NoDup (node_id <$> l) → (∀ n, n ∈ l → nodes (node_id n) = None) → index_agrees nodes edges st.1 →
  index_agrees (with_all node_id l nodes) edges (foldl (λ st n, Index.upsert_node n st) st l).1.
Proof.
  induction l as [|n l IH]; intros nodes st Hl Hin Hix; csimpl in *; [exact Hix|].
  apply list.NoDup_cons in Hl as [Hn Hl].
  eapply index_agrees_ext; [|done|apply (IH (λ k, if decide (k = node_id n) then Some n else nodes k))].
  - intros k. by rewrite with_all_cons.
  - done.
  - intros y Hy. rewrite decide_False; [apply Hin; by right|]. intros Heq. apply Hn. rewrite <-Heq.
    apply list_elem_of_fmap. by exists y.
  - apply (upsert_node_agrees nodes _ edges n); [done|apply Hin; left|exact Hix].
Qed.

Lemma insert_edges_agree (nodes : NodeId → option NodeRecord) l : ∀ (edges : EdgeId → option EdgeRecord) ix,
  NoDup (edge_id <$> l) → (∀ x, x ∈ l → edges (edge_id x) = None) → index_agrees nodes edges ix →
  index_agrees nodes (with_all edge_id l edges) (foldl (λ ix x, Index.upsert_edge x ix) ix l).
Proof.
  induction l as [|x l IH]; intros edges ix Hl Hin Hix; csimpl in *; [exact Hix|].
  apply list.NoDup_cons in Hl as [Hx Hl].
  eapply index_agrees_ext; [done| |apply (IH (λ k, if decide (k = edge_id x) then Some x else edges k))].
  - intros k. by rewrite with_all_cons.
  - done.
  - intros y Hy. rewrite decide_False; [apply Hin; by right|]. intros Heq. apply Hx. rewrite <-Heq.
    apply list_elem_of_fmap. by exists y.
  - apply (upsert_edge_agrees nodes edges _ x); [done|apply Hin; left|exact Hix].
Qed.

Lemma values_last {K V} `{Countable K, OrdKey K} (key : V → K) (a : gmap K V) k :
  (∀ k v, a !! k = Some v → key v = k) → last_with key k (btree_values a) = a !! k.
Proof.
  intros Hkey. destruct (from_values key a Hkey) as (Hins & _).
  rewrite <-Hins at 2. rewrite lookup_insert_all, lookup_empty. by destruct (last_with _ _ _).
Qed.

Lemma indexes_with_mutation_agree (m : Maps) mu ix h : maps_wf m → mutation_ok m mu →
  index_agrees (m.1 !!.) (m.2 !!.) ix →
  index_agrees ((mutated mu m).1 !!.) ((mutated mu m).2 !!.) (indexes_with_mutation mu (ix, h)).1.
Proof.
  intros Hwf [Hrn Hre Han Hae] Hix. unfold indexes_with_mutation.
  destruct (from_values node_id (mu_removed_nodes mu)) as (_ & Hrn1 & Hrn2).
  { intros k n Hn. apply (mw_node_key _ Hwf), Hrn, Hn. }
  destruct (from_values edge_id (mu_removed_edges mu)) as (_ & Hre1 & Hre2).
  { intros k x Hx. apply (mw_edge_key _ Hwf), Hre, Hx. }
  assert (Hank : ∀ k n, mu_added_nodes mu !! k = Some n → node_id n = k) by (intros k n Hn; by apply Han).
  assert (Haek : ∀ k x, mu_added_edges mu !! k = Some x → edge_id x = k) by (intros k x Hx; by apply Hae).
  destruct (from_values node_id (mu_added_nodes mu) Hank) as (_ & Han1 & Han2).
  destruct (from_values edge_id (mu_added_edges mu) Haek) as (_ & Hae1 & Hae2).
  set (edges1 := without edge_id (btree_values (mu_removed_edges mu)) (m.2 !!.)).
  set (nodes1 := without node_id (btree_values (mu_removed_nodes mu)) (m.1 !!.)).
  pose proof (delete_edges_agree (m.1 !!.) (btree_values (mu_removed_edges mu)) (m.2 !!.) ix Hre1
    (λ x Hx, Hre _ _ (Hre2 x Hx)) Hix) as G1. fold edges1 in G1.
  pose proof (delete_nodes_agree edges1 (btree_values (mu_removed_nodes mu)) (m.1 !!.) (_, h) Hrn1
    (λ n Hn, Hrn _ _ (Hrn2 n Hn)) G1) as G2. fold nodes1 in G2.
  assert (Hnone1 : ∀ n, n ∈ btree_values (mu_added_nodes mu) → nodes1 (node_id n) = None).
  { intros n Hn%Han2. destruct (Han _ _ Hn) as [_ Hold]. unfold nodes1, without. case_decide as Hin; [done|].
    destruct (m.1 !! node_id n) as [old|] eqn:Ho; [|done]. destruct Hold as [r Hr]; [by eexists|]. destruct Hin.
    apply list_elem_of_fmap. exists r. split; [symmetry; by apply (mw_node_key _ Hwf), Hrn|].
    apply elem_of_btree_values. eauto. }
  assert (Hnone2 : ∀ x, x ∈ btree_values (mu_added_edges mu) → edges1 (edge_id x) = None).
  { intros x Hx%Hae2. destruct (Hae _ _ Hx) as [_ Hold]. unfold edges1, without. case_decide as Hin; [done|].
    destruct (m.2 !! edge_id x) as [old|] eqn:Ho; [|done]. destruct Hold as [r Hr]; [by eexists|]. destruct Hin.
    apply list_elem_of_fmap. exists r. split; [symmetry; by apply (mw_edge_key _ Hwf), Hre|].
    apply elem_of_btree_values. eauto. }
  pose proof (upsert_nodes_agree edges1 (btree_values (mu_added_nodes mu)) nodes1 _ Han1 Hnone1 G2) as G3.
  destruct (foldl (λ st n, Index.upsert_node n st) _ _) as [ix3 h3]. cbn [fst] in G3 |- *.
  pose proof (insert_edges_agree _ (btree_values (mu_added_edges mu)) edges1 ix3 Hae1 Hnone2 G3) as G4.
  eapply index_agrees_ext; [| |exact G4].
  - intros k. unfold with_all. rewrite values_last by done. unfold mutated. cbn [fst]. rewrite lookup_mutate_map.
    destruct (mu_added_nodes mu !! k); [done|]. unfold nodes1, without. case_decide as Hin.
    + apply list_elem_of_fmap in Hin as (r & -> & Hr%Hrn2). by rewrite Hr.
    + destruct (mu_removed_nodes mu !! k) as [r|] eqn:Hr; [|done]. destruct Hin. apply list_elem_of_fmap.
      exists r. split; [symmetry; by apply (mw_node_key _ Hwf), Hrn|]. apply elem_of_btree_values. eauto.
  - intros k. unfold with_all. rewrite values_last by done. unfold mutated. cbn [snd]. rewrite lookup_mutate_map.
    destruct (mu_added_edges mu !! k); [done|]. unfold edges1, without. case_decide as Hin.
    + apply list_elem_of_fmap in Hin as (r & -> & Hr%Hre2). by rewrite Hr.
    + destruct (mu_removed_edges mu !! k) as [r|] eqn:Hr; [|done]. destruct Hin. apply list_elem_of_fmap.
      exists r. split; [symmetry; by apply (mw_edge_key _ Hwf), Hre|]. apply elem_of_btree_values. eauto.
Qed.
End indexes.
