(* ===== verification/Tracking.v ===== *)
(** * [crates/api]: the published snapshot tracks the engine

    The invariant of a [Database] between calls: the snapshot that queries read is the graph
    of the engine, and both indexes agree with it.  Calls are values of [db_call]; a call that
    fails after its batch was committed is the one that leaves the snapshot behind. *)
From S2P Require Import Prelude RustStd RustFloat Common Core Config Fs Wal Memory Batch Store Engine Recovery Checkpoint Clients Backup Index Query Database Publish.

#[local] Open Scope string_scope.
#[local] Open Scope list_scope.

Create HintDb frame.

Section tracking.
Context `{WalCodec, StorageCodec, HnswLib, IndexCodec, DatabaseCodec}.
Abbreviation state := (World * (Database * list Runtime))%type.

(** ** Computations that leave the graph alone *)

Definition engine_frame {A} (c : engine_m A) : Prop :=
  ∀ w e, e_maps (c (w, e)).2.2 = e_maps e.

Lemma engine_frame_ret {A} (a : A) : engine_frame (mret a).
Proof. done. Qed.
Lemma engine_frame_self : engine_frame self.
Proof. done. Qed.
Lemma engine_frame_modify f : (∀ e, e_maps (f e) = e_maps e) → engine_frame (modify_self f).
Proof. intros Hf w e. apply Hf. Qed.
Lemma engine_frame_lift {A} (r : Res A) : engine_frame (io_res r).
Proof. done. Qed.
Lemma engine_frame_fail {A} e : engine_frame (io_fail (A := A) e).
Proof. done. Qed.
Lemma engine_frame_wal {A} (c : wal_m A) : engine_frame (on_wal c).
Proof. intros w e. unfold on_wal. by destruct (c (w, e_wal e)) as [r [w' l']]. Qed.
Lemma engine_frame_world {A} (c : io A) : engine_frame (on_world c).
Proof. intros w e. unfold on_world. by destruct (c w). Qed.
Lemma engine_frame_bind {A B} (c : engine_m A) (f : A → engine_m B) : engine_frame c →
  (∀ a, engine_frame (f a)) → engine_frame (c ≫= f).
Proof.
  intros Hc Hf w e. unfold mbind, sm_bind. specialize (Hc w e).
  destruct (c (w, e)) as [[a|x] [w' e']]; simpl in *; [|done]. by rewrite Hf.
Qed.
Lemma engine_frame_for {A} (l : list A) (f : A → engine_m unit) : (∀ a, engine_frame (f a)) →
  engine_frame (sm_for l f).
Proof.
  intros Hf. induction l as [|a l IH]; [apply engine_frame_ret|]. simpl. by apply engine_frame_bind.
Qed.

(** Computations on the database that leave its engine's graph and what is published alone. *)
Definition same_graph (d d' : Database) : Prop :=
  e_maps (db_engine d') = e_maps (db_engine d) ∧ db_indexes d' = db_indexes d ∧
  db_published_snapshot d' = db_published_snapshot d.
Definition frame {A} (c : db_m A) : Prop := ∀ w d h, same_graph d (c (w, (d, h))).2.2.1.

Lemma same_graph_refl d : same_graph d d.
Proof. done. Qed.
Lemma same_graph_trans d1 d2 d3 : same_graph d1 d2 → same_graph d2 d3 → same_graph d1 d3.
Proof. intros (? & ? & ?) (? & ? & ?). unfold same_graph. split_and!; congruence. Qed.

Lemma frame_ret {A} (a : A) : frame (mret a).
Proof. done. Qed.
Lemma frame_self : frame db_self.
Proof. done. Qed.
Lemma frame_lift {A} (r : Res A) : frame (io_res r).
Proof. done. Qed.
Lemma frame_fail {A} e : frame (io_fail (A := A) e).
Proof. done. Qed.
Lemma frame_bind {A B} (c : db_m A) (f : A → db_m B) : frame c → (∀ a, frame (f a)) → frame (c ≫= f).
Proof.
  intros Hc Hf w d h. unfold mbind, sm_bind. specialize (Hc w d h).
  destruct (c (w, (d, h))) as [[a|x] [w' [d' h']]]; simpl in *; [|done].
  eapply same_graph_trans; [exact Hc|apply Hf].
Qed.
Lemma frame_disk {A} (c : io A) : frame (on_disk c).
Proof. intros w d h. unfold on_disk, on_world. by destruct (c w). Qed.
Lemma frame_modify f : (∀ d, same_graph d (f d)) → frame (db_modify f).
Proof. intros Hf w d h. apply Hf. Qed.
Lemma frame_replication {A} (c : Replication.repl_op A) : frame (on_replication c).
Proof. intros w d h. unfold on_replication. by destruct (c (db_replication d)). Qed.
Lemma frame_cluster {A} (c : Cluster.cluster_op A) : frame (on_cluster c).
Proof. intros w d h. unfold on_cluster. by destruct (c (db_cluster d)). Qed.
Lemma frame_engine {A} (c : engine_m A) : engine_frame c → frame (on_engine c).
Proof.
  intros Hc w d h. unfold on_engine. specialize (Hc w (db_engine d)). by destruct (c (w, db_engine d)) as [r [w' e']].
Qed.
Lemma frame_gets {A} (f : Database → A) : frame (gets f).
Proof. done. Qed.
End tracking.

#[export] Hint Resolve engine_frame_ret engine_frame_self engine_frame_modify engine_frame_lift engine_frame_fail
  engine_frame_wal engine_frame_world engine_frame_bind engine_frame_for : frame.
#[export] Hint Resolve frame_ret frame_self frame_lift frame_fail frame_bind frame_disk frame_modify
  frame_replication frame_cluster frame_engine frame_gets : frame.
#[export] Hint Extern 1 (same_graph _ _) => (repeat split; reflexivity) : frame.
#[export] Hint Extern 1 (frame (match ?x with _ => _ end)) => destruct x : frame.
#[export] Hint Extern 1 (engine_frame (match ?x with _ => _ end)) => destruct x : frame.

Section calls.
Context `{WalCodec, StorageCodec, HnswLib, IndexCodec, DatabaseCodec}.
Abbreviation state := (World * (Database * list Runtime))%type.

Lemma persist_replication_frame : frame persist_replication_metadata.
Proof. unfold persist_replication_metadata. auto with frame. Qed.
Lemma persist_cluster_frame : frame persist_cluster_topology.
Proof. unfold persist_cluster_topology. auto with frame. Qed.
Lemma persist_both_frame : frame persist_both.
Proof. apply frame_bind; auto using persist_replication_frame, persist_cluster_frame. Qed.
Lemma persist_index_frame : frame persist_index_snapshot.
Proof.
  intros w d h. unfold persist_index_snapshot. revert w d h.
  assert (Hf : ∀ h d, frame (
    let l := e_layout (db_engine d) in
    let snapshot := index_snapshot (db_indexes d) in
    on_disk (write_with_parent "failed to create index snapshot directory" "failed to serialize index snapshot"
      "failed to write index snapshot" (index_snapshot_path l) (json_encode_index_snapshot snapshot)) ;;
    on_disk (persist_vector_index h (db_indexes d) (vector_index_manifest_path l) (vector_index_graph_path l)
      (vector_index_vectors_path l) (e_latest_applied_lsn (db_engine d))) ;;
    mret snapshot : db_m IndexSnapshot)) by (intros; cbn zeta; auto with frame).
  intros w d h. apply Hf.
Qed.
Lemma ensure_frame : frame ensure_client_write_allowed.
Proof. unfold ensure_client_write_allowed. auto with frame. Qed.
Lemma record_frame lsn b : frame (record_local_commit lsn b).
Proof. unfold record_local_commit. auto 12 using persist_replication_frame with frame. Qed.

Lemma begin_frame level : frame (begin_transaction level).
Proof. unfold begin_transaction. auto using ensure_frame with frame. Qed.
Lemma stage_frame tx op : frame (stage_transaction_operation tx op).
Proof.
  apply frame_bind; [apply ensure_frame|]. intros _. apply frame_engine. intros w e.
  destruct (stage_state tx op w e) as [_ [t Ht]]. by rewrite Ht.
Qed.
Lemma rollback_frame tx : frame (rollback_transaction tx).
Proof.
  apply frame_bind; [apply ensure_frame|]. intros _. apply frame_engine. unfold Engine.rollback_transaction.
  apply engine_frame_bind; [auto with frame|]. intros e.
  apply engine_frame_bind; [auto with frame|]. intros s.
  apply engine_frame_bind; [|auto with frame]. apply engine_frame_modify. intros e'.
  by destruct (clear_versions_state (set_transactions (delete tx (e_transactions e')) e')) as (_ & -> & _).
Qed.
Lemma leader_frame : frame configure_as_leader.
Proof. unfold configure_as_leader. auto 8 using persist_both_frame with frame. Qed.
Lemma follower_frame id address : frame (configure_as_follower id address).
Proof. unfold configure_as_follower. auto 8 using persist_both_frame with frame. Qed.
Lemma register_frame id address : frame (register_replica id address).
Proof. unfold register_replica. auto 8 using persist_both_frame with frame. Qed.
Lemma acknowledge_frame id lsn : frame (acknowledge_replica id lsn).
Proof. unfold acknowledge_replica. auto 8 using persist_replication_frame with frame. Qed.
Lemma health_frame id healthy : frame (mark_node_health id healthy).
Proof. unfold mark_node_health. auto 8 using persist_cluster_frame with frame. Qed.
Lemma promote_frame id : frame (promote_node id).
Proof. unfold promote_node. auto 8 using persist_both_frame with frame. Qed.

Lemma persist_state_frame lsn clean clear : engine_frame (persist_state lsn clean clear).
Proof.
  unfold persist_state. apply engine_frame_bind; [auto with frame|]. intros e. cbn zeta.
  do 6 (apply engine_frame_bind; [auto with frame|]; intros ?).
  destruct (if clear then _ else _) as [m obsolete].
  do 3 (apply engine_frame_bind; [auto with frame|]; intros ?). auto with frame.
Qed.
Lemma compact_frame : engine_frame Recovery.compact.
Proof.
  unfold Recovery.compact. apply engine_frame_bind; [auto with frame|]. intros e.
  apply engine_frame_bind; [auto with frame|]. intros ck. cbn zeta. auto 8 using persist_state_frame with frame.
Qed.
Lemma shutdown_frame : frame graceful_shutdown.
Proof.
  apply frame_bind; [|intros _; apply frame_bind; auto using persist_index_frame with frame].
  apply frame_engine. unfold Recovery.graceful_shutdown, publish_checkpoint.
  apply engine_frame_bind; [auto with frame|]. intros e.
  apply engine_frame_bind; [auto with frame|]. intros ck. cbn zeta.
  apply engine_frame_bind; [auto with frame|]. intros _.
  apply engine_frame_bind; [|intros _; auto 8 with frame]. unfold publish_pending.
  apply engine_frame_bind; [auto with frame|]. intros e'. destruct (e_pending e'); [auto with frame|]. auto 8 with frame.
Qed.

(** ** The invariant *)

(** What is published, and the indexes, are those of the graph [m]. *)
Record tracks (m : Maps) (d : Database) : Prop := {
  ts_maps : gs_maps (db_published_snapshot d) = m;
  ts_indexes : index_agrees (m.1 !!.) (m.2 !!.) (db_indexes d);
  ts_snapshot : index_agrees (m.1 !!.) (m.2 !!.) (gs_indexes (db_published_snapshot d));
}.
Definition published (d : Database) : Prop :=
  maps_wf (e_maps (db_engine d)) ∧ tracks (e_maps (db_engine d)) d.

Lemma same_graph_published d d' : same_graph d d' → published d → published d'.
Proof.
  intros (Hm & Hi & Hs) [Hwf [T1 T2 T3]]. unfold published. rewrite Hm. split; [done|].
  split; by rewrite ?Hi, ?Hs.
Qed.

Lemma frame_published {A} (c : db_m A) w d h : frame c → published d → published (c (w, (d, h))).2.2.1.
Proof. intros Hc. by apply same_graph_published. Qed.

Lemma apply_mutation_tracks m mu w d h : maps_wf m → mutation_ok m mu → tracks m d →
  ∃ d' h', apply_batch_mutation mu (w, (d, h)) = (Ok tt, (w, (d', h'))) ∧ tracks (mutated mu m) d' ∧
    db_engine d' = db_engine d.
Proof.
  intros Hwf Hmu [T1 T2 T3]. unfold apply_batch_mutation, db_shared.
  pose proof (indexes_with_mutation_agree m mu _ h Hwf Hmu T2) as Hix.
  destruct (indexes_with_mutation mu (db_indexes d, h)) as [ix h1]. unfold snapshot_with_mutation.
  pose proof (indexes_with_mutation_agree m mu _ h1 Hwf Hmu T3) as Hsn.
  destruct (indexes_with_mutation mu (gs_indexes (db_published_snapshot d), h1)) as [ix' h2].
  eexists _, _. split; [done|]. split; [|done]. rewrite T1. split; [done|exact Hix|exact Hsn].
Qed.

(** The call failed after its batch reached the log and the maps: what is published is still
    the graph before it. *)
Definition lagging {A} (b : WriteBatch) (r : Result Failure A) (d d' : Database) : Prop :=
  is_ok r = false ∧ batch_ok (e_maps (db_engine d)) b ∧
  e_maps (db_engine d') = apply_batch_to_maps_unchecked b (e_maps (db_engine d)) ∧
  tracks (e_maps (db_engine d)) d'.

(** A call that succeeds has applied its batch to the graph, one that fails has not touched it. *)
Definition advanced {A} (b : WriteBatch) (r : Result Failure A) (d d' : Database) : Prop :=
  e_maps (db_engine d') =
    if is_ok r then apply_batch_to_maps_unchecked b (e_maps (db_engine d)) else e_maps (db_engine d).

Definition fine {A} (b : WriteBatch) (d : Database) (x : Result Failure A * state) : Prop :=
  (published x.2.2.1 ∧ advanced b x.1 d x.2.2.1) ∨ lagging b x.1 d x.2.2.1.

(** A batch that only deletes what is not there. *)
Lemma apply_absent m nodes edges : maps_wf m → (∀ id, id ∈ nodes → m.1 !! id = None) →
  (∀ id, id ∈ edges → m.2 !! id = None) → apply_batch_to_maps_unchecked (mkBatch [] [] nodes edges) m = m.
Proof.
  intros Hwf Hn He. rewrite (surjective_pairing m) at 2. rewrite (surjective_pairing (apply_batch_to_maps_unchecked _ m)).
  f_equal; apply map_eq; intros id.
  - rewrite apply_batch_nodes. unfold node_after. cbn [deleted_node_ids]. case_decide; [by rewrite Hn|done].
  - rewrite apply_batch_edges. unfold edge_after. cbn [deleted_edge_ids]. case_decide; [by rewrite He|].
    cbn [edges_upserted last_with]. change (last_with edge_id id []) with (@None EdgeRecord).
    destruct (m.2 !! id) as [e|] eqn:Hid; [|done]. cbn [mbind option_bind]. case_decide as Hinc; [|done].
    unfold incident_to, deleted_nodes in Hinc. cbn [deleted_node_ids] in Hinc.
    destruct (mw_source _ Hwf _ _ Hid) as [n1 Hs], (mw_target _ Hwf _ _ Hid) as [n2 Ht].
    destruct Hinc as [Hin|Hin]; apply elem_of_list_to_set, Hn in Hin; congruence.
Qed.
Lemma apply_default m : maps_wf m → apply_batch_to_maps_unchecked batch_default m = m.
Proof. intros Hwf. by apply apply_absent; [|intros id ?%elem_of_nil..]. Qed.

(** The steps after the batch is planned: [commit] writes it to the engine. *)
Definition commit_planned {A} (commit : engine_m A) (lsn_of : A → N) (b : WriteBatch) (mu : BatchMutation) : db_m A :=
  a ← on_engine commit;
  record_local_commit (lsn_of a) b ;;
  apply_batch_mutation mu ;;
  mret a.

Lemma commit_planned_ok {A} (commit : engine_m A) lsn_of b mu w d h :
  published d → plan_batch_mutation (db_engine d) b = Ok mu → settled (e_maps (db_engine d)) b →
  (let '(r, (_, e')) := commit (w, db_engine d) in
    if is_ok r then batch_ok (e_maps (db_engine d)) b ∧
      e_maps e' = apply_batch_to_maps_unchecked b (e_maps (db_engine d))
    else e_maps e' = e_maps (db_engine d)) →
  fine b d (commit_planned commit lsn_of b mu (w, (d, h))).
Proof.
  intros [Hwf Htr] Hplan Hset Hcommit. unfold fine, commit_planned, mbind, sm_bind, on_engine.
  destruct (commit (w, db_engine d)) as [[a|f] [w1 e1]]; cbn [is_ok] in Hcommit.
  2: { left. split; [by apply (same_graph_published d)|done]. }
  destruct Hcommit as [Hok Hmaps]. set (d1 := set_engine e1 d).
  pose proof (record_frame (lsn_of a) b w1 d1 h) as Hrec.
  destruct (record_local_commit (lsn_of a) b (w1, (d1, h))) as [[[]|f] [w2 [d2 h2]]]; cbn [fst snd] in Hrec;
    destruct Hrec as (Hm2 & Hi2 & Hs2).
  2: { right. unfold lagging. cbn [fst snd]. split; [done|]. split; [done|]. split; [by rewrite Hm2|].
       destruct Htr as [T1 T2 T3]. by split; rewrite ?Hs2, ?Hi2. }
  pose proof (plan_applies (db_engine d) Hwf b mu Hplan Hset) as Happ.
  pose proof (plan_ok (db_engine d) Hwf b mu Hplan) as Hmu.
  destruct (apply_mutation_tracks (e_maps (db_engine d)) mu w2 d2 h2 Hwf Hmu) as (d3 & h3 & -> & Htr3 & He3).
  { destruct Htr as [T1 T2 T3]. by split; rewrite ?Hs2, ?Hi2. }
  assert (Hm3 : e_maps (db_engine d3) = apply_batch_to_maps_unchecked b (e_maps (db_engine d))).
  { rewrite He3, Hm2. exact Hmaps. }
  left. split; [|by unfold advanced; cbn [is_ok]]. change (published d3). unfold published. rewrite Hm3. split; [by apply apply_batch_wf|]. by rewrite <-Happ.
Qed.

Lemma fine_ret {A B} b d (c : db_m A) (x : B) s : fine b d (c s) → fine b d ((c ;; mret x) s).
Proof. unfold fine, mbind, sm_bind. by destruct (c s) as [[a|f] [w' [d' h']]]. Qed.

Lemma ensure_cases w d h :
  ensure_client_write_allowed (w, (d, h)) =
    (if decide (Replication.mode (Replication.status (db_replication d)) = Replication.Follower)
     then Err (Error follower_error) else Ok tt, (w, (d, h))).
Proof. unfold ensure_client_write_allowed, mbind, sm_bind, db_self. by case_decide. Qed.

Lemma fine_ensure {A} b (c : db_m A) w d h : published d → fine b d (c (w, (d, h))) →
  fine b d ((ensure_client_write_allowed ;; c) (w, (d, h))).
Proof.
  intros Hp Hc. unfold mbind, sm_bind. rewrite ensure_cases. case_decide; [by left; split|done].
Qed.

Lemma write_planned b w d h : write_batch b (w, (d, h)) =
  match plan_batch_mutation (db_engine d) b with
  | Ok mu => (commit_planned (apply_write_batch b) id b mu ;; mret tt) (w, (d, h))
  | Err err => (Err (Error err), (w, (d, h)))
  end.
Proof.
  unfold write_batch, commit_planned. unfold mbind at 1 2, sm_bind at 1 2, db_self, io_res at 1, sm_lift at 1.
  destruct (plan_batch_mutation (db_engine d) b) as [mu|err]; [|done]. cbn [map_err]. unfold mbind, sm_bind.
  destruct (on_engine _ _) as [[lsn|f] st]; [|done].
  destruct (record_local_commit _ _ _) as [[[]|f] st']; [|done].
  by destruct (apply_batch_mutation mu st') as [[[]|f] st''].
Qed.

Lemma write_batch_fine b w d h : published d → settled (e_maps (db_engine d)) b →
  fine b d (write_batch b (w, (d, h))).
Proof.
  intros Hp Hs. rewrite write_planned. destruct (plan_batch_mutation (db_engine d) b) as [mu|err] eqn:Hplan; [|by left; split].
  apply fine_ret, commit_planned_ok; [done..|].
  change (apply_write_batch b (w, db_engine d)) with
    (apply_write_batch_with_snapshot_readers b (size (e_transactions (db_engine d))) (w, db_engine d)).
  pose proof (write_maps b (size (e_transactions (db_engine d))) (w, db_engine d)) as Hm.
  pose proof (write_Ok b (size (e_transactions (db_engine d))) w (db_engine d)) as Hok.
  destruct (apply_write_batch_with_snapshot_readers _ _ _) as [[lsn|f] [w' e']]; cbn [is_ok fst snd] in *; [|exact Hm].
  by destruct (Hok _ _ _ eq_refl) as (? & ? & _).
Qed.

Lemma commit_fine tx b w d h : published d → transaction_staged_batch (db_engine d) tx = Ok b →
  settled (e_maps (db_engine d)) b → fine b d (commit_transaction tx (w, (d, h))).
Proof.
  intros Hp Hb Hs. unfold commit_transaction. apply fine_ensure; [done|].
  unfold mbind at 1, sm_bind at 1, db_self, io_res at 1, sm_lift at 1. cbn [fst snd].
  unfold mbind at 1, sm_bind at 1. rewrite Hb. cbn [map_err]. unfold mbind at 1, sm_bind at 1, io_res, sm_lift.
  cbn [map_err]. destruct (plan_batch_mutation (db_engine d) b) as [mu|err] eqn:Hplan; cbn [map_err]; [|by left; split].
  apply (commit_planned_ok (Engine.commit_transaction tx) cr_committed_lsn b mu); [done..|].
  rewrite commit_run. unfold transaction_staged_batch in Hb.
  destruct (active_session (db_engine d) tx) as [s|err]; [|done].
  cbn [mbind result_bind mret result_ret] in Hb. injection Hb as <-.
  destruct (_ ;; _) as [[]|err]; [|done]. destruct (batch_is_empty _); [done|].
  pose proof (write_maps (ses_staged_batch s) (size (e_transactions (db_engine d)) - 1) (w, db_engine d)) as Hm.
  pose proof (write_Ok (ses_staged_batch s) (size (e_transactions (db_engine d)) - 1) w (db_engine d)) as Hok.
  destruct (apply_write_batch_with_snapshot_readers _ _ _) as [[lsn|f] [w' e']]; cbn [is_ok fst snd] in *; [|exact Hm].
  destruct (Hok _ _ _ eq_refl) as (? & Hm' & _). split; [done|].
  by destruct (clear_versions_state (set_transactions (delete tx (e_transactions e')) e')) as (_ & -> & _).
Qed.

(** ** Replicated batches *)

(** A batch that does not both delete nodes and upsert edges is settled on every graph. *)
Definition plain (b : WriteBatch) : Prop := deleted_node_ids b = [] ∨ edges_upserted b = [].

Lemma plain_settled m b : plain b → settled m b.
Proof.
  intros [Hd|He] x Hx; [|rewrite He in Hx; by apply elem_of_nil in Hx].
  unfold deleted_nodes. rewrite Hd. unfold incident_to. split; set_solver.
Qed.

Lemma apply_replicated_ok b w d h : plain b → published d →
  published (apply_replicated b (w, (d, h))).2.2.1.
Proof.
  intros Hplain [Hwf Htr]. unfold apply_replicated, mbind, sm_bind, db_self, io_res, sm_lift. cbn [map_err].
  destruct (plan_batch_mutation (db_engine d) b) as [mu|err] eqn:Hplan; cbn [map_err]; [|by split].
  unfold on_engine. change (apply_write_batch b (w, db_engine d)) with
    (apply_write_batch_with_snapshot_readers b (size (e_transactions (db_engine d))) (w, db_engine d)).
  pose proof (write_maps b (size (e_transactions (db_engine d))) (w, db_engine d)) as Hm.
  pose proof (write_Ok b (size (e_transactions (db_engine d))) w (db_engine d)) as Hok.
  destruct (apply_write_batch_with_snapshot_readers _ _ _) as [[lsn|f] [w1 e1]]; cbn [is_ok fst snd] in *.
  2: { apply (same_graph_published d); [|by split]. by repeat split. }
  destruct (Hok _ _ _ eq_refl) as (Hbok & Hmaps & _).
  pose proof (plan_applies (db_engine d) Hwf b mu Hplan (plain_settled _ _ Hplain)) as Happ.
  pose proof (plan_ok (db_engine d) Hwf b mu Hplan) as Hmu.
  destruct (apply_mutation_tracks (e_maps (db_engine d)) mu w1 (set_engine e1 d) h Hwf Hmu)
    as (d3 & h3 & -> & Htr3 & He3).
  { destruct Htr as [T1 T2 T3]. by split. }
  change (published d3). unfold published. rewrite He3. cbn [set_engine db_engine]. rewrite Hmaps.
  split; [by apply apply_batch_wf|]. by rewrite <-Happ.
Qed.

Lemma apply_records_ok l : ∀ last w d h, Forall (λ r, plain (Replication.rr_batch r)) l → published d →
  published (apply_records last l (w, (d, h))).2.2.1.
Proof.
  induction l as [|r l IH]; intros last w d h Hl Hp; [done|]. apply list.Forall_cons in Hl as [Hr Hl].
  cbn [apply_records]. unfold mbind, sm_bind. pose proof (apply_replicated_ok _ w d h Hr Hp) as Hp1.
  destruct (apply_replicated _ _) as [[lsn|f] [w1 [d1 h1]]]; [|done]. by apply IH.
Qed.

Lemma validate_records_Forall (P : ReplicationRecord → Prop) l : ∀ term lsn accepted,
  validate_records term lsn l = Ok accepted → Forall P l → Forall P accepted.
Proof.
  induction l as [|r l IH]; intros term lsn accepted Hrun Hl; [by injection Hrun as <-|].
  apply list.Forall_cons in Hl as [Hr Hl]. cbn [validate_records] in Hrun.
  destruct (_ <? _)%N; [done|]. destruct (_ <=? _)%N; [by eapply IH|].
  destruct (validate_records _ _ l) as [rest|] eqn:Hrest; [|done]. injection Hrun as <-.
  constructor; [done|]. by eapply IH.
Qed.

Lemma replicate_ok l w d h : Forall (λ r, plain (Replication.rr_batch r)) l → published d →
  published (apply_replication_records l (w, (d, h))).2.2.1.
Proof.
  intros Hl Hp. unfold apply_replication_records. unfold mbind at 1, sm_bind at 1, db_self.
  case_decide; [|done]. unfold mbind at 1, sm_bind at 1, io_res, sm_lift. cbn [map_err].
  destruct (validate_replication_records (db_replication d) l) as [accepted|err] eqn:Hv; cbn [map_err]; [|done].
  pose proof (validate_records_Forall _ l _ _ _ Hv Hl) as Hacc.
  unfold mbind at 1, sm_bind at 1. pose proof (apply_records_ok accepted None w d h Hacc Hp) as Hp1.
  destruct (apply_records None accepted _) as [[last|f] [w1 [d1 h1]]]; [|done].
  apply frame_published; [|done]. apply frame_bind; [auto with frame|]. intros _.
  apply frame_bind; [destruct last; auto with frame|]. intros _.
  apply frame_bind; [apply persist_replication_frame|auto with frame].
Qed.

(** ** Rebuilding *)

Lemma refresh_published persist w d h : maps_wf (e_maps (db_engine d)) →
  published (refresh_indexes persist (w, (d, h))).2.2.1.
Proof.
  intros Hwf. unfold refresh_indexes. unfold mbind at 1, sm_bind at 1, db_shared.
  destruct (rebuilt_index_agrees_both (e_maps (db_engine d)) (db_vector_index_config d) None h w Hwf) as [_ Hix].
  change (all_nodes (db_engine d)) with (btree_values (e_maps (db_engine d)).1).
  change (all_edges (db_engine d)) with (btree_values (e_maps (db_engine d)).2).
  destruct (rebuild_with_config _ _ _ h) as [ix h1]. cbn [fst] in Hix.
  unfold mbind at 1, sm_bind at 1, publish_snapshot, db_modify.
  set (d1 := set_published _ _).
  assert (Hp : published d1).
  { split; [done|]. cbn [d1 set_published set_indexes db_engine]. split; [|done|done].
    cbn [d1 set_published db_published_snapshot build_snapshot gs_maps].
    destruct (from_values node_id (e_maps (db_engine d)).1 (mw_node_key _ Hwf)) as (Hn & _).
    destruct (from_values edge_id (e_maps (db_engine d)).2 (mw_edge_key _ Hwf)) as (He & _).
    unfold all_nodes, all_edges. cbn [set_indexes db_engine]. rewrite Hn, He. by destruct (e_maps (db_engine d)). }
  apply frame_published; [|done]. destruct persist; [apply persist_index_frame|auto with frame].
Qed.

Lemma refresh_maps persist w d h :
  e_maps (db_engine (refresh_indexes persist (w, (d, h))).2.2.1) = e_maps (db_engine d).
Proof.
  unfold refresh_indexes. unfold mbind at 1, sm_bind at 1, db_shared.
  destruct (rebuild_with_config _ _ _ h) as [ix h1].
  unfold mbind at 1, sm_bind at 1, publish_snapshot, db_modify. set (d1 := set_published _ _).
  change (e_maps (db_engine d)) with (e_maps (db_engine d1)).
  destruct persist; [apply (persist_index_frame w d1 h1)|done].
Qed.

Lemma published_open config id address latency_ms h w d h' w' :
  open_with_identity config id address latency_ms h w = (Ok (d, h'), w') →
  maps_wf (e_maps (db_engine d)) → published d.
Proof.
  unfold open_with_identity. intros Hrun Hwf. apply sm_bind_Ok in Hrun as (engine & w1 & Hopen & Hrun).
  cbn zeta in Hrun. apply sm_bind_Ok in Hrun as ([indexes h1] & w2 & Hix & Hrun).
  apply sm_bind_Ok in Hrun as (replication & w3 & _ & Hrun). apply sm_bind_Ok in Hrun as (cluster & w4 & _ & Hrun).
  set (d0 := mkDatabase _ _ _ _ _ _ _) in Hrun. unfold with_self in Hrun.
  destruct (sm_bind _ _ _ _ _) as [r [w5 st]] eqn:Hrest in Hrun || idtac.
  assert (Hsame : same_graph d0 d).
  { assert (Hf : frame (persist_index_snapshot ;; persist_replication_metadata ;; persist_cluster_topology)).
    { apply frame_bind; [apply persist_index_frame|]. intros _.
      apply frame_bind; [apply persist_replication_frame|]. intros _. apply persist_cluster_frame. }
    specialize (Hf w4 d0 h1). revert Hf Hrun. unfold mbind, sm_bind.
    destruct (persist_index_snapshot (w4, (d0, h1))) as [[sn|f] st1]; [|by destruct st1].
    destruct (persist_replication_metadata st1) as [[[]|f] st2]; [|by destruct st2].
    destruct (persist_cluster_topology st2) as [[[]|f] [w6 [d6 h6]]]; [|done].
    cbn [fst snd]. by intros Hf [= <- _ _]. }
  apply (same_graph_published d0); [done|]. destruct Hsame as (Hm & _). rewrite Hm in Hwf.
  change (maps_wf (e_maps engine)) in Hwf.
  destruct (rebuilt_index_agrees_both (e_maps engine) (vector_index config)
    (if m_last_clean_shutdown (e_manifest engine) &&
        bool_decide (e_latest_applied_lsn engine = m_last_applied_lsn (e_manifest engine)) then
       Some (mkLoadConfig (vector_index_manifest_path (e_layout engine)) (vector_index_graph_path (e_layout engine))
         (vector_index_vectors_path (e_layout engine)) (e_latest_applied_lsn engine))
     else None) h w1 Hwf) as [Hagree _].
  change (btree_values (e_maps engine).1) with (all_nodes engine) in Hagree.
  change (btree_values (e_maps engine).2) with (all_edges engine) in Hagree.
  destruct (rebuild_with_config_and_vector_index_load _ _ _ _ h w1) as [[ix hh] ww]. cbn [fst] in Hagree.
  injection Hix as <- <- <-.
  destruct (from_values node_id (e_maps engine).1 (mw_node_key _ Hwf)) as (Hn & _).
  destruct (from_values edge_id (e_maps engine).2 (mw_edge_key _ Hwf)) as (He & _).
  split; [exact Hwf|]. split; [|exact Hagree|exact Hagree].
  cbn [d0 db_published_snapshot build_snapshot gs_maps db_engine]. unfold all_nodes, all_edges.
  rewrite Hn, He. by destruct (e_maps engine).
Qed.

(** ** Calls *)

Inductive db_call :=
| CallUpsertNode (n : NodeRecord) | CallDeleteNode (id : NodeId)
| CallUpsertEdge (x : EdgeRecord) | CallDeleteEdge (id : EdgeId)
| CallBegin (level : IsolationLevel) | CallStage (tx : TransactionId) (op : TransactionOperation)
| CallCommit (tx : TransactionId) | CallRollback (tx : TransactionId)
| CallRebuildIndexes | CallCompact | CallShutdown
| CallConfigureLeader | CallConfigureFollower (id address : string)
| CallRegisterReplica (id address : string) | CallAcknowledge (id : string) (lsn : N)
| CallReplicate (records : list ReplicationRecord)
| CallMarkHealth (id : string) (healthy : bool) | CallPromote (id : string).

Definition run_call (c : db_call) : db_m unit :=
  match c with
  | CallUpsertNode n => upsert_node n ;; mret tt
  | CallDeleteNode id => delete_node id ;; mret tt
  | CallUpsertEdge x => upsert_edge x ;; mret tt
  | CallDeleteEdge id => delete_edge id ;; mret tt
  | CallBegin level => begin_transaction level ;; mret tt
  | CallStage tx op => stage_transaction_operation tx op ;; mret tt
  | CallCommit tx => commit_transaction tx ;; mret tt
  | CallRollback tx => rollback_transaction tx ;; mret tt
  | CallRebuildIndexes => rebuild_indexes ;; mret tt
  | CallCompact => compact
  | CallShutdown => graceful_shutdown
  | CallConfigureLeader => configure_as_leader ;; mret tt
  | CallConfigureFollower id address => configure_as_follower id address ;; mret tt
  | CallRegisterReplica id address => register_replica id address ;; mret tt
  | CallAcknowledge id lsn => acknowledge_replica id lsn ;; mret tt
  | CallReplicate records => apply_replication_records records ;; mret tt
  | CallMarkHealth id healthy => mark_node_health id healthy ;; mret tt
  | CallPromote id => promote_node id ;; mret tt
  end.

(** The batch a call commits. *)
Definition call_batch (c : db_call) (d : Database) : WriteBatch :=
  match c with
  | CallUpsertNode n => mkBatch [n] [] [] []
  | CallDeleteNode id => mkBatch [] [] [id] []
  | CallUpsertEdge x => mkBatch [] [x] [] []
  | CallDeleteEdge id => mkBatch [] [] [] [id]
  | CallCommit tx => match transaction_staged_batch (db_engine d) tx with Ok b => b | Err _ => batch_default end
  | _ => batch_default
  end.

(** What is asked of the batches of transactions and of replicated records. *)
Definition call_settled (c : db_call) (d : Database) : Prop :=
  match c with
  | CallCommit tx => settled (e_maps (db_engine d)) (call_batch c d)
  | CallReplicate records => Forall (λ r, plain (Replication.rr_batch r)) records
  | _ => True
  end.

Lemma fine_same {A} b (c : db_m A) w d h : (∀ m, maps_wf m → apply_batch_to_maps_unchecked b m = m) →
  e_maps (db_engine (c (w, (d, h))).2.2.1) = e_maps (db_engine d) → published d →
  published (c (w, (d, h))).2.2.1 → fine b d (c (w, (d, h))).
Proof.
  intros Hb Hm Hd Hp. left. split; [done|]. unfold advanced. rewrite Hm, Hb by apply Hd. by destruct (is_ok _).
Qed.
Lemma fine_frame {A} (c : db_m A) w d h : frame c → published d → fine batch_default d (c (w, (d, h))).
Proof.
  intros Hc Hp. apply fine_same; [apply apply_default|by apply Hc|done|by apply frame_published].
Qed.
Lemma fine_absent nodes edges {A} (x : A) w d h : published d →
  (∀ id, id ∈ nodes → (e_maps (db_engine d)).1 !! id = None) →
  (∀ id, id ∈ edges → (e_maps (db_engine d)).2 !! id = None) →
  fine (mkBatch [] [] nodes edges) d (mret (M:=db_m) x (w, (d, h))).
Proof. intros Hp Hn He. left. split; [done|]. symmetry. by apply apply_absent; [apply Hp|..]. Qed.

Lemma delete_node_fine id w d h : published d → fine (mkBatch [] [] [id] []) d (delete_node id (w, (d, h))).
Proof.
  intros Hp. apply fine_ensure; [done|]. unfold mbind at 1, sm_bind at 1, db_self.
  destruct (get_node d id) as [n|] eqn:Hn; [|by apply fine_absent; [|intros ? ->%list_elem_of_singleton|intros ? ?%elem_of_nil]].
  apply fine_ret, write_batch_fine; [done|apply plain_settled; by right].
Qed.
Lemma delete_edge_fine id w d h : published d → fine (mkBatch [] [] [] [id]) d (delete_edge id (w, (d, h))).
Proof.
  intros Hp. apply fine_ensure; [done|]. unfold mbind at 1, sm_bind at 1, db_self.
  destruct (get_edge d id) as [x|] eqn:Hx; [|by apply fine_absent; [|intros ? ?%elem_of_nil|intros ? ->%list_elem_of_singleton]].
  apply fine_ret, write_batch_fine; [done|apply plain_settled; by left].
Qed.

Lemma commit_unstaged tx err w d h : transaction_staged_batch (db_engine d) tx = Err err →
  is_ok (commit_transaction tx (w, (d, h))).1 = false ∧ (commit_transaction tx (w, (d, h))).2 = (w, (d, h)).
Proof.
  intros Hb. unfold commit_transaction, mbind, sm_bind. rewrite ensure_cases. case_decide; [done|].
  unfold db_self, io_res, sm_lift. by rewrite Hb.
Qed.

Lemma rebuild_fine w d h : published d → fine batch_default d (rebuild_indexes (w, (d, h))).
Proof.
  intros Hp. apply fine_same; [apply apply_default|apply refresh_maps|done|apply refresh_published, Hp].
Qed.
Lemma compact_fine w d h : published d → fine batch_default d (compact (w, (d, h))).
Proof.
  intros Hp. apply fine_same; [apply apply_default| |done|]; unfold compact; unfold mbind at 1, sm_bind at 1.
  - pose proof (proj1 (frame_engine _ compact_frame w d h)) as Hm.
    destruct (on_engine Recovery.compact (w, (d, h))) as [[[]|f] [w1 [d1 h1]]]; [|done]. cbn [fst snd] in Hm.
    rewrite <-Hm, <-(refresh_maps true w1 d1 h1). unfold mbind, sm_bind.
    by destruct (refresh_indexes true (w1, (d1, h1))) as [[sn|f] [w2 [d2 h2]]].
  - pose proof (frame_published (on_engine Recovery.compact) w d h (frame_engine _ compact_frame) Hp) as Hp1.
    destruct (on_engine Recovery.compact (w, (d, h))) as [[[]|f] [w1 [d1 h1]]]; [|done]. cbn [fst snd] in Hp1.
    unfold mbind, sm_bind. pose proof (refresh_published true w1 d1 h1 (proj1 Hp1)) as Hp2.
    by destruct (refresh_indexes true (w1, (d1, h1))) as [[sn|f] [w2 [d2 h2]]].
Qed.

(** A run of replicated records may stop between two of them. *)
Definition replicates (c : db_call) : bool := match c with CallReplicate _ => true | _ => false end.

Lemma published_step c w d h : published d → call_settled c d →
  if replicates c then published (run_call c (w, (d, h))).2.2.1
  else fine (call_batch c d) d (run_call c (w, (d, h))).
Proof.
  intros Hp Hs. destruct c; cbn [run_call call_batch call_settled replicates] in *.
  - apply fine_ret. unfold upsert_node. apply fine_ensure, fine_ret, write_batch_fine; [done..|].
    apply plain_settled. by left.
  - by apply fine_ret, delete_node_fine.
  - apply fine_ret. unfold upsert_edge. apply fine_ensure, fine_ret, write_batch_fine; [done..|].
    apply plain_settled. by left.
  - by apply fine_ret, delete_edge_fine.
  - by apply fine_ret, fine_frame; [apply begin_frame|].
  - by apply fine_ret, fine_frame; [apply stage_frame|].
  - apply fine_ret. destruct (transaction_staged_batch (db_engine d) tx) as [b|err] eqn:Hb; [by apply commit_fine|].
    destruct (commit_unstaged tx err w d h Hb) as [Hno Hsame]. left. unfold advanced. by rewrite Hno, Hsame.
  - by apply fine_ret, fine_frame; [apply rollback_frame|].
  - by apply fine_ret, rebuild_fine.
  - by apply compact_fine.
  - by apply fine_frame; [apply shutdown_frame|].
  - by apply fine_ret, fine_frame; [apply leader_frame|].
  - by apply fine_ret, fine_frame; [apply follower_frame|].
  - by apply fine_ret, fine_frame; [apply register_frame|].
  - by apply fine_ret, fine_frame; [apply acknowledge_frame|].
  - unfold mbind, sm_bind. pose proof (replicate_ok records w d h Hs Hp) as Hr.
    by destruct (apply_replication_records records (w, (d, h))) as [[a|f] y].
  - by apply fine_ret, fine_frame; [apply health_frame|].
  - by apply fine_ret, fine_frame; [apply promote_frame|].
Qed.

End calls.

(** ** A concrete database *)

Module Demo.
Import Wal.Demo Batch.Demo Store.Demo Index.Demo Query.Demo.

(** The metadata files do not matter here. *)
Definition metadata_codec : DatabaseCodec := {|
  json_encode_replication _ := Ok [];
  json_decode_replication _ := Err "expected value";
  json_encode_cluster _ := Ok [];
  json_decode_cluster _ := Err "expected value";
  json_encode_index_snapshot _ := Ok [];
|}.
#[global] Existing Instance metadata_codec.

Definition database : Database :=
  mkDatabase Engine.Demo.engine index VectorIndexConfig_default snapshot
    (Replication.manager_single_node "node-a") (Cluster.single_node "127.0.0.1:1") 0.

Lemma database_published : published database.
Proof.
  split; [apply maps_are_wf|]. split; [reflexivity|apply snapshot_agrees|apply snapshot_agrees].
Qed.
End Demo.

