(* ===== verification/Views.v ===== *)
(** * [crates/api]: queries inside a transaction

    [transaction_query_view] pairs the published snapshot with the changes that lead from it to
    the graph the transaction sees.  The overlay of the two is compared here with
    [transaction_snapshot], which builds that graph from scratch. *)
From S2P Require Import Prelude RustStd RustFloat Common Core Config Fs Wal Memory Batch Store Engine Recovery Checkpoint Clients Backup Index Query Database Publish Tracking.

#[local] Open Scope string_scope.
#[local] Open Scope list_scope.

Section lookups.
Context {K V : Type} `{Countable K, OrdKey K}.

Lemma lookup_collect_visible (visible : K → option V) ids k :
  collect_visible visible ids !! k = if decide (k ∈ ids) then visible k else None.
Proof.
  unfold collect_visible. cut (∀ m : gmap K V,
    foldl (λ m id, match visible id with Some v => <[id := v]> m | None => m end) m ids !! k =
    if decide (k ∈ ids) then match visible k with Some v => Some v | None => m !! k end else m !! k).
  { intros Hm. rewrite Hm, lookup_empty. case_decide; [|done]. by destruct (visible k). }
  intros m. revert m. induction ids as [|id ids IH]; intros m; cbn [foldl].
  - rewrite decide_False; [done|]. apply not_elem_of_nil.
  - rewrite IH. destruct (decide (k ∈ ids)) as [Hk|Hk].
    { rewrite decide_True by by right. destruct (visible k) as [v|] eqn:Hv; [done|].
      destruct (decide (id = k)) as [->|Hne]; [by rewrite Hv|]. by destruct (visible id); [rewrite lookup_insert_ne|]. }
    destruct (decide (id = k)) as [->|Hne].
    + rewrite decide_True by left. destruct (visible k); [by rewrite lookup_insert_eq|done].
    + rewrite decide_False by (rewrite elem_of_cons; naive_solver).
      by destruct (visible id); [rewrite lookup_insert_ne|].
Qed.

(** One id of the delta. *)
Lemma lookup_delta_of eqb (current : gmap K V) (visible : K → option V) ids k :
  let '(removed, added) := delta_of eqb current visible ids in
  let changed := bool_decide (k ∈ ids) && option_differs eqb (current !! k) (visible k) in
  removed !! k = (if changed then current !! k else None) ∧
  added !! k = (if changed then visible k else None).
Proof.
  unfold delta_of.
  assert (Hgen : ∀ r a : gmap K V, let '(r', a') := foldl (λ '(removed, added) id,
      if option_differs eqb (current !! id) (visible id) then
        (match current !! id with Some v => <[id := v]> removed | None => removed end,
         match visible id with Some v => <[id := v]> added | None => added end)
      else (removed, added)) (r, a) ids in
    let changed := bool_decide (k ∈ ids) && option_differs eqb (current !! k) (visible k) in
    r' !! k = (if changed then match current !! k with Some v => Some v | None => r !! k end else r !! k) ∧
    a' !! k = (if changed then match visible k with Some v => Some v | None => a !! k end else a !! k)).
  { induction ids as [|id ids IH]; intros r a.
    - cbn [foldl]. rewrite bool_decide_eq_false_2 by apply not_elem_of_nil. done.
    - cbn [foldl]. specialize (IH (if option_differs eqb (current !! id) (visible id) then
        match current !! id with Some v => <[id := v]> r | None => r end else r)
        (if option_differs eqb (current !! id) (visible id) then
        match visible id with Some v => <[id := v]> a | None => a end else a)).
      assert (Hif : ∀ (b : bool) (x y x' y' : gmap K V), (if b then (x, y) else (x', y')) =
        (if b then x else x', if b then y else y')) by by intros [].
      rewrite Hif. destruct (foldl _ _ ids) as [r' a']. destruct IH as [-> ->]. cbn zeta.
      destruct (decide (id = k)) as [->|Hne].
      + rewrite (bool_decide_eq_true_2 (k ∈ k :: ids)) by left. simpl.
        destruct (option_differs _ _ _); [|by rewrite andb_false_r]. rewrite andb_true_r.
        destruct (current !! k), (visible k); rewrite ?lookup_insert_eq; by case_bool_decide.
      + rewrite (bool_decide_ext (k ∈ id :: ids) (k ∈ ids)) by (rewrite elem_of_cons; naive_solver).
        destruct (option_differs eqb (current !! id) _), (current !! id), (visible id);
          by rewrite ?(lookup_insert_ne _ id k) by done. }
  specialize (Hgen ∅ ∅). destruct (foldl _ _ ids) as [r' a']. destruct Hgen as [-> ->].
  cbn zeta. rewrite !lookup_empty. by destruct (_ && _), (current !! k), (visible k).
Qed.

(** The changes on the live values give what is visible, up to values the code's comparison
    does not tell apart. *)
Lemma delta_reaches_visible eqb (current : gmap K V) (visible : K → option V) ids k :
  (k ∉ ids → visible k = current !! k) →
  let '(removed, added) := delta_of eqb current visible ids in
  let merged := match added !! k with
    | Some v => Some v | None => if decide (k ∈ dom removed) then None else current !! k end in
  merged = visible k ∨ merged = current !! k ∧ option_differs eqb (current !! k) (visible k) = false.
Proof.
  intros Hout. pose proof (lookup_delta_of eqb current visible ids k) as Hk.
  destruct (delta_of eqb current visible ids) as [removed added]. cbn zeta in *. destruct Hk as [Hr Ha].
  assert (Hdec : (if decide (k ∈ dom removed) then None else current !! k) =
    match removed !! k with Some _ => None | None => current !! k end).
  { destruct (removed !! k) as [v|] eqn:Hv; [apply decide_True, elem_of_dom; by exists v|].
    apply decide_False. by apply not_elem_of_dom. }
  rewrite Hdec, Hr, Ha. case_bool_decide as Hin; simpl.
  - destruct (option_differs eqb _ _) eqn:Hd; [left|right]; [|done]. by destruct (visible k), (current !! k).
  - left. by rewrite Hout.
Qed.

(** A key without lineage shows nothing, and one that nobody changed shows its live value. *)
Lemma visible_if_unchanged (live : gmap K V) lineage versions (cur r : N) k : store_wf live lineage versions cur →
  k ∉ changed_after lineage r → visible_value_at_revision k r live lineage versions = live !! k.
Proof.
  intros Hwf Hch. apply (visible_unchanged _ _ _ cur); [done|]. destruct (lineage !! k) as [L|] eqn:HL; simpl; [|lia].
  apply N.nlt_ge. intros Hlt. destruct Hch. apply elem_of_dom. exists L. by apply map_lookup_filter_Some_2.
Qed.
Lemma visible_unknown (live : gmap K V) lineage versions (cur r : N) k : store_wf live lineage versions cur →
  k ∉ dom lineage → visible_value_at_revision k r live lineage versions = None.
Proof.
  intros [_ Hnone] HL. apply not_elem_of_dom in HL. unfold visible_value_at_revision. rewrite HL.
  by destruct (Hnone k HL) as [_ ->].
Qed.
End lookups.

Section views.
Context `{WalCodec, StorageCodec, HnswLib, IndexCodec, DatabaseCodec}.

(** Equal, or told equal by the comparison of the code. *)
Definition agrees {A} (eqb : A → A → bool) (a b : option A) : Prop := a = b ∨ option_differs eqb a b = false.

Lemma transaction_delta_visible e tx s : engine_wf e → active_session e tx = Ok s →
  ∃ d, transaction_delta_from_current e tx = Ok d ∧
    let m := overlay_maps (e_maps e) (graph_mutation_from_batch (mutation_of_delta d)) in
    (∀ id, agrees NodeRecord_eq (m.1 !! id) (transaction_node_visible e s id)) ∧
    (∀ id, agrees EdgeRecord_eq (m.2 !! id) (transaction_edge_visible e s id)) ∧
    (∀ id n, added_nodes d !! id = Some n → transaction_node_visible e s id = Some n) ∧
    (∀ id x, added_edges d !! id = Some x → transaction_edge_visible e s id = Some x).
Proof.
  intros Hwf Hs. unfold transaction_delta_from_current. rewrite Hs. cbn [mbind result_bind mret result_ret].
  set (nids := bset_elements _). pose proof (delta_reaches_visible NodeRecord_eq (e_maps e).1 (transaction_node_visible e s) nids) as Hn.
  pose proof (lookup_delta_of NodeRecord_eq (e_maps e).1 (transaction_node_visible e s) nids) as Hna.
  destruct (delta_of NodeRecord_eq _ _ nids) as [rn an].
  set (eids := bset_elements _). pose proof (delta_reaches_visible EdgeRecord_eq (e_maps e).2 (transaction_edge_visible e s) eids) as He.
  pose proof (lookup_delta_of EdgeRecord_eq (e_maps e).2 (transaction_edge_visible e s) eids) as Hea.
  destruct (delta_of EdgeRecord_eq _ _ eids) as [re ae]. eexists. split; [done|]. cbn zeta in *.
  split_and!.
  - intros id. unfold overlay_maps. cbn [fst graph_mutation_from_batch mutation_of_delta gm_added_nodes
      removed_node_ids mu_removed_nodes mu_added_nodes removed_nodes added_nodes]. rewrite lookup_overlay.
    destruct (Hn id) as [Heq|[Heq Hd]]; [|by left|right; by rewrite Heq].
    intros Hid. unfold nids in Hid. rewrite elem_of_bset_elements, !not_elem_of_union in Hid.
    destruct Hid as [[Hc _] Ho]. apply not_elem_of_dom in Ho. unfold transaction_node_visible. rewrite Ho.
    by eapply visible_if_unchanged; [apply Hwf|..].
  - intros id. unfold overlay_maps. cbn [snd graph_mutation_from_batch mutation_of_delta gm_added_edges
      removed_edge_ids mu_removed_edges mu_added_edges removed_edges added_edges]. rewrite lookup_overlay.
    destruct (He id) as [Heq|[Heq Hd]]; [|by left|right; by rewrite Heq].
    intros Hid. unfold eids in Hid. rewrite elem_of_bset_elements, !not_elem_of_union in Hid.
    destruct Hid as [[Hc _] Ho]. apply not_elem_of_dom in Ho. unfold transaction_edge_visible. rewrite Ho.
    by eapply visible_if_unchanged; [apply Hwf|..].
  - intros id n Ha. destruct (Hna id) as [_ Heq]. cbn [added_nodes] in Ha. rewrite Ha in Heq. by destruct (_ && _).
  - intros id x Ha. destruct (Hea id) as [_ Heq]. cbn [added_edges] in Ha. rewrite Ha in Heq. by destruct (_ && _).
Qed.

Lemma transaction_snapshot_visible e tx s : engine_wf e → active_session e tx = Ok s →
  ∃ m, transaction_snapshot e tx = Ok m ∧
    (∀ id, m.1 !! id = transaction_node_visible e s id) ∧ (∀ id, m.2 !! id = transaction_edge_visible e s id).
Proof.
  intros Hwf Hs. unfold transaction_snapshot. rewrite Hs. eexists. split; [reflexivity|]. cbn [fst snd].
  split; intros id; rewrite lookup_collect_visible; (case_decide as Hid; [done|]);
    unfold candidate_node_ids, candidate_edge_ids in Hid; rewrite elem_of_bset_elements, !not_elem_of_union in Hid;
    destruct Hid as [[Hl _] Ho]; apply not_elem_of_dom in Ho;
    unfold transaction_node_visible, transaction_edge_visible; rewrite Ho; symmetry;
    eapply visible_unknown; [apply Hwf|done|apply Hwf|done].
Qed.

End views.

(** ** Concrete inputs *)

Module Demo.
Import Wal.Demo Batch.Demo Store.Demo Index.Demo Query.Demo Tracking.Demo.

(** A transaction that deletes [b], with its edge, while the database serves queries. *)
Definition in_transaction : Database :=
  set_engine (Engine.Demo.staged (DeleteNode (mkNodeId "b")) (world, Engine.Demo.begun)).2 database.
Definition seen : GraphSnapshot * GraphMutation :=
  match transaction_query_view in_transaction Engine.Demo.tx with
  | Ok view => view | Err _ => (snapshot, mutation) end.
Definition built : Maps :=
  match transaction_snapshot (db_engine in_transaction) Engine.Demo.tx with Ok m => m | Err _ => (∅, ∅) end.

Lemma in_transaction_published : published in_transaction.
Proof.
  apply (same_graph_published database); [|apply database_published]. split; [vm_compute; reflexivity|done].
Qed.
Lemma built_keyed : keyed built.
Proof. split; apply map_Forall_to_list; vm_compute; by repeat constructor. Qed.
End Demo.


(** ** Where the published snapshot and the engine part *)

Section divergences.
Import Wal.Demo Batch.Demo Store.Demo Index.Demo Query.Demo Tracking.Demo.

(** A transaction that moves the edge [ab] off [b] and then deletes [b]. *)
Definition move_and_delete : db_m unit :=
  run_call (CallBegin Snapshot) ;;
  run_call (CallStage Engine.Demo.tx (UpsertEdge (edge "ab" "a" "a"))) ;;
  run_call (CallStage Engine.Demo.tx (DeleteNode (mkNodeId "b"))) ;;
  run_call (CallCommit Engine.Demo.tx).

(** The engine keeps the moved edge; the plan drops every live edge of a deleted node, the
    moved one with them, so queries no longer see it. *)
Lemma moved_edge_is_lost :
  let st := move_and_delete (world, (database, [])) in
  is_ok st.1 = true ∧
  (e_maps (db_engine st.2.2.1)).2 !! mkEdgeId "ab" = Some (edge "ab" "a" "a") ∧
  (gs_maps (db_published_snapshot st.2.2.1)).2 !! mkEdgeId "ab" = None.
Proof. vm_compute. repeat split. Qed.

(** The disk fails when the replication state is written, after the log has the batch. *)
Definition failing_disk : World :=
  mkWorld (files world) (dirs world) (replicate 5 None ++ [Some ("disk full", 0%nat)]) None None.

(** The caller gets an error, the engine has the node, queries do not see it. *)
Lemma failed_write_is_committed :
  let st := run_call (CallUpsertNode (node "c" "robot")) (failing_disk, (database, [])) in
  is_ok st.1 = false ∧
  (e_maps (db_engine st.2.2.1)).1 !! mkNodeId "c" = Some (node "c" "robot") ∧
  (gs_maps (db_published_snapshot st.2.2.1)).1 !! mkNodeId "c" = None.
Proof. vm_compute. repeat split. Qed.

(** A replica is added to the topology before the replication manager refuses it, as this
    database is not a leader. *)
Lemma refused_replica_is_kept :
  let st := run_call (CallRegisterReplica "node-b" "127.0.0.1:2") (world, (database, [])) in
  is_ok st.1 = false ∧ length (Cluster.nodes (db_cluster st.2.2.1)) = 2%nat.
Proof. vm_compute. repeat split. Qed.
End divergences.
