(* ===== verification/Service.v ===== *)
(** * [crates/api]: the state of the service and what every request goes through

    [ApiState], the errors a request is answered with, the rate limiter, authorization, the
    audit trail, the budgets of responses and streams, and the metrics.  A request is handled
    on the disk, the state and the store of the shared vector graphs; what a refused request
    changed before it was refused stays changed.  The clock readings of a request are in a
    [RequestClock].  Requests are taken one at a time: the locks are not part of the model. *)
From S2P Require Import Prelude RustStd RustFloat Common Core Config Auth Fs Wal Memory Batch Store Engine Recovery Backup Index Query Ranking Executor Database Observability Metrics.

#[local] Open Scope string_scope.
#[local] Open Scope list_scope.

Definition MAX_QUERY_RESPONSE_ITEMS : N := 1024.
Definition MAX_STREAM_QUERY_ITEMS : N := 2048.
Definition MAX_STREAM_RESPONSE_BYTES : N := 2 * 1024 * 1024.

Record MaintenanceStatusResponse := mkMaintenanceStatus {
  in_progress : bool;
  last_operation : option string;
  last_outcome : option string;
  ma_detail : option string;
  ma_started_at_ms : option N;
  finished_at_ms : option N;
  ma_elapsed_ms : option N;
  last_node_count : N;
  last_edge_count : N;
  ma_max_node_count : N;
  ma_max_edge_count : N;
}.

Record TokenBucket := mkBucket { tokens : f64; last_refill_ms : N }.

Record ApiState := mkApi {
  api_service_name : string;
  api_config : AppConfig;
  readiness : bool;
  api_database : Database;
  counters : AtomicServiceCounters;
  api_audit_log_path : Path;
  maintenance_status : MaintenanceStatusResponse;
  endpoint_metrics : gmap string AtomicEndpointMetrics;
  rate_limits : gmap string TokenBucket;
}.

Definition set_database (d : Database) (s : ApiState) : ApiState :=
  mkApi (api_service_name s) (api_config s) (readiness s) d (counters s) (api_audit_log_path s)
    (maintenance_status s) (endpoint_metrics s) (rate_limits s).
Definition set_counters (c : AtomicServiceCounters) (s : ApiState) : ApiState :=
  mkApi (api_service_name s) (api_config s) (readiness s) (api_database s) c (api_audit_log_path s)
    (maintenance_status s) (endpoint_metrics s) (rate_limits s).
Definition set_maintenance (m : MaintenanceStatusResponse) (s : ApiState) : ApiState :=
  mkApi (api_service_name s) (api_config s) (readiness s) (api_database s) (counters s) (api_audit_log_path s)
    m (endpoint_metrics s) (rate_limits s).
Definition set_endpoints (m : gmap string AtomicEndpointMetrics) (s : ApiState) : ApiState :=
  mkApi (api_service_name s) (api_config s) (readiness s) (api_database s) (counters s) (api_audit_log_path s)
    (maintenance_status s) m (rate_limits s).
Definition set_rate_limits (r : gmap string TokenBucket) (s : ApiState) : ApiState :=
  mkApi (api_service_name s) (api_config s) (readiness s) (api_database s) (counters s) (api_audit_log_path s)
    (maintenance_status s) (endpoint_metrics s) r.
Definition set_readiness (ready : bool) (s : ApiState) : ApiState :=
  mkApi (api_service_name s) (api_config s) ready (api_database s) (counters s) (api_audit_log_path s)
    (maintenance_status s) (endpoint_metrics s) (rate_limits s).

(** ** Errors *)

Record ErrorResponse := mkErrorResponse { er_code : string; er_message : string; er_details : list string }.
Record ApiError := mkApiError { ae_status : N; ae_body : ErrorResponse }.

Definition ApiError_new (status : N) (code message : string) : ApiError :=
  mkApiError status (mkErrorResponse code message []).

Definition from_error (e : Undr9Error) : ApiError :=
  match e with
  | Validation message => ApiError_new 400 "validation_error" message
  | Conflict message => ApiError_new 409 "conflict" message
  | NotFound message => ApiError_new 404 "not_found" message
  | Corruption message => ApiError_new 500 "corruption" message
  | Io message => ApiError_new 500 "io_error" message
  | Serialization message => ApiError_new 500 "serialization_error" message
  end.

(** How a handler ends without an answer of its own: an error response, a panic of its task, or
    (which the executor never does) no end at all. *)
Inductive ApiFailure :=
| Refused (e : ApiError)
| Panicked (message : string)
| Diverged.
Definition api_failure (f : Failure) : ApiFailure :=
  match f with Error e => Refused (from_error e) | Panic message => Panicked message end.

(** The clock readings of one request, in milliseconds: for the rate limiter, at the start of
    the work, when it is refused for its budget, for the audit event, and what has elapsed. *)
Record RequestClock := mkClock {
  rc_now_ms : N;
  rc_started_ms : N;
  rc_rejected_ms : N;
  rc_audit_ms : N;
  rc_elapsed_ms : N;
  rc_query : nat → N;
}.

(** ** Streamed results *)

Inductive QueryStreamFrame :=
| FrameMeta (kind : PlanKind) (retrieval_profile : option string)
| FrameNode (n : NodeRecord)
| FrameEdge (e : EdgeRecord)
| FrameRankedResult (r : RankedNodeResult)
| FramePath (p : GraphPath)
| FrameEnd (item_count : N).

Record StreamRenderSummary := mkSummaryOfStream { ranked_scores : list f32 }.

(** [serde_json::to_string] on a frame. *)
Class FrameCodec := { json_encode_frame : QueryStreamFrame → Result string string }.

Section stream.
Context `{FrameCodec}.

(** The lines so far, their bytes and the items they count. *)
Record StreamState := mkStream { st_lines : list string; st_bytes : N; st_items : N }.

Definition push_stream_frame (frame : QueryStreamFrame) (counted_items : N) (st : StreamState)
    : Result ApiError StreamState :=
  let item_count := (st_items st + counted_items)%N in
  if (MAX_STREAM_QUERY_ITEMS <? item_count)%N then
    Err (ApiError_new 422 "stream_query_result_too_large"
      ("stream query response exceeded budget: " +:+ pretty item_count +:+ " items > " +:+
        pretty MAX_STREAM_QUERY_ITEMS))
  else
    line ← map_err (λ error, ApiError_new 500 "serialization_error"
      ("failed to serialize query stream frame: " +:+ error)) (json_encode_frame frame);
    let line := push_newline line in
    let total_bytes := (st_bytes st + N.of_nat (String.length line))%N in
    if (MAX_STREAM_RESPONSE_BYTES <? total_bytes)%N then
      Err (ApiError_new 422 "stream_query_body_too_large"
        ("stream query body exceeded budget: " +:+ pretty total_bytes +:+ " bytes > " +:+
          pretty MAX_STREAM_RESPONSE_BYTES))
    else Ok (mkStream (st_lines st ++ [line]) total_bytes item_count).

Definition frame_of_item (item : QueryExecutionItem) : QueryStreamFrame * N :=
  match item with
  | INode n => (FrameNode n, 1%N)
  | IEdge e => (FrameEdge e, 1%N)
  | IRanked r => (FrameRankedResult r, 1%N)
  | IPath p => (FramePath p, N.of_nat (length (path_node_ids p) + length (path_edge_ids p)))
  end.
Definition score_of_item (item : QueryExecutionItem) : option f32 :=
  match item with IRanked r => Some (rr_score r) | _ => None end.

Definition push_item (st : StreamState) (item : QueryExecutionItem) : Result ApiError StreamState :=
  let '(frame, counted_items) := frame_of_item item in push_stream_frame frame counted_items st.

Definition serialize_query_execution_stream (e : QueryExecution)
    : Result ApiError (list string * StreamRenderSummary) :=
  st ← push_stream_frame (FrameMeta (qe_plan_kind e) (qe_retrieval_profile e)) 0 (mkStream [] 0 0);
  st ← result_foldl push_item st (qe_items e);
  st ← push_stream_frame (FrameEnd (st_items st)) 0 st;
  mret (st_lines st, mkSummaryOfStream (omap score_of_item (qe_items e))).
End stream.

Definition enforce_query_response_budget (r : QueryResponse) : Result ApiError unit :=
  let total_items := N.of_nat (length (qr_nodes r) + length (qr_edges r) + length (qr_ranked_results r)
    + match qr_path r with Some p => length (path_node_ids p) + length (path_edge_ids p) | None => 0 end) in
  if (MAX_QUERY_RESPONSE_ITEMS <? total_items)%N then
    Err (ApiError_new 422 "query_result_too_large"
      ("query response exceeded budget: " +:+ pretty total_items +:+ " items > " +:+
        pretty MAX_QUERY_RESPONSE_ITEMS))
  else Ok tt.

(** ** Rate limit *)

Definition bucket_capacity : f64 := F64.of_Z 1000.
Definition bucket_one : f64 := F64.of_Z 1.

(** One request of a key: its bucket afterwards, and whether it is admitted. *)
Definition take_token (now_ms : N) (bucket : TokenBucket) : TokenBucket * bool :=
  let elapsed_ms := (now_ms - last_refill_ms bucket)%N in
  let refill := F64.mul (F64.div (F64.of_Z (Z.of_N elapsed_ms)) (F64.of_Z 1000)) (F64.of_Z 100) in
  let available := f_min (F64.add (tokens bucket) refill) bucket_capacity in
  if f_lt available bucket_one then (mkBucket available now_ms, false)
  else (mkBucket (F64.sub available bucket_one) now_ms, true).

(** ** Trace identifiers *)

Definition parse_traceparent_trace_id (traceparent : string) : option string :=
  match split_on "-"%char traceparent with
  | [_; trace_id; _; _] =>
    if (String.length trace_id =? 32)%nat && str_all is_ascii_hexdigit trace_id
    then Some (to_ascii_lowercase trace_id) else None
  | _ => None
  end.

(** [format!("{now:016x}{counter:016x}")]. *)
Definition generate_trace_id (now_ms counter : N) : string := fmt_hex 16 now_ms +:+ fmt_hex 16 counter.
Definition request_trace_id (traceparent : option string) (now_ms counter : N) : string :=
  default (generate_trace_id now_ms counter) (traceparent ≫= parse_traceparent_trace_id).

Definition query_request_kind (request : QueryRequest) : string :=
  match request with
  | GetNodeById _ => "get_node_by_id"
  | GetNodeByUniqueKey _ => "get_node_by_unique_key"
  | FilterNodes _ _ _ => "filter_nodes"
  | ListNeighbors _ _ _ _ => "list_neighbors"
  | Traverse _ _ _ _ _ _ _ => "traverse"
  | ShortestPath _ _ _ _ _ _ _ => "shortest_path"
  | SearchByLabel _ _ => "search_by_label"
  | TimeRange _ _ _ _ => "time_range"
  | VectorSearch _ _ _ _ _ => "vector_search"
  | RankedRetrieval _ _ _ _ _ _ _ _ _ _ => "ranked_retrieval"
  end.

(** ** Computations of a handler *)

Section service.
Context `{WalCodec, StorageCodec, HnswLib, IndexCodec, DatabaseCodec, AuditCodec, FrameCodec}.
Abbreviation Runtimes := (list Runtime).

Definition api_m (A : Type) : Type := sm (World * (ApiState * Runtimes)) ApiFailure A.

Definition api_self : api_m ApiState := λ '(w, (s, h)), (Ok s, (w, (s, h))).
Definition api_modify (f : ApiState → ApiState) : api_m unit := λ '(w, (s, h)), (Ok tt, (w, (f s, h))).
Definition refuse {A} (e : ApiError) : api_m A := sm_fail (Refused e).
Definition api_result {A} (r : Result ApiError A) : api_m A := sm_lift (map_err Refused r).
(** [.map_err(ApiError::from_error)?]. *)
Definition api_res {A} (r : Res A) : api_m A := api_result (map_err from_error r).
Definition on_api_disk {A} (m : io A) : api_m A := λ '(w, x), let '(r, w) := m w in (map_err api_failure r, (w, x)).
(** A block that holds the lock of the database. *)
Definition on_database {A} (c : db_m A) : api_m A := λ '(w, (s, h)),
  let '(r, (w, (d, h))) := c (w, (api_database s, h)) in (map_err api_failure r, (w, (set_database d s, h))).
(** The same, its error kept as a value. *)
Definition try_database {A} (c : db_m A) : api_m (Res A) := λ '(w, (s, h)),
  let '(r, (w, (d, h))) := c (w, (api_database s, h)) in
  (match r with Ok a => Ok (Ok a) | Err (Error e) => Ok (Err e) | Err (Panic msg) => Err (Panicked msg) end,
   (w, (set_database d s, h))).
Definition read_database {A} (f : Database → A) : api_m A := s ← api_self; mret (f (api_database s)).

(** ** State of the service *)

Definition maintenance_status_default (c : AppConfig) : MaintenanceStatusResponse :=
  mkMaintenanceStatus false None None None None None None 0 0 (max_node_count (maintenance c))
    (max_edge_count (maintenance c)).

Definition try_new_with_identity (config : AppConfig) (local_node_id advertise_address : string) (latency_ms : N)
    (h : Runtimes) : io (ApiState * Runtimes) :=
  '(database, h) ← open_with_identity config local_node_id advertise_address latency_ms h;
  mret (mkApi "undr9" config true database AtomicServiceCounters_default
    (audit_log_path (e_layout (db_engine database))) (maintenance_status_default config) ∅ ∅, h).
Definition try_new (config : AppConfig) (latency_ms : N) (h : Runtimes) : io (ApiState * Runtimes) :=
  try_new_with_identity config "node-1" (bind_address (server config)) latency_ms h.

Definition is_ready (s : ApiState) : bool := readiness s.
Definition graceful_shutdown_service : api_m unit :=
  api_modify (set_readiness false) ;;
  on_database Database.graceful_shutdown.

Definition mark_maintenance_started (operation : string) (started_at_ms node_count edge_count : N) : api_m unit :=
  api_modify (λ s, set_maintenance (mkMaintenanceStatus true (Some operation) None
    (Some "maintenance operation in progress") (Some started_at_ms) None None node_count edge_count
    (max_node_count (maintenance (api_config s))) (max_edge_count (maintenance (api_config s)))) s).
Definition mark_maintenance_finished (operation outcome detail : string)
    (started_at_ms elapsed_ms node_count edge_count : N) : api_m unit :=
  api_modify (λ s, set_maintenance (mkMaintenanceStatus false (Some operation) (Some outcome)
    (Some detail) (Some started_at_ms) (Some (started_at_ms + elapsed_ms)%N) (Some elapsed_ms) node_count edge_count
    (max_node_count (maintenance (api_config s))) (max_edge_count (maintenance (api_config s)))) s).

Definition increment_counter (mutate : AtomicServiceCounters → AtomicServiceCounters) : api_m unit :=
  api_modify (λ s, set_counters (mutate (counters s)) s).

Definition count_query (c : AtomicServiceCounters) : AtomicServiceCounters :=
  mkCounters (fetch_incr (query_requests_total c)) (write_requests_total c) (maintenance_operations_total c)
    (audit_events_total c) (query_latency c) (transaction_latency c) (traversal_latency c) (vector_search_latency c)
    (ranked_retrieval_latency c) (compaction_latency c) (retrieval_score_bucket_low_total c)
    (retrieval_score_bucket_medium_total c) (retrieval_score_bucket_high_total c)
    (retrieval_score_bucket_top_total c) (error_counters c).
Definition count_write (c : AtomicServiceCounters) : AtomicServiceCounters :=
  mkCounters (query_requests_total c) (fetch_incr (write_requests_total c)) (maintenance_operations_total c)
    (audit_events_total c) (query_latency c) (transaction_latency c) (traversal_latency c) (vector_search_latency c)
    (ranked_retrieval_latency c) (compaction_latency c) (retrieval_score_bucket_low_total c)
    (retrieval_score_bucket_medium_total c) (retrieval_score_bucket_high_total c)
    (retrieval_score_bucket_top_total c) (error_counters c).
Definition count_maintenance (c : AtomicServiceCounters) : AtomicServiceCounters :=
  mkCounters (query_requests_total c) (write_requests_total c) (fetch_incr (maintenance_operations_total c))
    (audit_events_total c) (query_latency c) (transaction_latency c) (traversal_latency c) (vector_search_latency c)
    (ranked_retrieval_latency c) (compaction_latency c) (retrieval_score_bucket_low_total c)
    (retrieval_score_bucket_medium_total c) (retrieval_score_bucket_high_total c)
    (retrieval_score_bucket_top_total c) (error_counters c).
Definition count_audit (c : AtomicServiceCounters) : AtomicServiceCounters :=
  mkCounters (query_requests_total c) (write_requests_total c) (maintenance_operations_total c)
    (fetch_incr (audit_events_total c)) (query_latency c) (transaction_latency c) (traversal_latency c)
    (vector_search_latency c) (ranked_retrieval_latency c) (compaction_latency c)
    (retrieval_score_bucket_low_total c) (retrieval_score_bucket_medium_total c)
    (retrieval_score_bucket_high_total c) (retrieval_score_bucket_top_total c) (error_counters c).
(** Apply [q], [t], [tr], [v], [r], [co] to the six histograms. *)
Definition on_latencies (q t tr v r co : AtomicLatencyHistogram → AtomicLatencyHistogram) (c : AtomicServiceCounters)
    : AtomicServiceCounters :=
  mkCounters (query_requests_total c) (write_requests_total c) (maintenance_operations_total c)
    (audit_events_total c) (q (query_latency c)) (t (transaction_latency c)) (tr (traversal_latency c))
    (v (vector_search_latency c)) (r (ranked_retrieval_latency c)) (co (compaction_latency c))
    (retrieval_score_bucket_low_total c) (retrieval_score_bucket_medium_total c)
    (retrieval_score_bucket_high_total c) (retrieval_score_bucket_top_total c) (error_counters c).
Definition count_error (key : string) (c : AtomicServiceCounters) : AtomicServiceCounters :=
  mkCounters (query_requests_total c) (write_requests_total c) (maintenance_operations_total c)
    (audit_events_total c) (query_latency c) (transaction_latency c) (traversal_latency c) (vector_search_latency c)
    (ranked_retrieval_latency c) (compaction_latency c) (retrieval_score_bucket_low_total c)
    (retrieval_score_bucket_medium_total c) (retrieval_score_bucket_high_total c)
    (retrieval_score_bucket_top_total c) (count_key key (error_counters c)).

(** The bucket of a score; a NaN score is in the last one. *)
Definition count_score (c : AtomicServiceCounters) (score : f32) : AtomicServiceCounters :=
  let low := f_lt score (F32.lit 1 4) in
  let medium := negb low && f_lt score (F32.lit 1 2) in
  let high := negb low && negb medium && f_lt score (F32.lit 3 4) in
  let count (b : bool) (n : N) := if b then fetch_incr n else n in
  mkCounters (query_requests_total c) (write_requests_total c) (maintenance_operations_total c)
    (audit_events_total c) (query_latency c) (transaction_latency c) (traversal_latency c) (vector_search_latency c)
    (ranked_retrieval_latency c) (compaction_latency c)
    (count low (retrieval_score_bucket_low_total c)) (count medium (retrieval_score_bucket_medium_total c))
    (count high (retrieval_score_bucket_high_total c))
    (count (negb low && negb medium && negb high) (retrieval_score_bucket_top_total c)) (error_counters c).

(** The part [record_query_metrics] and [record_query_stream_metrics] share. *)
Definition record_scores (request : QueryRequest) (scores : list f32) (elapsed_ms : N) : api_m unit :=
  let lat := record_latency elapsed_ms in
  increment_counter (λ c,
    foldl count_score
      ((match request with
        | Traverse _ _ _ _ _ _ _ | ShortestPath _ _ _ _ _ _ _ => on_latencies lat id lat id id id
        | VectorSearch _ _ _ _ _ => on_latencies lat id id lat id id
        | RankedRetrieval _ _ _ _ _ _ _ _ _ _ => on_latencies lat id id id lat id
        | _ => on_latencies lat id id id id id
        end) (count_query c)) scores).
Definition record_query_metrics (request : QueryRequest) (r : QueryResponse) (elapsed_ms : N) : api_m unit :=
  record_scores request (rr_score <$> qr_ranked_results r) elapsed_ms.
Definition record_query_stream_metrics (request : QueryRequest) (summary : StreamRenderSummary) (elapsed_ms : N)
    : api_m unit :=
  record_scores request (ranked_scores summary) elapsed_ms.

Definition record_transaction_latency (elapsed_ms : N) : AtomicServiceCounters → AtomicServiceCounters :=
  on_latencies id (record_latency elapsed_ms) id id id id.

Definition record_api_error_metric (status : N) (code : string) : api_m unit :=
  increment_counter (count_error (error_key code status)).

Definition record_audit (event : AuditEvent) : api_m unit :=
  s ← api_self;
  on_api_disk (append_audit_event (api_audit_log_path s) event) ;;
  on_api_disk (prune_audit_log (api_audit_log_path s) (audit_log_retention_entries (observability (api_config s)))) ;;
  increment_counter count_audit.

(** ** Admission *)

Definition enforce_rate_limit (now_ms : N) (api_key : string) : api_m unit :=
  s ← api_self;
  let bucket := default (mkBucket bucket_capacity now_ms) (rate_limits s !! api_key) in
  let '(bucket, admitted) := take_token now_ms bucket in
  api_modify (λ s, set_rate_limits (<[api_key := bucket]> (rate_limits s)) s) ;;
  if (admitted : bool) then mret tt else refuse (ApiError_new 429 "rate_limited" "API key token bucket exhausted").

(** [api_key] is the value of the x-api-key header, when it has one that is text. *)
Definition authorize (now_ms : N) (api_key : option string) (action : Action) : api_m Principal :=
  s ← api_self;
  if negb (auth_enabled (auth (api_config s))) then
    refuse (ApiError_new 503 "auth_disabled"
      "authentication is disabled for this deployment; enable auth to serve requests")
  else
    match api_key with
    | None => refuse (ApiError_new 401 "unauthorized" "missing x-api-key header")
    | Some api_key =>
      principal ← api_result (map_err (λ _, ApiError_new 401 "unauthorized" "invalid API key")
        (authenticate (auth (api_config s)) api_key));
      enforce_rate_limit now_ms api_key ;;
      if is_allowed principal action then mret principal
      else refuse (ApiError_new 403 "forbidden" "principal is not authorized for this action")
    end.

Definition enforce_maintenance_budget (operation : string) (rejected_at_ms : N) : api_m (N * N) :=
  s ← api_self;
  let node_count := N.of_nat (Engine.node_count (db_engine (api_database s))) in
  let edge_count := N.of_nat (Engine.edge_count (db_engine (api_database s))) in
  let m := maintenance (api_config s) in
  if (max_node_count m <? node_count)%N || (max_edge_count m <? edge_count)%N then
    mark_maintenance_finished operation "rejected"
      ("maintenance budget exceeded: nodes=" +:+ pretty node_count +:+ " edges=" +:+ pretty edge_count +:+
        " budgets=(" +:+ pretty (max_node_count m) +:+ "," +:+ pretty (max_edge_count m) +:+ ")")
      rejected_at_ms 0 node_count edge_count ;;
    refuse (ApiError_new 422 "maintenance_budget_exceeded"
      ("operation '" +:+ operation +:+ "' exceeds maintenance budget: nodes=" +:+ pretty node_count +:+ "/" +:+
        pretty (max_node_count m) +:+ " edges=" +:+ pretty edge_count +:+ "/" +:+ pretty (max_edge_count m)))
  else mret (node_count, edge_count).
End service.
