(* ===== verification/Handlers.v ===== *)
(** * [crates/api]: the handlers and the router

    One definition per handler of crates/api/src/lib.rs, with the payload it answers with, and
    [handle], the table of [build_router].  [serve] adds what [request_metrics_middleware] does
    around a handler.  Axum's own part (decoding the path and the body, the body limit, and the
    timeout, which only strikes while a handler waits for a lock) is not modelled. *)
From S2P Require Import Prelude RustStd RustFloat Common Core Config Auth Fs Wal Memory Batch Store Engine Recovery Backup Index Query Ranking Executor Database Observability Metrics Service.
From S2P Require Cluster Replication.

#[local] Open Scope string_scope.
#[local] Open Scope list_scope.

Record MaintenanceResponse := mkMaintenanceResponse {
  mr_status : string;
  mr_operation : string;
  mr_elapsed_ms : N;
  mr_detail : string;
}.

Section handlers.
Context `{WalCodec, StorageCodec, HnswLib, IndexCodec, DatabaseCodec, AuditCodec, FrameCodec}.
Context (clock : RequestClock) (api_key : option string).

Definition authorized (action : Action) : api_m Principal := authorize (rc_now_ms clock) api_key action.
Definition audit (principal : Principal) (action resource detail : string) : api_m unit :=
  record_audit (AuditEvent_new (rc_audit_ms clock) (principal_name principal) action resource "success" detail).
(** A read under the lock. *)
Definition read_result {A} (f : Database → Res A) : api_m A := s ← api_self; api_res (f (api_database s)).

(** ** Nodes and edges *)

Definition create_node_handler (node : NodeRecord) : api_m NodeRecord :=
  principal ← authorized Write;
  node ← on_database (upsert_node node);
  increment_counter count_write ;;
  audit principal "create_node" "node" (node_id_str (node_id node)) ;;
  mret node.

Definition update_node_handler (id : string) (node : NodeRecord) : api_m NodeRecord :=
  principal ← authorized Write;
  path_id ← api_res (NodeId_new id);
  if decide (path_id ≠ node_id node) then
    refuse (ApiError_new 400 "validation_error" "path node id does not match request body id")
  else
    node ← on_database (upsert_node node);
    increment_counter count_write ;;
    audit principal "update_node" "node" (node_id_str (node_id node)) ;;
    mret node.

Definition node_not_found (id : NodeId) : ApiError :=
  ApiError_new 404 "not_found" ("node '" +:+ node_id_str id +:+ "' was not found").
Definition edge_not_found (id : EdgeId) : ApiError :=
  ApiError_new 404 "not_found" ("edge '" +:+ edge_id_str id +:+ "' was not found").

Definition get_node_handler (id : string) : api_m NodeRecord :=
  authorized Read ;;
  node_id ← api_res (NodeId_new id);
  node ← read_database (λ d, get_node d node_id);
  api_result (ok_or node (node_not_found node_id)).

Definition delete_node_handler (id : string) : api_m unit :=
  principal ← authorized Write;
  node_id ← api_res (NodeId_new id);
  removed ← on_database (delete_node node_id);
  api_result (ok_or removed (node_not_found node_id)) ;;
  increment_counter count_write ;;
  audit principal "delete_node" "node" (node_id_str node_id).

Definition create_edge_handler (edge : EdgeRecord) : api_m EdgeRecord :=
  principal ← authorized Write;
  edge ← on_database (upsert_edge edge);
  increment_counter count_write ;;
  audit principal "create_edge" "edge" (edge_id_str (edge_id edge)) ;;
  mret edge.

Definition update_edge_handler (id : string) (edge : EdgeRecord) : api_m EdgeRecord :=
  principal ← authorized Write;
  path_id ← api_res (EdgeId_new id);
  if decide (path_id ≠ edge_id edge) then
    refuse (ApiError_new 400 "validation_error" "path edge id does not match request body id")
  else
    edge ← on_database (upsert_edge edge);
    increment_counter count_write ;;
    audit principal "update_edge" "edge" (edge_id_str (edge_id edge)) ;;
    mret edge.

Definition get_edge_handler (id : string) : api_m EdgeRecord :=
  authorized Read ;;
  edge_id ← api_res (EdgeId_new id);
  edge ← read_database (λ d, get_edge d edge_id);
  api_result (ok_or edge (edge_not_found edge_id)).

Definition delete_edge_handler (id : string) : api_m unit :=
  principal ← authorized Write;
  edge_id ← api_res (EdgeId_new id);
  removed ← on_database (delete_edge edge_id);
  api_result (ok_or removed (edge_not_found edge_id)) ;;
  increment_counter count_write ;;
  audit principal "delete_edge" "edge" (edge_id_str edge_id).

(** ** Queries *)

(** The views queries run on. *)
Definition snapshot_of_database : api_m GraphView := λ '(w, (s, h)),
  (Ok (snapshot_view h (db_published_snapshot (api_database s))), (w, (s, h))).
Definition overlay_of_transaction (tx : TransactionId) : api_m GraphView := λ '(w, (s, h)),
  (map_err (λ e, Refused (from_error e)) ((λ '(snapshot, mutation), overlay h snapshot mutation) <$>
    transaction_query_view (api_database s) tx), (w, (s, h))).

(** What the executor returns. *)
Definition api_run {A} (r : option (Result Failure A)) : api_m A :=
  sm_lift (match r with Some r => map_err api_failure r | None => Err Diverged end).

Definition query_handler (request : QueryRequest) : api_m QueryResponse :=
  authorized Read ;;
  view ← snapshot_of_database;
  response ← api_run (execute view (rc_query clock) request);
  api_result (enforce_query_response_budget response) ;;
  record_query_metrics request response (rc_elapsed_ms clock) ;;
  mret response.

(** The lines of the body. *)
Definition query_stream_handler (request : QueryRequest) : api_m (list string) :=
  authorized Read ;;
  view ← snapshot_of_database;
  execution ← api_run (execute_iter view (rc_query clock) request);
  '(lines, summary) ← api_result (serialize_query_execution_stream execution);
  record_query_stream_metrics request summary (rc_elapsed_ms clock) ;;
  mret lines.

Definition transaction_query_handler (id : string) (request : QueryRequest) : api_m QueryResponse :=
  authorized Read ;;
  tx ← api_res (TransactionId_new id);
  view ← overlay_of_transaction tx;
  response ← api_run (execute view (rc_query clock) request);
  api_result (enforce_query_response_budget response) ;;
  record_query_metrics request response (rc_elapsed_ms clock) ;;
  mret response.

Definition transaction_query_stream_handler (id : string) (request : QueryRequest) : api_m (list string) :=
  authorized Read ;;
  tx ← api_res (TransactionId_new id);
  view ← overlay_of_transaction tx;
  execution ← api_run (execute_iter view (rc_query clock) request);
  '(lines, summary) ← api_result (serialize_query_execution_stream execution);
  record_query_stream_metrics request summary (rc_elapsed_ms clock) ;;
  mret lines.

(** ** Transactions *)

Definition count_transaction (c : AtomicServiceCounters) : AtomicServiceCounters :=
  record_transaction_latency (rc_elapsed_ms clock) (count_write c).

Definition begin_transaction_handler (isolation_level : option IsolationLevel) : api_m TransactionSummary :=
  principal ← authorized Write;
  summary ← on_database (begin_transaction (default Snapshot isolation_level));
  increment_counter count_transaction ;;
  audit principal "begin_transaction" "transaction" (transaction_id_str (ts_transaction_id summary)) ;;
  mret summary.

Definition list_transactions_handler : api_m (list TransactionSummary) :=
  authorized Read ;;
  read_database list_transactions.

Definition transaction_summary_handler (id : string) : api_m TransactionSummary :=
  authorized Read ;;
  tx ← api_res (TransactionId_new id);
  read_result (λ d, transaction_summary d tx).

Definition stage_transaction_operation_handler (id : string) (operation : TransactionOperation)
    : api_m TransactionSummary :=
  principal ← authorized Write;
  tx ← api_res (TransactionId_new id);
  summary ← on_database (stage_transaction_operation tx operation);
  increment_counter count_write ;;
  audit principal "stage_transaction_operation" "transaction" (transaction_id_str (ts_transaction_id summary)) ;;
  mret summary.

Definition commit_transaction_handler (id : string) : api_m TransactionCommitResult :=
  principal ← authorized Write;
  tx ← api_res (TransactionId_new id);
  result ← on_database (commit_transaction tx);
  increment_counter count_transaction ;;
  audit principal "commit_transaction" "transaction" (transaction_id_str (cr_transaction_id result)) ;;
  mret result.

Definition rollback_transaction_handler (id : string) : api_m TransactionSummary :=
  principal ← authorized Write;
  tx ← api_res (TransactionId_new id);
  summary ← on_database (rollback_transaction tx);
  increment_counter count_transaction ;;
  audit principal "rollback_transaction" "transaction" (transaction_id_str (ts_transaction_id summary)) ;;
  mret summary.

(** ** Maintenance *)

(** The shape of the five maintenance handlers: budget, mark, work, mark.  The error of the work
    is marked as the outcome; an error of the audit log is not. *)
Definition run_maintenance {A} (operation resource audit_detail detail : string)
    (count : AtomicServiceCounters → AtomicServiceCounters) (work : db_m A) : api_m A :=
  principal ← authorized Maintain;
  let started := rc_started_ms clock in
  let elapsed := rc_elapsed_ms clock in
  '(node_count, edge_count) ← enforce_maintenance_budget operation (rc_rejected_ms clock);
  mark_maintenance_started operation started node_count edge_count ;;
  result ← try_database work;
  match result with
  | Err error =>
    mark_maintenance_finished operation "failed" (error_to_string error) started elapsed node_count edge_count ;;
    refuse (from_error error)
  | Ok a =>
    increment_counter count ;;
    audit principal operation resource audit_detail ;;
    mark_maintenance_finished operation "success" detail started elapsed node_count edge_count ;;
    mret a
  end.
Definition maintenance_response (operation detail : string) : MaintenanceResponse :=
  mkMaintenanceResponse "ok" operation (rc_elapsed_ms clock) detail.

Definition compact_handler : api_m MaintenanceResponse :=
  run_maintenance "compact" "storage" "storage compacted" "storage compacted"
    (λ c, on_latencies id id id id id (record_latency (rc_elapsed_ms clock)) (count_maintenance c)) compact ;;
  mret (maintenance_response "compact" "storage compacted").

Definition backup_handler (destination : string) : api_m MaintenanceResponse :=
  let detail := "backup created at " +:+ destination in
  run_maintenance "backup" "storage" destination detail count_maintenance
    (d ← db_self; on_disk (backup_to d (path_of_string destination))) ;;
  mret (maintenance_response "backup" detail).

Definition restore_handler (source : string) (target_lsn : option N) : api_m MaintenanceResponse :=
  s ← api_self;
  let detail := "storage restored from " +:+ source in
  run_maintenance "restore" "storage" source detail count_maintenance
    (restore_from (api_config s) (path_of_string source) target_lsn) ;;
  mret (maintenance_response "restore" detail).

Definition repair_handler : api_m IntegrityReport :=
  s ← api_self;
  run_maintenance "repair" "storage" "repair completed" "repair completed" count_maintenance (repair (api_config s)).

Definition rebuild_indexes_handler : api_m IndexSnapshot :=
  run_maintenance "rebuild_indexes" "index" "index snapshot rebuilt" "index snapshot rebuilt" count_maintenance
    rebuild_indexes.

Definition maintenance_status_handler : api_m MaintenanceStatusResponse :=
  authorized Maintain ;;
  s ← api_self;
  mret (maintenance_status s).

Definition integrity_handler : api_m IntegrityReport :=
  authorized Maintain ;;
  s ← api_self;
  on_api_disk (verify_integrity (api_database s)).

Definition audit_export_handler (limit : option N) : api_m (list AuditEvent) :=
  principal ← authorized Maintain;
  s ← api_self;
  let configured_limit := audit_log_export_limit (observability (api_config s)) in
  let limit := default configured_limit limit in
  if (limit =? 0)%N || (configured_limit <? limit)%N then
    refuse (ApiError_new 422 "invalid_audit_export_limit"
      ("audit export limit must be between 1 and " +:+ pretty configured_limit))
  else
    events ← on_api_disk (export_audit_events (api_audit_log_path s) limit);
    audit principal "audit_export" "audit_log"
      ("exported " +:+ pretty (N.of_nat (length events)) +:+ " audit events") ;;
    mret events.

(** ** Replication and cluster *)

Definition replication_status_handler : api_m ReplicationStatusResponse :=
  authorized Maintain ;;
  read_database replication_status.

Definition replication_history_handler (after_source_lsn : option N) : api_m (list ReplicationRecord) :=
  authorized Maintain ;;
  read_database (λ d, replication_history_since d (default 0%N after_source_lsn)).

Definition configure_leader_handler : api_m ReplicationStatusResponse :=
  principal ← authorized Maintain;
  response ← on_database configure_as_leader;
  audit principal "configure_leader" "replication" (Replication.local_node_id (sr_status response)) ;;
  mret response.

Definition configure_follower_handler (leader_node_id leader_address : string) : api_m ReplicationStatusResponse :=
  principal ← authorized Maintain;
  response ← on_database (configure_as_follower leader_node_id leader_address);
  audit principal "configure_follower" "replication" leader_node_id ;;
  mret response.

Definition register_replica_handler (node_id address : string) : api_m ClusterTopology :=
  principal ← authorized Maintain;
  topology ← on_database (register_replica node_id address);
  audit principal "register_replica" "cluster" node_id ;;
  mret topology.

Definition replica_ack_handler (replica_node_id : string) (source_lsn : N) : api_m ReplicationStatusResponse :=
  principal ← authorized Maintain;
  response ← on_database (acknowledge_replica replica_node_id source_lsn);
  audit principal "replica_ack" "replication" replica_node_id ;;
  mret response.

Definition apply_replication_handler (records : list ReplicationRecord) : api_m ReplicationStatusResponse :=
  principal ← authorized Maintain;
  response ← on_database (apply_replication_records records);
  audit principal "apply_replication" "replication" ("records=" +:+ pretty (N.of_nat (length records))) ;;
  mret response.

Definition cluster_topology_handler : api_m ClusterTopology :=
  authorized Maintain ;;
  read_database cluster_topology.

Definition mark_node_health_handler (id : string) (healthy : bool) : api_m ClusterTopology :=
  principal ← authorized Maintain;
  topology ← on_database (mark_node_health id healthy);
  audit principal "mark_node_health" "cluster" id ;;
  mret topology.

Definition promote_node_handler (node_id : string) : api_m Cluster.FailoverPlan :=
  principal ← authorized Maintain;
  plan ← on_database (promote_node node_id);
  audit principal "promote_node" "cluster" node_id ;;
  mret plan.

(** ** Without authorization *)

Definition health_handler : api_m string := s ← api_self; mret (api_service_name s).
(** Whether the answer is 200 "ready" or 503 "draining". *)
Definition readiness_handler : api_m bool := s ← api_self; mret (is_ready s).

Definition metrics_handler : api_m string :=
  s ← api_self;
  if negb (metrics_enabled (observability (api_config s))) then
    refuse (ApiError_new 404 "not_found" "metrics endpoint is disabled")
  else
    let d := api_database s in
    let e := db_engine d in
    mret (render_prometheus (mkMetrics (api_service_name s) (is_ready s) (N.of_nat (Engine.node_count e))
      (N.of_nat (Engine.edge_count e)) (N.of_nat (length (list_transactions d))) (current_revision e)
      (default 0%N (latest_applied_lsn e)) (needs_checkpoint e)
      (N.of_nat (pending_checkpoint_count e)) (snapshot_endpoint_metrics (endpoint_metrics s))
      (counters_snapshot (db_wal_replay_latency_ms d) (counters s)))).
End handlers.

(** ** The router *)

(** A request after axum has matched the route and decoded its parts. *)
Inductive ApiRequest :=
| GetHealth | GetReadiness | GetMetrics
| PostNode (node : NodeRecord) | PutNode (id : string) (node : NodeRecord) | GetNode (id : string)
| DeleteNodeById (id : string)
| PostEdge (edge : EdgeRecord) | PutEdge (id : string) (edge : EdgeRecord) | GetEdge (id : string)
| DeleteEdgeById (id : string)
| PostQuery (request : QueryRequest) | PostQueryStream (request : QueryRequest)
| GetTransactions | PostBegin (isolation_level : option IsolationLevel) | GetTransaction (id : string)
| PostOperation (id : string) (operation : TransactionOperation)
| PostTransactionQuery (id : string) (request : QueryRequest)
| PostTransactionQueryStream (id : string) (request : QueryRequest)
| PostCommit (id : string) | PostRollback (id : string)
| PostCompact | PostBackup (destination : string) | PostRestore (source : string) (target_lsn : option N)
| PostRepair | PostRebuildIndexes | GetMaintenanceStatus | GetIntegrity | GetAudit (limit : option N)
| GetReplicationStatus | GetReplicationHistory (after_source_lsn : option N) | PostLeader
| PostFollower (leader_node_id leader_address : string) | PostAck (replica_node_id : string) (source_lsn : N)
| PostApply (records : list ReplicationRecord) | GetTopology
| PostClusterNode (node_id address : string) | PostNodeHealth (id : string) (healthy : bool)
| PostPromote (node_id : string).

(** The method and the route as it is declared. *)
Definition route_of (r : ApiRequest) : string * string :=
  match r with
  | GetHealth => ("GET", "/healthz")
  | GetReadiness => ("GET", "/readyz")
  | GetMetrics => ("GET", "/metrics")
  | PostNode _ => ("POST", "/v1/nodes")
  | PutNode _ _ => ("PUT", "/v1/nodes/:id")
  | GetNode _ => ("GET", "/v1/nodes/:id")
  | DeleteNodeById _ => ("DELETE", "/v1/nodes/:id")
  | PostEdge _ => ("POST", "/v1/edges")
  | PutEdge _ _ => ("PUT", "/v1/edges/:id")
  | GetEdge _ => ("GET", "/v1/edges/:id")
  | DeleteEdgeById _ => ("DELETE", "/v1/edges/:id")
  | PostQuery _ => ("POST", "/v1/query")
  | PostQueryStream _ => ("POST", "/v1/query/stream")
  | GetTransactions => ("GET", "/v1/transactions")
  | PostBegin _ => ("POST", "/v1/transactions/begin")
  | GetTransaction _ => ("GET", "/v1/transactions/:id")
  | PostOperation _ _ => ("POST", "/v1/transactions/:id/operations")
  | PostTransactionQuery _ _ => ("POST", "/v1/transactions/:id/query")
  | PostTransactionQueryStream _ _ => ("POST", "/v1/transactions/:id/query/stream")
  | PostCommit _ => ("POST", "/v1/transactions/:id/commit")
  | PostRollback _ => ("POST", "/v1/transactions/:id/rollback")
  | PostCompact => ("POST", "/v1/admin/compact")
  | PostBackup _ => ("POST", "/v1/admin/backup")
  | PostRestore _ _ => ("POST", "/v1/admin/restore")
  | PostRepair => ("POST", "/v1/admin/repair")
  | PostRebuildIndexes => ("POST", "/v1/admin/rebuild-indexes")
  | GetMaintenanceStatus => ("GET", "/v1/admin/maintenance/status")
  | GetIntegrity => ("GET", "/v1/admin/integrity")
  | GetAudit _ => ("GET", "/v1/admin/audit")
  | GetReplicationStatus => ("GET", "/v1/admin/replication/status")
  | GetReplicationHistory _ => ("GET", "/v1/admin/replication/history")
  | PostLeader => ("POST", "/v1/admin/replication/leader")
  | PostFollower _ _ => ("POST", "/v1/admin/replication/follower")
  | PostAck _ _ => ("POST", "/v1/admin/replication/ack")
  | PostApply _ => ("POST", "/v1/admin/replication/apply")
  | GetTopology => ("GET", "/v1/admin/cluster/topology")
  | PostClusterNode _ _ => ("POST", "/v1/admin/cluster/nodes")
  | PostNodeHealth _ _ => ("POST", "/v1/admin/cluster/nodes/:id/health")
  | PostPromote _ => ("POST", "/v1/admin/cluster/promote")
  end.

(** The payloads of the answers. *)
Inductive Payload :=
| NodePayload (n : NodeRecord) | EdgePayload (e : EdgeRecord) | NoContent
| QueryPayload (r : QueryResponse) | StreamPayload (lines : list string)
| SummaryPayload (s : TransactionSummary) | SummariesPayload (l : list TransactionSummary)
| CommitPayload (r : TransactionCommitResult)
| MaintenancePayload (r : MaintenanceResponse) | MaintenanceStatusPayload (s : MaintenanceStatusResponse)
| IntegrityPayload (r : IntegrityReport) | IndexPayload (s : IndexSnapshot) | AuditPayload (l : list AuditEvent)
| ReplicationPayload (r : ReplicationStatusResponse) | HistoryPayload (l : list ReplicationRecord)
| TopologyPayload (c : ClusterTopology) | PlanPayload (p : Cluster.FailoverPlan)
| HealthPayload (service status : string) | ReadinessPayload (ready : bool) | MetricsPayload (text : string).

Section router.
Context `{WalCodec, StorageCodec, HnswLib, IndexCodec, DatabaseCodec, AuditCodec, FrameCodec}.

Definition answer {A} (payload : A → Payload) (m : api_m A) : api_m Payload := a ← m; mret (payload a).

Definition handle (c : RequestClock) (key : option string) (r : ApiRequest) : api_m Payload :=
  match r with
  | GetHealth => answer (λ service, HealthPayload service "ok") health_handler
  | GetReadiness => answer ReadinessPayload readiness_handler
  | GetMetrics => answer MetricsPayload metrics_handler
  | PostNode node => answer NodePayload (create_node_handler c key node)
  | PutNode id node => answer NodePayload (update_node_handler c key id node)
  | GetNode id => answer NodePayload (get_node_handler c key id)
  | DeleteNodeById id => answer (λ _, NoContent) (delete_node_handler c key id)
  | PostEdge edge => answer EdgePayload (create_edge_handler c key edge)
  | PutEdge id edge => answer EdgePayload (update_edge_handler c key id edge)
  | GetEdge id => answer EdgePayload (get_edge_handler c key id)
  | DeleteEdgeById id => answer (λ _, NoContent) (delete_edge_handler c key id)
  | PostQuery request => answer QueryPayload (query_handler c key request)
  | PostQueryStream request => answer StreamPayload (query_stream_handler c key request)
  | GetTransactions => answer SummariesPayload (list_transactions_handler c key)
  | PostBegin level => answer SummaryPayload (begin_transaction_handler c key level)
  | GetTransaction id => answer SummaryPayload (transaction_summary_handler c key id)
  | PostOperation id operation => answer SummaryPayload (stage_transaction_operation_handler c key id operation)
  | PostTransactionQuery id request => answer QueryPayload (transaction_query_handler c key id request)
  | PostTransactionQueryStream id request => answer StreamPayload (transaction_query_stream_handler c key id request)
  | PostCommit id => answer CommitPayload (commit_transaction_handler c key id)
  | PostRollback id => answer SummaryPayload (rollback_transaction_handler c key id)
  | PostCompact => answer MaintenancePayload (compact_handler c key)
  | PostBackup destination => answer MaintenancePayload (backup_handler c key destination)
  | PostRestore source target_lsn => answer MaintenancePayload (restore_handler c key source target_lsn)
  | PostRepair => answer IntegrityPayload (repair_handler c key)
  | PostRebuildIndexes => answer IndexPayload (rebuild_indexes_handler c key)
  | GetMaintenanceStatus => answer MaintenanceStatusPayload (maintenance_status_handler c key)
  | GetIntegrity => answer IntegrityPayload (integrity_handler c key)
  | GetAudit limit => answer AuditPayload (audit_export_handler c key limit)
  | GetReplicationStatus => answer ReplicationPayload (replication_status_handler c key)
  | GetReplicationHistory after => answer HistoryPayload (replication_history_handler c key after)
  | PostLeader => answer ReplicationPayload (configure_leader_handler c key)
  | PostFollower id address => answer ReplicationPayload (configure_follower_handler c key id address)
  | PostAck id lsn => answer ReplicationPayload (replica_ack_handler c key id lsn)
  | PostApply records => answer ReplicationPayload (apply_replication_handler c key records)
  | GetTopology => answer TopologyPayload (cluster_topology_handler c key)
  | PostClusterNode id address => answer TopologyPayload (register_replica_handler c key id address)
  | PostNodeHealth id healthy => answer TopologyPayload (mark_node_health_handler c key id healthy)
  | PostPromote id => answer PlanPayload (promote_node_handler c key id)
  end.

(** The status of an answer. *)
Definition payload_status (p : Payload) : N :=
  match p with NoContent => 204 | ReadinessPayload false => 503 | _ => 200 end.

(** [request_metrics_middleware]: an error response is counted by its code and status, every
    response by its route.  A panic ends the task before the response. *)
Definition serve (c : RequestClock) (key : option string) (r : ApiRequest) : api_m Payload := λ st,
  let '(result, st) := handle c key r st in
  let record status : api_m unit :=
    api_modify (λ s, set_endpoints (record_endpoint_metrics (route_of r).1 (route_of r).2 status
      (rc_elapsed_ms c) (endpoint_metrics s)) s) in
  match result with
  | Ok payload => (Ok payload, (record (payload_status payload) st).2)
  | Err (Refused e) =>
    (Err (Refused e), ((record_api_error_metric (ae_status e) (er_code (ae_body e)) ;; record (ae_status e)) st).2)
  | Err f => (Err f, st)
  end.
End router.
