(* ===== verification/Admission.v ===== *)
(** * [crates/api]: what a request may change, and how it is refused

    Whatever handler runs, it starts with [authorize]; a request that is not authorized to
    write changes no more than counters and its own rate limit, and every refusal has one of
    the documented codes with its status. *)
From S2P Require Import Prelude RustStd RustFloat Common Core Config Auth Fs Wal Memory Batch Store Engine Recovery Backup Index Query Ranking Executor Database Publish Tracking Observability Metrics Service Handlers.

#[local] Open Scope string_scope.
#[local] Open Scope list_scope.

Create HintDb quiet.
Create HintDb coded.

(** Open a handler up to the steps of Service.v. *)
Ltac unfold_handlers :=
  unfold handle, answer, create_node_handler, update_node_handler, get_node_handler, delete_node_handler,
    create_edge_handler, update_edge_handler, get_edge_handler, delete_edge_handler,
    query_handler, query_stream_handler, transaction_query_handler, transaction_query_stream_handler,
    begin_transaction_handler, list_transactions_handler, transaction_summary_handler, stage_transaction_operation_handler,
    commit_transaction_handler, rollback_transaction_handler, compact_handler, backup_handler,
    restore_handler, repair_handler, rebuild_indexes_handler, maintenance_status_handler,
    integrity_handler, audit_export_handler, replication_status_handler, replication_history_handler,
    configure_leader_handler, configure_follower_handler, register_replica_handler, replica_ack_handler,
    apply_replication_handler, cluster_topology_handler, mark_node_health_handler, promote_node_handler,
    health_handler, readiness_handler, metrics_handler, run_maintenance, authorized, audit, read_result.

(** The action a request is authorized for. *)
Definition required (r : ApiRequest) : option Action :=
  match r with
  | GetHealth | GetReadiness | GetMetrics => None
  | GetNode _ | GetEdge _ | PostQuery _ | PostQueryStream _ | GetTransactions | GetTransaction _
  | PostTransactionQuery _ _ | PostTransactionQueryStream _ _ => Some Read
  | PostNode _ | PutNode _ _ | DeleteNodeById _ | PostEdge _ | PutEdge _ _ | DeleteEdgeById _ | PostBegin _
  | PostOperation _ _ | PostCommit _ | PostRollback _ => Some Write
  | _ => Some Maintain
  end.

(** The codes of error responses, each with its status. *)
Definition error_codes : list (string * N) :=
  [("validation_error", 400); ("conflict", 409); ("not_found", 404); ("corruption", 500); ("io_error", 500);
   ("serialization_error", 500); ("auth_disabled", 503); ("unauthorized", 401); ("forbidden", 403);
   ("rate_limited", 429); ("maintenance_budget_exceeded", 422); ("invalid_audit_export_limit", 422);
   ("stream_query_result_too_large", 422); ("stream_query_body_too_large", 422); ("query_result_too_large", 422)]%N.

Section admission.
Context `{WalCodec, StorageCodec, HnswLib, IndexCodec, DatabaseCodec, AuditCodec, FrameCodec}.
Abbreviation state := (World * (ApiState * list Runtime))%type.

(** The key opens the action on this state. *)
Definition permitted (s : ApiState) (key : option string) (action : Action) : Prop :=
  auth_enabled (auth (api_config s)) = true ∧
  ∃ k p, key = Some k ∧ authenticate (auth (api_config s)) k = Ok p ∧ is_allowed p action = true.

(** ** Quiet computations: only counters, metrics and rate limits change *)

Definition same_data (x y : state) : Prop :=
  y.1 = x.1 ∧ y.2.2 = x.2.2 ∧ api_database y.2.1 = api_database x.2.1 ∧
  maintenance_status y.2.1 = maintenance_status x.2.1 ∧ api_config y.2.1 = api_config x.2.1 ∧
  readiness y.2.1 = readiness x.2.1 ∧ api_audit_log_path y.2.1 = api_audit_log_path x.2.1.
Definition quiet {A} (m : api_m A) : Prop := ∀ x, same_data x (m x).2.

Lemma same_data_refl x : same_data x x.
Proof. by repeat split. Qed.
Lemma same_data_trans x y z : same_data x y → same_data y z → same_data x z.
Proof. unfold same_data. intros (?&?&?&?&?&?&?) (?&?&?&?&?&?&?). split_and!; congruence. Qed.

Lemma quiet_ret {A} (a : A) : quiet (mret a).
Proof. intros x. apply same_data_refl. Qed.
Lemma quiet_bind {A B} (m : api_m A) (f : A → api_m B) : quiet m → (∀ a, quiet (f a)) → quiet (m ≫= f).
Proof.
  intros Hm Hf x. unfold mbind, sm_bind. specialize (Hm x). destruct (m x) as [[a|e] y]; [|done].
  eapply same_data_trans; [exact Hm|apply Hf].
Qed.
Lemma quiet_self : quiet api_self.
Proof. intros [w [s h]]. apply same_data_refl. Qed.
Lemma quiet_result {A} (r : Result ApiError A) : quiet (api_result r).
Proof. intros x. apply same_data_refl. Qed.
Lemma quiet_res {A} (r : Res A) : quiet (api_res r).
Proof. apply quiet_result. Qed.
Lemma quiet_refuse {A} e : quiet (refuse (A := A) e).
Proof. intros x. apply same_data_refl. Qed.
Lemma quiet_run {A} (r : option (Result Failure A)) : quiet (api_run r).
Proof. intros x. apply same_data_refl. Qed.
Lemma quiet_modify f : (∀ w s h, same_data (w, (s, h)) (w, (f s, h))) → quiet (api_modify f).
Proof. intros Hf [w [s h]]. apply Hf. Qed.
Lemma quiet_counter f : quiet (increment_counter f).
Proof. apply quiet_modify. by repeat split. Qed.
Lemma quiet_limit now_ms k : quiet (enforce_rate_limit now_ms k).
Proof.
  apply quiet_bind; [apply quiet_self|]. intros s. cbn zeta.
  destruct (take_token now_ms (default (mkBucket bucket_capacity now_ms) (rate_limits s !! k))) as [bucket []];
    (apply quiet_bind; [by apply quiet_modify|intros _; first [apply quiet_ret|apply quiet_refuse]]).
Qed.
Lemma quiet_authorize now_ms key action : quiet (authorize now_ms key action).
Proof.
  apply quiet_bind; [apply quiet_self|]. intros s. destruct (negb _); [apply quiet_refuse|].
  destruct key as [k|]; [|apply quiet_refuse]. apply quiet_bind; [apply quiet_result|]. intros p.
  apply quiet_bind; [apply quiet_limit|]. intros _. destruct (is_allowed p action); [apply quiet_ret|apply quiet_refuse].
Qed.
Lemma quiet_read {A} (f : Database → A) : quiet (read_database f).
Proof. apply quiet_bind; [apply quiet_self|]. intros s. apply quiet_ret. Qed.
Lemma quiet_snapshot : quiet snapshot_of_database.
Proof. intros [w [s h]]. apply same_data_refl. Qed.
Lemma quiet_overlay tx : quiet (overlay_of_transaction tx).
Proof. intros [w [s h]]. apply same_data_refl. Qed.

(** ** Authorization comes first *)

Lemma authorize_permitted now_ms key action w s h p st :
  authorize now_ms key action (w, (s, h)) = (Ok p, st) → permitted s key action.
Proof.
  unfold authorize, mbind, sm_bind, api_self. destruct (auth_enabled (auth (api_config s))) eqn:He; [|done]. simpl.
  destruct key as [k|]; [|done]. unfold api_result, sm_lift.
  destruct (authenticate (auth (api_config s)) k) as [p'|e] eqn:Ha; [|done]. cbn [map_err].
  destruct (enforce_rate_limit now_ms k (w, (s, h))) as [[[]|f] st']; [|done].
  destruct (is_allowed p' action) eqn:Hp; [|done]. intros _. split; [done|]. eauto.
Qed.

(** A handler ends as [authorize] does when that fails. *)
Definition guarded {A} (now_ms : N) (key : option string) (action : Action) (m : api_m A) : Prop :=
  ∀ x, match authorize now_ms key action x with (Err f, y) => m x = (Err f, y) | _ => True end.

Lemma guarded_authorize {A} now_ms key action (f : Principal → api_m A) :
  guarded now_ms key action (authorize now_ms key action ≫= f).
Proof. intros x. unfold mbind, sm_bind. by destruct (authorize _ _ _ x) as [[p|e] y]. Qed.
Lemma guarded_bind {A B} now_ms key action (m : api_m A) (f : A → api_m B) :
  guarded now_ms key action m → guarded now_ms key action (m ≫= f).
Proof.
  intros Hm x. specialize (Hm x). destruct (authorize _ _ _ x) as [[p|e] y]; [done|].
  unfold mbind, sm_bind. by rewrite Hm.
Qed.
Lemma guarded_self {A} now_ms key action (f : ApiState → api_m A) :
  (∀ s, guarded now_ms key action (f s)) → guarded now_ms key action (api_self ≫= f).
Proof. intros Hf [w [s h]]. apply (Hf s (w, (s, h))). Qed.

(** ** Coded computations: their errors are in the table *)

Definition known (e : ApiError) : Prop := (er_code (ae_body e), ae_status e) ∈ error_codes.
Definition coded_result {A} (r : Result ApiError A) : Prop := match r with Ok _ => True | Err e => known e end.
Definition coded {A} (m : api_m A) : Prop := ∀ x, match (m x).1 with Err (Refused e) => known e | _ => True end.

Lemma known_new status code message : bool_decide ((code, status) ∈ error_codes) = true →
  known (ApiError_new status code message).
Proof. apply bool_decide_eq_true. Qed.
Lemma known_from_error e : known (from_error e).
Proof. destruct e; by apply known_new. Qed.

Lemma coded_ret {A} (a : A) : coded (mret a).
Proof. done. Qed.
Lemma coded_bind {A B} (m : api_m A) (f : A → api_m B) : coded m → (∀ a, coded (f a)) → coded (m ≫= f).
Proof.
  intros Hm Hf x. unfold mbind, sm_bind. specialize (Hm x). destruct (m x) as [[a|e] y]; [|done]. apply Hf.
Qed.
Lemma coded_self : coded api_self.
Proof. by intros [w [s h]]. Qed.
Lemma coded_modify f : coded (api_modify f).
Proof. by intros [w [s h]]. Qed.
Lemma coded_refuse {A} e : known e → coded (refuse (A := A) e).
Proof. by intros He x. Qed.
Lemma coded_api_result {A} (r : Result ApiError A) : coded_result r → coded (api_result r).
Proof. intros Hr x. unfold api_result, sm_lift. by destruct r. Qed.
Lemma coded_res {A} (r : Res A) : coded (api_res r).
Proof. apply coded_api_result. destruct r; [done|apply known_from_error]. Qed.
Lemma coded_failure {A} (r : Result Failure A) :
  match map_err api_failure r with Err (Refused e) => known e | _ => True end.
Proof. destruct r as [a|[e|msg]]; [done|apply known_from_error|done]. Qed.
Lemma coded_disk {A} (m : io A) : coded (on_api_disk m).
Proof. intros [w x]. unfold on_api_disk. destruct (m w) as [r w']. apply coded_failure. Qed.
Lemma coded_database {A} (m : db_m A) : coded (on_database m).
Proof. intros [w [s h]]. unfold on_database. destruct (m _) as [r [w' [d h']]]. apply coded_failure. Qed.
Lemma coded_try {A} (m : db_m A) : coded (try_database m).
Proof. intros [w [s h]]. unfold try_database. by destruct (m _) as [[a|[e|msg]] [w' [d h']]]. Qed.
Lemma coded_run {A} (r : option (Result Failure A)) : coded (api_run r).
Proof. intros x. unfold api_run, sm_lift. destruct r as [r|]; [apply coded_failure|done]. Qed.
Lemma coded_snapshot : coded snapshot_of_database.
Proof. by intros [w [s h]]. Qed.
Lemma coded_overlay tx : coded (overlay_of_transaction tx).
Proof.
  intros [w [s h]]. unfold overlay_of_transaction. destruct (transaction_query_view _ tx); [done|apply known_from_error].
Qed.

Lemma coded_frame frame n st : coded_result (push_stream_frame frame n st).
Proof.
  unfold push_stream_frame. destruct (_ <? _)%N; [by apply known_new|].
  destruct (json_encode_frame frame); [|by apply known_new]. cbn [map_err mbind result_bind].
  by destruct (_ <? _)%N; [apply known_new|].
Qed.
Lemma coded_result_bind {A B} (r : Result ApiError A) (f : A → Result ApiError B) :
  coded_result r → (∀ a, coded_result (f a)) → coded_result (r ≫= f).
Proof. intros Hr Hf. destruct r; [apply Hf|done]. Qed.
Lemma coded_stream e : coded_result (serialize_query_execution_stream e).
Proof.
  apply coded_result_bind; [apply coded_frame|]. intros st.
  apply coded_result_bind; [|intros st'; apply coded_result_bind; [apply coded_frame|done]].
  revert st. induction (qe_items e) as [|item items IH]; intros st; [done|].
  apply coded_result_bind; [|apply IH]. unfold push_item. destruct (frame_of_item item). apply coded_frame.
Qed.
Lemma coded_budget r : coded_result (enforce_query_response_budget r).
Proof. unfold enforce_query_response_budget. cbn zeta. by destruct (_ <? _)%N; [apply known_new|]. Qed.
Lemma coded_missing {A} (o : option A) e : known e → coded_result (ok_or o e).
Proof. by destruct o. Qed.
End admission.

#[export] Hint Resolve coded_ret coded_bind coded_self coded_modify coded_refuse coded_api_result coded_res coded_disk
  coded_database coded_try coded_run coded_snapshot coded_overlay coded_stream coded_budget coded_missing : coded.
#[export] Hint Extern 1 (known (ApiError_new _ _ _)) => (apply known_new; reflexivity) : coded.
#[export] Hint Extern 1 (known (from_error _)) => apply known_from_error : coded.
#[export] Hint Extern 1 (coded (match ?x with _ => _ end)) => destruct x : coded.

#[export] Hint Resolve quiet_ret quiet_bind quiet_self quiet_result quiet_res quiet_refuse quiet_run quiet_counter
  quiet_authorize quiet_read quiet_snapshot quiet_overlay : quiet.
#[export] Hint Extern 1 (quiet (match ?x with _ => _ end)) => destruct x : quiet.
#[export] Hint Extern 2 (quiet (authorized _ _ _)) => apply quiet_authorize : quiet.

Section requests.
Context `{WalCodec, StorageCodec, HnswLib, IndexCodec, DatabaseCodec, AuditCodec, FrameCodec}.
Abbreviation state := (World * (ApiState * list Runtime))%type.

Lemma reads_quiet c key r : required r = None ∨ required r = Some Read → quiet (handle c key r).
Proof.
  intros Hr. destruct r; try (by destruct Hr); unfold_handlers; (apply quiet_bind; [|auto with quiet]);
    unfold record_query_metrics, record_query_stream_metrics, record_scores; auto 20 with quiet.
Qed.

Lemma handle_guarded c key r action : required r = Some action →
  guarded (rc_now_ms c) key action (handle c key r).
Proof.
  intros Hr. destruct r; try done; injection Hr as <-; unfold_handlers; apply guarded_bind;
    first [apply guarded_authorize | apply guarded_bind; apply guarded_authorize
      | apply guarded_self; intros s; cbn zeta; first [apply guarded_authorize | apply guarded_bind; apply guarded_authorize]].
Qed.

(** An unauthorized request ends in a refusal, without side effects beyond its rate limit. *)
Lemma handle_refused c key r action w s h : required r = Some action → ¬ permitted s key action →
  is_ok (handle c key r (w, (s, h))).1 = false ∧ same_data (w, (s, h)) (handle c key r (w, (s, h))).2.
Proof.
  intros Hr Hno. pose proof (handle_guarded c key r action Hr (w, (s, h))) as Hg.
  pose proof (quiet_authorize (rc_now_ms c) key action (w, (s, h))) as Hq.
  destruct (authorize _ _ _ _) as [[p|f] y] eqn:Ha; [by apply authorize_permitted in Ha|]. by rewrite Hg.
Qed.

Lemma serve_data c key r x : same_data x (handle c key r x).2 → same_data x (serve c key r x).2.
Proof.
  unfold serve. destruct (handle c key r x) as [[p|[e|msg|]] [w [s h]]]; cbn [fst snd]; try done;
    intros Hx; eapply same_data_trans; (exact Hx || by repeat split).
Qed.

(** C4: Only a permitted request changes anything: unless the x-api-key of a request is
    that of a role allowed to write (or to maintain, for the requests that need it), serving it
    leaves the disk, the audit log on it, the database, its graph, indexes and transactions,
    the maintenance status and the readiness as they were, and an action that is not permitted
    is never answered with success. *)
Theorem only_permitted_changes c key r w s h :
  (same_data (w, (s, h)) (serve c key r (w, (s, h))).2 ∨
    ∃ action, required r = Some action ∧ action ≠ Read ∧ permitted s key action) ∧
  ∀ action, required r = Some action → ¬ permitted s key action → is_ok (serve c key r (w, (s, h))).1 = false.
Proof.
  split.
  - destruct (required r) as [action|] eqn:Hr; [|left; apply serve_data, reads_quiet; by left].
    destruct (decide (action = Read)) as [->|Hne]; [left; apply serve_data, reads_quiet; by right|].
    assert (Hdec : permitted s key action ∨ ¬ permitted s key action).
    { unfold permitted. destruct (auth_enabled _); [|by right; intros [? _]].
      destruct key as [k|]; [|by right; intros (_ & k & p & ? & _)].
      destruct (authenticate (auth (api_config s)) k) as [p|] eqn:Hp; [|right; intros (_ & k' & p & [= <-] & Hp' & _); congruence].
      destruct (is_allowed p action) eqn:Ha; [left; split; [done|]; by exists k, p|].
      right. intros (_ & k' & p' & [= <-] & Hp' & Ha'). congruence. }
    destruct Hdec as [Hp|Hno]; [right; eauto|]. left. by apply serve_data, (handle_refused c key r action).
  - intros action Hr Hno. destruct (handle_refused c key r action w s h Hr Hno) as [Hbad _]. unfold serve.
    by destruct (handle c key r (w, (s, h))) as [[p|[e|msg|]] st].
Qed.

(** ** Codes *)

Lemma coded_limit now_ms k : coded (enforce_rate_limit now_ms k).
Proof.
  apply coded_bind; [auto with coded|]. intros s. cbn zeta.
  destruct (take_token now_ms (default (mkBucket bucket_capacity now_ms) (rate_limits s !! k))) as [bucket []];
    auto with coded.
Qed.
Lemma coded_authorize now_ms key action : coded (authorize now_ms key action).
Proof.
  apply coded_bind; [auto with coded|]. intros s. destruct (negb _); [auto with coded|].
  destruct key as [k|]; [|auto with coded]. apply coded_bind.
  - apply coded_api_result. by destruct (authenticate _ k); [|apply known_new].
  - intros p. apply coded_bind; [apply coded_limit|]. intros _. destruct (is_allowed p action); auto with coded.
Qed.
Lemma coded_audit event : coded (record_audit event).
Proof. unfold record_audit, increment_counter. auto 8 with coded. Qed.
Lemma coded_maintenance_budget operation rejected : coded (enforce_maintenance_budget operation rejected).
Proof.
  unfold enforce_maintenance_budget, mark_maintenance_finished. apply coded_bind; [auto with coded|].
  intros s. cbn zeta. destruct (_ || _); auto with coded.
Qed.
#[local] Hint Resolve coded_authorize coded_audit coded_maintenance_budget : coded.

Lemma handle_coded c key r : coded (handle c key r).
Proof.
  destruct r; unfold_handlers;
    unfold record_query_metrics, record_query_stream_metrics, record_scores, increment_counter, read_database,
      mark_maintenance_started, mark_maintenance_finished, node_not_found, edge_not_found; cbn zeta;
    auto 30 with coded.
Qed.

Lemma table_ok : Forall error_ok error_codes.
Proof.
  apply list.Forall_forall. intros e He. assert (Hall : forallb (λ e,
    str_all (λ c, negb (bool_decide (c = bar))) e.1 && (e.2 <=? u16_max)%N) error_codes = true) by (vm_compute; reflexivity).
  rewrite forallb_forall in Hall. specialize (Hall e (proj1 (list_elem_of_In _ _) He)). destruct e as [code status].
  by apply andb_true_iff in Hall as [? ?%N.leb_le].
Qed.

End requests.

(** ** A concrete service *)

Module Demo.
Import Wal.Demo Store.Demo Index.Demo Tracking.Demo.

(** Every frame is written the same: what a frame looks like does not matter here. *)
Definition frame_codec : FrameCodec := {| json_encode_frame _ := Ok "{}" |}.
#[global] Existing Instance frame_codec.

Definition config : AppConfig := AppConfig_default 7 11 12 13.
Definition service : ApiState :=
  mkApi "undr9" config true database AtomicServiceCounters_default ["audit.log"; "meta"; "db"]
    (maintenance_status_default config) ∅ ∅.
Definition clock : RequestClock := mkClock 1000 1000 1000 1000 3 (λ _, 0%N).
Definition state : World * (ApiState * list Runtime) := (Wal.Demo.world, (service, [])).
Definition reader : option string := Some (reader_api_key (auth config)).
Definition writer : option string := Some (writer_api_key (auth config)).
Definition post : ApiRequest := PostNode (Batch.Demo.node "c" "robot").
End Demo.

(** A reader's write is refused and changes nothing. *)
Lemma only_permitted_changes_witness :
  same_data Demo.state (serve Demo.clock Demo.reader Demo.post Demo.state).2 ∧
  is_ok (serve Demo.clock Demo.reader Demo.post Demo.state).1 = false.
Proof.
  assert (Hno : ¬ permitted Demo.service Demo.reader Write).
  { intros (_ & k & p & Hk & Hp & Ha). injection Hk as <-.
    assert (Hreader : authenticate (auth (api_config Demo.service)) (reader_api_key (auth Demo.config)) =
      Ok (mkPrincipal "reader" Reader)) by (vm_compute; reflexivity).
    pose proof (eq_trans (eq_sym Hreader) Hp) as Heq. injection Heq as <-. discriminate Ha. }
  destruct (only_permitted_changes Demo.clock Demo.reader Demo.post Wal.Demo.world Demo.service []) as [Hdata Hbad].
  split; [|apply (Hbad Write); [reflexivity|exact Hno]].
  destruct Hdata as [Hdata|(action & Haction & _ & Hp)]; [exact Hdata|]. injection Haction as <-. destruct (Hno Hp).
Defined.

