(* ===== verification/Serving.v ===== *)
(** * [crates/api]: the service on top of the database

    What a served request does to the database is one call of it, so the invariant of the
    published snapshot carries over to the service; what a query is answered is true of the
    engine's graph and within the budgets. *)
From S2P Require Import Prelude RustStd RustFloat Common Core Config Auth Fs Wal Memory Batch Store Engine Recovery Checkpoint Clients Backup Index Query Ranking Executor Database Publish Tracking Observability Metrics Service Handlers Admission.

#[local] Open Scope string_scope.
#[local] Open Scope list_scope.

Create HintDb effect.

Section effects.
Context `{WalCodec, StorageCodec, HnswLib, IndexCodec, DatabaseCodec, AuditCodec, FrameCodec}.
Abbreviation state := (World * (ApiState * list Runtime))%type.

(** The call of the database a request makes, when its path names an identifier. *)
Definition named {A} (r : Res A) (call : A → db_call) : option db_call :=
  match r with Ok a => Some (call a) | Err _ => None end.
Definition request_call (r : ApiRequest) : option db_call :=
  match r with
  | PostNode n | PutNode _ n => Some (CallUpsertNode n)
  | DeleteNodeById id => named (NodeId_new id) CallDeleteNode
  | PostEdge x | PutEdge _ x => Some (CallUpsertEdge x)
  | DeleteEdgeById id => named (EdgeId_new id) CallDeleteEdge
  | PostBegin level => Some (CallBegin (default Snapshot level))
  | PostOperation id op => named (TransactionId_new id) (λ tx, CallStage tx op)
  | PostCommit id => named (TransactionId_new id) CallCommit
  | PostRollback id => named (TransactionId_new id) CallRollback
  | PostCompact => Some CallCompact
  | PostRebuildIndexes => Some CallRebuildIndexes
  | PostLeader => Some CallConfigureLeader
  | PostFollower id address => Some (CallConfigureFollower id address)
  | PostAck id lsn => Some (CallAcknowledge id lsn)
  | PostApply records => Some (CallReplicate records)
  | PostClusterNode id address => Some (CallRegisterReplica id address)
  | PostNodeHealth id healthy => Some (CallMarkHealth id healthy)
  | PostPromote id => Some (CallPromote id)
  | _ => None
  end.
(** The two requests that put another engine in place. *)
Definition replaces_engine (r : ApiRequest) : bool :=
  match r with PostRestore _ _ | PostRepair => true | _ => false end.

(** The requests that work on files other than through a call of the database. *)
Definition uses_disk (r : ApiRequest) : bool :=
  match r with PostBackup _ | GetIntegrity | GetAudit _ => true | _ => false end.

(** ** Computations around a call

    A relation between the states before and after a computation, which everything the service
    does around the call of the database keeps. *)

Class Frame (R : state → state → Prop) := {
  fr_pre :: PreOrder R;
  fr_quiet x y : same_data x y → R x y;
  fr_status w s h m : R (w, (s, h)) (w, (set_maintenance m s, h));
  fr_audit event x : R x (record_audit event x).2;
}.

Section frame.
Context (R : state → state → Prop) `{!Frame R}.

Definition keeps {A} (m : api_m A) : Prop := ∀ x, R x (m x).2.

Lemma keeps_ret {A} (a : A) : keeps (mret a).
Proof. intros x. by apply fr_quiet. Qed.
Lemma keeps_bind {A B} (m : api_m A) (f : A → api_m B) : keeps m → (∀ a, keeps (f a)) → keeps (m ≫= f).
Proof.
  intros Hm Hf x. unfold mbind, sm_bind. specialize (Hm x). destruct (m x) as [[a|e] y]; [|done].
  etrans; [exact Hm|apply Hf].
Qed.
Lemma keeps_quiet {A} (m : api_m A) : quiet m → keeps m.
Proof. intros Hm x. apply fr_quiet, Hm. Qed.
Lemma keeps_audit event : keeps (record_audit event).
Proof. intros x. apply fr_audit. Qed.
Lemma keeps_started operation t n e : keeps (mark_maintenance_started operation t n e).
Proof. intros [w [s h]]. apply fr_status. Qed.
Lemma keeps_finished operation outcome detail t l n e : keeps (mark_maintenance_finished operation outcome detail t l n e).
Proof. intros [w [s h]]. apply fr_status. Qed.

(** Either no call was made, or the call was, on the disk and the database as they were; when
    the computation succeeds, so did the call it was to make. *)
Definition called (call : db_call) (w : World) (s s1 : ApiState) (h : list Runtime) : state :=
  let x := run_call call (w, (api_database s, h)) in (x.2.1, (set_database x.2.2.1 s1, x.2.2.2)).
Definition effect {A} (call : option db_call) (m : api_m A) : Prop := ∀ w s h,
  let y := m (w, (s, h)) in
  (R (w, (s, h)) y.2 ∧ (is_ok y.1 = true → call = None)) ∨
  ∃ c s1, call = Some c ∧ R (w, (s, h)) (w, (s1, h)) ∧ R (called c w s s1 h) y.2 ∧
    (is_ok y.1 = true → is_ok (run_call c (w, (api_database s, h))).1 = true).

Lemma effect_none {A} (m : api_m A) : keeps m → effect None m.
Proof. intros Hm w s h. left. by split. Qed.
Lemma effect_refuse {A} call e : effect call (refuse (A := A) e).
Proof. intros w s h. left. by split. Qed.
Lemma effect_bind {A B} call (m : api_m A) (f : A → api_m B) :
  effect call m → (∀ a, keeps (f a)) → effect call (m ≫= f).
Proof.
  intros Hm Hf w s h. specialize (Hm w s h). unfold mbind, sm_bind. destruct (m _) as [[a|e] y]; [|exact Hm].
  specialize (Hf a y). cbn [fst snd] in Hm. destruct Hm as [[Hm Hok]|(c & s1 & Hc & Hs1 & Hm & Hok)]; [left|right; exists c, s1; split_and!; [done..| |]].
  - split; [by etrans|intros _; by apply Hok].
  - by etrans.
  - intros _. by apply Hok.
Qed.
(** What comes before the call leaves disk, database and store alone. *)
Definition before_call {A} (m : api_m A) : Prop := ∀ x, let y := (m x).2 in
  y.1 = x.1 ∧ y.2.2 = x.2.2 ∧ api_database y.2.1 = api_database x.2.1 ∧ R x y.
Lemma before_quiet {A} (m : api_m A) : quiet m → before_call m.
Proof. intros Hm x. destruct (Hm x) as (? & ? & ? & ?). split_and!; [done..|]. by apply fr_quiet. Qed.
Lemma effect_after {A B} call (m : api_m A) (f : A → api_m B) :
  before_call m → (∀ a, effect call (f a)) → effect call (m ≫= f).
Proof.
  intros Hm Hf w s h. unfold mbind, sm_bind. specialize (Hm (w, (s, h))).
  destruct (m _) as [[a|e] [w' [s' h']]]; cbn [fst snd] in Hm; destruct Hm as (-> & -> & Hd & HR); [|by left].
  destruct (Hf a w s' h) as [[HR' Hok]|(c & s1 & Hc & Hs1 & Hm & Hok)]; [left; split; [by etrans|done]|right].
  exists c, s1. unfold called in *. rewrite Hd in *. split_and!; [done|by etrans|done|done].
Qed.
Lemma effect_named {A B} (r : Res A) (call : A → db_call) (f : A → api_m B) :
  (∀ a, effect (Some (call a)) (f a)) → effect (named r call) (api_res r ≫= f).
Proof. intros Hf w s h. unfold mbind, sm_bind. destruct r as [a|e]; [apply Hf|by left]. Qed.

(** The call runs [m], whatever [m] returns. *)
Definition runs {A} (c : db_call) (m : db_m A) : Prop := ∀ x, (m ;; mret tt) x = run_call c x.
Lemma runs_unit {A} c (m : db_m A) : run_call c = (m ;; mret tt) → runs c m.
Proof. intros Hc x. by rewrite Hc. Qed.
Lemma runs_itself c : runs c (run_call c).
Proof. intros x. unfold mbind, sm_bind. by destruct (run_call c x) as [[[]|f] y]. Qed.

Lemma effect_database {A} c (m : db_m A) : runs c m → effect (Some c) (on_database m).
Proof.
  intros Hc w s h. right. exists c, s. unfold called. cbn zeta. rewrite <-Hc. unfold on_database, mbind, sm_bind.
  destruct (m _) as [[a|f] [w' [d h']]]; by split_and!.
Qed.
Lemma effect_try {A B} c (m : db_m A) (f : Res A → api_m B) : runs c m → (∀ a, keeps (f (Ok a))) →
  (∀ e, keeps (f (Err e)) ∧ ∀ x, is_ok (f (Err e) x).1 = false) → effect (Some c) (try_database m ≫= f).
Proof.
  intros Hc Hok Herr w s h. right. exists c, s. unfold called. cbn zeta. rewrite <-Hc.
  unfold mbind, sm_bind, try_database. destruct (m _) as [[a|[e|msg]] [w' [d h']]]; [|destruct (Herr e) as [Hk Hno]|by split_and!].
  - by split_and!; [..|apply (Hok a (w', (set_database d s, h')))|].
  - split_and!; [done..|apply (Hk (w', (set_database d s, h')))|]. by rewrite Hno.
Qed.

Lemma before_budget operation rejected : before_call (enforce_maintenance_budget operation rejected).
Proof.
  intros [w [s h]]. unfold enforce_maintenance_budget, mbind, sm_bind, api_self. cbn zeta.
  destruct (_ || _); split_and!; try done. apply fr_status.
Qed.
Lemma keeps_budget operation rejected : keeps (enforce_maintenance_budget operation rejected).
Proof. intros x. by destruct (before_budget operation rejected x) as (_ & _ & _ & ?). Qed.
Lemma before_started operation t n e : before_call (mark_maintenance_started operation t n e).
Proof. intros [w [s h]]. split_and!; try done. apply fr_status. Qed.
End frame.
End effects.

#[export] Hint Extern 1 (keeps _ (_ ≫= _)) => apply keeps_bind : effect.
#[export] Hint Extern 1 (keeps _ _) => (first
  [apply keeps_ret | apply keeps_audit | apply keeps_started | apply keeps_finished | apply keeps_budget]) : effect.
#[export] Hint Extern 1 (keeps _ (match ?x with _ => _ end)) => destruct x : effect.
#[export] Hint Extern 2 (keeps _ _) => (apply keeps_quiet; auto with quiet; fail) : effect.
#[export] Hint Extern 1 (before_call _ _) => (apply before_quiet; auto with quiet; fail) : effect.

Section service.
Context `{WalCodec, StorageCodec, HnswLib, IndexCodec, DatabaseCodec, AuditCodec, FrameCodec}.

Section handlers.
Context (R : World * (ApiState * list Runtime) → World * (ApiState * list Runtime) → Prop) `{!Frame R}.

Lemma effect_maintenance {A} clock key operation resource audit_detail detail count c (work : db_m A) : runs c work →
  effect R (Some c) (run_maintenance clock key operation resource audit_detail detail count work).
Proof.
  intros Hc. unfold run_maintenance, authorized, audit. apply (effect_after R); [auto with effect quiet|]. intros p.
  apply (effect_after R); [by apply (before_budget R)|]. intros [n e]. apply (effect_after R); [by apply (before_started R)|]. intros _.
  apply (effect_try R); [done|auto 8 with effect quiet|]. intros err. split; [auto 8 with effect quiet|by intros [w [s h]]].
Qed.

(** One call under the lock, and then what keeps the rest. *)
Ltac one_call := apply (effect_bind R); [first [by apply (effect_refuse R) | apply (effect_database R);
    first [apply runs_itself | by apply runs_unit]] | intros; auto 10 with effect quiet].

(** Any other use of the disk is kept too. *)
Definition disk_kept : Prop := (∀ A (m : io A), keeps R (on_api_disk m)) ∧
  ∀ A (f : Database → io A), keeps R (try_database (d ← db_self; on_disk (f d))).

Lemma disk_effect c key r : uses_disk r = true → disk_kept → effect R (request_call r) (handle c key r).
Proof.
  intros Hr [Hdisk Htry]. destruct r; try done; unfold_handlers; cbn [request_call];
    apply (effect_none R); auto 20 with effect quiet.
Qed.

Lemma handle_effect c key r : replaces_engine r = false → (uses_disk r = true → disk_kept) →
  effect R (request_call r) (handle c key r).
Proof.
  intros Hr Hdisk. destruct (uses_disk r) eqn:Hu; [by apply disk_effect; [|apply Hdisk]|clear Hdisk].
  destruct r; try done; unfold_handlers; cbn [request_call];
    unfold record_query_metrics, record_query_stream_metrics, record_scores;
    try (apply (effect_none R); auto 20 with effect quiet; fail);
    (apply (effect_bind R); [|auto with effect]);
    try (apply (effect_after R); [auto with effect quiet|intros ?]; one_call; fail);
    try (apply (effect_after R); [auto with effect quiet|intros ?]; apply (effect_named R); intros ?; one_call; fail).
  - apply (effect_after R); [auto with effect quiet|intros ?]. apply (effect_after R); [auto with effect quiet|intros ?].
    case_decide; [by apply (effect_refuse R)|one_call].
  - apply (effect_after R); [auto with effect quiet|intros ?]. apply (effect_after R); [auto with effect quiet|intros ?].
    case_decide; [by apply (effect_refuse R)|one_call].
  - apply (effect_bind R); [|auto with effect].
    by refine (effect_maintenance c key "compact" "storage" _ _ _ CallCompact compact (runs_itself CallCompact)).
  - refine (effect_maintenance c key "rebuild_indexes" "index" _ _ _ CallRebuildIndexes rebuild_indexes _).
    by apply runs_unit.
Qed.
End handlers.

Lemma serve_database c key r x : api_database (serve c key r x).2.2.1 = api_database (handle c key r x).2.2.1.
Proof. unfold serve. by destruct (handle c key r x) as [[p|[e|msg|]] [w [s h]]]. Qed.

Lemma serve_result c key r x : (serve c key r x).1 = (handle c key r x).1.
Proof. unfold serve. by destruct (handle c key r x) as [[p|[e|msg|]] [w [s h]]]. Qed.

(** ** The database, whatever happens on the disk *)

Definition same_database (x y : World * (ApiState * list Runtime)) : Prop := api_database y.2.1 = api_database x.2.1.

#[local] Instance same_database_frame : Frame same_database.
Proof.
  split; [|by intros x y (_ & _ & ? & _)|done|].
  - split; [by intros x|]. intros x y z. unfold same_database. congruence.
  - intros event [w [s h]]. unfold same_database, record_audit, mbind, sm_bind, api_self, on_api_disk.
    destruct (append_audit_event _ _ w) as [[[]|f] w1]; [|done]. cbn [map_err].
    by destruct (prune_audit_log _ _ w1) as [[n|f] w2].
Qed.
Lemma same_database_disk : disk_kept same_database.
Proof.
  split.
  - intros A m [w x]. unfold on_api_disk. by destruct (m w).
  - intros A f [w [s h]]. unfold try_database, mbind, sm_bind, db_self, on_disk, on_world. by destruct (f _ w) as [r w'].
Qed.

(** The database afterwards is as before, or as the call leaves it. *)
Lemma served_call c key r w s h : replaces_engine r = false →
  let y := serve c key r (w, (s, h)) in
  (api_database y.2.2.1 = api_database s ∧ (is_ok y.1 = true → request_call r = None)) ∨
  ∃ call, request_call r = Some call ∧ let x := run_call call (w, (api_database s, h)) in
    api_database y.2.2.1 = x.2.2.1 ∧ (is_ok y.1 = true → is_ok x.1 = true).
Proof.
  intros Hr. cbn zeta. rewrite serve_database, serve_result.
  destruct (handle_effect same_database c key r Hr (λ _, same_database_disk) w s h)
    as [[Hd Hok]|(call & s1 & Hcall & _ & Hd & Hok)]; [by left|right; by exists call].
Qed.

(** What serving a request did, given the call of the database it makes. *)
Lemma served_step c key r w s h : replaces_engine r = false → published (api_database s) →
  (∀ call, request_call r = Some call → call_settled call (api_database s)) →
  let y := serve c key r (w, (s, h)) in
  let d' := api_database y.2.2.1 in
  (d' = api_database s ∧ (is_ok y.1 = true → request_call r = None)) ∨ ∃ call, request_call r = Some call ∧
    let x := run_call call (w, (api_database s, h)) in
    d' = x.2.2.1 ∧ (is_ok y.1 = true → is_ok x.1 = true) ∧
    (if replicates call then published d' else fine (call_batch call (api_database s)) (api_database s) x).
Proof.
  intros Hr Hp Hset. cbn zeta. destruct (served_call c key r w s h Hr) as [Hd|(call & Hcall & Hd & Hok)]; [by left|right].
  exists call. split; [done|]. split; [done|]. split; [done|]. rewrite Hd. by apply published_step; [|apply Hset].
Qed.

End service.

(** ** A concrete input *)

