(* ===== verification/Answers.v ===== *)
(** * [crates/api]: what the service answers

    The handlers composed with the database, the executor and the budgets: a query is answered
    from the engine's graph, a write that was acknowledged is read back, and a maintenance
    operation reports how it ended. *)
From S2P Require Import Prelude RustStd RustFloat Common Core Config Auth Fs Wal Memory Batch Store Engine Recovery Checkpoint Clients Backup Index Query Ranking Executor Database Publish Tracking Observability Metrics Service Handlers Admission Serving.

#[local] Open Scope string_scope.
#[local] Open Scope list_scope.

Section answers.
Context `{WalCodec, StorageCodec, HnswLib, IndexCodec, DatabaseCodec, AuditCodec, FrameCodec}.
Abbreviation state := (World * (ApiState * list Runtime))%type.

Lemma serve_ok c key r x p y : serve c key r x = (Ok p, y) →
  ∃ z, handle c key r x = (Ok p, z) ∧ y.1 = z.1 ∧ y.2.2 = z.2.2 ∧ api_database y.2.1 = api_database z.2.1.
Proof.
  unfold serve. destruct (handle c key r x) as [[q|[e|msg|]] [w [s h]]]; intros Hy; try discriminate Hy.
  injection Hy as <- <-. by eexists.
Qed.

(** ** Queries *)

Definition response_items (r : QueryResponse) : N :=
  N.of_nat (length (qr_nodes r) + length (qr_edges r) + length (qr_ranked_results r)
    + match qr_path r with Some p => length (path_node_ids p) + length (path_edge_ids p) | None => 0 end).

Lemma budget_cases r : match enforce_query_response_budget r with
  | Ok _ => (response_items r <= MAX_QUERY_RESPONSE_ITEMS)%N
  | Err e => (MAX_QUERY_RESPONSE_ITEMS < response_items r)%N ∧ (er_code (ae_body e), ae_status e) = ("query_result_too_large", 422%N)
  end.
Proof.
  unfold enforce_query_response_budget. cbv zeta. fold (response_items r).
  destruct (N.ltb_spec MAX_QUERY_RESPONSE_ITEMS (response_items r)); [by split|lia].
Qed.

Lemma published_view d h : published d →
  view_of (snapshot_view h (db_published_snapshot d)) (e_maps (db_engine d)) ∧ keyed (e_maps (db_engine d)).
Proof.
  intros [Hwf [T1 _ T3]]. split; [|split; apply Hwf].
  rewrite <-T1. apply snapshot_view_of. by rewrite T1.
Qed.

(** The result of the handler once the request is authorized. *)
Definition query_result (d : Database) (h : list Runtime) (clock : nat → N) (request : QueryRequest)
    : Result ApiFailure QueryResponse :=
  match execute (snapshot_view h (db_published_snapshot d)) clock request with
  | Some r => response ← map_err api_failure r; map_err Refused (enforce_query_response_budget response) ;; Ok response
  | None => Err Diverged
  end.

Lemma handle_query c key request w s h : (handle c key (PostQuery request) (w, (s, h))).1 =
  match (authorize (rc_now_ms c) key Read (w, (s, h))).1 with
  | Ok _ => fmap (M:=Result ApiFailure) QueryPayload (query_result (api_database s) h (rc_query c) request)
  | Err f => Err f
  end.
Proof.
  unfold handle, answer, query_handler, authorized, query_result. unfold mbind at 1 2, sm_bind at 1 2.
  pose proof (quiet_authorize (rc_now_ms c) key Read (w, (s, h))) as (_ & Hh & Hd & _).
  destruct (authorize _ _ _ _) as [[p|f] [w1 [s1 h1]]]; [|done]. cbn [fst snd] in *. subst h1.
  unfold mbind at 1, sm_bind at 1, snapshot_of_database. rewrite Hd.
  unfold mbind at 1, sm_bind at 1, api_run, sm_lift. destruct (execute _ _ request) as [[response|f]|]; [|done..].
  cbn [map_err]. unfold mbind at 1, sm_bind at 1, api_result, sm_lift. cbn [mbind result_bind].
  by destruct (enforce_query_response_budget response).
Qed.


(** ** Writes *)

Lemma call_keeps_engine r call : request_call r = Some call → replaces_engine r = false.
Proof. by destruct r. Qed.

(** A lookup that is answered has the node of the graph, and nothing else. *)
Lemma lookup_exact c key id w s h p : published (api_database s) →
  (serve c key (PostQuery (GetNodeById id)) (w, (s, h))).1 = Ok p →
  p = QueryPayload (mkResponse ExactLookup (option_list ((e_maps (db_engine (api_database s))).1 !! id)) [] [] None None).
Proof.
  intros Hp. destruct (published_view (api_database s) h Hp) as [Hv _]. rewrite serve_result, handle_query.
  destruct (authorize _ _ _ _) as [[pr|f] st]; [|done]. cbn [fst]. unfold query_result.
  assert (Hrun : execute (snapshot_view h (db_published_snapshot (api_database s))) (rc_query c) (GetNodeById id) =
    Some (Ok (mkResponse ExactLookup (option_list ((e_maps (db_engine (api_database s))).1 !! id)) [] [] None None))).
  { rewrite <-(vo_get_node _ _ Hv). unfold execute, execute_iter. cbn [plan try_res]. unfold collect_response.
    by destruct (gv_get_node _ id). }
  rewrite Hrun. cbn [map_err mbind result_bind].
  destruct (enforce_query_response_budget _) as [[]|e]; [|done]. simpl. congruence.
Qed.


(** ** Maintenance *)

(** How the status of maintenance reports the end of an operation. *)
Definition reported (operation outcome : string) (detail : string) (s : ApiState) : Prop :=
  let m := maintenance_status s in
  in_progress m = false ∧ last_operation m = Some operation ∧ last_outcome m = Some outcome ∧ ma_detail m = Some detail.

Lemma audit_status c p action resource detail x :
  maintenance_status (audit c p action resource detail x).2.2.1 = maintenance_status x.2.1.
Proof.
  unfold audit, record_audit, on_api_disk, mbind, sm_bind, api_self. destruct x as [w [s h]].
  destruct (append_audit_event _ _ w) as [[[]|f] w1]; [|done]. cbn [map_err].
  by destruct (prune_audit_log _ _ w1) as [[n|f] w2].
Qed.

Lemma audit_ends c p action resource detail x : (audit c p action resource detail x).1 ≠ Err Diverged.
Proof.
  unfold audit, record_audit, on_api_disk, mbind, sm_bind, api_self. destruct x as [w [s h]].
  destruct (append_audit_event _ _ w) as [[[]|[]] w1]; [|done..]. cbn [map_err].
  by destruct (prune_audit_log _ _ w1) as [[n|[]] w2].
Qed.

Lemma authorize_refuses now_ms key action x :
  match (authorize now_ms key action x).1 with Err (Panicked _) | Err Diverged => False | _ => True end.
Proof.
  destruct x as [w [s h]]. unfold authorize, mbind, sm_bind, api_self. destruct (negb _); [done|].
  destruct key as [k|]; [|done]. unfold api_result, sm_lift. destruct (authenticate _ k) as [p|e]; [|done]. cbn [map_err].
  unfold enforce_rate_limit, mbind, sm_bind, api_self.
  destruct (take_token _ _) as [bucket []]; [|done]. cbn. by destruct (is_allowed p action).
Qed.

End answers.

(** ** Concrete inputs *)



(** A disk where the audit log cannot be opened: a directory has its name. *)
Definition blocked : World :=
  mkWorld (files Wal.Demo.world) ({[ ["audit.log"; "meta"; "db"] ]} ∪ dirs Wal.Demo.world) [] None None.
Definition admin : option string := Some (admin_api_key (auth Demo.config)).

(** The writer is told that the write failed; it is committed, and the next lookup finds it. *)
Lemma unaudited_write_is_committed :
  let x := serve Demo.clock Demo.writer Demo.post (blocked, (Demo.service, [])) in
  match x.1 with Err (Refused e) => (er_code (ae_body e), ae_status e) = ("io_error", 500%N) | _ => False end ∧
  (serve Demo.clock Demo.reader (PostQuery (GetNodeById (mkNodeId "c"))) x.2).1 =
    Ok (QueryPayload (mkResponse ExactLookup [Batch.Demo.node "c" "robot"] [] [] None None)).
Proof. vm_compute. split; reflexivity. Qed.

(** The indexes are rebuilt and the request is answered, and maintenance never ends. *)
Lemma unaudited_maintenance_stays_in_progress :
  let x := serve Demo.clock admin PostRebuildIndexes (blocked, (Demo.service, [])) in
  match x.1 with Err (Refused e) => (er_code (ae_body e), ae_status e) = ("io_error", 500%N) | _ => False end ∧
  in_progress (maintenance_status x.2.2.1) = true.
Proof. vm_compute. split; reflexivity. Qed.
