(* ===== verification/Limits.v ===== *)
(** * [crates/api]: limits on what a client may take

    A streamed answer is complete and within its two budgets, or it is refused; a key gets a
    burst of a thousand requests and no more. *)
From S2P Require Import Prelude RustStd RustFloat Common Core Config Auth Fs Wal Memory Batch Store Engine Recovery Backup Index Query Ranking Executor Database Observability Metrics Service Handlers Admission.

#[local] Open Scope string_scope.
#[local] Open Scope list_scope.

(** ** Streams *)

Section stream.
Context `{FrameCodec}.

(** The items of an execution as the stream counts them, and its frames. *)
Definition items_total (items : list QueryExecutionItem) : N := foldr N.add 0%N (frame_of_item <$> items).*2.
Definition stream_frames (e : QueryExecution) : list QueryStreamFrame :=
  FrameMeta (qe_plan_kind e) (qe_retrieval_profile e) :: (frame_of_item <$> qe_items e).*1 ++ [FrameEnd (items_total (qe_items e))].
Definition bytes_total (lines : list string) : N := foldr (λ l n, N.of_nat (String.length l) + n)%N 0%N lines.

(** [lines] are the encodings of [frames]. *)
Definition line_of_frame (frame : QueryStreamFrame) (line : string) : Prop :=
  ∃ text, json_encode_frame frame = Ok text ∧ line = push_newline text.

Lemma push_frame_iff frame n st st' : push_stream_frame frame n st = Ok st' ↔
  ∃ line, line_of_frame frame line ∧ st' = mkStream (st_lines st ++ [line]) (st_bytes st + N.of_nat (String.length line)) (st_items st + n) ∧
    (st_items st + n <= MAX_STREAM_QUERY_ITEMS)%N ∧ (st_bytes st + N.of_nat (String.length line) <= MAX_STREAM_RESPONSE_BYTES)%N.
Proof.
  unfold push_stream_frame, line_of_frame. cbv zeta.
  destruct (N.ltb_spec MAX_STREAM_QUERY_ITEMS (st_items st + n)); [split; [done|intros (l & _ & _ & ? & _); lia]|].
  destruct (json_encode_frame frame) as [text|err]; cbn [map_err mbind result_bind].
  2: { split; [done|]. by intros (l & (t & ? & _) & _). }
  destruct (N.ltb_spec MAX_STREAM_RESPONSE_BYTES (st_bytes st + N.of_nat (String.length (push_newline text)))).
  - split; [done|]. intros (l & (t & [= <-] & ->) & _ & _ & ?). lia.
  - split; [intros [= <-]; exists (push_newline text); split; [by exists text|done]|].
    intros (l & (t & [= <-] & ->) & -> & _). done.
Qed.

Lemma push_item_frame st item :
  push_item st item = push_stream_frame (frame_of_item item).1 (frame_of_item item).2 st.
Proof. unfold push_item. by destruct (frame_of_item item). Qed.

Lemma push_items_iff items : ∀ st st', (st_items st <= MAX_STREAM_QUERY_ITEMS)%N → (st_bytes st <= MAX_STREAM_RESPONSE_BYTES)%N →
  result_foldl push_item st items = Ok st' ↔
  ∃ lines, Forall2 line_of_frame (frame_of_item <$> items).*1 lines ∧
    st' = mkStream (st_lines st ++ lines) (st_bytes st + bytes_total lines) (st_items st + items_total items) ∧
    (st_items st + items_total items <= MAX_STREAM_QUERY_ITEMS)%N ∧ (st_bytes st + bytes_total lines <= MAX_STREAM_RESPONSE_BYTES)%N.
Proof.
  induction items as [|item items IH]; intros st st' Hi Hb.
  - change (items_total []) with 0%N. cbn [result_foldl fmap list_fmap]. rewrite N.add_0_r. split.
    + intros [= ->]. exists []. change (bytes_total []) with 0%N. rewrite app_nil_r, N.add_0_r.
      split; [constructor|]. split; [by destruct st'|done].
    + intros (lines & Hl & -> & _). inversion Hl; subst. change (bytes_total []) with 0%N.
      rewrite app_nil_r, N.add_0_r. by destruct st.
  - cbn [result_foldl fmap list_fmap]. unfold items_total. cbn [fmap list_fmap foldr]. fold (items_total items).
    rewrite push_item_frame. destruct (frame_of_item item) as [frame n]. cbn [fst snd]. split.
    + intros Hrun. apply result_bind_Ok in Hrun as (st1 & Hpush & Hrest). apply push_frame_iff in Hpush as (line & Hline & -> & Hi1 & Hb1).
      apply IH in Hrest as (lines & Hl & -> & Hi2 & Hb2); [|done..]. cbn [st_items st_bytes st_lines] in *.
      exists (line :: lines). split; [by constructor|]. cbn [bytes_total foldr]. fold (bytes_total lines).
      rewrite <-app_assoc. split; [f_equal; lia|lia].
    + intros (lines & Hl & -> & Hi2 & Hb2). inversion Hl as [|? line ? rest Hline Hrest]; subst.
      cbn [bytes_total foldr] in *. fold (bytes_total rest) in *.
      apply result_bind_Ok. eexists. split.
      { apply push_frame_iff. exists line. split; [done|]. split; [done|]. lia. }
      apply IH; cbn [st_items st_bytes st_lines]; [lia..|]. exists rest. split; [done|].
      rewrite <-app_assoc. split; [f_equal; lia|lia].
Qed.

Lemma bytes_total_cons line lines : bytes_total (line :: lines) = (N.of_nat (String.length line) + bytes_total lines)%N.
Proof. done. Qed.
Lemma bytes_total_app l1 l2 : bytes_total (l1 ++ l2) = (bytes_total l1 + bytes_total l2)%N.
Proof. induction l1 as [|line l1 IH]; [done|]. cbn [app]. rewrite !bytes_total_cons, IH. lia. Qed.

(** C15: A stream is complete and within its budgets: it is answered exactly when the header, every
    item of the execution in order and the trailer can be written, the items number at most
    2048 and the bytes at most 2 MiB; and then its lines are just those, one frame per line,
    the trailer tells the number of items, and the scores reported to the metrics are those of
    the ranked items. *)
Theorem stream_is_bounded e lines summary : serialize_query_execution_stream e = Ok (lines, summary) ↔
  Forall2 line_of_frame (stream_frames e) lines ∧ summary = mkSummaryOfStream (omap score_of_item (qe_items e)) ∧
  (items_total (qe_items e) <= MAX_STREAM_QUERY_ITEMS)%N ∧ (bytes_total lines <= MAX_STREAM_RESPONSE_BYTES)%N.
Proof.
  unfold serialize_query_execution_stream, stream_frames. split.
  - intros Hrun. apply result_bind_Ok in Hrun as (st1 & Hmeta & Hrun).
    apply result_bind_Ok in Hrun as (st2 & Hitems & Hrun). apply result_bind_Ok in Hrun as (st3 & Hend & [= <- <-]).
    apply push_frame_iff in Hmeta as (meta & Hmeta & -> & Hi1 & Hb1).
    apply push_items_iff in Hitems as (lines & Hlines & -> & Hi2 & Hb2); [|done..].
    apply push_frame_iff in Hend as (trailer & Hend & -> & Hi3 & Hb3).
    cbn [st_lines st_bytes st_items app] in *. rewrite !N.add_0_l in *. split.
    { constructor; [done|]. apply Forall2_app; [done|]. by repeat constructor. }
    split; [done|]. split; [lia|]. rewrite bytes_total_cons, bytes_total_app, bytes_total_cons. cbn [bytes_total foldr]. lia.
  - intros (Hlines & -> & Hitems & Hbytes). inversion Hlines as [|? meta ? rest Hmeta Hrest]; subst.
    apply Forall2_app_inv_l in Hrest as (lines & trailer & Hl & Ht & ->).
    inversion Ht as [|? t ? ? Hend Hnil]; subst. inversion Hnil; subst.
    rewrite bytes_total_cons, bytes_total_app, bytes_total_cons in Hbytes. cbn [bytes_total foldr] in Hbytes.
    apply result_bind_Ok. exists (mkStream [meta] (N.of_nat (String.length meta)) 0).
    split; [apply push_frame_iff; exists meta; split; [done|]; split; [done|]; cbn [st_items st_bytes]; lia|].
    apply result_bind_Ok.
    exists (mkStream (meta :: lines) (N.of_nat (String.length meta) + bytes_total lines) (items_total (qe_items e))).
    split; [apply push_items_iff; cbn [st_items st_bytes st_lines]; [lia..|]; exists lines; split; [done|]; split; [done|]; lia|].
    apply result_bind_Ok.
    exists (mkStream ((meta :: lines) ++ [t]) (N.of_nat (String.length meta) + bytes_total lines + N.of_nat (String.length t))
      (items_total (qe_items e) + 0)). split; [|done]. apply push_frame_iff. exists t. cbn [st_items st_bytes st_lines].
    split; [done|]. split; [done|lia].
Qed.
End stream.

(** ** The rate limit *)

(** At one instant, a bucket of [n] tokens: what it holds after the refill, whether that is less
    than one, and what is left when one is taken. *)
Definition step_at_rest (n : nat) : f64 * bool * f64 :=
  let refill := F64.mul (F64.div (F64.of_Z 0) (F64.of_Z 1000)) (F64.of_Z 100) in
  let available := f_min (F64.add (F64.of_Z (Z.of_nat n)) refill) bucket_capacity in
  (available, f_lt available bucket_one, F64.sub available bucket_one).

Lemma map_same {A B} (f g : A → B) l : map f l = map g l → ∀ x, x ∈ l → f x = g x.
Proof.
  induction l as [|y l IH]; intros Heq x Hx; [by apply elem_of_nil in Hx|]. injection Heq as Hy Heq.
  apply elem_of_cons in Hx as [->|Hx]; [done|by apply IH].
Qed.
(** The floats are exact up to the capacity. *)
Lemma steps_at_rest n : (n <= 1000)%nat →
  step_at_rest n = (F64.of_Z (Z.of_nat n), (n =? 0)%nat, F64.of_Z (Z.of_nat n - 1)).
Proof.
  intros Hn. apply (map_same step_at_rest (λ n, (F64.of_Z (Z.of_nat n), (n =? 0)%nat, F64.of_Z (Z.of_nat n - 1))) (seq 0 1001)).
  - vm_compute. reflexivity.
  - apply elem_of_seq. lia.
Qed.

Lemma take_at_rest now_ms n : (n <= 1000)%nat →
  take_token now_ms (mkBucket (F64.of_Z (Z.of_nat n)) now_ms) =
    (mkBucket (F64.of_Z (Z.of_nat (n - 1))) now_ms, negb (n =? 0)%nat).
Proof.
  intros Hn.
  assert (Hrest : take_token now_ms (mkBucket (F64.of_Z (Z.of_nat n)) now_ms) =
    let '(available, empty, rest) := step_at_rest n in
    if empty then (mkBucket available now_ms, false) else (mkBucket rest now_ms, true)).
  { unfold take_token. cbn [tokens last_refill_ms]. by rewrite N.sub_diag. }
  rewrite Hrest, steps_at_rest by done. destruct n as [|n]; [done|]. cbn [Nat.eqb negb].
  by replace (Z.of_nat (S n) - 1)%Z with (Z.of_nat (S n - 1)) by lia.
Qed.

Section rate_limit.
Context `{WalCodec, StorageCodec, HnswLib, IndexCodec, DatabaseCodec, AuditCodec, FrameCodec}.
Abbreviation state := (World * (ApiState * list Runtime))%type.

(** Which of [n] requests with one key at one instant are admitted. *)
Fixpoint admissions (n : nat) (now_ms : N) (key : string) (x : state) : list bool * state :=
  match n with
  | O => ([], x)
  | S n =>
    let '(r, x) := enforce_rate_limit now_ms key x in
    let '(l, x) := admissions n now_ms key x in (is_ok r :: l, x)
  end.

Lemma enforce_run now_ms key w s h :
  let t := take_token now_ms (default (mkBucket bucket_capacity now_ms) (rate_limits s !! key)) in
  is_ok (enforce_rate_limit now_ms key (w, (s, h))).1 = t.2 ∧
  (enforce_rate_limit now_ms key (w, (s, h))).2 = (w, (set_rate_limits (<[key := t.1]> (rate_limits s)) s, h)).
Proof.
  cbv zeta. unfold enforce_rate_limit, mbind, sm_bind, api_self, api_modify.
  by destruct (take_token now_ms _) as [bucket []].
Qed.

Lemma admissions_run now_ms key n : ∀ k w s h, (k <= 1000)%nat →
  default (mkBucket bucket_capacity now_ms) (rate_limits s !! key) = mkBucket (F64.of_Z (Z.of_nat k)) now_ms →
  let '(l, (w', (s', h'))) := admissions n now_ms key (w, (s, h)) in
  l = replicate (n `min` k) true ++ replicate (n - k) false ∧ w' = w ∧ h' = h ∧
  ∃ limits, s' = set_rate_limits limits s ∧ ∀ other, other ≠ key → limits !! other = rate_limits s !! other.
Proof.
  induction n as [|n IH]; intros k w s h Hk Hb; cbn [admissions].
  - split; [done|]. split; [done|]. split; [done|]. exists (rate_limits s). split; [by destruct s|done].
  - destruct (enforce_run now_ms key w s h) as [Hok Hst]. cbv zeta in Hok, Hst. rewrite Hb, take_at_rest in Hok, Hst by done.
    destruct (enforce_rate_limit _ _ _) as [r y]. cbn [fst snd] in *. subst y.
    set (s1 := set_rate_limits _ s) in *. specialize (IH (k - 1)%nat w s1 h ltac:(lia)).
    assert (Hb1 : default (mkBucket bucket_capacity now_ms) (rate_limits s1 !! key) =
      mkBucket (F64.of_Z (Z.of_nat (k - 1))) now_ms) by (by cbn [s1 set_rate_limits rate_limits]; rewrite lookup_insert_eq).
    specialize (IH Hb1). destruct (admissions n now_ms key _) as [l [w' [s' h']]].
    destruct IH as (-> & -> & -> & limits & -> & Hother). split; [|split; [done|split; [done|]]].
    + rewrite Hok. destruct k as [|k]; cbn [Nat.eqb negb]; [by rewrite !Nat.min_0_r, !Nat.sub_0_r|].
      rewrite <-Nat.succ_min_distr. cbn [replicate app Nat.sub]. by rewrite Nat.sub_0_r.
    + exists limits. split; [done|]. intros other Hne. rewrite Hother by done. cbn [s1 set_rate_limits rate_limits].
      by rewrite lookup_insert_ne.
Qed.

(** C17: A key gets a burst of a thousand requests: of any number of requests at one instant with
    a key not seen before, exactly the first thousand are admitted and all others refused, and
    they take nothing from the buckets of other keys. *)
Theorem rate_limit_burst now_ms key n w s h : rate_limits s !! key = None →
  let '(l, (w', (s', h'))) := admissions n now_ms key (w, (s, h)) in
  l = replicate (n `min` 1000) true ++ replicate (n - 1000) false ∧ w' = w ∧ h' = h ∧
  ∃ limits, s' = set_rate_limits limits s ∧ ∀ other, other ≠ key → limits !! other = rate_limits s !! other.
Proof. intros Hnew. apply (admissions_run now_ms key n 1000); [done|]. by rewrite Hnew. Qed.
End rate_limit.

(** The refill is measured from the last reading of the clock, also when that went back: an
    exhausted bucket whose clock jumps back by ten seconds and is put right again is full. *)
Lemma clock_step_refills :
  let '(bucket, first) := take_token 20000 (mkBucket (F64.of_Z 0) 20000) in
  let '(bucket, second) := take_token 10000 bucket in
  let '(bucket, third) := take_token 20000 bucket in
  (first, second, third) = (false, false, true) ∧ tokens bucket = F64.of_Z 999.
Proof. vm_compute. split; reflexivity. Qed.

Lemma rate_limit_burst_witness :
  (admissions 1001 1000 "a key" Admission.Demo.state).1 = replicate 1000 true ++ [false].
Proof.
  pose proof (rate_limit_burst 1000 "a key" 1001 Wal.Demo.world Admission.Demo.service [] eq_refl) as Hburst.
  change (Wal.Demo.world, (Admission.Demo.service, [])) with Admission.Demo.state in Hburst.
  destruct (admissions 1001 1000 "a key" Admission.Demo.state) as [l [w [s h]]]. destruct Hburst as [Hl _]. exact Hl.
Defined.
