(* ===== verification/Cli.v ===== *)
(** * [crates/cli]: the commands of the [undr9] program

    One branch of [run_command] per branch of [main], on the disk the process finds.  A command
    ends with the lines it prints, or as the process does: at the [expect] that failed, or in a
    panic.  clap (the parsing of arguments) and the start of the tracing exporter are not part of
    the model; [serde_json] is [CliCodec].  [Serve] is a run of requests between the start and the graceful shutdown. *)
From S2P Require Import Prelude RustStd RustFloat Common Core Config Auth Fs Wal Memory Batch Store Engine Recovery Backup Index Query Ranking Executor Database Observability Metrics Service Handlers Durability Clients Admission.
From S2P Require Cluster Replication.

#[local] Open Scope string_scope.
#[local] Open Scope list_scope.

Inductive Command :=
| ShowDefaultConfig
| PrintLayout (root : string)
| BootstrapStorage (root : string)
| ShowManifest (root : string)
| InspectStorage (root : string)
| CompactStorage (root : string)
| VerifyStorage (root : string)
| BackupStorage (root destination : string)
| RestoreStorage (root source : string) (target_lsn : option N)
| RepairStorage (root : string)
| RebuildIndexes (root : string)
| Export (root file : string)
| Import (root file : string)
| RunTransaction (root plan : string)
| ReplicationStatus (root bind node_id : string)
| ReplicationHistory (root bind node_id : string) (after_source_lsn : N) (output : option string)
| ConfigureLeader (root bind node_id : string)
| ConfigureFollower (root bind node_id leader_node_id leader_address : string)
| RegisterReplica (root bind node_id replica_node_id replica_address : string)
| AcknowledgeReplica (root bind node_id replica_node_id : string) (source_lsn : N)
| ApplyReplication (root bind node_id file : string)
| ShowClusterTopology (root bind node_id : string)
| MarkNodeHealth (root bind node_id target_node_id : string) (healthy : bool)
| PromoteNode (root bind node_id target_node_id : string)
| RecoveryDrill (root : string) (output : option string)
| Serve (root bind node_id : string).

Record TransactionPlan := mkTransactionPlan {
  tp_isolation_level : option IsolationLevel;
  tp_operations : list TransactionOperation;
}.

Record RecoveryDrillReport := mkDrillReport {
  source_root : string;
  source_node_count : nat;
  source_edge_count : nat;
  source_last_applied_lsn : N;
  latest_restorable_lsn : N;
  backup_elapsed_ms : N;
  restore_elapsed_ms : N;
  pitr_elapsed_ms : option N;
  backup_manifest_present : bool;
  source_integrity : IntegrityReport;
  restored_integrity : IntegrityReport;
  pitr_integrity : option IntegrityReport;
  verified : bool;
}.

(** What commands print as JSON. *)
Inductive CliValue :=
| ConfigValue (c : AppConfig) | ManifestValue (m : Manifest) | IntegrityValue (r : IntegrityReport)
| CommitValue (r : TransactionCommitResult) | StatusValue (r : ReplicationStatusResponse)
| HistoryValue (l : list ReplicationRecord) | TopologyValue (c : ClusterTopology)
| PlanValue (p : Cluster.FailoverPlan) | DrillValue (r : RecoveryDrillReport).

Class CliCodec := {
  json_pretty : CliValue → Result string string;
  json_decode_plan : string → Result string TransactionPlan;
  json_decode_records : string → Result string (list ReplicationRecord);
}.

(** How a process ends early. *)
Inductive Cause := CauseError (e : Undr9Error) | CauseMessage (message : string).
Inductive CliExit :=
| Expected (what : string) (why : Cause)
| Aborted (message : string).

(** [m.expect(what)]. *)
Definition expect {S A} (what : string) (m : sm S Failure A) : sm S CliExit A := λ s,
  let '(r, s) := m s in
  (map_err (λ f, match f with Error e => Expected what (CauseError e) | Panic message => Aborted message end) r, s).
Definition expect_result {S A} (what : string) (r : Result string A) : sm S CliExit A :=
  sm_lift (map_err (λ message, Expected what (CauseMessage message)) r).
Definition expect_fs {A} (what : string) (m : fsm A) : sm World CliExit A := λ w,
  let '(r, w) := m w in (map_err (λ message, Expected what (CauseMessage message)) r, w).

Definition with_root (root : string) (c : AppConfig) : AppConfig :=
  {| server := server c;
     storage := {| Config.root_dir := root; create_if_missing := create_if_missing (storage c);
       storage_version := storage_version (storage c) |};
     wal := wal c; auth := auth c; maintenance := maintenance c; vector_index := vector_index c;
     observability := observability c |}.
Definition with_bind (bind : string) (c : AppConfig) : AppConfig :=
  {| server := {| bind_address := bind; request_timeout_ms := request_timeout_ms (server c);
       max_request_body_bytes := max_request_body_bytes (server c) |};
     storage := storage c; wal := wal c; auth := auth c; maintenance := maintenance c;
     vector_index := vector_index c; observability := observability c |}.

Section server_config.
Context (env : string → option string).

(** [std::env::var(name).ok()], blank or not set. *)
Definition key_is_blank (name : string) : bool := is_blank (default "" (env name)).

Definition runtime_server_config (default_config : AppConfig) (root bind : string) : Result string AppConfig :=
  let config := apply_env_overrides env (with_bind bind (with_root root default_config)) in
  if negb (auth_enabled (auth config)) then
    Err "auth must remain enabled for `undr9 serve`; refusing insecure auth-disabled startup"
  else if key_is_blank "UNDR9_ADMIN_API_KEY" || key_is_blank "UNDR9_WRITER_API_KEY"
      || key_is_blank "UNDR9_READER_API_KEY" then
    Err "set UNDR9_ADMIN_API_KEY, UNDR9_WRITER_API_KEY, and UNDR9_READER_API_KEY before running `undr9 serve`"
  else
    map_err (λ error, "invalid runtime server config: " +:+ error_to_string error) (validate config) ;;
    Ok config.
End server_config.

Section cli.
Context `{WalCodec, StorageCodec, HnswLib, IndexCodec, DatabaseCodec, AuditCodec, FrameCodec, CliCodec}.
(** The environment; the process id and its clock readings; how long opening a database and the
    steps of the drill took; the directory [tempfile::tempdir] makes. *)
Context (env : string → option string) (pid : N) (nanos : nat → N) (latency_ms : N) (elapsed_ms : nat → N)
  (drill_dir : Path).

(** The [k]-th [AppConfig::default()] of the process. *)
Definition default_config (k : nat) : AppConfig :=
  AppConfig_default pid (nanos (3 * k)) (nanos (3 * k + 1)) (nanos (3 * k + 2)).

Definition cli (A : Type) : Type := sm World CliExit A.

Definition show (what : string) (v : CliValue) : cli (list string) :=
  payload ← expect_result what (json_pretty v);
  mret [payload].
Definition emit_json (v : CliValue) (output : option string) : cli (list string) :=
  payload ← expect_result "value must serialize" (json_pretty v);
  match output with
  | Some output =>
    expect_fs "output file must be writable"
      (fs_write (path_of_string output) (bytes_of_string (push_newline payload))) ;;
    mret []
  | None => mret [payload]
  end.
Definition print_json (v : CliValue) : cli (list string) := emit_json v None.

Definition open_storage (root : string) : cli StorageEngine :=
  expect "storage engine must open" (open_engine (with_root root (default_config 0))).
(** A method of an engine that is dropped afterwards. *)
Definition once {A} (what : string) (m : engine_m A) (e : StorageEngine) : cli A := expect what (with_self m e).

Definition display_line (name : string) (p : Path) : string := name +:+ "=" +:+ path_display p.
Definition count_line (name : string) (n : N) : string := name +:+ "=" +:+ pretty n.

(** ** Transactions *)

Definition run_transaction (plan : TransactionPlan) : sm (World * StorageEngine) CliExit TransactionCommitResult :=
  summary ← (λ '(w, e), let '(summary, e) := Engine.begin_transaction (default Snapshot (tp_isolation_level plan)) e in
    (Ok summary, (w, e)));
  sm_for (tp_operations plan) (λ operation,
    expect "transaction stage must work" (Engine.stage_transaction_operation (ts_transaction_id summary) operation) ;; mret tt) ;;
  expect "transaction commit must work" (Engine.commit_transaction (ts_transaction_id summary)).

Definition read_plan (plan : string) : cli TransactionPlan :=
  payload ← expect_fs "transaction plan must be readable" (fs_read_to_string (path_of_string plan));
  expect_result "transaction plan must deserialize" (json_decode_plan payload).

(** ** The recovery drill *)

Inductive DrillStop := DrillError (message : string) | DrillPanic (message : string).
Definition drill (A : Type) : Type := sm World DrillStop A.

(** [m.map_err(|error| format!("{what}: {error}"))?]. *)
Definition drill_step {A} (what : string) (m : io A) : drill A := λ w,
  let '(r, w) := m w in
  (map_err (λ f, match f with
     | Error e => DrillError (what +:+ ": " +:+ error_to_string e)
     | Panic message => DrillPanic message
     end) r, w).
Definition counted (e : StorageEngine) (r : IntegrityReport) : IntegrityReport :=
  mkReport (ir_manifest_present r) (ir_node_snapshot_valid r) (ir_edge_snapshot_valid r) (ir_wal_replay_valid r)
    (node_count e) (edge_count e) (ir_issues r).
Definition same_counts (e : StorageEngine) (nodes edges : nat) : bool :=
  (node_count e =? nodes)%nat && (edge_count e =? edges)%nat.
Definition diverged (what other : string) (nodes edges : nat) (e : StorageEngine) : DrillStop :=
  DrillError ("recovery drill " +:+ what +:+ " counts diverged: source=(" +:+ pretty (N.of_nat nodes) +:+ "," +:+
    pretty (N.of_nat edges) +:+ ") " +:+ other +:+ "=(" +:+ pretty (N.of_nat (node_count e)) +:+ "," +:+
    pretty (N.of_nat (edge_count e)) +:+ ")").

(** The drop of the temporary directory, however the steps end. *)
Definition in_temp_dir {A} (m : drill A) : drill A := λ w,
  let '(r, w) := fs_create_dir_all drill_dir w in
  match r with
  | Err error => (Err (DrillError ("failed to create recovery drill tempdir: " +:+ error)), w)
  | Ok _ => let '(r, w) := m w in (r, (fs_remove_dir_all drill_dir w).2)
  end.

Definition point_in_time (backup_dir : Path) (latest : N) (nodes edges : nat) : drill (option N * option IntegrityReport) :=
  if (0 <? latest)%N then
    let pitr_dir := "restore-pitr" :: drill_dir in
    drill_step "recovery drill PITR restore failed"
      (restore_directory_to_lsn backup_dir pitr_dir latest (wal (default_config 0))) ;;
    pitr_engine ← drill_step "failed to open PITR storage for recovery drill"
      (open_engine (with_root (path_display pitr_dir) (default_config 2)));
    if negb (same_counts pitr_engine nodes edges) then sm_fail (diverged "PITR" "pitr" nodes edges pitr_engine)
    else
      pitr_integrity ← drill_step "failed to verify PITR integrity for recovery drill"
        (Recovery.verify_integrity pitr_engine);
      mret (Some (elapsed_ms 2), Some (counted pitr_engine pitr_integrity))
  else mret (None, None).

Definition run_recovery_drill (root : string) : drill RecoveryDrillReport :=
  let source_config := with_root root (default_config 0) in
  drill_step "invalid recovery drill source config" (io_res (validate source_config)) ;;
  source_engine ← drill_step "failed to open source storage for recovery drill" (open_engine source_config);
  let nodes := node_count source_engine in
  let edges := edge_count source_engine in
  let last_applied := default 0%N (m_last_applied_lsn (e_manifest source_engine)) in
  records ← drill_step "failed to enumerate retained WAL for recovery drill"
    (replay_from_dir (subdirectory (e_layout source_engine) "wal") (max_replay_bytes (wal source_config)));
  let latest := default last_applied (lsn_of <$> list.last records) in
  source_integrity ← drill_step "failed to verify source integrity for recovery drill"
    (Recovery.verify_integrity source_engine);
  in_temp_dir (
    let backup_dir := "backup" :: drill_dir in
    let restore_dir := "restore-full" :: drill_dir in
    drill_step "recovery drill backup failed" (backup_directory (path_of_string root) backup_dir) ;;
    drill_step "recovery drill restore failed" (restore_directory backup_dir restore_dir) ;;
    restored_engine ← drill_step "failed to open restored storage for recovery drill"
      (open_engine (with_root (path_display restore_dir) (default_config 1)));
    restored_integrity ← drill_step "failed to verify restored integrity for recovery drill"
      (Recovery.verify_integrity restored_engine);
    if negb (same_counts restored_engine nodes edges) then
      sm_fail (diverged "restore" "restored" nodes edges restored_engine)
    else
      '(pitr_elapsed, pitr) ← point_in_time backup_dir latest nodes edges;
      w ← sm_get;
      mret (mkDrillReport root nodes edges last_applied latest (elapsed_ms 0) (elapsed_ms 1) pitr_elapsed
        (path_exists w (backup_manifest_path backup_dir)) (counted source_engine source_integrity)
        (counted restored_engine restored_integrity) pitr true)).

Definition expect_drill {A} (what : string) (m : drill A) : cli A := λ w,
  let '(r, w) := m w in
  (map_err (λ stop, match stop with
     | DrillError message => Expected what (CauseMessage message)
     | DrillPanic message => Aborted message
     end) r, w).

(** ** The service *)

Definition api_state (root bind node_id : string) : cli (ApiState * list Runtime) :=
  expect "API state must initialize"
    (try_new_with_identity (with_bind bind (with_root root (default_config 0))) node_id bind latency_ms []).
(** A command that runs one method of the database. *)
Definition with_database {A} (root bind node_id what : string) (m : db_m A) (value : A → CliValue)
    (output : option string) : cli (list string) :=
  '(s, h) ← api_state root bind node_id;
  a ← expect what (with_self m (api_database s, h));
  emit_json (value a) output.

(** Requests as they are served, one after the other. *)
Fixpoint serve_all (requests : list (RequestClock * option string * ApiRequest)) (st : World * (ApiState * list Runtime))
    : World * (ApiState * list Runtime) :=
  match requests with
  | [] => st
  | (clock, key, request) :: requests => serve_all requests (serve clock key request st).2
  end.
(** [shutdown_signal]: an error is only logged. *)
Definition shutdown (st : World * (ApiState * list Runtime)) : World * (ApiState * list Runtime) :=
  (graceful_shutdown_service st).2.
Definition start_service (root bind node_id : string) : cli (ApiState * list Runtime) :=
  config ← expect_result "server configuration must include explicit auth keys"
    (runtime_server_config env (default_config 0) root bind);
  expect "API state must initialize" (try_new_with_identity config node_id bind latency_ms []).

(** ** The commands *)

Definition show_default_config_command : cli (list string) :=
  show "default config must be serializable" (ConfigValue (default_config 0)).
Definition print_layout_command (root : string) : cli (list string) :=
  let l := StorageLayout_new (path_of_string root) in
  mret (display_line "root" (Store.root_dir l) :: display_line "manifest" (manifest_path l)
    :: ((λ name, display_line name (subdirectory l name)) <$> ["wal"; "nodes"; "edges"; "indexes"; "vectors"; "meta"])).
Definition bootstrap_storage_command (root : string) : cli (list string) :=
  '(l, m) ← expect "storage bootstrap must work" (bootstrap (storage (with_root root (default_config 0))));
  mret [display_line "root" (Store.root_dir l); display_line "manifest" (manifest_path l);
    "storage_version=" +:+ m_storage_version m].
Definition show_manifest_command (root : string) : cli (list string) :=
  m ← expect "manifest should be readable" (load_manifest (manifest_path (StorageLayout_new (path_of_string root))));
  show "manifest must serialize to JSON" (ManifestValue m).
Definition inspect_storage_command (root : string) : cli (list string) :=
  e ← open_storage root;
  mret [display_line "root" (Store.root_dir (e_layout e)); count_line "nodes" (N.of_nat (node_count e));
    count_line "edges" (N.of_nat (edge_count e));
    count_line "last_applied_lsn" (default 0%N (m_last_applied_lsn (e_manifest e)));
    "last_clean_shutdown=" +:+ (if m_last_clean_shutdown (e_manifest e) then "true" else "false");
    display_line "audit_log" (audit_log_path (e_layout e))].
Definition compact_storage_command (root : string) : cli (list string) :=
  e ← open_storage root;
  once "storage compaction must work" Recovery.compact e ;;
  mret ["status=ok"; "detail=storage compacted"].
Definition verify_storage_command (root : string) : cli (list string) :=
  e ← open_storage root;
  report ← expect "integrity verification must work" (Recovery.verify_integrity e);
  show "integrity report must serialize" (IntegrityValue report).
Definition backup_storage_command (root destination : string) : cli (list string) :=
  expect "backup must work" (backup_directory (path_of_string root) (path_of_string destination)) ;;
  mret ["status=ok"; "destination=" +:+ destination].
Definition restore_storage_command (root source : string) (target_lsn : option N) : cli (list string) :=
  lines ← match target_lsn with
  | Some target =>
    expect "point-in-time restore must work" (restore_directory_to_lsn (path_of_string source)
      (path_of_string root) target (wal (default_config 0))) ;;
    mret [count_line "target_lsn" target]
  | None =>
    expect "restore must work" (restore_directory (path_of_string source) (path_of_string root)) ;;
    mret []
  end;
  mret (lines ++ ["status=ok"; "source=" +:+ source]).
Definition repair_storage_command (root : string) : cli (list string) :=
  report ← expect "repair must work" (repair_storage (with_root root (default_config 0)));
  show "repair report must serialize" (IntegrityValue report).
Definition rebuild_indexes_command (root : string) : cli (list string) :=
  e ← open_storage root;
  let '(index, _) := rebuild (all_nodes e) (all_edges e) [] in
  let path := index_snapshot_path (e_layout e) in
  expect_fs "index snapshot directory must exist" (fs_create_dir_all (tail path)) ;;
  payload ← expect_result "index snapshot must serialize" (json_encode_index_snapshot (index_snapshot index));
  expect_fs "index snapshot must be written" (fs_write path payload) ;;
  mret ["status=ok"; display_line "index_snapshot" path].
Definition export_command (root file : string) : cli (list string) :=
  e ← open_storage root;
  expect "jsonl export must work" (export_jsonl e (path_of_string file)) ;;
  mret ["status=ok"; "file=" +:+ file].
Definition import_command (root file : string) : cli (list string) :=
  e ← open_storage root;
  once "jsonl import must work" (import_jsonl (path_of_string file)) e ;;
  mret ["status=ok"; "file=" +:+ file].
Definition run_transaction_command (root plan : string) : cli (list string) :=
  e ← open_storage root;
  plan ← read_plan plan;
  commit ← (λ w, let '(r, (w, _)) := run_transaction plan (w, e) in (r, w));
  show "transaction result must serialize" (CommitValue commit).
Definition replication_status_command (root bind node_id : string) : cli (list string) :=
  '(s, _) ← api_state root bind node_id;
  print_json (StatusValue (replication_status (api_database s))).
Definition replication_history_command (root bind node_id : string) (after_source_lsn : N) (output : option string) : cli (list string) :=
  '(s, _) ← api_state root bind node_id;
  emit_json (HistoryValue (replication_history_since (api_database s) after_source_lsn)) output.
Definition configure_leader_command (root bind node_id : string) : cli (list string) :=
  with_database root bind node_id "leader configuration must work" configure_as_leader StatusValue None.
Definition configure_follower_command (root bind node_id leader_node_id leader_address : string) : cli (list string) :=
  with_database root bind node_id "follower configuration must work"
    (configure_as_follower leader_node_id leader_address) StatusValue None.
Definition register_replica_command (root bind node_id replica_node_id replica_address : string) : cli (list string) :=
  with_database root bind node_id "replica registration must work"
    (register_replica replica_node_id replica_address) TopologyValue None.
Definition acknowledge_replica_command (root bind node_id replica_node_id : string) (source_lsn : N) : cli (list string) :=
  with_database root bind node_id "replica acknowledgement must work"
    (acknowledge_replica replica_node_id source_lsn) StatusValue None.
Definition apply_replication_command (root bind node_id file : string) : cli (list string) :=
  '(s, h) ← api_state root bind node_id;
  payload ← expect_fs "replication file must be readable" (fs_read_to_string (path_of_string file));
  records ← expect_result "replication file must deserialize" (json_decode_records payload);
  response ← expect "replication apply must work" (with_self (apply_replication_records records) (api_database s, h));
  print_json (StatusValue response).
Definition show_cluster_topology_command (root bind node_id : string) : cli (list string) :=
  '(s, _) ← api_state root bind node_id;
  print_json (TopologyValue (cluster_topology (api_database s))).
Definition mark_node_health_command (root bind node_id target_node_id : string) (healthy : bool) : cli (list string) :=
  with_database root bind node_id "health update must work" (mark_node_health target_node_id healthy) TopologyValue None.
Definition promote_node_command (root bind node_id target_node_id : string) : cli (list string) :=
  with_database root bind node_id "node promotion must work" (promote_node target_node_id) PlanValue None.
Definition recovery_drill_command (root : string) (output : option string) : cli (list string) :=
  report ← expect_drill "recovery drill must succeed" (run_recovery_drill root);
  emit_json (DrillValue report) output.
Definition serve_command (requests : list (RequestClock * option string * ApiRequest)) (root bind node_id : string) : cli (list string) :=
  '(s, h) ← start_service root bind node_id;
  ((λ w, (Ok tt, (shutdown (serve_all requests (w, (s, h)))).1)) : cli unit) ;;
  mret ["listening=" +:+ bind; "tls=reverse-proxy-required"; "recommended_proxy=caddy_or_traefik"].

Definition run_command (requests : list (RequestClock * option string * ApiRequest)) (c : Command) : cli (list string) :=
  match c with
  | ShowDefaultConfig => show_default_config_command
  | PrintLayout root => print_layout_command root
  | BootstrapStorage root => bootstrap_storage_command root
  | ShowManifest root => show_manifest_command root
  | InspectStorage root => inspect_storage_command root
  | CompactStorage root => compact_storage_command root
  | VerifyStorage root => verify_storage_command root
  | BackupStorage root destination => backup_storage_command root destination
  | RestoreStorage root source target_lsn => restore_storage_command root source target_lsn
  | RepairStorage root => repair_storage_command root
  | RebuildIndexes root => rebuild_indexes_command root
  | Export root file => export_command root file
  | Import root file => import_command root file
  | RunTransaction root plan => run_transaction_command root plan
  | ReplicationStatus root bind node_id => replication_status_command root bind node_id
  | ReplicationHistory root bind node_id after_source_lsn output => replication_history_command root bind node_id after_source_lsn output
  | ConfigureLeader root bind node_id => configure_leader_command root bind node_id
  | ConfigureFollower root bind node_id leader_node_id leader_address => configure_follower_command root bind node_id leader_node_id leader_address
  | RegisterReplica root bind node_id replica_node_id replica_address => register_replica_command root bind node_id replica_node_id replica_address
  | AcknowledgeReplica root bind node_id replica_node_id source_lsn => acknowledge_replica_command root bind node_id replica_node_id source_lsn
  | ApplyReplication root bind node_id file => apply_replication_command root bind node_id file
  | ShowClusterTopology root bind node_id => show_cluster_topology_command root bind node_id
  | MarkNodeHealth root bind node_id target_node_id healthy => mark_node_health_command root bind node_id target_node_id healthy
  | PromoteNode root bind node_id target_node_id => promote_node_command root bind node_id target_node_id
  | RecoveryDrill root output => recovery_drill_command root output
  | Serve root bind node_id => serve_command requests root bind node_id
  end.
End cli.

(** ** The keys of a served deployment *)

Definition key_variable (r : Role) : string :=
  match r with Admin => "UNDR9_ADMIN_API_KEY" | Writer => "UNDR9_WRITER_API_KEY" | Reader => "UNDR9_READER_API_KEY" end.

Lemma key_not_blank env name : key_is_blank env name = false → ∃ k, env name = Some k ∧ is_blank k = false.
Proof. unfold key_is_blank. destruct (env name) as [k|]; [by exists k|done]. Qed.

Lemma server_config_ok env d root bind c : runtime_server_config env d root bind = Ok c →
  validate c = Ok tt ∧ auth_enabled (auth c) = true ∧
  ∀ r, ∃ k, env (key_variable r) = Some k ∧ is_blank k = false ∧ key_of (auth c) r = k.
Proof.
  unfold runtime_server_config. set (config := apply_env_overrides _ _). cbv zeta.
  destruct (auth_enabled (auth config)) eqn:Hen; [|done]. cbn [negb].
  destruct (key_is_blank env "UNDR9_ADMIN_API_KEY") eqn:Ha; [done|].
  destruct (key_is_blank env "UNDR9_WRITER_API_KEY") eqn:Hw; [done|].
  destruct (key_is_blank env "UNDR9_READER_API_KEY") eqn:Hr; [done|]. cbn [orb].
  destruct (validate config) as [[]|e] eqn:Hv; [|done]. intros [= <-]. split; [done|]. split; [done|].
  intros r. destruct (key_not_blank env (key_variable r)) as (k & Hk & Hb); [by destruct r|].
  exists k. split; [done|]. split; [done|]. destruct r; simpl in *; unfold env_string; by rewrite Hk.
Qed.

Section served.
Context `{WalCodec, StorageCodec, HnswLib, IndexCodec, DatabaseCodec, AuditCodec, FrameCodec}.

(** C8: A service started by [undr9 serve] opens to the three keys of its environment and to no
    other: starting needs all three set and not blank, authentication on and a configuration
    that validates, and then a request is permitted an action exactly when its key is the value
    of the variable of a role that is allowed it. *)
Theorem served_keys_are_configured env d root bind c : runtime_server_config env d root bind = Ok c →
  validate c = Ok tt ∧ (∀ r, ∃ k, env (key_variable r) = Some k ∧ is_blank k = false) ∧
  ∀ s key action, api_config s = c →
    (permitted s key action ↔ ∃ r k, env (key_variable r) = Some k ∧ key = Some k ∧ (action_rank action ≤ role_rank r)%nat).
Proof.
  intros Hc. destruct (server_config_ok env d root bind c Hc) as (Hval & Hen & Hkeys). split; [done|]. split.
  { intros r. destruct (Hkeys r) as (k & ? & ? & _). by exists k. }
  intros s key action <-. unfold permitted. apply validate_sound in Hval. pose proof (vc_auth _ Hval Hen) as Hauth. split.
  - intros (_ & k & p & -> & Hp & Ha). apply authenticate_role in Hp as Hk.
    destruct (Hkeys (principal_role p)) as (k' & Henv & _ & Hk'). exists (principal_role p), k'.
    split; [done|]. split; [congruence|]. by apply is_allowed_rank.
  - intros (r & k & Henv & -> & Hrank). split; [done|]. destruct (Hkeys r) as (k' & Henv' & _ & Hk').
    destruct (authenticate_key (auth (api_config s)) r Hauth) as [name Hn]. exists k, (mkPrincipal name r).
    split; [done|]. split; [by replace k with (key_of (auth (api_config s)) r) by congruence|]. by apply is_allowed_rank.
Qed.
End served.

(** ** Transaction plans *)

Section plans.
Context `{WalCodecLaws, StorageCodecLaws}.

(** The batch a plan commits. *)
Definition plan_batch (operations : list TransactionOperation) : WriteBatch :=
  foldl merge_write_batches batch_default (batch_for_operation <$> operations).

(** The state in the middle of a plan: the disk as it was, the plan so far staged. *)
Record staging (tx : TransactionId) (b : WriteBatch) (e e' : StorageEngine) : Prop := {
  sg_engine : ∃ t, e' = set_transactions t e;
  sg_session : ∃ s, e_transactions e' !! tx = Some s ∧ ses_state s = Active ∧ ses_staged_batch s = b;
}.

Lemma stage_plan tx ops w e0 : ∀ b e, staging tx b e0 e →
  let '(r, (w', e')) := sm_for ops (λ op, expect "transaction stage must work" (Engine.stage_transaction_operation tx op) ;; mret tt) (w, e) in
  w' = w ∧ (∃ t, e' = set_transactions t e0) ∧
  (is_ok r = true → staging tx (foldl merge_write_batches b (batch_for_operation <$> ops)) e0 e').
Proof.
  induction ops as [|op ops IH]; intros b e [[t ->] (s & Hs & Hact & Hb)]; cbn [sm_for].
  - split; [done|]. split; [by exists t|]. intros _. split; [by exists t|by exists s].
  - unfold mbind at 1, sm_bind at 1, expect. unfold mbind at 1, sm_bind at 1. rewrite stage_run, Hs. cbv zeta.
    rewrite decide_True by done.
    destruct (stage_operation_on_session _ s op) as [s'|err] eqn:Hst; cbn [map_err].
    2: { split; [done|]. split; [by eexists|done]. }
    apply stage_operation_Ok in Hst as (s1 & _ & _ & Hst & _ & _ & _ & Hm & _).
    apply (IH (merge_write_batches b (batch_for_operation op))). split; [by eexists|].
    exists s'. split; [apply lookup_insert_eq|]. split; congruence.
Qed.

Lemma durable_drop c n w e t : durable c n w (set_transactions t e) → durable c n w e.
Proof. by apply durable_same. Qed.

(** C16: A transaction plan is all or nothing: after [undr9 run-transaction] has run a plan on a
    durable store with room in its log, whether every step succeeded or the process ended at
    one that failed, the next process finds a store that opens, with no transaction left and
    the graph as it was, or, exactly when the plan succeeded, with the batch of the whole plan
    applied to it. *)
Theorem plan_is_all_or_nothing c plan w e : validate c = Ok tt →
  durable c (write_cost (plan_batch (tp_operations plan))) w e → storable (plan_batch (tp_operations plan)) →
  let '(r, (w', _)) := run_transaction plan (w, e) in
  ∃ e', open_engine c w' = (Ok e', w') ∧ e_transactions e' = ∅ ∧
    e_maps e' = if is_ok r then apply_batch_to_maps_unchecked (plan_batch (tp_operations plan)) (e_maps e) else e_maps e.
Proof.
  intros Hval Hd Hsto. set (b := plan_batch (tp_operations plan)) in *.
  assert (Hback : ∀ n w1 e1, durable c n w1 e1 → ∃ e', open_engine c w1 = (Ok e', w1) ∧ e_transactions e' = ∅ ∧ e_maps e' = e_maps e1).
  { intros n w1 e1 Hd1. destruct (reopen_durable c n w1 e1 Hd1 Hval) as (e' & Hopen & [= Hm _] & Ht & _). eauto. }
  unfold run_transaction. unfold mbind at 1, sm_bind at 1. unfold Engine.begin_transaction. cbn [ts_transaction_id summary_for_session].
  set (tx := ses_transaction_id _). set (e1 := mkEngine _ _ _ _ _ _ _ _ _ _ _ _).
  assert (Hd1 : durable c (write_cost b) w e1) by (by eapply durable_same; [..|exact Hd]).
  unfold mbind at 1, sm_bind at 1.
  pose proof (stage_plan tx (tp_operations plan) w e1 batch_default e1) as Hplan.
  destruct (sm_for _ _ (w, e1)) as [r [w2 e2]]. destruct Hplan as (-> & [t He2] & Hstaged).
  { split; [exists (e_transactions e1); by destruct e1|]. eexists. split; [apply lookup_insert_eq|done]. }
  assert (Hd2 : durable c (write_cost b) w e2) by (rewrite He2; by apply durable_transactions).
  assert (Hm2 : e_maps e2 = e_maps e) by (by rewrite He2).
  destruct r as [[]|f]; cbn [is_ok] in *.
  2: { destruct (Hback _ _ _ Hd2) as (e' & ? & ? & Hm). exists e'. split_and!; congruence. }
  destruct (Hstaged eq_refl) as [_ (s & Hs & Hact & Hb)].
  pose proof (client_step_ok c 0 (CCommit tx) w e2) as Hcommit. cbn [op_cost op_batches] in Hcommit. rewrite Hs, Hb in Hcommit.
  cbn [batches_cost foldr client_step] in Hcommit. unfold expect. change (foldl merge_write_batches batch_default _) with b in Hcommit.
  rewrite !N.add_0_r in Hcommit. specialize (Hcommit Hd2 ltac:(by constructor)).
  destruct (Engine.commit_transaction tx (w, e2)) as [r [w3 e3]]. destruct Hcommit as [Hd3 Hm3].
  destruct (Hback _ _ _ Hd3) as (e' & ? & ? & Hm). exists e'. split; [done|]. split; [done|].
  rewrite Hm, Hm3, Hm2. by destruct r.
Qed.
End plans.

(** ** Concrete inputs *)

Module Demo.
Definition env (name : string) : option string :=
  if String.eqb name "UNDR9_ADMIN_API_KEY" then Some "admin-key-0123456789"
  else if String.eqb name "UNDR9_WRITER_API_KEY" then Some "writer-key-0123456789"
  else if String.eqb name "UNDR9_READER_API_KEY" then Some "reader-key-0123456789"
  else None.
Definition started : Result string AppConfig := runtime_server_config env (AppConfig_default 7 1 2 3) "./data" "127.0.0.1:8080".
Definition config : AppConfig := match started with Ok c => c | Err _ => AppConfig_default 7 1 2 3 end.
Lemma starts : started = Ok config.
Proof. vm_compute. reflexivity. Qed.

Definition plan : TransactionPlan :=
  mkTransactionPlan None [UpsertNode (Batch.Demo.node "a" "person"); UpsertNode (Batch.Demo.node "b" "person");
    UpsertEdge (Batch.Demo.edge "ab" "a" "b")].
Definition bad_plan : TransactionPlan :=
  mkTransactionPlan None [UpsertNode (Batch.Demo.node "a" "person"); UpsertEdge (Batch.Demo.edge "ax" "a" "x")].
End Demo.

(** The writer's variable opens writing and not maintenance. *)
Lemma served_keys_are_configured_witness :
  let served := mkApi "undr9" Demo.config true Tracking.Demo.database AtomicServiceCounters_default []
    (maintenance_status_default Demo.config) ∅ ∅ in
  permitted served (Some "writer-key-0123456789") Write ∧ ¬ permitted served (Some "writer-key-0123456789") Maintain.
Proof.
  intros served. destruct (served_keys_are_configured Demo.env (AppConfig_default 7 1 2 3) "./data" "127.0.0.1:8080"
    Demo.config Demo.starts) as (_ & _ & Hkeys). split.
  - apply (Hkeys served _ Write eq_refl). exists Writer, "writer-key-0123456789". split; [reflexivity|].
    split; [reflexivity|]. simpl. lia.
  - intros Hp. apply (Hkeys served _ Maintain eq_refl) in Hp as (r & k & Henv & [= <-] & Hr).
    destruct r; first [discriminate Henv | exfalso; simpl in Hr; lia].
Defined.

(** One plan that commits, and one whose second step fails. *)
Lemma plan_is_all_or_nothing_witness :
  is_ok (run_transaction Demo.plan (Durability.Demo.fresh, Durability.Demo.engine)).1 = true ∧
  (∃ e', open_engine Durability.Demo.config (run_transaction Demo.plan (Durability.Demo.fresh, Durability.Demo.engine)).2.1 =
      (Ok e', (run_transaction Demo.plan (Durability.Demo.fresh, Durability.Demo.engine)).2.1) ∧
    Engine.get_edge e' (mkEdgeId "ab") = Some (Batch.Demo.edge "ab" "a" "b")) ∧
  (∃ e', open_engine Durability.Demo.config (run_transaction Demo.bad_plan (Durability.Demo.fresh, Durability.Demo.engine)).2.1 =
      (Ok e', (run_transaction Demo.bad_plan (Durability.Demo.fresh, Durability.Demo.engine)).2.1) ∧
    Engine.get_node e' (mkNodeId "a") = None).
Proof.
  assert (Hok : is_ok (run_transaction Demo.plan (Durability.Demo.fresh, Durability.Demo.engine)).1 = true)
    by (vm_compute; reflexivity).
  assert (Hbad : is_ok (run_transaction Demo.bad_plan (Durability.Demo.fresh, Durability.Demo.engine)).1 = false)
    by (vm_compute; reflexivity).
  assert (Hedge : (apply_batch_to_maps_unchecked (plan_batch (tp_operations Demo.plan)) (e_maps Durability.Demo.engine)).2
    !! mkEdgeId "ab" = Some (Batch.Demo.edge "ab" "a" "b")) by (vm_compute; reflexivity).
  assert (Hnode : (e_maps Durability.Demo.engine).1 !! mkNodeId "a" = None) by (vm_compute; reflexivity).
  assert (Hplan : (write_cost (plan_batch (tp_operations Demo.plan)) < 2 ^ 20)%N) by (vm_compute; reflexivity).
  assert (Hbadplan : (write_cost (plan_batch (tp_operations Demo.bad_plan)) < 2 ^ 20)%N) by (vm_compute; reflexivity).
  pose proof (plan_is_all_or_nothing Durability.Demo.config Demo.plan Durability.Demo.fresh Durability.Demo.engine
    (default_config_ok _ _ _ _) (Durability.Demo.fresh_durable _ Hplan) (Durability.Demo.always_storable _)) as H1.
  pose proof (plan_is_all_or_nothing Durability.Demo.config Demo.bad_plan Durability.Demo.fresh Durability.Demo.engine
    (default_config_ok _ _ _ _) (Durability.Demo.fresh_durable _ Hbadplan) (Durability.Demo.always_storable _)) as H2.
  split; [exact Hok|]. split.
  - destruct (run_transaction Demo.plan _) as [r [w' e1]]. destruct H1 as (e' & Hopen & _ & Hm).
    cbn [fst] in Hok. rewrite Hok in Hm. exists e'. split; [exact Hopen|]. unfold Engine.get_edge. rewrite Hm. exact Hedge.
  - destruct (run_transaction Demo.bad_plan _) as [r [w' e1]]. destruct H2 as (e' & Hopen & _ & Hm).
    cbn [fst] in Hbad. rewrite Hbad in Hm. exists e'. split; [exact Hopen|]. unfold Engine.get_node. rewrite Hm. exact Hnode.
Defined.
