(* ===== verification/Bench.v ===== *)
(** * [crates/cli]: the benchmark

    Workloads, the storage and query scenarios that are timed, and the reports of
    bin/undr9-bench.rs.  The readings of the clock are arguments; clap, the printing of the report
    and [getrusage] are not part of the model.  Node counts are below 2^53, where the
    conversions of an index to [i64] and to floats are exact. *)
From S2P Require Import Prelude RustStd RustFloat Common Core Config Fs Wal Memory Batch Store Engine Recovery Index Query Ranking Executor Database.

#[local] Open Scope string_scope.
#[local] Open Scope list_scope.

Definition STORAGE_BATCH_SIZE : nat := N.to_nat 50000.
Definition BENCHMARK_WAL_REPLAY_BYTES : N := 16 * 1024 * 1024 * 1024.

(** ** Reports *)

Record StorageFootprintReport := mkFootprint {
  wal_bytes : N;
  snapshot_bytes : N;
  delta_bytes : N;
  index_bytes : N;
  fp_total_bytes : N;
  post_compaction_total_bytes : N;
  compaction_elapsed_us : N;
  recovery_elapsed_us : N;
}.
Record VectorIndexFootprintReport := mkVectorFootprint {
  hnsw_index_bytes : N;
  hnsw_build_elapsed_us : N;
  hnsw_reload_elapsed_us : N;
}.
Record HnswTuningReport := mkTuning {
  ht_semantic_top_k : N;
  ht_ef_search : N;
  ht_m : N;
  ht_ef_construction : N;
}.
Record QualityComparisonReport := mkQuality {
  qc_name : string;
  qc_limit : nat;
  exact_result_count : nat;
  hnsw_result_count : nat;
  overlap_count : nat;
  overlap_ratio : f64;
  jaccard_ratio : f64;
  top1_match : bool;
  exact_only_count : nat;
  hnsw_only_count : nat;
}.
Record ScenarioReport := mkScenario {
  scr_name : string;
  samples_us : list N;
  min_us : N;
  p50_us : N;
  p95_us : N;
  p99_us : N;
  max_us : N;
  mean_us : f64;
  throughput_ops_per_sec : f64;
}.
Record ScaleReport := mkScale {
  sr_node_count : nat;
  sr_edge_count : nat;
  peak_rss_bytes : option N;
  storage_footprint : StorageFootprintReport;
  vector_index_footprint : option VectorIndexFootprintReport;
  quality_comparisons : list QualityComparisonReport;
  scenarios : list ScenarioReport;
}.

(** A boxed error, by what was boxed; a panic; and the executor's third outcome, which it does
    not have. *)
Inductive BenchStop :=
| BoxedError (e : Undr9Error) | BoxedMessage (message : string) | BoxedNumber (value : string)
| BenchPanic (message : string) | BenchDiverged.

(** ** Arguments *)

(** [sort_unstable] and [dedup] of numbers. *)
Definition dedup_sorted (l : list N) : list N :=
  foldr (λ x rest, match rest with y :: _ => if (x =? y)%N then rest else x :: rest | [] => [x] end) [] l.
Definition parse_scale (value : string) : Result BenchStop N := ok_or (parse_usize value) (BoxedNumber value).
Definition parse_scales (raw : string) : Result BenchStop (list N) :=
  scales ← result_collect parse_scale (filter (λ value, value ≠ "") (trim <$> split_on "," raw));
  let scales := dedup_sorted (merge_sort N.le scales) in
  if is_nil scales then Err (BoxedMessage "at least one benchmark scale is required") else Ok scales.

Inductive ScenarioProfile := Full | StorageOnly.
Definition scenario_profile_as_str (p : ScenarioProfile) : string :=
  match p with Full => "full" | StorageOnly => "storage-only" end.
Definition includes_storage_scenarios (p : ScenarioProfile) : bool := true.
Definition includes_query_scenarios (p : ScenarioProfile) : bool := match p with Full => true | StorageOnly => false end.
Inductive WorkloadProfile := Standard | Compact.
Definition workload_profile_as_str (p : WorkloadProfile) : string :=
  match p with Standard => "standard" | Compact => "compact" end.
Definition includes_vectors (p : WorkloadProfile) : bool := match p with Standard => true | Compact => false end.

Definition parse_scenario_profile (raw : string) : Result BenchStop ScenarioProfile :=
  let other := to_ascii_lowercase (trim raw) in
  if bool_decide (other = "full") then Ok Full
  else if bool_decide (other ∈ ["storage-only"; "storage_only"; "storage"]) then Ok StorageOnly
  else Err (BoxedMessage ("unsupported scenario profile '" +:+ other +:+ "'")).
Definition parse_workload_profile (raw : string) : Result BenchStop WorkloadProfile :=
  let other := to_ascii_lowercase (trim raw) in
  if bool_decide (other = "standard") then Ok Standard
  else if bool_decide (other = "compact") then Ok Compact
  else Err (BoxedMessage ("unsupported workload profile '" +:+ other +:+ "'")).

Definition benchmark_default_hnsw_tuning : HnswTuningReport :=
  mkTuning 250 128 (hnsw_m VectorIndexConfig_default) (hnsw_ef_construction VectorIndexConfig_default).
Definition benchmark_hnsw_tuning_from_args (semantic_top_k ef_search m ef_construction : option N) : HnswTuningReport :=
  let defaults := benchmark_default_hnsw_tuning in
  mkTuning (default (ht_semantic_top_k defaults) semantic_top_k) (default (ht_ef_search defaults) ef_search)
    (default (ht_m defaults) m) (default (ht_ef_construction defaults) ef_construction).

(** ** Statistics *)

(** [x.round() as usize]: halves away from zero. *)
Definition round_as_usize (x : f64) : N :=
  match x with
  | S754_finite false m e =>
    let n := if (0 <=? e)%Z then (Zpos m * 2 ^ e)%Z else ((Zpos m + 2 ^ (- e - 1)) / 2 ^ (- e))%Z in
    N.min (Z.to_N n) u64_max
  | S754_infinity false => u64_max
  | _ => 0
  end.
Definition percentile_index (count : nat) (p : f64) : nat :=
  Nat.min (N.to_nat (round_as_usize (F64.mul (F64.of_Z (Z.of_nat (count - 1))) p))) (count - 1).
(** [samples[index]]: [None] is the panic. *)
Definition percentile (samples : list N) (p : f64) : option N := samples !! percentile_index (length samples) p.
Definition percent (n : Z) : f64 := F64.div (F64.of_Z n) (F64.of_Z 100).

Definition out_of_bounds : BenchStop := BenchPanic "index out of bounds".
Definition summarize (name : string) (samples : list N) : Result BenchStop ScenarioReport :=
  let samples := merge_sort N.le samples in
  min_us ← ok_or (head samples) out_of_bounds;
  let max_us := default min_us (list.last samples) in
  p50_us ← ok_or (percentile samples (percent 50)) out_of_bounds;
  p95_us ← ok_or (percentile samples (percent 95)) out_of_bounds;
  p99_us ← ok_or (percentile samples (percent 99)) out_of_bounds;
  let mean_us := F64.div (F64.of_Z (Z.of_N (foldr N.add 0%N samples))) (F64.of_Z (Z.of_nat (length samples))) in
  Ok (mkScenario name samples min_us p50_us p95_us p99_us max_us mean_us
    (if f_lt (S754_zero false) mean_us then F64.div (F64.of_Z 1000000) mean_us else S754_zero false)).

Definition compare_ranked_results (name : string) (exact hnsw : list RankedNodeResult) : QualityComparisonReport :=
  let exact_ids := (λ r, node_id (rr_node r)) <$> exact in
  let hnsw_ids := (λ r, node_id (rr_node r)) <$> hnsw in
  let exact_set : gset NodeId := list_to_set exact_ids in
  let hnsw_set : gset NodeId := list_to_set hnsw_ids in
  let overlap_count := size (exact_set ∩ hnsw_set) in
  let union_count := size (exact_set ∪ hnsw_set) in
  let limit := Nat.max (length exact) (length hnsw) in
  let ratio (total : nat) := if (0 <? total)%nat then
    F64.div (F64.of_Z (Z.of_nat overlap_count)) (F64.of_Z (Z.of_nat total)) else S754_zero false in
  mkQuality name limit (length exact) (length hnsw) overlap_count (ratio limit) (ratio union_count)
    (bool_decide (head exact_ids = head hnsw_ids)) (size (exact_set ∖ hnsw_set)) (size (hnsw_set ∖ exact_set)).

(** ** Workloads *)

Record Workload := mkWorkload {
  wl_nodes : list NodeRecord;
  wl_edges : list EdgeRecord;
  start_node_id : NodeId;
  end_node_id : NodeId;
}.

(** [format!("{prefix}{index}")]. *)
Definition numbered (prefix : string) (index : nat) : string := prefix +:+ pretty (N.of_nat index).
Definition put (key : string) (v : PropertyValue) (n : NodeRecord) : NodeRecord :=
  mkNode (node_id n) (node_type n) (<[key := v]> (node_properties n)) (node_vectors n).

(** The node of an index as both builders start it. *)
Definition base_workload_node (index : nat) : Res NodeRecord :=
  id ← NodeId_new (numbered "node_" index);
  node ← NodeRecord_new id (if (index mod 5 =? 0)%nat then "profile" else "memory");
  mret (put "timestamp" (PInteger (1000 + Z.of_nat index))
    (put "unique_key" (PString (numbered "unique_" index)) node)).

Definition tenths (n : nat) : f64 := F64.div (F64.of_Z (Z.of_nat (n mod 10))) (F64.of_Z 10).
Definition share (index node_count : nat) : f32 :=
  F32.div (F32.of_Z (Z.of_nat index)) (F32.of_Z (Z.of_nat (Nat.max node_count 1))).
Definition f32_sub : f32 → f32 → f32 := SFsub F32.prec F32.emax.
Definition workload_embedding (index node_count : nat) : list f32 :=
  [f32_sub F32.one (share index node_count); share index node_count;
   F32.lit (Z.of_nat (index mod 7)) 7; F32.lit (Z.of_nat (index mod 11)) 11].
Definition workload_node (profile : WorkloadProfile) (node_count index : nat) : Res NodeRecord :=
  node ← base_workload_node index;
  mret match profile with
    | Standard => put "embedding" (PFloatList (workload_embedding index node_count))
        (put "confidence" (PFloat (tenths (index + 3))) (put "importance" (PFloat (tenths index)) node))
    | Compact => node
    end.

Definition boxed {A} (r : Res A) : Result BenchStop A := map_err BoxedError r.
Definition workload_edge (nodes : list NodeRecord) (index : nat) : Result BenchStop EdgeRecord :=
  id ← boxed (EdgeId_new (numbered "edge_" index));
  source ← ok_or (nodes !! index) out_of_bounds;
  target ← ok_or (nodes !! S index) out_of_bounds;
  mret (mkEdge id (node_id source) (node_id target) "relates_to" ∅).

Definition build_workload (node_count : nat) (profile : WorkloadProfile) : Result BenchStop Workload :=
  nodes ← boxed (result_collect (workload_node profile node_count) (seq 0 node_count));
  edges ← result_collect (workload_edge nodes) (seq 0 (node_count - 1));
  start ← ok_or (head nodes) (BoxedMessage "workload must contain at least one node");
  last ← ok_or (nodes !! Nat.min (node_count - 1) 24) (BoxedMessage "workload must contain at least one node");
  mret (mkWorkload nodes edges (node_id start) (node_id last)).

(** A range [start..end]. *)
Definition Range : Type := nat * nat.
Definition indices (r : Range) : list nat := seq r.1 (r.2 - r.1).

(** Every turn moves [start], so the number of items is fuel enough. *)
Fixpoint batch_ranges_from (fuel start total : nat) : list Range :=
  match fuel with
  | O => []
  | S fuel =>
    if (start <? total)%nat then
      let stop := Nat.min (start + STORAGE_BATCH_SIZE) total in
      (start, stop) :: batch_ranges_from fuel stop total
    else []
  end.
Definition batch_ranges (total : nat) : list Range := batch_ranges_from total 0 total.
Definition reverse_batch_ranges (total : nat) : list Range := rev (batch_ranges total).

Definition nodes_for_range (r : Range) : Res (list NodeRecord) := result_collect base_workload_node (indices r).
Definition range_edge (index : nat) : Res EdgeRecord :=
  id ← EdgeId_new (numbered "edge_" index);
  source ← NodeId_new (numbered "node_" index);
  target ← NodeId_new (numbered "node_" (index + 1));
  mret (mkEdge id source target "relates_to" ∅).
Definition edges_for_range (r : Range) : Res (list EdgeRecord) := result_collect range_edge (indices r).
Definition node_ids_for_range (r : Range) : Res (list NodeId) :=
  result_collect (λ index, NodeId_new (numbered "node_" index)) (indices r).
Definition edge_ids_for_range (r : Range) : Res (list EdgeId) :=
  result_collect (λ index, EdgeId_new (numbered "edge_" index)) (indices r).

(** ** Configurations *)

Section bench.
Context `{WalCodec, StorageCodec, HnswLib, IndexCodec}.
(** The process id and clock readings of the default configurations, how long a timed step took,
    the directory [tempfile::tempdir] makes, the clock of the executor and the peak memory. *)
Context (pid : N) (nanos : nat → N) (elapsed_us : string → nat → N) (temp_dir : Path) (query_clock : nat → N)
  (peak_rss : option N).

Definition benchmark_storage_config (root : string) : AppConfig :=
  let c := AppConfig_default pid (nanos 0) (nanos 1) (nanos 2) in
  {| server := server c;
     storage := {| Config.root_dir := root; create_if_missing := create_if_missing (storage c);
       storage_version := storage_version (storage c) |};
     wal := {| segment_size_bytes := segment_size_bytes (wal c); fsync_on_write := fsync_on_write (wal c);
       max_replay_bytes := N.max (max_replay_bytes (wal c)) BENCHMARK_WAL_REPLAY_BYTES |};
     auth := auth c; maintenance := maintenance c; vector_index := vector_index c;
     observability := observability c |}.
Definition benchmark_exact_vector_index_config : VectorIndexConfig :=
  let c := VectorIndexConfig_default in
  {| backend := BackendExact; exact_fallback_threshold := exact_fallback_threshold c;
     semantic_top_k := semantic_top_k c; hnsw_m := hnsw_m c; hnsw_ef_construction := hnsw_ef_construction c;
     hnsw_ef_search := hnsw_ef_search c |}.
Definition benchmark_hnsw_vector_index_config (t : HnswTuningReport) : VectorIndexConfig :=
  {| backend := BackendHnsw; exact_fallback_threshold := 1; semantic_top_k := ht_semantic_top_k t;
     hnsw_m := ht_m t; hnsw_ef_construction := ht_ef_construction t; hnsw_ef_search := ht_ef_search t |}.

(** ** Storage scenarios *)

Definition bench (A : Type) : Type := sm World BenchStop A.
Definition bench_step {S A} (m : sm S Failure A) : sm S BenchStop A := λ s,
  let '(r, s) := m s in
  (map_err (λ f, match f with Error e => BoxedError e | Panic message => BenchPanic message end) r, s).
Definition bench_fs {A} (m : fsm A) : bench A := λ w, let '(r, w) := m w in (map_err BoxedMessage r, w).
Definition bench_fail {S A} (message : string) : sm S BenchStop A := sm_fail (BoxedMessage message).
Definition bench_result {S A} (r : Result BenchStop A) : sm S BenchStop A := sm_lift r.
Definition bench_m (A : Type) : Type := sm (World * StorageEngine) BenchStop A.

(** [let tempdir = tempdir()?], dropped at the end of the function. *)
Definition in_temp_dir {A} (m : bench A) : bench A := λ w,
  let '(r, w) := fs_create_dir_all temp_dir w in
  match r with
  | Err error => (Err (BoxedMessage error), w)
  | Ok _ => let '(r, w) := m w in (r, (fs_remove_dir_all temp_dir w).2)
  end.
Definition data_config : AppConfig := benchmark_storage_config (path_display ("data" :: temp_dir)).
(** A block with an engine of its own. *)
Definition with_engine {A} (m : bench_m A) : bench A :=
  engine ← bench_step (open_engine data_config);
  ((λ w, let '(r, (w, _)) := m (w, engine) in (r, w)) : bench A).
Definition of_engine {A} (f : StorageEngine → A) : bench_m A := λ '(w, e), (Ok (f e), (w, e)).
Definition engine_counts : bench_m (nat * nat) := of_engine (λ e, (node_count e, edge_count e)).

Definition upsert_workload (wl : Workload) : bench_m unit :=
  bench_step (upsert_nodes (wl_nodes wl)) ;; bench_step (upsert_edges (wl_edges wl)) ;; mret tt.
Definition check_counts (nodes edges : nat) (message : string) : bench_m unit :=
  '(n, e) ← engine_counts;
  if negb (n =? nodes)%nat || negb (e =? edges)%nat then bench_fail message else mret tt.
Definition verify_storage_counts (node_count : nat) : bench_m unit :=
  '(n, e) ← engine_counts;
  let expected_edges := (node_count - 1)%nat in
  let show k := pretty (N.of_nat k) in
  if negb (n =? node_count)%nat || negb (e =? expected_edges)%nat then
    bench_fail ("storage benchmark produced incorrect counts: expected=(" +:+ show node_count +:+ "," +:+
      show expected_edges +:+ ") actual=(" +:+ show n +:+ "," +:+ show e +:+ ")")
  else mret tt.
Definition populate_compact_storage (node_count : nat) : bench_m unit :=
  sm_for (batch_ranges node_count) (λ range,
    nodes ← bench_result (boxed (nodes_for_range range)); bench_step (upsert_nodes nodes) ;; mret tt) ;;
  sm_for (batch_ranges (node_count - 1)) (λ range,
    edges ← bench_result (boxed (edges_for_range range)); bench_step (upsert_edges edges) ;; mret tt).

Definition bench_storage_upsert (wl : Workload) : bench unit :=
  in_temp_dir (with_engine (upsert_workload wl ;;
    check_counts (length (wl_nodes wl)) (length (wl_edges wl)) "storage_upsert benchmark produced incorrect counts")).
Definition bench_storage_upsert_streamed (node_count : nat) : bench unit :=
  in_temp_dir (with_engine (populate_compact_storage node_count ;; verify_storage_counts node_count)).
Definition bench_storage_delete (wl : Workload) : bench unit :=
  in_temp_dir (with_engine (upsert_workload wl ;;
    bench_step (delete_edges (rev (edge_id <$> wl_edges wl))) ;;
    bench_step (delete_nodes (rev (node_id <$> wl_nodes wl))) ;;
    check_counts 0 0 "storage_delete benchmark did not remove all records")).
Definition bench_storage_delete_streamed (node_count : nat) : bench unit :=
  in_temp_dir (with_engine (populate_compact_storage node_count ;;
    sm_for (reverse_batch_ranges (node_count - 1)) (λ range,
      ids ← bench_result (boxed (edge_ids_for_range range)); bench_step (delete_edges ids) ;; mret tt) ;;
    sm_for (reverse_batch_ranges node_count) (λ range,
      ids ← bench_result (boxed (node_ids_for_range range)); bench_step (delete_nodes ids) ;; mret tt) ;;
    check_counts 0 0 "streamed storage_delete benchmark did not remove all records")).
Definition bench_wal_recovery (wl : Workload) : bench unit :=
  in_temp_dir (with_engine (upsert_workload wl) ;;
    with_engine (check_counts (length (wl_nodes wl)) (length (wl_edges wl))
      "wal_recovery benchmark reopened with incorrect counts")).
Definition bench_wal_recovery_streamed (node_count : nat) : bench unit :=
  in_temp_dir (with_engine (populate_compact_storage node_count) ;; with_engine (verify_storage_counts node_count)).

(** ** Footprints *)

(** [path.metadata()?.len()], of a file. *)
Definition fs_len (p : Path) : fsm N := bs ← fs_read p; mret (N.of_nat (length bs)).
(** [recursive_path_size]: a tree is no deeper than the disk has directories. *)
Fixpoint path_size_fuel (fuel : nat) (p : Path) : fsm N :=
  match fuel with
  | O => mret 0%N
  | S fuel =>
    w ← sm_get;
    if negb (path_exists w p) then mret 0%N
    else if is_file w p then fs_len p
    else
      names ← fs_read_dir p;
      foldr (λ name m, n ← path_size_fuel fuel (name :: p); rest ← m; mret (n + rest)%N) (mret 0%N) names
  end.
Definition recursive_path_size (p : Path) : bench N :=
  w ← sm_get;
  bench_fs (path_size_fuel (S (S (size (dirs w)))) p).
Definition file_len_if_exists (p : Path) : bench N :=
  w ← sm_get;
  if path_exists w p then bench_fs (fs_len p) else mret 0%N.

Definition on_bench_disk {A} (m : bench A) : bench_m A := λ '(w, e), let '(r, w) := m w in (r, (w, e)).

(** Both footprints: they differ in how the store is filled and checked. *)
Definition footprint (fill check : bench_m unit) : bench StorageFootprintReport :=
  in_temp_dir (
    '(wal_size, snapshot_size, delta_size, index_size, total, compacted) ← with_engine (
      fill ;;
      l ← of_engine e_layout;
      wal_size ← on_bench_disk (recursive_path_size (subdirectory l "wal"));
      nodes ← on_bench_disk (file_len_if_exists (node_segment_path l));
      edges ← on_bench_disk (file_len_if_exists (edge_segment_path l));
      vectors ← on_bench_disk (file_len_if_exists (vector_segment_path l));
      delta_size ← on_bench_disk (recursive_path_size (delta_directory l));
      index_size ← on_bench_disk (file_len_if_exists (index_snapshot_path l));
      total ← on_bench_disk (recursive_path_size (Store.root_dir l));
      bench_step Recovery.compact ;;
      compacted ← on_bench_disk (recursive_path_size (Store.root_dir l));
      mret (wal_size, (nodes + edges + vectors)%N, delta_size, index_size, total, compacted));
    with_engine check ;;
    mret (mkFootprint wal_size snapshot_size delta_size index_size total compacted
      (elapsed_us "compaction" 0) (elapsed_us "recovery" 0))).
Definition measure_storage_footprint (wl : Workload) : bench StorageFootprintReport :=
  footprint (upsert_workload wl) (check_counts (length (wl_nodes wl)) (length (wl_edges wl))
    "storage footprint recovery check reopened with incorrect counts").
Definition measure_storage_footprint_streamed (node_count : nat) : bench StorageFootprintReport :=
  footprint (populate_compact_storage node_count) (verify_storage_counts node_count).

(** ** Query scenarios *)

(** The snapshot of a workload, with the store its vector index lives in. *)
Definition snapshot_with_vector_index_config (wl : Workload) (c : VectorIndexConfig) : GraphSnapshot * list Runtime :=
  let '(index, h) := rebuild_with_config (wl_nodes wl) (wl_edges wl) c [] in
  (mkSnapshot (insert_all node_id (wl_nodes wl) ∅, insert_all edge_id (wl_edges wl) ∅) index, h).

Definition bench_execute (snapshot : GraphSnapshot * list Runtime) (request : QueryRequest)
    : Result BenchStop QueryResponse :=
  match execute (snapshot_view snapshot.2 snapshot.1) query_clock request with
  | Some r => map_err (λ f, match f with Error e => BoxedError e | Panic message => BenchPanic message end) r
  | None => Err BenchDiverged
  end.
(** Run a request and complain when the answer is not as it should be. *)
Definition bench_query (snapshot : GraphSnapshot * list Runtime) (request : QueryRequest)
    (good : QueryResponse → bool) (message : string) : Result BenchStop unit :=
  response ← bench_execute snapshot request;
  if good response then Ok tt else Err (BoxedMessage message).

Definition bench_label_scan snapshot : Result BenchStop unit :=
  bench_query snapshot (SearchByLabel "memory" (Some 1000%N)) (λ r, negb (is_nil (qr_nodes r)))
    "label_scan benchmark returned no nodes".
Definition bench_exact_lookup snapshot (wl : Workload) : Result BenchStop unit :=
  bench_query snapshot (GetNodeById (start_node_id wl)) (λ r, (length (qr_nodes r) =? 1)%nat)
    "exact_lookup benchmark failed to return exactly one node".
Definition has_graph_items (r : QueryResponse) : bool := negb (is_nil (qr_nodes r) || is_nil (qr_edges r)).
Definition bench_list_neighbors snapshot (wl : Workload) : Result BenchStop unit :=
  bench_query snapshot (ListNeighbors (start_node_id wl) (Some "relates_to") Outgoing (Some 50%N)) has_graph_items
    "list_neighbors_1_hop benchmark returned no graph items".
Definition bench_traverse snapshot (wl : Workload) : Result BenchStop unit :=
  bench_query snapshot (Traverse (start_node_id wl) (Some "relates_to") Outgoing (Some 5%N) (Some 1000%N)
    (Some 5000%N) None) has_graph_items "traverse_5_hops benchmark returned no graph items".
Definition bench_shortest_path snapshot (wl : Workload) : Result BenchStop unit :=
  bench_query snapshot (ShortestPath (start_node_id wl) (end_node_id wl) Outgoing (Some 32%N) (Some 1000%N)
    (Some 5000%N) None) (λ r, bool_decide (is_Some (qr_path r))) "shortest_path benchmark failed to find a path".
Definition bench_temporal_range snapshot : Result BenchStop unit :=
  bench_query snapshot (TimeRange "timestamp" 1000 1000000 1000) (λ r, negb (is_nil (qr_nodes r)))
    "temporal_range benchmark returned no nodes".

Definition bench_vector : list f32 := [F32.one; F32.zero; F32.lit 1 2; F32.lit 1 4].
Definition vector_search_request : QueryRequest := VectorSearch bench_vector (Some "memory") None 50 None.
Definition ranked_retrieval_request (wl : Workload) : QueryRequest :=
  RankedRetrieval (Some bench_vector) (Some (start_node_id wl)) (Some "relates_to") (Some 1000%Z) (Some 1000000%Z)
    None 50 None 1000000 (Some "v1-default").
Definition bench_vector_search snapshot : Result BenchStop unit :=
  bench_query snapshot vector_search_request (λ r, negb (is_nil (qr_ranked_results r)))
    "vector_search benchmark returned no results".
Definition bench_ranked_retrieval snapshot (wl : Workload) : Result BenchStop unit :=
  bench_query snapshot (ranked_retrieval_request wl) (λ r, negb (is_nil (qr_ranked_results r)))
    "ranked_retrieval benchmark returned no results".

Definition measure_quality_comparisons exact_snapshot hnsw_snapshot (wl : Workload)
    : Result BenchStop (list QualityComparisonReport) :=
  exact_vector ← bench_execute exact_snapshot vector_search_request;
  hnsw_vector ← bench_execute hnsw_snapshot vector_search_request;
  exact_ranked ← bench_execute exact_snapshot (ranked_retrieval_request wl);
  hnsw_ranked ← bench_execute hnsw_snapshot (ranked_retrieval_request wl);
  Ok [compare_ranked_results "vector_search" (qr_ranked_results exact_vector) (qr_ranked_results hnsw_vector);
      compare_ranked_results "ranked_retrieval" (qr_ranked_results exact_ranked) (qr_ranked_results hnsw_ranked)].

Definition measure_vector_index_footprint (wl : Workload) (tuning : HnswTuningReport) : bench VectorIndexFootprintReport :=
  in_temp_dir (with_engine (
    upsert_workload wl ;;
    '(l, lsn) ← of_engine (λ e, (e_layout e, e_latest_applied_lsn e));
    let c := benchmark_hnsw_vector_index_config tuning in
    let '(manifest, graph, vectors) :=
      (vector_index_manifest_path l, vector_index_graph_path l, vector_index_vectors_path l) in
    let '(index, h) := rebuild_with_config (wl_nodes wl) (wl_edges wl) c [] in
    on_bench_disk (bench_step (persist_vector_index h index manifest graph vectors lsn)) ;;
    m ← on_bench_disk (file_len_if_exists manifest);
    g ← on_bench_disk (file_len_if_exists graph);
    v ← on_bench_disk (file_len_if_exists vectors);
    reloaded ← on_bench_disk (λ w, let '((index, _), w) := rebuild_with_config_and_vector_index_load (wl_nodes wl)
      (wl_edges wl) c (Some (mkLoadConfig manifest graph vectors lsn)) h w in (Ok index, w));
    let s := index_snapshot reloaded in
    if bool_decide (is_vector_backend s ≠ "hnsw") || negb (is_vector_runtime_ready s) then
      bench_fail "vector index footprint benchmark failed to reload an HNSW runtime"
    else mret (mkVectorFootprint (m + g + v)%N (elapsed_us "hnsw_build" 0) (elapsed_us "hnsw_reload" 0)))).

(** ** Runs *)

(** [measure]: the workload [iterations] times, each timed. *)
Definition measure (name : string) (iterations : nat) (workload : bench unit) : bench ScenarioReport :=
  sm_for (seq 0 iterations) (λ _, workload) ;;
  bench_result (summarize name (elapsed_us name <$> seq 0 iterations)).
Definition measure_query (name : string) (iterations : nat) (workload : Result BenchStop unit) : bench ScenarioReport :=
  measure name iterations (bench_result workload).

Fixpoint bench_all {A} (l : list (bench A)) : bench (list A) :=
  match l with [] => mret [] | m :: l => a ← m; rest ← bench_all l; mret (a :: rest) end.

Definition run_streamed_storage_scale (node_count iterations : nat) : bench ScaleReport :=
  footprint ← measure_storage_footprint_streamed node_count;
  scenarios ← bench_all [measure "storage_upsert" iterations (bench_storage_upsert_streamed node_count);
    measure "storage_delete" iterations (bench_storage_delete_streamed node_count);
    measure "wal_recovery" iterations (bench_wal_recovery_streamed node_count)];
  mret (mkScale node_count (node_count - 1) peak_rss footprint None [] scenarios).

Definition query_scenarios (iterations : nat) (wl : Workload) (vectors : bool)
    (snapshot : GraphSnapshot * list Runtime) (hnsw : option (GraphSnapshot * list Runtime)) : list (bench ScenarioReport) :=
  [measure_query "exact_lookup" iterations (bench_exact_lookup snapshot wl);
   measure_query "list_neighbors_1_hop" iterations (bench_list_neighbors snapshot wl);
   measure_query "label_scan" iterations (bench_label_scan snapshot);
   measure_query "traverse_5_hops" iterations (bench_traverse snapshot wl);
   measure_query "shortest_path" iterations (bench_shortest_path snapshot wl);
   measure_query "temporal_range" iterations (bench_temporal_range snapshot)] ++
  (if vectors then
     [measure_query "vector_search_exact" iterations (bench_vector_search snapshot);
      measure_query "ranked_retrieval_exact" iterations (bench_ranked_retrieval snapshot wl)] ++
     match hnsw with
     | Some hnsw => [measure_query "vector_search_hnsw" iterations (bench_vector_search hnsw);
         measure_query "ranked_retrieval_hnsw" iterations (bench_ranked_retrieval hnsw wl)]
     | None => []
     end
   else []).

Definition run_scale (node_count iterations : nat) (sp : ScenarioProfile) (wp : WorkloadProfile)
    (tuning : HnswTuningReport) : bench ScaleReport :=
  match sp, wp with
  | StorageOnly, Compact => run_streamed_storage_scale node_count iterations
  | _, _ =>
    wl ← bench_result (build_workload node_count wp);
    let exact := if includes_query_scenarios sp
      then Some (snapshot_with_vector_index_config wl benchmark_exact_vector_index_config) else None in
    let hnsw := if includes_query_scenarios sp && includes_vectors wp
      then Some (snapshot_with_vector_index_config wl (benchmark_hnsw_vector_index_config tuning)) else None in
    footprint ← measure_storage_footprint wl;
    vectors ← (if includes_vectors wp then v ← measure_vector_index_footprint wl tuning; mret (Some v) else mret None);
    quality ← match exact, hnsw with
      | Some exact, Some hnsw => bench_result (measure_quality_comparisons exact hnsw wl)
      | _, _ => mret []
      end;
    scenarios ← bench_all (
      (if includes_storage_scenarios sp then
         [measure "storage_upsert" iterations (bench_storage_upsert wl);
          measure "storage_delete" iterations (bench_storage_delete wl);
          measure "wal_recovery" iterations (bench_wal_recovery wl)]
       else []) ++
      match exact with
      | Some snapshot => query_scenarios iterations wl (includes_vectors wp) snapshot hnsw
      | None => []
      end);
    mret (mkScale (length (wl_nodes wl)) (length (wl_edges wl)) peak_rss footprint vectors quality scenarios)
  end.
End bench.

(** ** Batches *)

Lemma batch_ranges_from_cover fuel : ∀ start total, (total - start <= fuel)%nat →
  concat (indices <$> batch_ranges_from fuel start total) = seq start (total - start) ∧
  Forall (λ r, (r.1 < r.2)%nat ∧ (r.2 - r.1 <= STORAGE_BATCH_SIZE)%nat) (batch_ranges_from fuel start total).
Proof.
  assert (Hpos : (0 < STORAGE_BATCH_SIZE)%nat) by (unfold STORAGE_BATCH_SIZE; lia).
  induction fuel as [|fuel IH]; intros start total Hfuel; cbn [batch_ranges_from].
  - replace (total - start)%nat with 0%nat by lia. by split.
  - destruct (Nat.ltb_spec start total) as [Hlt|]; [|replace (total - start)%nat with 0%nat by lia; by split].
    set (stop := Nat.min (start + STORAGE_BATCH_SIZE) total).
    destruct (IH stop total) as [Hcover Hsize]; [lia|]. split.
    + cbn [fmap list_fmap concat]. rewrite Hcover. unfold indices at 1. cbn [fst snd].
      replace (seq stop (total - stop)) with (seq (start + (stop - start)) (total - stop)) by (f_equal; lia).
      rewrite <-seq_app. f_equal. lia.
    + constructor; [cbn [fst snd]; lia|done].
Qed.
Lemma batch_ranges_cover total : concat (indices <$> batch_ranges total) = seq 0 total ∧
  Forall (λ r, (r.1 < r.2)%nat ∧ (r.2 - r.1 <= STORAGE_BATCH_SIZE)%nat) (batch_ranges total).
Proof.
  destruct (batch_ranges_from_cover total 0 total) as [Hcover Hsize]; [lia|]. by rewrite Nat.sub_0_r in Hcover.
Qed.

Lemma collect_app {A B} (f : A → Res B) l k ys : result_collect f (l ++ k) = Ok ys →
  ∃ ys1 ys2, result_collect f l = Ok ys1 ∧ result_collect f k = Ok ys2 ∧ ys = ys1 ++ ys2.
Proof.
  rewrite result_collect_Ok. intros Hall. apply Forall2_app_inv_l in Hall as (ys1 & ys2 & H1 & H2 & ->).
  exists ys1, ys2. by rewrite !result_collect_Ok.
Qed.
(** Collecting in batches collects the same. *)
Lemma collect_batches {A B} (f : A → Res B) (batches : list (list A)) : ∀ ys, result_collect f (concat batches) = Ok ys →
  ∃ yss, result_collect (result_collect f) batches = Ok yss ∧ concat yss = ys.
Proof.
  induction batches as [|batch batches IH]; intros ys Hys; [by exists []; injection Hys as <-|].
  apply collect_app in Hys as (ys1 & ys2 & H1 & (yss & H2 & <-)%IH & ->). exists (ys1 :: yss). cbn [result_collect].
  by rewrite H1, H2.
Qed.
Lemma collect_ranges {B} (f : nat → Res B) total ys : result_collect f (seq 0 total) = Ok ys →
  ∃ yss, result_collect (λ r, result_collect f (indices r)) (batch_ranges total) = Ok yss ∧ concat yss = ys.
Proof.
  destruct (batch_ranges_cover total) as [<- _]. intros (yss & Hyss & Hconcat)%collect_batches. exists yss.
  split; [|done]. rewrite <-Hyss. clear. induction (batch_ranges total) as [|r l IH]; [done|].
  cbn [result_collect fmap list_fmap]. by rewrite IH.
Qed.

Lemma base_node_id index x : base_workload_node index = Ok x → NodeId_new (numbered "node_" index) = Ok (node_id x).
Proof.
  unfold base_workload_node. destruct (NodeId_new (numbered "node_" index)) as [id|e]; [|done]. cbn [mbind result_bind].
  unfold NodeRecord_new. intros Hx. apply result_bind_Ok in Hx as (node & Hnode & [= <-]).
  apply result_bind_Ok in Hnode as ([] & _ & [= <-]). done.
Qed.

(** An edge between two nodes of the workload is the one its index gives. *)
Lemma workload_edge_of_range nodes n index e : Forall2 (λ i x, base_workload_node i = Ok x) (seq 0 n) nodes →
  workload_edge nodes index = Ok e → range_edge index = Ok e.
Proof.
  intros Hnodes. unfold workload_edge, range_edge, boxed.
  destruct (EdgeId_new (numbered "edge_" index)) as [id|err]; [|done]. cbn [map_err mbind result_bind].
  assert (Hat : ∀ i x, nodes !! i = Some x → NodeId_new (numbered "node_" i) = Ok (node_id x)).
  { intros i x Hx. apply base_node_id. destruct (Forall2_lookup_r _ _ _ _ _ Hnodes Hx) as (j & Hj & Hbase).
    apply lookup_seq in Hj as [-> _]. exact Hbase. }
  destruct (nodes !! index) as [source|] eqn:Hs; [|done]. destruct (nodes !! S index) as [target|] eqn:Ht; [|done].
  apply Hat in Hs, Ht. rewrite Nat.add_1_r, Hs, Ht. by intros [= <-].
Qed.


(** ** Statistics *)

(** The index of a percentile does not fall when the percentile rises, for up to a thousand
    samples. *)
Lemma percentile_indices count : (count <= 1000)%nat →
  (percentile_index count (percent 50) <= percentile_index count (percent 95) <= percentile_index count (percent 99))%nat.
Proof.
  intros Hcount. assert (Hall : forallb (λ n, (percentile_index n (percent 50) <=? percentile_index n (percent 95))%nat &&
    (percentile_index n (percent 95) <=? percentile_index n (percent 99))%nat) (seq 0 1001) = true) by (vm_compute; reflexivity).
  rewrite forallb_forall in Hall. specialize (Hall count). rewrite <-list_elem_of_In, elem_of_seq in Hall.
  specialize (Hall ltac:(lia)). apply andb_true_iff in Hall as [?%Nat.leb_le ?%Nat.leb_le]. lia.
Qed.

Lemma sorted_lookup_le (l : list N) i j x y : StronglySorted N.le l → (i <= j)%nat → l !! i = Some x → l !! j = Some y →
  (x <= y)%N.
Proof.
  intros Hs. revert i j. induction Hs as [|a l Hs IH Ha]; intros i j Hij Hx Hy; [done|].
  destruct i as [|i], j as [|j]; simpl in *; [simplify_eq; lia| |lia|by apply (IH i j); [lia|..]].
  injection Hx as ->. rewrite list.Forall_forall in Ha. apply Ha. by eapply list_elem_of_lookup_2.
Qed.

(** A run without samples panics; any other has its samples in order between the least and the
    greatest, and the percentiles are samples, in order as well for up to a thousand. *)
Lemma summarize_orders name samples :
  match samples with
  | [] => summarize name samples = Err out_of_bounds
  | _ => ∃ r, summarize name samples = Ok r ∧ samples_us r ≡ₚ samples ∧
      (∀ x, x ∈ samples → (min_us r <= x <= max_us r)%N) ∧
      p50_us r ∈ samples ∧ p95_us r ∈ samples ∧ p99_us r ∈ samples ∧
      ((length samples <= 1000)%nat → (p50_us r <= p95_us r <= p99_us r)%N)
  end.
Proof.
  destruct samples as [|s samples]; [done|]. set (l := s :: samples).
  unfold summarize. cbv zeta. set (k := merge_sort N.le l).
  assert (Hperm : k ≡ₚ l) by apply merge_sort_Permutation.
  assert (Hsorted : StronglySorted N.le k) by (apply StronglySorted_merge_sort; [intros ? ? ?; lia|intros ? ?; lia]).
  assert (Hlen : length k = length l) by by rewrite Hperm.
  assert (Hpos : (0 < length k)%nat) by (rewrite Hlen; simpl; lia).
  assert (Hat : ∀ p, ∃ x, percentile k p = Some x ∧ x ∈ l).
  { intros p. unfold percentile. destruct (lookup_lt_is_Some_2 k (percentile_index (length k) p)) as [x Hx].
    { unfold percentile_index. lia. }
    exists x. split; [done|]. rewrite <-Hperm. by eapply list_elem_of_lookup_2. }
  assert (Hhead : ∃ m, head k = Some m ∧ k !! 0%nat = Some m) by (destruct k as [|m k']; [simpl in Hpos; lia|by exists m]).
  destruct Hhead as (m & Hhead & Hm). rewrite Hhead. cbn [ok_or mbind result_bind].
  destruct (Hat (percent 50)) as (x50 & H50 & In50). destruct (Hat (percent 95)) as (x95 & H95 & In95).
  destruct (Hat (percent 99)) as (x99 & H99 & In99). rewrite H50, H95, H99. cbn [ok_or mbind result_bind].
  eexists. split; [reflexivity|]. cbn [samples_us min_us max_us p50_us p95_us p99_us]. split; [done|]. split.
  - intros x Hx. rewrite <-Hperm in Hx. apply list_elem_of_lookup in Hx as [i Hi]. split.
    + apply (sorted_lookup_le k 0 i m x Hsorted); [lia|done..].
    + rewrite last_lookup. destruct (lookup_lt_is_Some_2 k (Init.Nat.pred (length k))) as [y Hy]; [lia|].
      rewrite Hy. apply (sorted_lookup_le k i (Init.Nat.pred (length k)) x y Hsorted); [|done..].
      apply lookup_lt_Some in Hi. lia.
  - split; [done|]. split; [done|]. split; [done|]. intros Hcount. unfold percentile in H50, H95, H99.
    destruct (percentile_indices (length k)) as [H1 H2]; [lia|].
    split; [apply (sorted_lookup_le k _ _ x50 x95 Hsorted H1)|apply (sorted_lookup_le k _ _ x95 x99 Hsorted H2)]; done.
Qed.

(** [--iterations 0] runs nothing, and panics on the first sample. *)
Lemma no_iterations_panic name elapsed workload w :
  (measure elapsed name 0 workload w).1 = Err out_of_bounds.
Proof. done. Qed.

(** ** A concrete input *)

