(* ===== verification/BenchMain.v ===== *)
(** * [undr9-bench]: the program

    The arguments after clap has parsed them, the report, [main] with the lines it prints, and
    the peak memory.  Encoding the report, the names of the host and the readings of clocks are
    parameters; the readings of a scale are given by its number of nodes. *)
From S2P Require Import Prelude RustStd RustFloat Common Core Config Fs Wal Store Engine Index Bench.

#[local] Open Scope string_scope.
#[local] Open Scope list_scope.

Record Args := mkArgs {
  arg_scales : string;
  arg_iterations : nat;
  arg_output : Path;
  arg_scenario_profile : string;
  arg_workload_profile : string;
  arg_hnsw_semantic_top_k : option N;
  arg_hnsw_ef_search : option N;
  arg_hnsw_m : option N;
  arg_hnsw_ef_construction : option N;
}.
(** What a run without arguments has. *)
Definition Args_default : Args :=
  mkArgs "1000,5000,10000" 5 (path_of_string "docs/operations/single-node-benchmark-baseline.json") "full" "standard"
    None None None None.

Record BenchmarkReport := mkBenchmarkReport {
  generated_at_ms : N;
  host_os : string;
  host_arch : string;
  timing_unit : string;
  report_iterations : nat;
  report_scenario_profile : string;
  report_workload_profile : string;
  report_hnsw_tuning : HnswTuningReport;
  scales : list ScaleReport;
}.

(** ** Printing *)

(** The nearest integer of [n / d], halves to the even one. *)
Definition div_round_half_even (n d : Z) : Z :=
  let q := (n / d)%Z in
  let twice := (2 * (n mod d))%Z in
  if (twice <? d)%Z then q else if (d <? twice)%Z then (q + 1)%Z else if Z.even q then q else (q + 1)%Z.
(** The hundredths of [m * 2^e]. *)
Definition hundredths (m : positive) (e : Z) : Z :=
  if (0 <=? e)%Z then (Z.pos m * 100 * 2 ^ e)%Z else div_round_half_even (Z.pos m * 100) (2 ^ (- e)).
Definition two_digits (n : N) : string := if (n <? 10)%N then "0" +:+ pretty n else pretty n.
(** [{:.2}]. *)
Definition fmt_two (x : f64) : string :=
  match x with
  | S754_nan => "NaN"
  | S754_infinity s => if s then "-inf" else "inf"
  | S754_zero s => if s then "-0.00" else "0.00"
  | S754_finite s m e =>
    let n := Z.to_N (hundredths m e) in
    (if s then "-" else "") +:+ pretty (n / 100)%N +:+ "." +:+ two_digits (n mod 100)%N
  end.
(** [{:24}]. *)
Definition spaces (n : nat) : string := Nat.iter n (String " "%char) "".
Definition pad_right (width : nat) (s : string) : string := s +:+ spaces (width - String.length s).

Definition scenario_line (s : ScenarioReport) : string :=
  "  " +:+ pad_right 24 (scr_name s) +:+ " p50=" +:+ pretty (p50_us s) +:+ "us p95=" +:+ pretty (p95_us s) +:+
    "us p99=" +:+ pretty (p99_us s) +:+ "us max=" +:+ pretty (max_us s) +:+ "us mean=" +:+ fmt_two (mean_us s) +:+
    "us ops/s=" +:+ fmt_two (throughput_ops_per_sec s).
Definition scale_lines (s : ScaleReport) : list string :=
  ("scale nodes=" +:+ pretty (N.of_nat (sr_node_count s)) +:+ " edges=" +:+ pretty (N.of_nat (sr_edge_count s))) ::
    (scenario_line <$> scenarios s).

(** ** The peak memory *)

(** [getrusage] answers with a status and [ru_maxrss], which macOS gives in bytes and the others
    in kilobytes; a product past 64 bits panics in a build that checks. *)
Definition current_process_peak_rss_bytes (macos : bool) (rusage : Z * Z) : Result BenchStop (option N) :=
  let '(status, ru_maxrss) := rusage in
  if negb (status =? 0)%Z then Ok None
  else
    let ru_maxrss := Z.to_N (ru_maxrss mod 2 ^ 64) in
    if macos then Ok (Some ru_maxrss)
    else if (u64_max <? ru_maxrss * 1024)%N then Err (BenchPanic "attempt to multiply with overflow")
    else Ok (Some (ru_maxrss * 1024)%N).

Section program.
Context `{WalCodec, StorageCodec, HnswLib, IndexCodec}.
Context (pid : N) (nanos : nat → N) (elapsed_us : N → string → nat → N) (temp_dir : Path) (query_clock : nat → N)
  (peak_rss : N → option N) (now_ms : N) (os arch : string)
  (json_pretty_report : BenchmarkReport → Result string bytes).

(** The scales one after the other. *)
Definition run_scales (node_counts : list N) (iterations : nat) (sp : ScenarioProfile) (wp : WorkloadProfile)
    (tuning : HnswTuningReport) : bench (list ScaleReport) :=
  bench_all ((λ node_count, run_scale pid nanos (elapsed_us node_count) temp_dir query_clock (peak_rss node_count)
    (N.to_nat node_count) iterations sp wp tuning) <$> node_counts).

Definition write_report (output : Path) (report : BenchmarkReport) : bench unit :=
  match output with [] => mret tt | _ :: parent => bench_fs (fs_create_dir_all parent) end ;;
  payload ← bench_result (map_err BoxedMessage (json_pretty_report report));
  bench_fs (fs_write output payload).

(** The lines that are printed. *)
Definition main (args : Args) : bench (list string) :=
  node_counts ← bench_result (parse_scales (arg_scales args));
  scenario_profile ← bench_result (parse_scenario_profile (arg_scenario_profile args));
  workload_profile ← bench_result (parse_workload_profile (arg_workload_profile args));
  let hnsw_tuning := benchmark_hnsw_tuning_from_args (arg_hnsw_semantic_top_k args) (arg_hnsw_ef_search args)
    (arg_hnsw_m args) (arg_hnsw_ef_construction args) in
  reports ← run_scales node_counts (arg_iterations args) scenario_profile workload_profile hnsw_tuning;
  let report := mkBenchmarkReport now_ms os arch "microseconds" (arg_iterations args)
    (scenario_profile_as_str scenario_profile) (workload_profile_as_str workload_profile) hnsw_tuning reports in
  write_report (arg_output args) report ;;
  mret (("wrote benchmark baseline to " +:+ path_display (arg_output args)) :: concat (scale_lines <$> reports)).
End program.

(** ** Examples *)

(** Halves of a hundredth go to the even neighbour, as the exact value has them. *)
Example formats : fmt_two <$> [F64.of_Z 12; F64.div (F64.of_Z 1) (F64.of_Z 8); F64.div (F64.of_Z 3) (F64.of_Z 8);
    F64.div (F64.of_Z 2) (F64.of_Z 3); F64.div (F64.of_Z (-1)) (F64.of_Z 1000)] = ["12.00"; "0.12"; "0.38"; "0.67"; "-0.00"].
Proof. vm_compute. reflexivity. Qed.

(** ** What a run leaves *)

Lemma elem_of_dedup_sorted l x : x ∈ dedup_sorted l → x ∈ l.
Proof.
  induction l as [|a l IH]; cbn [dedup_sorted foldr]; [done|]. fold (dedup_sorted l).
  destruct (dedup_sorted l) as [|y rest]; [intros ->%list_elem_of_singleton; left|].
  destruct (N.eqb_spec a y) as [->|]; intros Hin; [right; by apply IH|].
  apply elem_of_cons in Hin as [->|?]; [left|right; by apply IH].
Qed.
Lemma dedup_sorted_ascending l : StronglySorted N.le l → StronglySorted N.lt (dedup_sorted l).
Proof.
  induction 1 as [|a l Hl IH Ha]; cbn [dedup_sorted foldr]; [constructor|]. fold (dedup_sorted l).
  destruct (dedup_sorted l) as [|y rest] eqn:Hdedup; [repeat constructor|].
  destruct (N.eqb_spec a y) as [->|Hne]; [done|]. constructor; [done|].
  rewrite list.Forall_forall in Ha. assert (Hy : (a < y)%N).
  { assert (a <= y)%N; [|lia]. apply Ha, elem_of_dedup_sorted. rewrite Hdedup. left. }
  inversion IH as [|? ? _ Hrest]; subst. constructor; [done|]. eapply list.Forall_impl; [exact Hrest|]. intros z. lia.
Qed.
(** The scales are run in ascending order, each once, and there is one. *)
Lemma parse_scales_ascending raw node_counts : parse_scales raw = Ok node_counts →
  StronglySorted N.lt node_counts ∧ node_counts ≠ [].
Proof.
  unfold parse_scales. intros Hparse. apply result_bind_Ok in Hparse as (numbers & _ & Hparse).
  destruct (dedup_sorted _) as [|n l] eqn:Hdedup; [done|]. injection Hparse as <-. split; [|done]. rewrite <-Hdedup.
  apply dedup_sorted_ascending, (StronglySorted_merge_sort N.le).
Qed.

Lemma bench_all_Ok {A} (l : list (bench A)) : ∀ w ys w', bench_all l w = (Ok ys, w') →
  Forall2 (λ m y, ∃ v v', m v = (Ok y, v')) l ys.
Proof.
  induction l as [|m l IH]; intros w ys w' Hrun; [by injection Hrun as <- <-; constructor|].
  apply sm_bind_Ok in Hrun as (y & w1 & Hm & Hrun). apply sm_bind_Ok in Hrun as (rest & w2 & Hrest & [= <- <-]).
  constructor; [by exists w, w1|by eapply IH].
Qed.

Section laws.
Context `{WalCodec, StorageCodec, HnswLib, IndexCodec}.
Context (pid : N) (nanos : nat → N) (elapsed_us : N → string → nat → N) (temp_dir : Path) (query_clock : nat → N)
  (peak_rss : N → option N) (now_ms : N) (os arch : string)
  (json_pretty_report : BenchmarkReport → Result string bytes).

Lemma run_scale_count elapsed peak node_count iterations sp wp tuning w r w' :
  run_scale pid nanos elapsed temp_dir query_clock peak node_count iterations sp wp tuning w = (Ok r, w') →
  sr_node_count r = node_count ∧ sr_edge_count r = (node_count - 1)%nat.
Proof.
  assert (Hbuilt : ∀ wl, build_workload node_count wp = Ok wl →
    length (wl_nodes wl) = node_count ∧ length (wl_edges wl) = (node_count - 1)%nat).
  { intros wl Hwl. unfold build_workload, boxed in Hwl.
    destruct (result_collect (workload_node wp node_count) _) as [nodes|] eqn:Hnodes; [|done].
    apply result_bind_Ok in Hwl as (? & [= <-] & Hwl). apply result_bind_Ok in Hwl as (edges & Hedges & Hwl).
    apply result_bind_Ok in Hwl as (? & _ & Hwl). apply result_bind_Ok in Hwl as (? & _ & [= <-]).
    apply result_collect_Ok, Forall2_length in Hnodes, Hedges. rewrite length_seq in Hnodes, Hedges. by split. }
  assert (Hwhole : ∀ (f : Workload → bench ScaleReport), 
    (∀ wl v y v', f wl v = (Ok y, v') → sr_node_count y = length (wl_nodes wl) ∧ sr_edge_count y = length (wl_edges wl)) →
    (bench_result (build_workload node_count wp) ≫= f) w = (Ok r, w') →
    sr_node_count r = node_count ∧ sr_edge_count r = (node_count - 1)%nat).
  { intros f Hf Hrun. apply sm_bind_Ok in Hrun as (wl & v & Hwl & Hrun). injection Hwl as Hwl <-.
    destruct (Hbuilt wl Hwl) as [<- <-]. by apply (Hf _ _ _ _ Hrun). }
  assert (Hlast : ∀ wl (c : bench StorageFootprintReport) (v : bench (option VectorIndexFootprintReport))
      (q : bench (list QualityComparisonReport)) (s : bench (list ScenarioReport)) w1 y w2,
    (footprint ← c; vectors ← v; quality ← q; scenarios ← s;
     mret (mkScale (length (wl_nodes wl)) (length (wl_edges wl)) peak footprint vectors quality scenarios)) w1 = (Ok y, w2) →
    sr_node_count y = length (wl_nodes wl) ∧ sr_edge_count y = length (wl_edges wl)).
  { intros wl c v q s w1 y w2 Hrun. do 4 apply sm_bind_Ok in Hrun as (? & ? & _ & Hrun). by injection Hrun as <- <-. }
  unfold run_scale. destruct sp, wp.
  1-3: apply Hwhole; intros wl v y v'; apply Hlast.
  intros Hrun. do 2 apply sm_bind_Ok in Hrun as (? & ? & _ & Hrun). by injection Hrun as <- <-.
Qed.

Lemma fs_write_done p bs w w' : fs_write p bs w = (Ok tt, w') → files w' !! p = Some bs.
Proof.
  unfold fs_write. intros Hrun. apply sm_bind_Ok in Hrun as (fault & w1 & _ & Hrun).
  apply sm_bind_Ok in Hrun as (w2 & w3 & [= <- <-] & Hrun). destruct p as [|name dir]; [done|].
  destruct (is_dir w1 (name :: dir)); [done|]. destruct (is_dir w1 dir); cbn [negb] in Hrun; [|done].
  destruct fault as [[msg k]|]; [done|]. injection Hrun as <-. cbn [set_files files]. by rewrite lookup_insert_eq.
Qed.

(** A run that ends well has written the report it printed: a scale for every number of nodes
    asked for, in ascending order, each with its nodes and the edges between them. *)
Lemma main_writes_report args lines w w' :
  main pid nanos elapsed_us temp_dir query_clock peak_rss now_ms os arch json_pretty_report args w = (Ok lines, w') →
  ∃ node_counts report payload, parse_scales (arg_scales args) = Ok node_counts ∧
    json_pretty_report report = Ok payload ∧ files w' !! arg_output args = Some payload ∧
    report_iterations report = arg_iterations args ∧
    Forall2 (λ n s, sr_node_count s = N.to_nat n ∧ sr_edge_count s = (N.to_nat n - 1)%nat) node_counts (scales report) ∧
    lines = ("wrote benchmark baseline to " +:+ path_display (arg_output args)) :: concat (scale_lines <$> scales report).
Proof.
  unfold main. intros Hrun. apply sm_bind_Ok in Hrun as (node_counts & w1 & Hscales & Hrun). injection Hscales as Hscales <-.
  do 2 apply sm_bind_Ok in Hrun as (? & ? & _ & Hrun). apply sm_bind_Ok in Hrun as (reports & w2 & Hreports & Hrun).
  apply sm_bind_Ok in Hrun as ([] & w3 & Hwrite & [= <- <-]). unfold write_report in Hwrite.
  apply sm_bind_Ok in Hwrite as (? & ? & _ & Hwrite). apply sm_bind_Ok in Hwrite as (payload & w4 & Hpayload & Hwrite).
  injection Hpayload as Hpayload <-.
  match type of Hpayload with map_err _ (_ ?report) = _ => exists node_counts, report, payload end. split_and!; [done| | | | |reflexivity].
  - by destruct (json_pretty_report _); [injection Hpayload as ->|].
  - unfold bench_fs in Hwrite. destruct (fs_write _ _ _) as [[[]|] w5] eqn:Hfile; [|done]. injection Hwrite as <-.
    by apply fs_write_done in Hfile.
  - done.
  - cbn [scales]. unfold run_scales in Hreports. apply bench_all_Ok in Hreports.
    rewrite Forall2_fmap_l in Hreports. eapply list.Forall2_impl; [exact Hreports|].
    intros n s (v & v' & Hs). by apply run_scale_count in Hs.
Qed.

(** Arguments that are refused leave the disk as it is. *)
Lemma main_refuses args w :
  (∃ e, parse_scales (arg_scales args) = Err e) ∨ (∃ e, parse_scenario_profile (arg_scenario_profile args) = Err e) ∨
    (∃ e, parse_workload_profile (arg_workload_profile args) = Err e) →
  ∃ e, main pid nanos elapsed_us temp_dir query_clock peak_rss now_ms os arch json_pretty_report args w = (Err e, w).
Proof.
  intros Hbad. unfold main, bench_result. unfold mbind, sm_bind, sm_lift.
  destruct (parse_scales _) as [node_counts|e]; [|by exists e].
  destruct (parse_scenario_profile _) as [sp|e]; [|by exists e].
  destruct (parse_workload_profile _) as [wp|e]; [|by exists e].
  by destruct Hbad as [[? ?]|[[? ?]|[? ?]]].
Qed.
End laws.
