(* ===== verification/Tree.v ===== *)
(** * Directory trees of the disk

    What a tree of directories is, when two places hold the same tree, and what copying,
    removing and renaming a tree do. *)
From S2P Require Import Prelude RustStd Common Core Config Fs Wal Memory Batch Store Engine Recovery Backup Durability.

#[local] Open Scope string_scope.
#[local] Open Scope list_scope.

(** Runs of the state monad, a step at a time. *)
Lemma run_bind {S E A B} (m : sm S E A) (f : A → sm S E B) s a s' : m s = (Ok a, s') → (m ≫= f) s = f a s'.
Proof. intros Hm. unfold mbind, sm_bind. by rewrite Hm. Qed.
Lemma run_io_err {A} what (m : fsm A) w a w' : m w = (Ok a, w') → io_err what m w = (Ok a, w').
Proof. intros Hm. unfold io_err, io_try. by rewrite Hm. Qed.
Lemma read_dir_ok dir w : faults w = [] → is_dir w dir = true → fs_read_dir dir w = (Ok (entries_of w dir), w).
Proof. intros Hf Hd. unfold fs_read_dir. rewrite fs_call_ok by done. unfold mbind, sm_bind, sm_get. by rewrite Hd. Qed.

(** Something is at the path. *)
Definition present (w : World) (p : Path) : Prop := is_Some (files w !! p) ∨ p ∈ dirs w.
Definition vacant (root : Path) (w : World) : Prop := ∀ pre, ¬ present w (pre ++ root).

(** A directory whose entries have parents, and are files or directories. *)
Record tree_at (root : Path) (w : World) : Prop := {
  ta_root : root ∈ dirs w;
  ta_parent : ∀ name pre, present w (name :: pre ++ root) → pre ++ root ∈ dirs w;
  ta_disjoint : ∀ pre, pre ++ root ∈ dirs w → files w !! (pre ++ root) = None;
}.

(** Two worlds with the same thing at two paths. *)
Definition same_at (w : World) (p : Path) (w' : World) (q : Path) : Prop :=
  files w' !! q = files w !! p ∧ (q ∈ dirs w' ↔ p ∈ dirs w).
(** The same tree below two paths, but for the entries [but] names. *)
Definition twin_but (but : Path → Prop) (s d : Path) (w w' : World) : Prop :=
  ∀ pre, ¬ but pre → same_at w (pre ++ s) w' (pre ++ d).
Abbreviation twin := (twin_but (λ _, False)).

(** Nothing but the tree below a path changed. *)
Record same_but (d : Path) (w w' : World) : Prop := {
  sb_faults : faults w' = faults w;
  sb_wal : wal_failpoint w' = wal_failpoint w;
  sb_storage : storage_failpoint w' = storage_failpoint w;
  sb_paths : ∀ q, ¬ d `suffix_of` q → same_at w q w' q;
}.

(** Neither path is at or above the other. *)
Definition apart (s d : Path) : Prop := ∀ p q, p ++ s ≠ q ++ d.

Lemma same_at_refl w p : same_at w p w p.
Proof. done. Qed.
Lemma same_at_trans w1 p w2 q w3 r : same_at w1 p w2 q → same_at w2 q w3 r → same_at w1 p w3 r.
Proof. intros [Hf Hd] [Hf' Hd']. split; [congruence|by rewrite Hd']. Qed.
Lemma same_at_sym w p w' q : same_at w p w' q → same_at w' q w p.
Proof. intros [Hf Hd]. split; [done|by rewrite Hd]. Qed.
Lemma same_present w p w' q : same_at w p w' q → present w' q ↔ present w p.
Proof. intros [Hf Hd]. unfold present. by rewrite Hf, Hd. Qed.

Lemma same_but_refl d w : same_but d w w.
Proof. by split. Qed.
Lemma same_but_trans d w1 w2 w3 : same_but d w1 w2 → same_but d w2 w3 → same_but d w1 w3.
Proof.
  intros H1 H2. split; [etrans; [apply H2|apply H1]..|]. intros q Hq.
  eapply same_at_trans; [by apply H1|by apply H2].
Qed.
Lemma same_but_below name d w w' : same_but (name :: d) w w' → same_but d w w'.
Proof.
  intros H. split; try apply H. intros q Hq. apply H. intros [k ->]. apply Hq. exists (k ++ [name]).
  by rewrite <-app_assoc.
Qed.

Lemma apart_sym (s d : Path) : apart s d → apart d s.
Proof. intros Ha p q Heq. by apply (Ha q p). Qed.
Lemma apart_child (s d : Path) x y : apart s d → apart (x :: s) (y :: d).
Proof.
  intros Ha p q Heq. apply (Ha (p ++ [x]) (q ++ [y])). by rewrite <-!app_assoc.
Qed.
Lemma apart_below (s d : Path) p : apart s d → ¬ d `suffix_of` (p ++ s).
Proof. intros Ha [k Hk]. by apply (Ha p k). Qed.
Lemma apart_siblings x y dir : x ≠ y → apart (x :: dir) (y :: dir).
Proof.
  intros Hxy p q Heq. change (p ++ [x] ++ dir = q ++ [y] ++ dir) in Heq. rewrite !app_assoc in Heq.
  apply app_inv_tail in Heq. by apply app_inj_tail in Heq as [_ ?].
Qed.

Lemma twin_child but name s d w w' : twin_but but s d w w' →
  twin_but (λ pre, but (pre ++ [name])) (name :: s) (name :: d) w w'.
Proof.
  intros Ht pre Hpre. specialize (Ht (pre ++ [name]) Hpre). by rewrite <-!app_assoc in Ht.
Qed.
Lemma twin_sym but s d w w' : twin_but but s d w w' → twin_but but d s w' w.
Proof. intros Ht pre Hpre. by apply same_at_sym, Ht. Qed.
Lemma twin_trans but s d e w1 w2 w3 : twin_but but s d w1 w2 → twin_but but d e w2 w3 → twin_but but s e w1 w3.
Proof. intros H1 H2 pre Hpre. eapply same_at_trans; [by apply H1|by apply H2]. Qed.
Lemma twin_weaken (P Q : Path → Prop) s d w w' : (∀ p, P p → Q p) → twin_but P s d w w' → twin_but Q s d w w'.
Proof. intros HPQ Ht pre Hpre. apply Ht. auto. Qed.
Lemma twin_same but s d w1 w2 : same_but d w1 w2 → apart s d → twin_but but s s w1 w2.
Proof. intros Hs Ha pre _. apply Hs. by apply apart_below. Qed.

(** ** Trees *)

Lemma ta_above root w pre : tree_at root w → ∀ pre', present w (pre' ++ pre ++ root) → pre' ≠ [] →
  pre ++ root ∈ dirs w.
Proof.
  intros Ht pre'. revert pre. induction pre' as [|x pre' IH] using rev_ind; intros pre Hp Hne; [done|].
  rewrite <-app_assoc in Hp. simpl in Hp. destruct pre' as [|y pre'].
  - by apply (ta_parent _ _ Ht x).
  - assert (Hx : (x :: pre) ++ root ∈ dirs w) by (by apply IH). apply (ta_parent _ _ Ht x). by right.
Qed.

Lemma tree_child name root w : tree_at root w → name :: root ∈ dirs w → tree_at (name :: root) w.
Proof.
  intros Ht Hd. split; [done|intros x pre Hp|intros pre Hp].
  - pose proof (ta_parent _ _ Ht x (pre ++ [name])) as Hpar. rewrite <-!app_assoc in Hpar. by apply Hpar.
  - pose proof (ta_disjoint _ _ Ht (pre ++ [name])) as Hdis. rewrite <-!app_assoc in Hdis. by apply Hdis.
Qed.

Lemma twin_at s d w w' pre : twin s d w w' → same_at w (pre ++ s) w' (pre ++ d).
Proof. intros Ht. apply Ht. tauto. Qed.
Lemma tree_moved s d w w' : twin s d w w' → tree_at s w → tree_at d w'.
Proof.
  intros Ht Htree. assert (Hs : ∀ pre, same_at w (pre ++ s) w' (pre ++ d)) by (intros pre; by apply twin_at).
  split; [apply (Hs []), Htree|intros name pre Hp|intros pre Hp].
  - apply Hs, (ta_parent _ _ Htree name). by apply (same_present _ _ _ _ (Hs (name :: pre))).
  - rewrite (proj1 (Hs pre)). apply Htree. by apply Hs.
Qed.

(** No file has anything below it. *)
Lemma tree_leaf name root w bs pre : tree_at root w → files w !! (name :: root) = Some bs → pre ≠ [] →
  ¬ present w (pre ++ name :: root).
Proof.
  intros Ht Hf Hpre Hp. pose proof (ta_above root w [name] Ht pre Hp Hpre) as Hd. simpl in Hd.
  pose proof (ta_disjoint _ _ Ht [name] Hd) as Hn. simpl in Hn. congruence.
Qed.

Lemma is_dir_true w p : is_dir w p = true ↔ p = [] ∨ p ∈ dirs w.
Proof. unfold is_dir. apply bool_decide_eq_true. Qed.
Lemma is_dir_false w p : is_dir w p = false ↔ p ≠ [] ∧ p ∉ dirs w.
Proof. unfold is_dir. rewrite bool_decide_eq_false. naive_solver. Qed.
Lemma is_dir_present name dir w : is_dir w (name :: dir) = true ↔ name :: dir ∈ dirs w.
Proof. rewrite is_dir_true. naive_solver. Qed.
Lemma same_is_dir w p w' q : p ≠ [] → q ≠ [] → same_at w p w' q → is_dir w' q = is_dir w p.
Proof. intros Hp Hq [_ Hd]. apply bool_decide_ext. naive_solver. Qed.

Lemma elem_of_entries_present w dir name : name ∈ entries_of w dir ↔ present w (name :: dir).
Proof. apply elem_of_entries. Qed.
Lemma entries_eq w s w' d : (∀ name, present w' (name :: d) ↔ present w (name :: s)) →
  entries_of w' d = entries_of w s.
Proof.
  intros Hsame. apply (StronglySorted_unique String.le); [apply entries_sorted..|].
  apply NoDup_Permutation; [apply entries_NoDup..|]. intros name. by rewrite !elem_of_entries_present.
Qed.

(** ** The depth of a tree *)

Definition deep (fuel : nat) (root : Path) (w : World) : Prop := ∀ pre, pre ++ root ∈ dirs w → (length pre < fuel)%nat.

Lemma deep_child n name root w : deep (S n) root w → deep n (name :: root) w.
Proof.
  intros Hd pre Hp. specialize (Hd (pre ++ [name])). rewrite <-app_assoc, length_app in Hd. simpl in Hd.
  specialize (Hd Hp). lia.
Qed.
Lemma deep_moved n s d w w' : twin s d w w' → deep n s w → deep n d w'.
Proof. intros Ht Hd pre Hp. apply Hd. by apply (twin_at s d w w' pre). Qed.

Lemma tree_deep root w : tree_at root w → deep (tree_fuel w) root w.
Proof.
  intros Ht pre Hp. unfold tree_fuel.
  assert (∃ l : list Path, length l = S (length pre) ∧ NoDup l ∧
      Forall (λ q, q ∈ dirs w ∧ (length q ≤ length pre + length root)%nat) l) as (l & Hlen & Hnd & Hin).
  { revert Hp. induction pre as [|x pre IH]; intros Hp.
    - exists [root]. split; [done|]. split; [apply NoDup_singleton|]. apply list.Forall_singleton. split; [done|simpl; lia].
    - destruct IH as (l & Hlen & Hnd & Hall); [apply (ta_parent _ _ Ht x); by right|].
      exists ((x :: pre ++ root) :: l). simpl. split; [by rewrite Hlen|]. rewrite list.Forall_forall in Hall. split.
      + constructor; [|done]. intros [_ Hbad]%Hall. simpl in Hbad. rewrite length_app in Hbad. lia.
      + constructor; [split; [done|simpl; rewrite length_app; lia]|]. apply list.Forall_forall. intros q Hq.
        destruct (Hall q Hq). split; [done|lia]. }
  assert (Hle : (size (list_to_set l : gset Path) ≤ size (dirs w))%nat).
  { apply subseteq_size. intros q Hq%elem_of_list_to_set. rewrite list.Forall_forall in Hin. by apply Hin. }
  rewrite size_list_to_set in Hle by done. lia.
Qed.

(** ** Removing and making a directory *)

Lemma remove_dir_ok root w : faults w = [] → root ∈ dirs w → root ≠ [] →
  ∃ w', fs_remove_dir_all root w = (Ok tt, w') ∧ vacant root w' ∧ same_but root w w'.
Proof.
  intros Hf Hd Hne. unfold fs_remove_dir_all. rewrite fs_call_ok by done.
  unfold mbind, sm_bind, sm_get, sm_modify. rewrite (proj2 (is_dir_true w root)) by (by right).
  eexists. split; [done|]. split; [|split; try done].
  - intros pre. unfold present. cbn [set_dirs set_files files dirs]. intros [[bs Hbs]|Hp].
    + apply map_lookup_filter_Some in Hbs as [_ Hb]. unfold below in Hb. apply bool_decide_eq_false in Hb.
      apply Hb. by exists pre.
    + apply elem_of_filter in Hp as [Hb _]. unfold below in Hb. apply bool_decide_eq_false in Hb.
      apply Hb. by exists pre.
  - intros q Hq. unfold same_at. cbn [set_dirs set_files files dirs].
    assert (Hb : below root q = false) by (unfold below; by apply bool_decide_eq_false). split.
    + destruct (files w !! q) as [bs|] eqn:Hbs; [by apply map_lookup_filter_Some|].
      apply map_lookup_filter_None. by left.
    + rewrite elem_of_filter. naive_solver.
Qed.

(** A path where nothing is, in a directory that is there. *)
Record free_place (d : Path) (w : World) : Prop := {
  fp_vacant : vacant d w;
  fp_parent : dir_ready w (tail d);
  fp_proper : d ≠ [];
}.

Lemma free_root d w : free_place d w → (d ∉ dirs w) ∧ files w !! d = None.
Proof.
  intros [Hv _ _]. specialize (Hv []). unfold present in Hv. simpl in Hv.
  split; [naive_solver|]. destruct (files w !! d) eqn:Hd; [|done]. destruct Hv. left. by eexists.
Qed.

(** [path.exists()], then [remove_dir_all]: afterwards the place is free. *)
Lemma clear_place what d w : faults w = [] → dir_ready w (tail d) → d ≠ [] → d ∈ dirs w ∨ vacant d w →
  ∃ w', (if path_exists w d then io_err what (fs_remove_dir_all d) else mret tt) w = (Ok tt, w') ∧
    free_place d w' ∧ same_but d w w'.
Proof.
  intros Hf Hpar Hne Hd. destruct (decide (d ∈ dirs w)) as [Hin|Hout].
  - destruct (remove_dir_ok d w Hf Hin Hne) as (w' & Hrun & Hvac & Hsame). exists w'.
    unfold path_exists. rewrite (proj2 (is_dir_true w d)) by (by right). cbn [orb]. unfold io_err, io_try.
    rewrite Hrun. split; [done|]. split; [|done]. split; [done| |done]. destruct d as [|x d]; [done|].
    unfold dir_ready in *. rewrite list.Forall_forall in *. intros q Hq. destruct (Hpar q Hq) as [Hin' Hnone].
    assert (Hns : ¬ (x :: d) `suffix_of` q).
    { intros [k ->]. simpl in Hq. apply ancestors_length_le in Hq. rewrite length_app in Hq. simpl in Hq. lia. }
    destruct (sb_paths _ _ _ Hsame q Hns) as [-> Hd']. naive_solver.
  - destruct Hd as [|Hvac]; [done|]. exists w. assert (Hfree : free_place d w) by done.
    destruct (free_root d w Hfree) as [Hno Hnone]. unfold path_exists, is_file.
    rewrite (proj2 (is_dir_false w d)), Hnone by done. rewrite bool_decide_eq_false_2 by (by intros [? ?]).
    split; [done|]. split; [done|apply same_but_refl].
Qed.

Lemma create_place d w : faults w = [] → free_place d w →
  fs_create_dir_all d w = (Ok tt, set_dirs ({[d]} ∪ dirs w) w).
Proof.
  intros Hf Hfree. destruct (free_root d w Hfree) as [Hno Hnone]. destruct Hfree as [_ Hpar Hne].
  destruct d as [|x d]; [done|]. unfold fs_create_dir_all. rewrite fs_call_ok by done.
  unfold mbind, sm_bind, sm_get, sm_modify. unfold dir_ready in Hpar. rewrite list.Forall_forall in Hpar.
  replace (existsb (is_file w) (ancestors (x :: d))) with false.
  - f_equal. unfold set_dirs. f_equal. apply set_eq. intros q. cbn [ancestors list_to_set].
    rewrite !elem_of_union, !elem_of_list_to_set. simpl in Hpar. naive_solver.
  - symmetry. apply not_true_iff_false. rewrite existsb_exists. intros (q & Hq%list_elem_of_In & Hfile).
    apply bool_decide_eq_true in Hfile as [bs Hbs]. apply elem_of_cons in Hq as [->|Hq]; [congruence|].
    destruct (Hpar q Hq). congruence.
Qed.

(** ** Copying *)

Lemma set_dirs_same_but d w : same_but d w (set_dirs ({[d]} ∪ dirs w) w).
Proof.
  split; try done. intros q Hq. split; [done|]. cbn [set_dirs dirs]. rewrite elem_of_union, elem_of_singleton.
  split; [|by right]. intros [->|]; [|done]. by destruct Hq.
Qed.
Lemma set_file_same_but p bs w : same_but p w (set_files (<[p := bs]> (files w)) w).
Proof.
  split; try done. intros q Hq. split; [|done]. cbn [set_files files]. rewrite lookup_insert_ne; [done|].
  intros ->. by destruct Hq.
Qed.

Lemma copy_file_ok x y s d w bs : faults w = [] → tree_at s w → files w !! (x :: s) = Some bs →
  vacant (y :: d) w → d ∈ dirs w →
  ∃ w', fs_copy (x :: s) (y :: d) w = (Ok tt, w') ∧ twin (x :: s) (y :: d) w w' ∧ same_but (y :: d) w w'.
Proof.
  intros Hf Ht Hbs Hvac Hd. exists (set_files (<[y :: d := bs]> (files w)) w).
  assert (Hno : ∀ pre, ¬ present w (pre ++ y :: d)) by apply Hvac.
  split; [|split; [|apply set_file_same_but]].
  - unfold fs_copy, mbind, sm_bind. rewrite (fs_read_ok _ _ _ Hf Hbs). apply fs_write_ok; [done| |].
    + intros Hin. apply (Hno []). by right.
    + apply is_dir_true. by right.
  - intros pre _. destruct pre as [|z pre].
    + split; cbn [app set_files files dirs]; [by rewrite lookup_insert_eq|].
      pose proof (ta_disjoint _ _ Ht [x]) as Hdis. simpl in Hdis. split; intros Hin.
      * destruct (Hno []). by right.
      * rewrite Hdis in Hbs by done. done.
    + pose proof (tree_leaf _ _ _ _ (z :: pre) Ht Hbs ltac:(done)) as Hleaf.
      specialize (Hno (z :: pre)). unfold present in *. split; cbn [set_files files dirs].
      * rewrite lookup_insert_ne by (intros Heq; apply (f_equal length) in Heq; simpl in Heq;
          rewrite length_app in Heq; simpl in Heq; lia).
        destruct (files w !! ((z :: pre) ++ x :: s)) eqn:H1; [destruct Hleaf; left; by eexists|].
        destruct (files w !! ((z :: pre) ++ y :: d)) eqn:H2; [destruct Hno; left; by eexists|done].
      * naive_solver.
Qed.

(** What copying needs, and what it does. *)
Record copying (fuel : nat) (s d : Path) (w : World) : Prop := {
  cg_faults : faults w = [];
  cg_tree : tree_at s w;
  cg_deep : deep fuel s w;
  cg_apart : apart s d;
  cg_ready : dir_ready w d;
  cg_proper : d ≠ [];
}.
Definition copies (s d : Path) (m : io unit) (w : World) : Prop :=
  ∃ w', m w = (Ok tt, w') ∧ twin s d w w' ∧ same_but d w w'.

Lemma ready_same p w w' : (∀ q, q ∈ ancestors p → same_at w q w' q) → dir_ready w p → dir_ready w' p.
Proof.
  intros Hsame. unfold dir_ready. rewrite !list.Forall_forall. intros Hr q Hq. destruct (Hr q Hq) as [Hin Hnone].
  destruct (Hsame q Hq) as [-> Hd]. naive_solver.
Qed.
Lemma not_below_ancestor x d q : q ∈ ancestors d → ¬ (x :: d) `suffix_of` q.
Proof.
  intros Hq%ancestors_length_le [k ->]. rewrite length_app in Hq. simpl in Hq. lia.
Qed.
Lemma ready_is_dir w d : dir_ready w d → d ≠ [] → d ∈ dirs w.
Proof. destruct d as [|x d]; [done|]. by intros [[? _] _]%list.Forall_cons. Qed.

Lemma copying_frame fuel s d x w w' : copying fuel s d w → same_but (x :: d) w w' → copying fuel s d w'.
Proof.
  intros [Hf Ht Hdeep Ha Hr Hne] Hs.
  assert (Htw : twin s s w w') by (by apply (twin_same _ _ d); [apply (same_but_below x)|]).
  split; [by rewrite (sb_faults _ _ _ Hs)|by eapply tree_moved|by eapply deep_moved|done| |done].
  eapply ready_same; [|exact Hr]. intros q Hq. apply Hs. by apply not_below_ancestor.
Qed.

Section names.
Context (fuel : nat) (s d : Path) (body : string → io unit).
Hypothesis body_copies : ∀ w name, copying (S fuel) s d w → present w (name :: s) → vacant (name :: d) w →
  copies (name :: s) (name :: d) (body name) w.

(** The names of a directory, copied one after the other, each into its own place. *)
Lemma copy_names names : ∀ w, NoDup names → copying (S fuel) s d w →
  (∀ name, name ∈ names → present w (name :: s) ∧ vacant (name :: d) w) →
  ∃ w', sm_for names body w = (Ok tt, w') ∧ same_but d w w' ∧
    (∀ name, name ∈ names → twin (name :: s) (name :: d) w w') ∧
    ∀ q, (∀ name, name ∈ names → ¬ (name :: d) `suffix_of` q) → same_at w q w' q.
Proof.
  induction names as [|x names IH]; intros w Hnd Hc Hn.
  { exists w. split; [done|]. split; [apply same_but_refl|]. split; [by intros ? ?%elem_of_nil|done]. }
  apply list.NoDup_cons in Hnd as [Hx Hnd]. destruct (Hn x ltac:(left)) as [Hpx Hvx].
  destruct (body_copies w x Hc Hpx Hvx) as (w1 & Hrun & Htw & Hsame).
  assert (Hs1 : ∀ y pre, y ≠ x → same_at w (pre ++ y :: d) w1 (pre ++ y :: d)).
  { intros y pre Hyx. apply Hsame. by apply apart_below, apart_siblings. }
  assert (Hs2 : twin s s w w1) by (apply (twin_same _ _ d); [by apply (same_but_below x)|apply Hc]).
  assert (Hc1 : copying (S fuel) s d w1) by (by eapply copying_frame).
  destruct (IH w1 Hnd Hc1) as (w' & Hrun' & Hsame' & Htws & Helse).
  { intros y Hy. assert (Hyx : y ≠ x) by (by intros ->). destruct (Hn y ltac:(by right)) as [Hp Hv]. split.
    - apply (same_present _ _ _ _ (twin_at s s w w1 [y] Hs2)), Hp.
    - intros pre Hpre. apply (Hv pre). by apply (same_present _ _ _ _ (Hs1 y pre Hyx)). }
  exists w'. simpl. unfold mbind, sm_bind. rewrite Hrun. split; [done|].
  split; [eapply same_but_trans; [by apply (same_but_below x)|done]|]. split.
  - intros y [->|Hy]%elem_of_cons.
    + intros pre _. eapply same_at_trans; [by apply twin_at|]. apply Helse. intros z Hz.
      apply apart_below, apart_siblings. by intros ->.
    + intros pre _. pose proof (twin_at s s w w1 (pre ++ [y]) Hs2) as Hsy. rewrite <-!app_assoc in Hsy.
      eapply same_at_trans; [exact Hsy|]. by apply twin_at, Htws.
  - intros q Hq. eapply same_at_trans; [apply Hsame, Hq; left|]. apply Helse. intros z Hz. apply Hq. by right.
Qed.
End names.

Lemma present_cases name s w : tree_at s w → present w (name :: s) →
  (is_dir w (name :: s) = true ∧ tree_at (name :: s) w) ∨
  (is_dir w (name :: s) = false ∧ ∃ bs, files w !! (name :: s) = Some bs).
Proof.
  intros Ht Hp. destruct (decide (name :: s ∈ dirs w)) as [Hd|Hd].
  - left. split; [by apply is_dir_present|by apply tree_child].
  - right. split; [by apply is_dir_false|]. destruct Hp as [[bs Hbs]|]; [by exists bs|done].
Qed.

(** Every entry of the new directory, if its names are copied and nothing else is in it. *)
Lemma twin_of_names s d w w1 w2 : apart s d → s ∈ dirs w1 → same_but d w w1 → tree_at s w1 → (∀ pre, pre ≠ [] → ¬ present w1 (pre ++ d)) →
  d ∈ dirs w1 → files w1 !! d = None → same_at w1 d w2 d →
  (∀ name, present w1 (name :: s) → twin (name :: s) (name :: d) w1 w2) →
  (∀ name pre, ¬ present w1 (name :: s) → same_at w1 (pre ++ name :: d) w2 (pre ++ name :: d)) →
  twin s d w w2.
Proof.
  intros Ha Hs Hsame Ht Hvac Hd Hnone Hroot Htw Helse.
  assert (Hws : twin s s w w1) by (by apply (twin_same _ _ d)).
  intros pre _. eapply same_at_trans; [by apply (twin_at s s w w1)|].
  destruct pre as [|name pre _] using rev_ind.
  - destruct Hroot as [Hf Hdir]. split; simpl.
    + rewrite Hf, Hnone. symmetry. apply (ta_disjoint _ _ Ht []), Hs.
    + naive_solver.
  - rewrite <-!app_assoc. simpl. destruct (decide (is_Some (files w1 !! (name :: s)) ∨ name :: s ∈ dirs w1)) as [Hp|Hp].
    + by apply twin_at, Htw.
    + eapply same_at_trans; [|by apply Helse].
      assert (Hns : ¬ present w1 (pre ++ name :: s)).
      { intros Hin. destruct (decide (pre = [])) as [->|Hne]; [by apply Hp|].
        apply Hp. right. by apply (ta_above s w1 [name] Ht pre). }
      assert (Hnd : ¬ present w1 (pre ++ name :: d)).
      { change (name :: d) with ([name] ++ d). rewrite app_assoc. apply Hvac. by destruct pre. }
      unfold present in *. split; [|naive_solver].
      destruct (files w1 !! (pre ++ name :: d)) eqn:H1; [destruct Hnd; left; by eexists|].
      destruct (files w1 !! (pre ++ name :: s)) eqn:H2; [destruct Hns; left; by eexists|done].
Qed.

Lemma copy_directory_ok fuel : ∀ s d w, faults w = [] → tree_at s w → deep fuel s w → apart s d → free_place d w →
  s ≠ [] → copies s d (copy_directory_fuel fuel s d) w.
Proof.
  induction fuel as [|fuel IH]; intros s d w Hf Ht Hdeep Ha Hfree Hne.
  { specialize (Hdeep [] (ta_root _ _ Ht)). simpl in Hdeep. lia. }
  destruct (free_root d w Hfree) as [_ Hnone].
  set (w1 := set_dirs ({[d]} ∪ dirs w) w). assert (Hs1 : same_but d w w1) by apply set_dirs_same_but.
  assert (Htw1 : twin s s w w1) by (by apply (twin_same _ _ d)).
  assert (Ht1 : tree_at s w1) by (by eapply tree_moved).
  assert (Hd1 : d ∈ dirs w1) by (unfold w1; cbn [set_dirs dirs]; set_solver).
  assert (Hc : copying (S fuel) s d w1).
  { split; [done|done|by eapply deep_moved|done| |apply Hfree]. destruct Hfree as [_ Hpar Hp]. destruct d as [|x d]; [done|].
    apply list.Forall_cons. split; [done|]. eapply ready_same; [|exact Hpar]. intros q Hq. apply Hs1.
    by apply not_below_ancestor. }
  assert (Hvac1 : ∀ pre, pre ≠ [] → ¬ present w1 (pre ++ d)).
  { intros pre Hp Hin. apply (fp_vacant _ _ Hfree pre). unfold present, w1 in *. cbn [set_dirs files dirs] in Hin.
    destruct Hin as [?|[Heq%elem_of_singleton|?]%elem_of_union]; [by left| |by right].
    apply (f_equal length) in Heq. rewrite length_app in Heq. destruct pre; [done|simpl in Heq; lia]. }
  destruct (copy_names fuel s d (λ name, w ← sm_get;
      if is_dir w (name :: s) then copy_directory_fuel fuel (name :: s) (name :: d)
      else io_err ("failed to copy '" +:+ path_display (name :: s) +:+ "' -> '" +:+
        path_display (name :: d) +:+ "'") (fs_copy (name :: s) (name :: d)))) with (names := entries_of w1 s) (w := w1)
    as (w2 & Hrun & Hs2 & Htws & Helse).
  - intros v name [Hfv Htv Hdv _ Hrv Hdne] Hp Hv. unfold copies, mbind, sm_bind, sm_get.
    destruct (present_cases name s v Htv Hp) as [[-> Htc]|[-> [bs Hbs]]].
    + apply IH; [done|done|by apply deep_child|by apply apart_child|done|done].
    + destruct (copy_file_ok name name s d v bs) as (v' & Hcp & ? & ?); [done..|by apply ready_is_dir|].
      exists v'. unfold io_err, io_try. by rewrite Hcp.
  - apply entries_NoDup.
  - done.
  - intros name Hname. split; [by apply elem_of_entries_present|]. intros pre.
    change (name :: d) with ([name] ++ d). rewrite app_assoc. apply Hvac1. by destruct pre.
  - exists w2. split; [|split; [|by eapply same_but_trans]].
    + simpl. rewrite (run_bind _ _ _ tt w1) by (by apply run_io_err, create_place).
      rewrite (run_bind _ _ _ (entries_of w1 s) w1); [exact Hrun|]. apply run_io_err, read_dir_ok; [done|].
      apply is_dir_true. right. apply Ht1.
    + apply (twin_of_names s d w w1 w2); try done; [apply Ht1| | |].
      * apply Helse. intros name _ [k Hk]. apply (f_equal length) in Hk. rewrite length_app in Hk. simpl in Hk. lia.
      * intros name Hp. by apply Htws, elem_of_entries_present.
      * intros name pre Hp. apply Helse. intros y Hy%elem_of_entries_present. apply apart_below, apart_siblings.
        by intros ->.
Qed.

Lemma copy_tree_ok s d w : faults w = [] → tree_at s w → s ≠ [] → apart s d → free_place d w →
  copies s d (copy_directory_recursive s d) w.
Proof.
  intros Hf Ht Hne Ha Hfree. unfold copy_directory_recursive, copies, mbind, sm_bind, sm_get.
  apply copy_directory_ok; try done. by apply tree_deep.
Qed.

(** ** Renaming a directory *)

Lemma kmap_lookup_dom {A} (f : Path → Path) (m : gmap Path A) j x :
  (∀ p q, is_Some (m !! p) → is_Some (m !! q) → f p = f q → p = q) →
  (kmap f m : gmap Path A) !! j = Some x ↔ ∃ i, j = f i ∧ m !! i = Some x.
Proof.
  intros Hinj. unfold kmap. rewrite <-elem_of_list_to_map.
  - rewrite list_elem_of_fmap. split.
    + intros ([i y] & [= -> ->] & Hin%elem_of_map_to_list). by exists i.
    + intros (i & -> & Hi). exists (i, x). split; [done|by apply elem_of_map_to_list].
  - rewrite <-list_fmap_compose. apply NoDup_fmap_2_strong; [|apply NoDup_map_to_list].
    intros [p a] [q b] Hp%elem_of_map_to_list Hq%elem_of_map_to_list Heq. simpl in Heq.
    assert (p = q) as -> by (apply Hinj; [by eexists|by eexists|done]). congruence.
Qed.

Definition move (s d p : Path) : Path := if below s p then rebase s d p else p.

Lemma rebase_app s d pre : rebase s d (pre ++ s) = pre ++ d.
Proof. unfold rebase. rewrite length_app, Nat.add_sub, take_app_length. done. Qed.
Lemma move_below s d pre : move s d (pre ++ s) = pre ++ d.
Proof. unfold move, below. rewrite bool_decide_eq_true_2 by (by exists pre). apply rebase_app. Qed.
Lemma move_elsewhere (s d p : Path) : ¬ s `suffix_of` p → move s d p = p.
Proof. intros Hp. unfold move, below. by rewrite bool_decide_eq_false_2. Qed.
Lemma below_cases (s p : Path) : (∃ pre, p = pre ++ s) ∨ ¬ s `suffix_of` p.
Proof. destruct (decide (s `suffix_of` p)) as [[pre ->]|]; [left; eauto|by right]. Qed.

Lemma move_inj s d w p q : vacant d w → present w p → present w q → move s d p = move s d q → p = q.
Proof.
  intros Hv Hp Hq. destruct (below_cases s p) as [[a ->]|Ha], (below_cases s q) as [[b ->]|Hb];
    rewrite ?move_below, ?move_elsewhere by done; intros Heq; subst.
  - by apply app_inv_tail in Heq as ->.
  - by apply Hv in Hq.
  - by apply Hv in Hp.
  - done.
Qed.

Lemma rename_dir_ok s d w : faults w = [] → tree_at s w → s ≠ [] → apart s d → free_place d w →
  ∃ w', fs_rename s d w = (Ok tt, w') ∧ twin s d w w' ∧
    (∀ q, ¬ s `suffix_of` q → ¬ d `suffix_of` q → same_at w q w' q) ∧
    faults w' = [] ∧ wal_failpoint w' = wal_failpoint w ∧ storage_failpoint w' = storage_failpoint w.
Proof.
  intros Hf Ht Hne Ha Hfree. destruct (free_root d w Hfree) as [Hno Hnone].
  destruct Hfree as [Hvac _ Hdne].
  pose proof (ta_disjoint _ _ Ht [] (ta_root _ _ Ht)) as Hsn. simpl in Hsn.
  unfold fs_rename. rewrite fs_call_ok by done. unfold mbind, sm_bind, sm_get, sm_modify. rewrite Hsn.
  rewrite (proj2 (is_dir_true w s)) by (right; apply Ht).
  assert (path_exists w d = false) as ->.
  { unfold path_exists, is_file. rewrite (proj2 (is_dir_false w d)), Hnone by done.
    by rewrite bool_decide_eq_false_2 by (by intros [? ?]). }
  eexists. split; [reflexivity|]. fold (move s d).
  assert (Hfiles : ∀ j x, (kmap (move s d) (files w) : gmap Path bytes) !! j = Some x ↔ ∃ i, j = move s d i ∧ files w !! i = Some x).
  { intros j x. apply kmap_lookup_dom. intros p q Hp Hq. apply (move_inj s d w); [done|by left..]. }
  assert (Hsame : ∀ i j, (∀ p, present w p → j = move s d p → p = i) → j = move s d i →
    same_at w i (set_dirs (set_map (move s d) (dirs w)) (set_files (kmap (move s d) (files w)) w)) j).
  { intros i j Honly Hj. split; cbn [set_dirs set_files files dirs].
    - destruct (files w !! i) as [x|] eqn:Hi; [apply Hfiles; eauto|].
      destruct ((kmap (move s d) (files w) : gmap Path bytes) !! j) as [x|] eqn:Hjx; [|done]. apply Hfiles in Hjx as (p & Hjp & Hpx).
      rewrite (Honly p) in Hpx; [congruence|left; by eexists|done].
    - rewrite elem_of_map. split; [|by eexists]. intros (p & Hjp & Hp). by rewrite <-(Honly p); [|right|]. }
  split; [|split; [|done]].
  - intros pre _. apply Hsame; [|by rewrite move_below]. intros p Hp Hj.
    destruct (below_cases s p) as [[a ->]|Hb]; rewrite ?move_below, ?move_elsewhere in Hj by done.
    + by apply app_inv_tail in Hj as ->.
    + subst p. by apply Hvac in Hp.
  - intros q Hqs Hqd. apply Hsame; [|by rewrite move_elsewhere]. intros p Hp Hj.
    destruct (below_cases s p) as [[a ->]|Hb]; rewrite ?move_below, ?move_elsewhere in Hj by done; [|done].
    subst q. destruct Hqd. by exists a.
Qed.

(** ** Deciding on a concrete disk *)

Section decide.
Context (w : World).
Definition everything : list Path := (map_to_list (files w)).*1 ++ elements (dirs w).

Lemma elem_of_everything p : p ∈ everything ↔ present w p.
Proof.
  unfold everything, present. rewrite elem_of_app, elem_of_elements, list_elem_of_fmap. f_equiv. split.
  - intros ([q bs] & -> & Hq%elem_of_map_to_list). by eexists.
  - intros [bs Hbs]. exists (p, bs). by rewrite elem_of_map_to_list.
Qed.

Definition tree_check (root : Path) : bool :=
  bool_decide (root ∈ dirs w) &&
  forallb (λ p, negb (below root p) || bool_decide (p = root) || bool_decide (tail p ∈ dirs w)) everything &&
  forallb (λ p, bool_decide (files w !! p = None)) (elements (dirs w)).
Lemma tree_decide root : tree_check root = true → tree_at root w.
Proof.
  unfold tree_check. rewrite !andb_true_iff, !forallb_forall, bool_decide_eq_true. intros [[Hr Hp] Hd]. split; [done| |].
  - intros name pre Hin%elem_of_everything%list_elem_of_In. specialize (Hp _ Hin). unfold below in Hp.
    rewrite !orb_true_iff, negb_true_iff, !bool_decide_eq_true, bool_decide_eq_false in Hp.
    destruct Hp as [[Hp|Heq]|?]; [|apply (f_equal length) in Heq; simpl in Heq; rewrite length_app in Heq; lia|done].
    destruct Hp. by exists (name :: pre).
  - intros pre Hin. specialize (Hd (pre ++ root)). rewrite bool_decide_eq_true in Hd. apply Hd.
    by apply list_elem_of_In, elem_of_elements.
Qed.

Definition vacant_check (root : Path) : bool := forallb (λ p, negb (below root p)) everything.
Lemma vacant_decide root : vacant_check root = true → vacant root w.
Proof.
  unfold vacant_check. rewrite forallb_forall. intros Hall pre Hin%elem_of_everything%list_elem_of_In.
  specialize (Hall _ Hin). unfold below in Hall. rewrite negb_true_iff, bool_decide_eq_false in Hall. apply Hall. by exists pre.
Qed.
End decide.

Lemma apart_decide (s d : Path) : below s d || below d s = false → apart s d.
Proof.
  unfold below. rewrite orb_false_iff, !bool_decide_eq_false. intros [Hs Hd] p q Heq.
  apply app_eq_app in Heq as (l & [[-> ->]|[-> ->]]); [apply Hs|apply Hd]; by exists l.
Qed.

Definition twin_check (d : Path) (w w' : World) : bool :=
  bool_decide (filter (λ x, below d x.1 = true) (files w') = filter (λ x, below d x.1 = true) (files w)) &&
  bool_decide (filter (λ p, below d p = true) (dirs w') = filter (λ p, below d p = true) (dirs w)).
Lemma twin_decide d w w' : twin_check d w w' = true → twin d d w w'.
Proof.
  unfold twin_check. rewrite andb_true_iff, !bool_decide_eq_true. intros [Hf Hd] pre _.
  assert (Hb : below d (pre ++ d) = true) by (unfold below; apply bool_decide_eq_true; by exists pre). split.
  - apply option_eq. intros x. assert (He : filter (λ x, below d x.1 = true) (files w') !! (pre ++ d) = Some x ↔
      filter (λ x, below d x.1 = true) (files w) !! (pre ++ d) = Some x) by (by rewrite Hf).
    rewrite !map_lookup_filter_Some in He. naive_solver.
  - assert (He : pre ++ d ∈ filter (λ p, below d p = true) (dirs w') ↔ pre ++ d ∈ filter (λ p, below d p = true) (dirs w))
      by (by rewrite Hd). rewrite !elem_of_filter in He. naive_solver.
Qed.
