(* ===== verification/Restore.v ===== *)
(** * [crates/storage]: what a restored backup holds

    The files of a store give the same state wherever their directory is; a backup of a store
    that can be reopened verifies, and restoring it gives a store that opens to the graph the
    backup was taken of. *)
From S2P Require Import Prelude RustStd Common Core Config Fs Wal Memory Batch Store Engine Recovery Backup Durability Checkpoint Tree.

#[local] Open Scope string_scope.
#[local] Open Scope list_scope.

(** ** Loads of the same tree at another place *)

(** The file a backup adds to the tree it copies. *)
Definition backup_file (pre : Path) : Prop := pre = [BACKUP_MANIFEST_FILE_NAME].
#[global] Instance backup_file_dec pre : Decision (backup_file pre).
Proof. unfold backup_file. apply _. Defined.

Section moved.
Context `{WalCodec, StorageCodec} (s d : Path) (w w' : World).
Hypothesis Hfaults : faults w = [].
Hypothesis Hfaults' : faults w' = [].
Hypothesis Htwin : twin_but backup_file s d w w'.
Hypothesis Hs : s ≠ [].
Hypothesis Hd : d ≠ [].

(** [m'] reads at the second place what [m] reads at the first. *)
Definition moves {A B} (R : A → B → Prop) (m : io A) (m' : io B) : Prop := ∀ a w1, m w = (Ok a, w1) →
  w1 = w ∧ ∃ b, m' w' = (Ok b, w') ∧ R a b.

Lemma moves_ret {A B} (R : A → B → Prop) a b : R a b → moves R (mret a) (mret b).
Proof. intros HR a' w1 [= <- <-]. split; [done|]. by exists b. Qed.
Lemma moves_res {A} (r r' : Res A) : (∀ a, r = Ok a → r' = Ok a) → moves eq (io_res r) (io_res r').
Proof.
  intros Hr a w1. unfold io_res, sm_lift. destruct r as [x|e]; [|done]. intros [= <- <-].
  split; [done|]. exists x. by rewrite (Hr x).
Qed.
Lemma moves_bind {A B C D} (R : A → B → Prop) (Q : C → D → Prop) m m' f f' :
  moves R m m' → (∀ a b, R a b → moves Q (f a) (f' b)) → moves Q (m ≫= f) (m' ≫= f').
Proof.
  intros Hm Hf c w1 (a & w2 & Ha & Hc)%sm_bind_Ok. destruct (Hm a w2 Ha) as (-> & b & Hb & HR).
  destruct (Hf a b HR c w1 Hc) as (-> & e & He & HQ). split; [done|]. exists e. by rewrite (run_bind _ _ _ b w').
Qed.
Lemma moves_file what what' pre : ¬ backup_file pre →
  moves eq (io_err what (fs_read (pre ++ s))) (io_err what' (fs_read (pre ++ d))).
Proof.
  intros Hpre bs w1. unfold io_err, io_try. unfold fs_read at 1. rewrite fs_call_ok by done.
  unfold mbind, sm_bind, sm_get. destruct (files w !! (pre ++ s)) as [x|] eqn:Hx; [|done].
  intros [= <- <-]. split; [done|]. exists x. destruct (Htwin pre Hpre) as [Hf _].
  rewrite (fs_read_ok _ _ x); [done|done|congruence].
Qed.
Lemma path_exists_moved pre : ¬ backup_file pre → path_exists w' (pre ++ d) = path_exists w (pre ++ s).
Proof.
  intros Hpre. pose proof (Htwin pre Hpre) as Ht. unfold path_exists, is_file.
  rewrite (same_is_dir w (pre ++ s)) by (try done; intros [_ ?]%app_eq_nil; done). by destruct Ht as [-> _].
Qed.

(** A path below each place, or none. *)
Definition places (o o' : option Path) : Prop :=
  (o = None ∧ o' = None) ∨ ∃ name dir, ¬ backup_file (name :: dir) ∧ o = Some (name :: dir ++ s) ∧ o' = Some (name :: dir ++ d).

Lemma moves_resolve n1 d1 n2 d2 : ¬ backup_file (n1 :: d1) → ¬ backup_file (n2 :: d2) →
  moves places (resolve_snapshot_path (n1 :: d1 ++ s) (n2 :: d2 ++ s))
    (resolve_snapshot_path (n1 :: d1 ++ d) (n2 :: d2 ++ d)).
Proof.
  intros H1 H2 o w1. unfold resolve_snapshot_path, mbind, sm_bind, sm_get, mret, sm_ret.
  intros [= <- <-]. split; [done|]. eexists. split; [done|].
  pose proof (path_exists_moved _ H1) as E1. pose proof (path_exists_moved _ H2) as E2. simpl in E1, E2.
  rewrite E1, E2. unfold places.
  destruct (path_exists w _); [right; by exists n1, d1|]. destruct (path_exists w _); [right; by exists n2, d2|by left].
Qed.

Lemma strip_prefix_app root pre : strip_prefix root (pre ++ root) = Some (rev pre).
Proof.
  induction pre as [|x pre IH].
  - destruct root; simpl; [done|by rewrite decide_True].
  - simpl. rewrite decide_False.
    + rewrite IH. done.
    + intros Heq. apply (f_equal length) in Heq. simpl in Heq. rewrite length_app in Heq. lia.
Qed.

Lemma moves_verified m pre : ¬ backup_file pre →
  moves eq (read_verified_file (mkLayout s) m (pre ++ s)) (read_verified_file (mkLayout d) m (pre ++ d)).
Proof.
  intros Hpre. unfold read_verified_file. eapply moves_bind.
  - apply moves_res. unfold relative_path. cbn [root_dir]. rewrite !strip_prefix_app. by intros a [= <-].
  - intros rel ? <-. eapply moves_bind; [by apply moves_file|]. intros bs ? <-.
    destruct (m_files m !! rel) as [file|]; [|by apply moves_ret].
    destruct (_ && _); [|by apply moves_ret]. by intros a w1.
Qed.

Lemma decode_err_moved {A} what what' (r : Result string A) a : decode_err what r = Ok a → decode_err what' r = Ok a.
Proof. by destruct r. Qed.
Lemma encode_err_moved {A} what what' (r : Result string A) a : encode_err what r = Ok a → encode_err what' r = Ok a.
Proof. by destruct r. Qed.

Lemma snapshot_bytes_moved {A} kind (json rkyv : bytes → Result string A) name p q bs a :
  load_snapshot_from_bytes kind json rkyv (name :: p) bs = Ok a →
  load_snapshot_from_bytes kind json rkyv (name :: q) bs = Ok a.
Proof. unfold load_snapshot_from_bytes. simpl. case_decide; apply decode_err_moved. Qed.

Lemma moves_manifest : moves eq (load_manifest (manifest_path (mkLayout s))) (load_manifest (manifest_path (mkLayout d))).
Proof.
  unfold load_manifest. eapply moves_bind; [by apply (moves_file _ _ [MANIFEST_FILE_NAME])|].
  intros bs ? <-. apply moves_res. intros a. apply encode_err_moved.
Qed.

(** The three snapshot files are loaded alike. *)
Lemma moves_snapshot {A B} (R : A → B → Prop) n1 n2 dir (k : option Path → io A) (k' : option Path → io B) :
  moves R (k None) (k' None) →
  (∀ name p, ¬ backup_file (name :: p) → moves R (k (Some (name :: p ++ s))) (k' (Some (name :: p ++ d)))) →
  moves R (resolve_snapshot_path (n1 :: dir :: s) (n2 :: dir :: s) ≫= k)
    (resolve_snapshot_path (n1 :: dir :: d) (n2 :: dir :: d) ≫= k').
Proof.
  intros Hnone Hsome. eapply moves_bind.
  - by apply (moves_resolve n1 [dir] n2 [dir]).
  - intros o o' [[-> ->]|(name & p & Hp & -> & ->)]; [done|by apply Hsome].
Qed.

Lemma moves_node_state m : moves eq (load_node_state (mkLayout s) m) (load_node_state (mkLayout d) m).
Proof.
  apply moves_snapshot; [by apply moves_ret|]. intros name p Hp.
  eapply moves_bind; [by apply (moves_verified m (name :: p))|]. intros bs ? <-.
  eapply moves_bind; [apply moves_res; intros a; apply snapshot_bytes_moved|]. intros snap ? <-.
  eapply moves_bind; [by apply moves_res|]. intros _ ? _. by apply moves_res.
Qed.
Lemma moves_edge_state m : moves eq (load_edge_state (mkLayout s) m) (load_edge_state (mkLayout d) m).
Proof.
  apply moves_snapshot; [by apply moves_ret|]. intros name p Hp.
  eapply moves_bind; [by apply (moves_verified m (name :: p))|]. intros bs ? <-.
  eapply moves_bind; [apply moves_res; intros a; apply snapshot_bytes_moved|]. intros snap ? <-.
  eapply moves_bind; [by apply moves_res|]. intros _ ? _. by apply moves_res.
Qed.
Lemma moves_vectors m nodes : moves eq (attach_vectors (mkLayout s) m nodes) (attach_vectors (mkLayout d) m nodes).
Proof.
  apply moves_snapshot; [by apply moves_ret|]. intros name p Hp.
  eapply moves_bind; [by apply (moves_verified m (name :: p))|]. intros bs ? <-.
  eapply moves_bind; [apply moves_res; intros a; apply snapshot_bytes_moved|]. intros snap ? <-.
  by apply moves_res.
Qed.

Lemma delta_bytes_moved p q bs maps maps' : apply_delta_bytes p bs maps = Ok maps' → apply_delta_bytes q bs maps = Ok maps'.
Proof.
  unfold apply_delta_bytes. destruct (json_decode_delta bs) as [snap|e]; [|done]. simpl.
  by destruct (_ =? 1)%N.
Qed.

Lemma moves_delta_segments m names : Forall (λ pre, ¬ backup_file pre) names → ∀ maps,
  moves eq (apply_delta_segments (mkLayout s) m ((λ pre, pre ++ s) <$> names) maps)
    (apply_delta_segments (mkLayout d) m ((λ pre, pre ++ d) <$> names) maps).
Proof.
  induction 1 as [|pre names Hpre _ IH]; intros maps; [by apply moves_ret|]. csimpl.
  eapply moves_bind; [by apply moves_verified|]. intros bs ? <-.
  eapply moves_bind; [apply moves_res; intros a; apply delta_bytes_moved|]. by intros maps' ? <-.
Qed.

(** The delta files of a manifest, below the root. *)
Definition delta_names (m : Manifest) : list Path :=
  sort_paths ((λ file, rev (split_on "/"%char (mf_relative_path file))) <$>
    filter (λ file, String.prefix "deltas/" (mf_relative_path file) = true) (btree_values (m_files m))).

Lemma components_common c a b : components_leb (c ++ a) (c ++ b) = components_leb a b.
Proof. induction c as [|x c IH]; simpl; [done|]. by rewrite decide_True. Qed.
Lemma sort_paths_below root l : sort_paths ((λ pre, pre ++ root) <$> l) = (λ pre, pre ++ root) <$> sort_paths l.
Proof.
  apply (StronglySorted_unique path_le).
  - apply StronglySorted_merge_sort; apply _.
  - assert (Hsort : StronglySorted path_le (sort_paths l)) by (apply StronglySorted_merge_sort; apply _).
    induction Hsort as [|x l' Hs' IH Hx]; csimpl; constructor; [done|].
    apply list.Forall_forall. intros p (q & -> & Hq)%list_elem_of_fmap. rewrite list.Forall_forall in Hx.
    specialize (Hx q Hq). unfold path_le in *. by rewrite !rev_app_distr, components_common.
  - unfold sort_paths. by rewrite !merge_sort_Permutation.
Qed.
Lemma delta_paths_below root m :
  manifest_delta_segment_paths (mkLayout root) m = (λ pre, pre ++ root) <$> delta_names m.
Proof.
  unfold manifest_delta_segment_paths, delta_names. rewrite <-sort_paths_below, <-list_fmap_compose. done.
Qed.
Lemma delta_names_plain m : Forall (λ pre, ¬ backup_file pre) (delta_names m).
Proof.
  apply list.Forall_forall. intros pre. unfold delta_names, sort_paths.
  rewrite merge_sort_Permutation, list_elem_of_fmap. intros (f & -> & [Hf _]%list_elem_of_filter).
  apply split_on_deltas in Hf as [rest ->]. simpl. unfold backup_file. intros Heq.
  apply (app_inj_tail _ []) in Heq as [_ Heq]. done.
Qed.

Lemma moves_published m : moves eq (load_published_state (mkLayout s) m) (load_published_state (mkLayout d) m).
Proof.
  unfold load_published_state. eapply moves_bind; [apply moves_node_state|]. intros nodes ? <-.
  eapply moves_bind; [apply moves_edge_state|]. intros edges ? <-.
  eapply moves_bind; [apply moves_vectors|]. intros nodes' ? <-.
  rewrite !delta_paths_below. apply moves_delta_segments, delta_names_plain.
Qed.
End moved.

(** ** A store at a place *)

Section holds.
Context `{WalCodecLaws, StorageCodecLaws}.

(** The files below [root] are a store: its manifest, the graph of its published files and the
    records of its log. *)
Record holds (root : Path) (m : Manifest) (chunks : list (N * list WalRecord)) (base : Maps) (w : World) : Prop := {
  ho_wal : dir_state ("wal" :: root) w chunks;
  ho_manifest : load_manifest (manifest_path (mkLayout root)) w = (Ok m, w);
  ho_published : load_published_state (mkLayout root) m w = (Ok base, w);
  ho_dirs : Forall (λ name, name :: root ∈ dirs w ∧ files w !! (name :: root) = None) DATA_DIRECTORIES;
  ho_names : names_free (mkLayout root) (dirs w);
  ho_storage : storage_failpoint w = None;
  ho_bytes : (total_bytes chunks ≤ u64_max)%N;
}.
(** A disk that works. *)
Record working (w : World) : Prop := {
  wk_faults : faults w = [];
  wk_wal : wal_failpoint w = None;
  wk_storage : storage_failpoint w = None;
}.

Lemma holds_working root m chunks base w : holds root m chunks base w → working w.
Proof. intros Hh. split; apply Hh. Qed.
Lemma holds_ready root m chunks base w : holds root m chunks base w → dir_ready w ("wal" :: root).
Proof. intros Hh. apply Hh. Qed.

Lemma backup_file_apart : BACKUP_MANIFEST_FILE_NAME ∉ DATA_DIRECTORIES.
Proof. by apply (bool_decide_unpack _). Qed.
Lemma twin_entries s d w w' dir : twin_but backup_file s d w w' → entries_of w' (dir :: d) = entries_of w (dir :: s).
Proof. intros Ht. apply entries_eq. intros name. by apply same_present, (Ht [name; dir]). Qed.

Lemma dir_state_moved s d w w' chunks : twin_but backup_file s d w w' → working w' → dir_ready w' d →
  dir_state ("wal" :: s) w chunks → dir_state ("wal" :: d) w' chunks.
Proof.
  intros Ht Hw Hr Hd. assert (Hwal : same_at w ("wal" :: s) w' ("wal" :: d)) by (by apply (Ht ["wal"])).
  assert (Hws : "wal" :: s ∈ dirs w ∧ files w !! ("wal" :: s) = None).
  { pose proof (ds_ancestors _ _ _ Hd) as Hall. by apply list.Forall_cons in Hall as [? _]. }
  destruct Hwal as [Hf Hdir]. split; try apply Hd; try apply Hw.
  - apply is_dir_true. right. naive_solver.
  - apply list.Forall_cons. split; [|exact Hr]. split; [naive_solver|by rewrite Hf; apply Hws].
  - intros id Hin. apply (ds_no_dir _ _ _ Hd id). by apply (Ht [segment_file_name id; "wal"]).
  - intros name Hext. rewrite (twin_entries s d w w') by done. by apply (ds_entries _ _ _ Hd).
  - intros id rs Hin. destruct (Ht [segment_file_name id; "wal"]) as [Hfile _]; [done|].
    etrans; [exact Hfile|]. by apply (ds_files _ _ _ Hd).
Qed.

Lemma holds_moved s d m chunks base w w' : holds s m chunks base w → twin_but backup_file s d w w' →
  working w' → dir_ready w' d → s ≠ [] → d ≠ [] → holds d m chunks base w'.
Proof.
  intros Hh Ht Hw Hr Hs Hd. pose proof (holds_working _ _ _ _ _ Hh) as Hww. split.
  - eapply dir_state_moved; [done|done|done|apply Hh].
  - destruct (moves_manifest s d w w' (wk_faults _ Hww) (wk_faults _ Hw) Ht m w (ho_manifest _ _ _ _ _ Hh))
      as (_ & ? & -> & <-). done.
  - destruct (moves_published s d w w' (wk_faults _ Hww) (wk_faults _ Hw) Ht Hs Hd m base w (ho_published _ _ _ _ _ Hh))
      as (_ & ? & -> & <-). done.
  - pose proof (ho_dirs _ _ _ _ _ Hh) as Hdirs. rewrite list.Forall_forall in *. intros name Hname.
    destruct (Ht [name]) as [Hf Hdir]; [intros [= ->]; by apply backup_file_apart|].
    simpl in Hf, Hdir. destruct (Hdirs name Hname) as [? Hnone]. split; [naive_solver|by rewrite Hf].
  - pose proof (ho_names _ _ _ _ _ Hh) as [Hn1 Hn2 Hn3]. split.
    + intros Hin. apply Hn1. by apply (Ht [MANIFEST_FILE_NAME]).
    + intros Hin. apply Hn2. by apply (Ht ["manifest.tmp"]).
    + intros name Hin. apply (Hn3 name). by apply (Ht [name; "deltas"]).
  - apply Hw.
  - apply Hh.
Qed.

(** ** Verification *)

Definition sound_report (base : Maps) : IntegrityReport := mkReport true true true true (size base.1) (size base.2) [].

Lemma run_noting {A} what issues (m : io A) w a w' : m w = (Ok a, w') → noting what issues m w = (Ok (Some a, issues), w').
Proof. intros Hm. unfold noting. rewrite (run_bind _ _ _ (Ok a) w'); [done|]. unfold io_catch. by rewrite Hm. Qed.

Lemma verify_holds root m chunks base w : holds root m chunks base w →
  verify_storage_layout (mkLayout root) w = (Ok (sound_report base), w).
Proof.
  intros Hh. destruct base as [nodes edges]. unfold verify_storage_layout.
  rewrite (run_bind _ _ _ w w) by done. cbn zeta.
  assert (path_exists w (manifest_path (mkLayout root)) = true) as ->.
  { destruct (load_manifest_file _ _ _ (ho_manifest _ _ _ _ _ Hh)) as [bs Hbs]; [apply (holds_working _ _ _ _ _ Hh)|].
    unfold path_exists, is_file. rewrite (bool_decide_eq_true_2 (is_Some _)) by (by exists bs). by rewrite orb_true_r. }
  rewrite (run_bind _ _ _ (Some m, []) w) by (apply run_noting, Hh). cbn beta iota.
  rewrite (run_bind _ _ _ (true, true, size nodes, size edges, []) w).
  - cbn beta iota. rewrite (run_bind _ _ _ (Some (all_records chunks), []) w).
    + done.
    + apply run_noting. apply (replay_ok _ u64_max _ chunks); apply Hh.
  - rewrite (run_bind _ _ _ (Some (nodes, edges), []) w); [done|]. apply run_noting, Hh.
Qed.

Lemma split_on_nonempty c s : split_on c s ≠ [].
Proof. destruct s as [|x s]; simpl; [done|]. case_decide; [done|]. by destruct (split_on c s). Qed.
Lemma root_proper c : root_dir (layout_of c) ≠ [].
Proof.
  unfold layout_of, path_of_string. simpl. intros Heq. apply (f_equal (@rev string)) in Heq. rewrite rev_involutive in Heq.
  by apply split_on_nonempty in Heq.
Qed.

Lemma durable_holds c n w e chunks base : durable_state c n w e chunks base →
  holds (root_dir (layout_of c)) (e_manifest e) chunks base w.
Proof.
  intros Hd. pose proof (ws_dir _ _ _ (du_wal _ _ _ _ _ _ Hd)) as Hwal.
  rewrite (du_wal_root _ _ _ _ _ _ Hd) in Hwal. split; try apply Hd; [done| |].
  - eapply list.Forall_impl; [apply (du_dirs _ _ _ _ _ _ Hd)|]. intros name Hr. by apply list.Forall_cons in Hr as [? _].
  - pose proof (du_memory _ _ _ _ _ _ Hd). unfold u64_max. lia.
Qed.

(** The engine of a store that is somewhere else. *)
Definition relocated (c : AppConfig) (e : StorageEngine) : StorageEngine :=
  mkEngine (layout_of c) (e_manifest e)
    (mkWal (subdirectory (layout_of c) "wal") (wal_runtime (e_wal e)) (active_segment_id (e_wal e)) (next_lsn (e_wal e)))
    (e_maps e) (e_lineage e) (e_versions e) (e_commit_revision e) (e_latest_applied_lsn e) (e_checkpoint_dirty e)
    (e_pending e) (e_next_transaction_ordinal e) (e_transactions e).

Lemma holds_durable c c' n w w' e chunks base : durable_state c n w e chunks base → Config.wal c' = Config.wal c →
  holds (root_dir (layout_of c')) (e_manifest e) chunks base w' →
  durable_state c' n w' (relocated c' e) chunks base.
Proof.
  intros Hd Hc Hh. split; rewrite ?Hc; try apply Hd; try apply Hh; try done.
  - split; [apply Hh|apply (du_wal _ _ _ _ _ _ Hd)..].
  - pose proof (ho_dirs _ _ _ _ _ Hh) as Hdirs. pose proof (holds_ready _ _ _ _ _ Hh) as Hr.
    unfold dir_ready in *. simpl in Hr. apply list.Forall_cons in Hr as [_ Hr]. rewrite list.Forall_forall in Hdirs. rewrite list.Forall_forall in Hr.
    apply list.Forall_forall. intros name Hname. apply list.Forall_forall.
    simpl. intros q [->|Hq]%elem_of_cons; [by apply Hdirs|by apply Hr].
Qed.
End holds.

(** ** The files of a backup

    Collecting them succeeds, and gives the same files at the same tree; the manifest of the
    backup itself is passed over. *)

Section collect.
Context `{WalCodec, StorageCodec} (s d : Path) (w w' : World).
Hypothesis Hfaults : faults w = [].
Hypothesis Hfaults' : faults w' = [].
Hypothesis Htwin : twin_but backup_file s d w w'.
Hypothesis Htree : tree_at s w.
Hypothesis Hd : d ≠ [].
Hypothesis Hno : BACKUP_MANIFEST_FILE_NAME :: s ∉ dirs w.
Hypothesis Hno' : BACKUP_MANIFEST_FILE_NAME :: d ∉ dirs w'.

Definition collect_one (fuel : nat) (root current : Path) (found : gmap string ManifestFile) (name : string)
    : io (gmap string ManifestFile) :=
  let p := name :: current in
  w ← sm_get;
  if is_dir w p then collect_backup_files_fuel fuel root p found
  else
    relative ← io_res (backup_relative root p);
    if decide (relative = BACKUP_MANIFEST_FILE_NAME) then mret found
    else
      bs ← io_err (quoted "failed to read backup file" p) (fs_read p);
      mret (<[relative := mkManifestFile relative (crc32 bs)]> found).

Definition plain_names (pre : Path) (l : list string) : list string := filter (λ name, ¬ backup_file (name :: pre)) l.

Lemma collect_skips fuel root v name pre found : backup_file (name :: pre) → name :: pre ++ root ∉ dirs v →
  collect_one fuel root (pre ++ root) found name v = (Ok found, v).
Proof.
  intros [= -> ->] Hdir. unfold collect_one. rewrite (run_bind _ _ _ v v) by done. cbn zeta. simpl app in *.
  rewrite (proj2 (is_dir_false v _)) by done. unfold backup_relative.
  change (BACKUP_MANIFEST_FILE_NAME :: [] ++ root) with ([BACKUP_MANIFEST_FILE_NAME] ++ root). rewrite strip_prefix_app.
  rewrite (run_bind _ _ _ BACKUP_MANIFEST_FILE_NAME v) by done. by rewrite decide_True.
Qed.

(** Both runs succeed, change nothing and agree. *)
Definition both {A} (m m' : io A) : Prop := ∃ a, m w = (Ok a, w) ∧ m' w' = (Ok a, w').

Lemma both_bind {A B} (m m' : io A) (f f' : A → io B) : both m m' → (∀ a, both (f a) (f' a)) → both (m ≫= f) (m' ≫= f').
Proof.
  intros (a & Hm & Hm') Hf. destruct (Hf a) as (b & Hb & Hb'). exists b.
  by rewrite (run_bind _ _ _ a w), (run_bind _ _ _ a w').
Qed.

Lemma both_foldl fuel fuel' pre l : ∀ l',
  plain_names pre l' = plain_names pre l →
  (∀ found name, name ∈ plain_names pre l →
    both (collect_one fuel s (pre ++ s) found name) (collect_one fuel' d (pre ++ d) found name)) →
  ∀ found, both (sm_foldl (collect_one fuel s (pre ++ s)) found l) (sm_foldl (collect_one fuel' d (pre ++ d)) found l').
Proof.
  assert (Hskip : ∀ l', plain_names pre l' = [] → ∀ found,
    sm_foldl (collect_one fuel' d (pre ++ d)) found l' w' = (Ok found, w')).
  { induction l' as [|x l' IH]; intros Hl found; [done|]. unfold plain_names in Hl. rewrite filter_cons in Hl.
    destruct (decide (backup_file (x :: pre))) as [Hx|Hx]; [|by rewrite decide_True in Hl].
    rewrite decide_False in Hl by tauto. cbn [sm_foldl]. rewrite (run_bind _ _ _ found w'); [by apply IH|].
    apply collect_skips; [done|]. by injection Hx as -> ->. }
  induction l as [|x l IH]; intros l' Hl' Hstep found.
  - exists found. split; [done|by apply Hskip].
  - unfold plain_names in *. rewrite filter_cons in Hl', Hstep.
    destruct (decide (backup_file (x :: pre))) as [Hx|Hx].
    + rewrite decide_False in Hl', Hstep by tauto. destruct (IH l' Hl' Hstep found) as (a & Ha & Ha').
      exists a. split; [|done]. cbn [sm_foldl]. rewrite (run_bind _ _ _ found w); [done|].
      apply collect_skips; [done|]. by injection Hx as -> ->.
    + rewrite decide_True in Hl', Hstep by done. induction l' as [|y l' IHl]; [done|].
      rewrite filter_cons in Hl'. destruct (decide (backup_file (y :: pre))) as [Hy|Hy].
      * rewrite decide_False in Hl' by tauto. destruct (IHl Hl') as (a & Ha & Ha').
        exists a. split; [done|]. cbn [sm_foldl]. rewrite (run_bind _ _ _ found w'); [done|].
        apply collect_skips; [done|]. by injection Hy as -> ->.
      * rewrite decide_True in Hl' by done. injection Hl' as -> Hl'. cbn [sm_foldl].
        apply both_bind; [apply Hstep; left|]. intros a. apply IH; [done|]. intros. apply Hstep. by right.
Qed.

Lemma plain_entries pre : plain_names pre (entries_of w' (pre ++ d)) = plain_names pre (entries_of w (pre ++ s)).
Proof.
  apply (StronglySorted_unique String.le); [apply StronglySorted_filter, entries_sorted..|].
  apply NoDup_Permutation; [apply list.NoDup_filter, entries_NoDup..|]. intros name.
  unfold plain_names. rewrite !list_elem_of_filter, !elem_of_entries_present. split; intros [Hb Hp]; (split; [done|]);
    by apply (same_present _ _ _ _ (Htwin (name :: pre) Hb)).
Qed.

Lemma collect_both fuel : ∀ fuel' pre found, pre ++ s ∈ dirs w → pre ++ d ∈ dirs w' →
  deep fuel (pre ++ s) w → deep fuel' (pre ++ d) w' →
  both (collect_backup_files_fuel fuel s (pre ++ s) found) (collect_backup_files_fuel fuel' d (pre ++ d) found).
Proof.
  induction fuel as [|fuel IH]; intros fuel' pre found Hin Hin' Hdeep Hdeep'.
  { specialize (Hdeep [] Hin). simpl in Hdeep. lia. }
  destruct fuel' as [|fuel']; [specialize (Hdeep' [] Hin'); simpl in Hdeep'; lia|]. cbn [collect_backup_files_fuel].
  fold (collect_one fuel s (pre ++ s)) (collect_one fuel' d (pre ++ d)).
  destruct (both_foldl fuel fuel' pre (entries_of w (pre ++ s)) (entries_of w' (pre ++ d)) (plain_entries pre))
    with (found := found) as (a & Ha & Ha').
  - clear found. intros found name [Hb Hp%elem_of_entries_present]%list_elem_of_filter.
    pose proof (Htwin (name :: pre) Hb) as Hsame. unfold both, collect_one. cbn zeta.
    rewrite (run_bind _ _ _ w w), (run_bind _ _ _ w' w') by done.
    change (name :: pre ++ s) with ((name :: pre) ++ s). change (name :: pre ++ d) with ((name :: pre) ++ d).
    assert (is_dir w' ((name :: pre) ++ d) = is_dir w ((name :: pre) ++ s)) as -> by (by apply same_is_dir).
    destruct (is_dir w ((name :: pre) ++ s)) eqn:Hdir.
    + apply is_dir_present in Hdir. apply IH; [done|by apply Hsame|by apply deep_child|by apply deep_child].
    + unfold backup_relative. rewrite !strip_prefix_app. set (relative := String.concat _ _).
      rewrite (run_bind _ _ _ relative w), (run_bind _ _ _ relative w') by done.
      case_decide; [by exists found|]. apply is_dir_false in Hdir as [_ Hdir].
      destruct Hp as [[bs Hbs]|]; [|done]. destruct Hsame as [Hf _]. eexists. split.
      * rewrite (run_bind _ _ _ bs w); [done|]. apply run_io_err. by apply fs_read_ok.
      * rewrite (run_bind _ _ _ bs w'); [done|]. apply run_io_err. apply fs_read_ok; [done|by etrans; [exact Hf|]].
  - exists a. split.
    + rewrite (run_bind _ _ _ (entries_of w (pre ++ s)) w); [exact Ha|]. apply run_io_err, read_dir_ok; [done|].
      apply is_dir_true. by right.
    + rewrite (run_bind _ _ _ (entries_of w' (pre ++ d)) w'); [exact Ha'|]. apply run_io_err, read_dir_ok; [done|].
      apply is_dir_true. by right.
Qed.
End collect.

(** ** Backups *)

Section backups.
Context `{WalCodecLaws, StorageCodecLaws}.

(** A backup of a store: its tree, with a manifest that lists its files and reports it sound. *)
Record backup_at (d : Path) (m : Manifest) (chunks : list (N * list WalRecord)) (base : Maps) (w : World)
    (bm : BackupManifest) : Prop := {
  ba_holds : holds d m chunks base w;
  ba_tree : tree_at d w;
  ba_file : load_backup_manifest d w = (Ok bm, w);
  ba_no_dir : BACKUP_MANIFEST_FILE_NAME :: d ∉ dirs w;
  ba_files : collect_backup_files d w = (Ok (bm_files bm), w);
  ba_report : bm_integrity bm = sound_report base;
}.

Lemma verify_backup_ok d m chunks base w bm : backup_at d m chunks base w bm → verify_backup_directory d w = (Ok bm, w).
Proof.
  intros Hb. unfold verify_backup_directory. rewrite (run_bind _ _ _ bm w) by apply Hb.
  rewrite (run_bind _ _ _ (bm_files bm) w) by apply Hb. rewrite decide_True by done.
  rewrite (run_bind _ _ _ (sound_report base) w) by (eapply verify_holds, Hb). rewrite (ba_report _ _ _ _ _ _ Hb).
  unfold integrity_differs, sound_report. cbn [ir_manifest_present ir_node_snapshot_valid ir_edge_snapshot_valid
    ir_wal_replay_valid ir_node_count ir_edge_count]. by rewrite !Nat.eqb_refl.
Qed.

Lemma collect_moved s d w w' found : faults w = [] → faults w' = [] → twin_but backup_file s d w w' →
  tree_at s w → tree_at d w' → d ≠ [] →
  BACKUP_MANIFEST_FILE_NAME :: s ∉ dirs w → BACKUP_MANIFEST_FILE_NAME :: d ∉ dirs w' →
  collect_backup_files s w = (Ok found, w) → collect_backup_files d w' = (Ok found, w').
Proof.
  intros Hf Hf' Ht Hs Hs' Hd Hno Hno'. unfold collect_backup_files.
  rewrite (run_bind _ _ _ w w), (run_bind _ _ _ w' w') by done.
  destruct (collect_both s d w w' Hf Hf' Ht Hno Hno' (tree_fuel w) (tree_fuel w') [] ∅) as (a & Ha & Ha');
    [apply Hs|apply Hs'|by apply tree_deep..|].
  cbn [app] in Ha, Ha'. rewrite Ha, Ha'. by intros [= ->].
Qed.

Lemma collect_succeeds s w : faults w = [] → tree_at s w → s ≠ [] → BACKUP_MANIFEST_FILE_NAME :: s ∉ dirs w →
  ∃ found, collect_backup_files s w = (Ok found, w).
Proof.
  intros Hf Hs Hne Hno. unfold collect_backup_files. rewrite (run_bind _ _ _ w w) by done.
  destruct (collect_both s s w w Hf Hf (λ pre _, same_at_refl w (pre ++ s)) Hno Hno (tree_fuel w) (tree_fuel w) [] ∅)
    as (a & Ha & _); [apply Hs|apply Hs|by apply tree_deep..|]. by exists a.
Qed.

Lemma backup_moved s d m chunks base w w' bm : backup_at s m chunks base w bm → twin s d w w' → working w' →
  dir_ready w' d → s ≠ [] → d ≠ [] → backup_at d m chunks base w' bm.
Proof.
  intros Hb Ht Hw Hr Hs Hd. pose proof (holds_working _ _ _ _ _ (ba_holds _ _ _ _ _ _ Hb)) as Hww.
  assert (Htb : twin_but backup_file s d w w') by (eapply twin_weaken; [|exact Ht]; done).
  assert (Htree : tree_at d w') by (eapply tree_moved; [done|apply Hb]).
  pose proof (twin_at s d w w' [BACKUP_MANIFEST_FILE_NAME] Ht) as [Hfile Hdir]. simpl in Hfile, Hdir.
  assert (Hno : BACKUP_MANIFEST_FILE_NAME :: d ∉ dirs w') by (rewrite Hdir; apply Hb).
  split; [eapply holds_moved; [apply Hb|done..]|done| |done| |apply Hb].
  - pose proof (ba_file _ _ _ _ _ _ Hb) as Hload. unfold load_backup_manifest, backup_manifest_path in *. cbn zeta in *.
    apply sm_bind_Ok in Hload as (bs & w1 & Hread & Hdec).
    unfold io_err, io_try, fs_read in Hread. rewrite fs_call_ok in Hread by apply Hww.
    unfold mbind, sm_bind, sm_get in Hread. destruct (files w !! _) as [x|] eqn:Hx; [|done].
    injection Hread as -> ->. rewrite (run_bind _ _ _ bs w').
    + unfold io_res, sm_lift in *. injection Hdec as Hdec. by destruct (json_decode_backup bs); [injection Hdec as ->|].
    + apply run_io_err, fs_read_ok; [apply Hw|congruence].
  - eapply collect_moved; [apply Hww|apply Hw|exact Htb|apply Hb|done|done|apply Hb|done|apply Hb].
Qed.

(** What changes only below another place leaves a place as it is. *)
Lemma ancestors_suffix (p q : Path) : q ∈ ancestors p → ∃ k, p = k ++ q.
Proof.
  induction p as [|x p IH]; simpl; [by intros ?%elem_of_nil|]. intros [->|Hq]%elem_of_cons; [by exists []|].
  apply IH in Hq as [k ->]. by exists (x :: k).
Qed.
Lemma ready_apart p d w w' : apart p d → same_but d w w' → dir_ready w p → dir_ready w' p.
Proof.
  intros Ha Hs. apply ready_same. intros q [k ->]%ancestors_suffix. apply Hs. intros [j ->].
  apply (Ha [] (k ++ j)). by rewrite <-app_assoc.
Qed.
Lemma ready_parent x d w w' : same_but (x :: d) w w' → dir_ready w d → dir_ready w' d.
Proof. intros Hs. apply ready_same. intros q Hq. apply Hs. by apply not_below_ancestor. Qed.
Lemma ready_tail w p : dir_ready w p → dir_ready w (tail p).
Proof. destruct p as [|x p]; [done|]. by intros [_ ?]%list.Forall_cons. Qed.
Lemma twin_none w s d w' : twin s d w w' → twin_but backup_file s d w w'.
Proof. intros Ht. by eapply twin_weaken; [|exact Ht]. Qed.
Lemma working_same d w w' : same_but d w w' → working w → working w'.
Proof. intros Hs Hw. split; [rewrite (sb_faults _ _ _ Hs)|rewrite (sb_wal _ _ _ Hs)|rewrite (sb_storage _ _ _ Hs)]; apply Hw. Qed.
Lemma holds_same s d m chunks base w w' : holds s m chunks base w → same_but d w w' → apart s d → s ≠ [] →
  holds s m chunks base w'.
Proof.
  intros Hh Hs Ha Hne. eapply holds_moved; [exact Hh|by eapply twin_same| | |done|done].
  - eapply working_same; [done|by eapply holds_working].
  - eapply ready_apart; [done..|]. apply (ready_tail w ("wal" :: s)). by eapply holds_ready.
Qed.

(** A place to put a tree: what is there, if anything, is a directory. *)
Record place (d : Path) (w : World) : Prop := {
  pl_proper : d ≠ [];
  pl_parent : dir_ready w (tail d);
  pl_dir : d ∈ dirs w ∨ vacant d w;
}.

Lemma place_apart p d w w' : apart p d → same_but d w w' → tail p = tail d → place p w → place p w'.
Proof.
  intros Ha Hs Htail [Hne Hpar Hdir]. split; [done| |].
  - rewrite Htail in *. destruct d as [|x d]; [by destruct (Ha [] p); rewrite app_nil_r|]. by eapply ready_parent.
  - destruct Hdir as [Hin|Hv]; [left; apply Hs; [|done]; by apply (apart_below p d [])|right].
    intros pre Hpre. apply (Hv pre), (same_present w (pre ++ p) w' (pre ++ p)); [|done].
    apply Hs. by apply apart_below.
Qed.

(** The tree is copied to its free place, whose directory is then there. *)
Lemma copied_ready s d w w' : s ∈ dirs w → tree_at s w → free_place d w → twin s d w w' → same_but d w w' → dir_ready w' d.
Proof.
  intros Hin Ht Hfree Htw Hs. pose proof (tree_moved s d w w' Htw Ht) as Ht'.
  destruct Hfree as [_ Hpar Hne]. destruct d as [|x d]; [done|]. apply list.Forall_cons. split.
  - split; [apply Ht'|]. apply (ta_disjoint _ _ Ht' []), Ht'.
  - by eapply ready_parent.
Qed.

(** Writing the manifest leaves the rest of the tree. *)
Lemma set_file_at w d bs pre : ¬ backup_file pre →
  same_at w (pre ++ d) (set_files (<[BACKUP_MANIFEST_FILE_NAME :: d := bs]> (files w)) w) (pre ++ d).
Proof.
  intros Hpre. split; [|done]. cbn [set_files files]. rewrite lookup_insert_ne; [done|]. intros Heq. apply Hpre.
  by apply (app_inv_tail d [BACKUP_MANIFEST_FILE_NAME] pre) in Heq.
Qed.

(** Nothing of a crashed backup lies in the store. *)
Definition no_leftover (s : Path) (w : World) : Prop :=
  ¬ present w ("backup-manifest.tmp" :: s) ∧ BACKUP_MANIFEST_FILE_NAME :: s ∉ dirs w.

(** What the encoding of a backup manifest promises. *)
Definition backup_codec : Prop := ∀ bm, ∃ bs, json_encode_backup bm = Ok bs ∧ json_decode_backup bs = Ok bm.

Lemma seal_ok s d m chunks base w : backup_codec → holds d m chunks base w → tree_at d w → d ≠ [] → no_leftover d w →
  ∃ w' bm, persist_backup_manifest s d w = (Ok tt, w') ∧ backup_at d m chunks base w' bm ∧ same_but d w w' ∧
    twin_but backup_file d d w w'.
Proof.
  intros Hcodec Hh Ht Hne [Htmp Hno]. pose proof (holds_working _ _ _ _ _ Hh) as [Hf Hfw Hfs].
  destruct (collect_succeeds d w Hf Ht Hne Hno) as [found Hfound].
  set (bm := mkBackup (path_display s) (size found) found (sound_report base)).
  destruct (Hcodec bm) as (bs & Henc & Hdec).
  assert (Hready : dir_ready w d) by (apply (ready_tail w ("wal" :: d)); by eapply holds_ready).
  set (w' := set_files (<[BACKUP_MANIFEST_FILE_NAME :: d := bs]> (files w)) w).
  assert (Hs : same_but (BACKUP_MANIFEST_FILE_NAME :: d) w w') by apply set_file_same_but.
  assert (Htw : twin_but backup_file d d w w') by (intros pre Hpre; by apply set_file_at).
  assert (Htree : tree_at d w').
  { split; [apply Ht|intros name pre [Hp|Hp]|intros pre Hp]; cbn [set_files files dirs w'] in *.
    - destruct (decide (name :: pre ++ d = BACKUP_MANIFEST_FILE_NAME :: d)) as [Heq|Heq].
      + injection Heq as _ ->. apply Ht.
      + rewrite lookup_insert_ne in Hp by done. apply (ta_parent _ _ Ht name). by left.
    - apply (ta_parent _ _ Ht name). by right.
    - rewrite lookup_insert_ne by (intros Heq; by rewrite <-Heq in Hp). by apply Ht. }
  exists w', bm. split; [|split; [|split; [by apply (same_but_below BACKUP_MANIFEST_FILE_NAME)|done]]].
  - unfold persist_backup_manifest. rewrite (run_bind _ _ _ (sound_report base) w) by (by eapply verify_holds).
    rewrite (run_bind _ _ _ found w) by done. fold bm. unfold backup_manifest_path. cbn zeta.
    rewrite (run_bind _ _ _ bs w) by (unfold io_res, sm_lift; by rewrite Henc).
    assert (Htmp' : with_extension "tmp" (BACKUP_MANIFEST_FILE_NAME :: d) = "backup-manifest.tmp" :: d) by done.
    rewrite publish_file_ok; try done.
    + rewrite Htmp', delete_id; [done|]. destruct (files w !! _) eqn:Hx; [|done]. destruct Htmp. left. by eexists.
    + rewrite Htmp'. intros Hin. apply Htmp. by right.
  - split; [|done| |done| |done].
    + eapply (holds_moved d d); [exact Hh|exact Htw|done| |done|done]. eapply ready_same; [|exact Hready]. intros q Hq.
      apply Hs. by apply not_below_ancestor.
    + unfold load_backup_manifest, backup_manifest_path. cbn zeta. rewrite (run_bind _ _ _ bs w').
      * unfold io_res, sm_lift. by rewrite Hdec.
      * apply run_io_err, fs_read_ok; [done|]. cbn [w' set_files files]. by rewrite lookup_insert_eq.
    + by eapply (collect_moved d d w w').
Qed.

(** A backup succeeds, and what it leaves is a backup of the store. *)
Lemma backup_ok s d m chunks base w : backup_codec → holds s m chunks base w → tree_at s w → s ≠ [] → no_leftover s w →
  apart s d → place d w →
  ∃ w' bm, backup_directory s d w = (Ok tt, w') ∧ backup_at d m chunks base w' bm ∧ same_but d w w' ∧
    twin_but backup_file s d w w'.
Proof.
  intros Hcodec Hh Ht Hne [Htmp Hno] Ha [Hdne Hpar Hdir]. pose proof (holds_working _ _ _ _ _ Hh) as Hw.
  destruct (clear_place (quoted "failed to remove existing backup destination" d) d w (wk_faults _ Hw) Hpar Hdne Hdir)
    as (w1 & Hrun1 & Hfree & Hs1).
  assert (Htw1 : twin s s w w1) by (by apply (twin_same _ _ d)).
  pose proof (working_same _ _ _ Hs1 Hw) as Hw1.
  assert (Ht1 : tree_at s w1) by (by eapply tree_moved).
  destruct (copy_tree_ok s d w1 (wk_faults _ Hw1) Ht1 Hne Ha Hfree) as (w2 & Hrun2 & Htw2 & Hs2).
  assert (Htw : twin s d w w2) by (by eapply twin_trans).
  assert (Hr2 : dir_ready w2 d) by (eapply copied_ready; [apply Ht1|done..]).
  destruct (seal_ok s d m chunks base w2 Hcodec) as (w3 & bm & Hrun3 & Hb & Hs3 & Htw3).
  - eapply holds_moved; [done|by apply twin_none| |done..]. by eapply working_same; [exact Hs2|].
  - by eapply tree_moved.
  - done.
  - pose proof (twin_at s d w w2 ["backup-manifest.tmp"] Htw) as H3. pose proof (twin_at s d w w2 [BACKUP_MANIFEST_FILE_NAME] Htw) as [_ H4].
    split; [by intros Hp%(same_present _ _ _ _ H3)|]. intros Hin. by apply Hno, H4.
  - exists w3, bm. split; [|split; [done|split]].
    + unfold backup_directory. rewrite (run_bind _ _ _ w w) by done.
      assert (path_exists w s = true) as ->.
      { unfold path_exists. by rewrite (proj2 (is_dir_true w s)) by (right; apply Ht). }
      cbn [negb]. rewrite (run_bind _ _ _ tt w1) by done. by rewrite (run_bind _ _ _ tt w2).
    + eapply same_but_trans; [exact Hs1|]. by eapply same_but_trans.
    + eapply twin_trans; [by apply twin_none|done].
Qed.

(** ** Restoring *)

Definition staging_of (r : Path) : Path := with_extension "restore-staging" r.
(** The places a restore works with. *)
Record restore_places (d r : Path) (w : World) : Prop := {
  rp_staging : staging_of r ≠ r;
  rp_apart : apart d r;
  rp_apart_staging : apart d (staging_of r);
  rp_place : place r w;
  rp_place_staging : place (staging_of r) w;
}.

Lemma staging_apart r : r ≠ [] → staging_of r ≠ r → apart (staging_of r) r ∧ tail (staging_of r) = tail r.
Proof.
  destruct r as [|x r]; [done|]. intros _ Hne. split; [|done]. apply apart_siblings. intros Heq. apply Hne.
  unfold staging_of, with_extension. by rewrite Heq.
Qed.

Lemma promote_ok g r w : tree_at g w → working w → apart g r → tail g = tail r → g ≠ [] → place r w →
  ∃ w', (w ← sm_get;
    (if path_exists w r then io_err (quoted "failed to remove existing restore destination" r) (fs_remove_dir_all r)
     else mret tt) ;;
    io_err ("failed to promote staged restore '" +:+ path_display g +:+ "' -> '" +:+ path_display r +:+ "'")
      (fs_rename g r)) w = (Ok tt, w') ∧
    twin g r w w' ∧ working w' ∧ dir_ready w' r ∧ ∀ q, ¬ g `suffix_of` q → ¬ r `suffix_of` q → same_at w q w' q.
Proof.
  intros Ht Hw Ha Htail Hne [Hrne Hpar Hdir].
  destruct (clear_place (quoted "failed to remove existing restore destination" r) r w (wk_faults _ Hw) Hpar Hrne Hdir)
    as (w1 & Hrun1 & Hfree & Hs1).
  pose proof (working_same _ _ _ Hs1 Hw) as Hw1.
  assert (Htw1 : twin g g w w1) by (by apply (twin_same _ _ r)).
  assert (Ht1 : tree_at g w1) by (by eapply tree_moved).
  destruct (rename_dir_ok g r w1 (wk_faults _ Hw1) Ht1 Hne Ha Hfree) as (w2 & Hrun2 & Htw2 & Hsame & Hf & Hfw & Hfs).
  exists w2. split; [|split; [by eapply twin_trans|split; [|split]]].
  - rewrite (run_bind _ _ _ w w), (run_bind _ _ _ tt w1) by done. by apply run_io_err.
  - split; [done|rewrite Hfw|rewrite Hfs]; apply Hw1.
  - assert (Htree2 : tree_at r w2) by (by eapply tree_moved). destruct r as [|x r]; [done|]. apply list.Forall_cons. split.
    + split; [apply Htree2|]. apply (ta_disjoint _ _ Htree2 []), Htree2.
    + destruct g as [|y g]; [done|]. simpl in Htail. subst g. eapply ready_same; [|apply Hfree]. intros q Hq.
      apply Hsame; by apply not_below_ancestor.
  - intros q Hg Hr. eapply same_at_trans; [by apply Hs1|by apply Hsame].
Qed.

(** A restore, up to what it does with the staged copy: the backup is verified and copied. *)
Lemma staged_ok d r m chunks base w bm target config : backup_at d m chunks base w bm → d ≠ [] → restore_places d r w →
  ∃ w2, backup_at (staging_of r) m chunks base w2 bm ∧ twin d (staging_of r) w w2 ∧ same_but (staging_of r) w w2 ∧
    place r w2 ∧ apart (staging_of r) r ∧ tail (staging_of r) = tail r ∧
    restore_directory_internal d r target config w =
      (match target with
      | Some target_lsn =>
        config ← io_res (ok_or config (Validation "restore to lsn requires an explicit wal configuration"));
        trim_restored_wal_to_lsn (staging_of r) target_lsn config ;;
        integrity ← verify_storage_layout (StorageLayout_new (staging_of r));
        if negb (ir_node_snapshot_valid integrity) || negb (ir_edge_snapshot_valid integrity)
          || negb (ir_wal_replay_valid integrity) then
          io_fail (Corruption (quoted "staged point-in-time restore" (staging_of r) +:+ " failed integrity validation"))
        else mret tt
      | None => verify_backup_directory (staging_of r) ;; mret tt
      end ;;
      w ← sm_get;
      (if path_exists w r then io_err (quoted "failed to remove existing restore destination" r) (fs_remove_dir_all r)
       else mret tt) ;;
      io_err ("failed to promote staged restore '" +:+ path_display (staging_of r) +:+ "' -> '" +:+ path_display r +:+ "'")
        (fs_rename (staging_of r) r)) w2.
Proof.
  intros Hb Hd [Hst Har Hag Hpr Hpg]. pose proof (ba_holds _ _ _ _ _ _ Hb) as Hh.
  pose proof (holds_working _ _ _ _ _ Hh) as Hw. pose proof (ba_tree _ _ _ _ _ _ Hb) as Ht.
  destruct (staging_apart r (pl_proper _ _ Hpr) Hst) as [Hgr Htail]. set (g := staging_of r) in *.
  destruct (clear_place (quoted "failed to remove existing restore staging directory" g) g w (wk_faults _ Hw)
    (pl_parent _ _ Hpg) (pl_proper _ _ Hpg) (pl_dir _ _ Hpg)) as (w1 & Hrun1 & Hfree & Hs1).
  assert (Htw1 : twin d d w w1) by (by apply (twin_same _ _ g)).
  pose proof (working_same _ _ _ Hs1 Hw) as Hw1. assert (Ht1 : tree_at d w1) by (by eapply tree_moved).
  destruct (copy_tree_ok d g w1 (wk_faults _ Hw1) Ht1 Hd Hag Hfree) as (w2 & Hrun2 & Htw2 & Hs2).
  pose proof (working_same _ _ _ Hs2 Hw1) as Hw2. assert (Hsame2 : same_but g w w2) by (by eapply same_but_trans).
  exists w2. split; [|split; [by eapply twin_trans|split; [done|split; [|split; [done|split; [done|]]]]]].
  - eapply backup_moved; [exact Hb|by eapply twin_trans|done| |done|apply Hpg].
    eapply copied_ready; [apply Ht1|done..].
  - by eapply place_apart; [apply apart_sym|..].
  - unfold restore_directory_internal. rewrite (run_bind _ _ _ w w) by done.
    assert (path_exists w d = true) as ->.
    { unfold path_exists. by rewrite (proj2 (is_dir_true w d)) by (right; apply Ht). }
    cbn [negb]. rewrite (run_bind _ _ _ bm w) by (by eapply verify_backup_ok). cbn zeta. fold (staging_of r). fold g.
    by rewrite (run_bind _ _ _ w w), (run_bind _ _ _ tt w1), (run_bind _ _ _ tt w2) by done.
Qed.

(** Restoring a backup succeeds and puts its tree at the destination. *)
Lemma restore_ok d r m chunks base w bm : backup_at d m chunks base w bm → d ≠ [] → restore_places d r w →
  ∃ w', restore_directory d r w = (Ok tt, w') ∧ holds r m chunks base w' ∧ twin d r w w' ∧
    ∀ q, ¬ staging_of r `suffix_of` q → ¬ r `suffix_of` q → same_at w q w' q.
Proof.
  intros Hb Hd Hrp. pose proof (ba_holds _ _ _ _ _ _ Hb) as Hh.
  destruct (staged_ok d r m chunks base w bm None None Hb Hd Hrp) as (w2 & Hb2 & Htw2 & Hs2 & Hpl2 & Hgr & Htail & Hrun2).
  destruct (promote_ok (staging_of r) r w2) as (w3 & Hrun3 & Htw3 & Hw3 & Hr3 & Hsame3);
    [apply Hb2|eapply holds_working, Hb2|done|done|apply Hrp|done|].
  assert (Htw : twin d r w w3) by (by eapply twin_trans).
  exists w3. split; [|split; [|split; [done|]]].
  - unfold restore_directory. rewrite Hrun2. rewrite (run_bind _ _ _ tt w2); [exact Hrun3|].
    rewrite (run_bind _ _ _ bm w2); [done|]. by eapply verify_backup_ok.
  - eapply holds_moved; [exact Hh|by apply twin_none|done..|apply Hrp].
  - intros q Hg Hr. eapply same_at_trans; [by apply Hs2|by apply Hsame3].
Qed.

(** C5: A backup brings the graph back: on a working disk, backing up a durable store succeeds,
    and from then on, whatever else happens on the disk, as long as the files of the backup stay
    as they are, restoring it (over the old store or to a new place) succeeds, and the store
    there opens to exactly the graph of the time of the backup, without transactions, and is
    durable.  The backup leaves the store it is taken of durable. *)
Theorem backup_restores_graph c c' n w e d : backup_codec → durable c n w e →
  tree_at (root_dir (e_layout e)) w → no_leftover (root_dir (e_layout e)) w → apart (root_dir (e_layout e)) d → place d w →
  Config.wal c' = Config.wal c → validate c' = Ok tt →
  ∃ w1, backup_to e d w = (Ok tt, w1) ∧ durable c n w1 e ∧
    ∀ w2, working w2 → twin d d w1 w2 → dir_ready w2 d → restore_places d (root_dir (layout_of c')) w2 →
    ∃ w3 e', restore_directory d (root_dir (layout_of c')) w2 = (Ok tt, w3) ∧ open_engine c' w3 = (Ok e', w3) ∧
      e_maps e' = e_maps e ∧ e_transactions e' = ∅ ∧ durable c' n w3 e'.
Proof.
  intros Hcodec (chunks & base & Hds) Ht Hno Ha Hpl Hwal Hval. pose proof (durable_holds _ _ _ _ _ _ Hds) as Hh.
  pose proof (du_layout _ _ _ _ _ _ Hds) as Hlay. rewrite Hlay in *. pose proof (root_proper c) as Hne.
  destruct (backup_ok _ d _ _ _ _ Hcodec Hh Ht Hne Hno Ha Hpl) as (w1 & bm & Hrun & Hb & Hs & _).
  exists w1. split; [unfold backup_to; by rewrite Hlay|]. split.
  - assert (Hd1 : durable_state c n w1 (relocated c e) chunks base).
    { eapply holds_durable; [exact Hds|done|]. by eapply holds_same. }
    eapply durable_with; [..|by exists chunks, base]; try done.
    + unfold relocated. cbn [e_wal]. rewrite <-(du_wal_root _ _ _ _ _ _ Hds). by destruct (e_wal e).
    + apply (du_latest _ _ _ _ _ _ Hds).
  - intros w2 Hw2 Htw Hr2 Hrp. assert (Hb2 : backup_at d (e_manifest e) chunks base w2 bm) by (by eapply backup_moved; [..|apply Hpl|apply Hpl]).
    destruct (restore_ok _ _ _ _ _ _ _ Hb2 (pl_proper _ _ Hpl) Hrp) as (w3 & Hrun3 & Hh3 & _).
    destruct (reopen_durable c' n w3 (relocated c' e)) as (e' & Hopen & Hst & Htx & _ & Hd3); [|done|].
    { exists chunks, base. by eapply holds_durable. }
    exists w3, e'. split; [done|]. split; [done|]. split; [by injection Hst|done].
Qed.
End backups.

(** ** A concrete backup

    A store with a node is backed up, the node is deleted, and the backup is restored over it. *)

Module Demo.
Import Wal.Demo Batch.Demo Store.Demo Durability.Demo.

Definition written : World * StorageEngine :=
  (apply_write_batch (mkBatch [node "a" "person"] [] [] []) (fresh, engine)).2.
Definition destination : Path := ["backup"; "."].
Definition backed_up : World := (backup_to written.2 destination written.1).2.
Definition later : World := (apply_write_batch (mkBatch [] [] [mkNodeId "a"] []) (backed_up, written.2)).2.1.

Definition ready_check (w : World) (p : Path) : bool :=
  forallb (λ q, bool_decide (q ∈ dirs w ∧ files w !! q = None)) (ancestors p).
Lemma ready_decide w p : ready_check w p = true → dir_ready w p.
Proof.
  unfold ready_check. rewrite forallb_forall. intros Hall. apply list.Forall_forall. intros q Hq%list_elem_of_In.
  by apply Hall, bool_decide_eq_true in Hq.
Qed.

Lemma written_durable : durable config 0 written.1 written.2.
Proof. apply (write_durable config 0); [by apply fresh_durable|apply always_storable]. Qed.

Lemma codec_decodes : backup_codec.
Proof. intros bm. eexists. split; [done|by apply of_to_bytes]. Qed.

Lemma places_decide d r w : staging_of r ≠ r → d ≠ [] → r ≠ [] → staging_of r ≠ [] →
  below d r || below r d = false → below d (staging_of r) || below (staging_of r) d = false →
  ready_check w (tail r) && ready_check w (tail (staging_of r)) = true →
  bool_decide (r ∈ dirs w) && vacant_check w (staging_of r) = true → restore_places d r w.
Proof.
  intros ?????? [??]%andb_true_iff [Hr ?]%andb_true_iff. apply bool_decide_eq_true in Hr.
  split; [done|by apply apart_decide|by apply apart_decide|split|split];
    try done; try (by apply ready_decide); [by left|right; by apply vacant_decide].
Qed.
End Demo.

Lemma backup_restores_graph_witness :
  let c := Durability.Demo.config in
  let e := Demo.written.2 in
  (backup_to e Demo.destination Demo.written.1).1 = Ok tt ∧
  ∃ w3 e', restore_directory Demo.destination (root_dir (layout_of c)) Demo.later = (Ok tt, w3) ∧
    open_engine c w3 = (Ok e', w3) ∧ get_node e' (mkNodeId "a") = Some (Batch.Demo.node "a" "person").
Proof.
  intros c e.
  destruct (backup_restores_graph c c 0 Demo.written.1 e Demo.destination) as (w1 & Hrun & _ & Hrestore).
  - exact Demo.codec_decodes.
  - exact Demo.written_durable.
  - apply tree_decide. vm_compute. reflexivity.
  - split; [|by vm_compute]. assert (Hv : vacant_check Demo.written.1 ("backup-manifest.tmp" :: root_dir (e_layout e)) = true) by (vm_compute; reflexivity).
    apply (vacant_decide _ _ Hv []).
  - apply apart_decide. vm_compute. reflexivity.
  - split; [done|apply Demo.ready_decide; vm_compute; reflexivity|right; apply vacant_decide; vm_compute; reflexivity].
  - reflexivity.
  - apply default_config_ok.
  - assert (Hw1 : Demo.backed_up = w1) by (unfold Demo.backed_up; fold e; by rewrite Hrun).
    split; [by rewrite Hrun|]. subst w1.
    destruct (Hrestore Demo.later) as (w3 & e' & Hr & Ho & Hm & _).
    + split; vm_compute; reflexivity.
    + apply twin_decide. vm_compute. reflexivity.
    + apply Demo.ready_decide. vm_compute. reflexivity.
    + apply Demo.places_decide; vm_compute; done.
    + exists w3, e'. split; [exact Hr|]. split; [exact Ho|]. unfold get_node. rewrite Hm. vm_compute. reflexivity.
Defined.
