(* ===== verification/PointInTime.v ===== *)
(** * [crates/storage]: restoring to a point in the log

    [restore_directory_to_lsn] cuts the log of the restored store at an LSN.  The log is
    emptied and its records up to the LSN are appended again, so a log that was never
    truncated keeps their LSNs. *)
From S2P Require Import Prelude RustStd Common Core Config Fs Wal Memory Batch Store Engine Recovery Backup Durability Checkpoint Tree Restore.

#[local] Open Scope string_scope.
#[local] Open Scope list_scope.

(** ** Emptying a log *)

Section rewriting.
Context `{WalCodecLaws}.

Lemma elsewhere_refl root w : same_elsewhere root w w.
Proof. by repeat split. Qed.
Lemma elsewhere_trans root w1 w2 w3 : same_elsewhere root w1 w2 → same_elsewhere root w2 w3 → same_elsewhere root w1 w3.
Proof.
  intros (? & ? & ? & ? & Hf) (? & ? & ? & ? & Hf'). repeat split; try congruence.
  intros p Hp. rewrite Hf' by done. by apply Hf.
Qed.

Lemma remove_segments root ids : ∀ w (l : Wal), faults w = [] → NoDup ids → Forall (λ id, (id ≤ u64_max)%N) ids →
  (∀ id, id ∈ ids → is_Some (files w !! segment_path root id)) →
  ∃ w', sm_for (segment_path root <$> ids) (λ p, on_world (io_try (λ e,
      Io ("failed to remove WAL segment '" +:+ path_display p +:+ "': " +:+ e)) (fs_remove_file p))) (w, l) =
      (Ok tt, (w', l)) ∧ same_elsewhere root w w' ∧
    (∀ id, id ∈ ids → files w' !! segment_path root id = None) ∧
    (∀ p bs, files w' !! p = Some bs → files w !! p = Some bs).
Proof.
  induction ids as [|id ids IH]; intros w l Hf Hnd Hb Hfiles.
  { exists w. split; [done|]. split; [apply elsewhere_refl|]. split; [by intros ? ?%elem_of_nil|done]. }
  apply list.NoDup_cons in Hnd as [Hid Hnd]. apply list.Forall_cons in Hb as [Hbid Hb].
  set (w1 := set_files (delete (segment_path root id) (files w)) w).
  assert (Hneq : ∀ j, j ∈ ids → segment_path root j ≠ segment_path root id).
  { intros j Hj Heq. rewrite list.Forall_forall in Hb. apply segment_path_inj in Heq; [by subst|by apply Hb|done]. }
  destruct (IH w1 l Hf Hnd Hb) as (w' & Hrun & Helse & Hnone & Hsub).
  { intros j Hj. cbn [w1 set_files files]. rewrite lookup_delete_ne by (intros Heq; by apply (Hneq j)). apply Hfiles. by right. }
  exists w'. csimpl. rewrite (run_bind _ _ _ tt (w1, l)).
  - split; [exact Hrun|]. split; [|split].
    + eapply elsewhere_trans; [|exact Helse]. repeat split. intros p Hp. cbn [w1 set_files files].
      rewrite lookup_delete_ne; [done|]. by intros <-.
    + intros j [->|Hj]%elem_of_cons; [|by apply Hnone].
      destruct (files w' !! _) eqn:Hx; [|done]. apply Hsub in Hx. cbn [w1 set_files files] in Hx. by rewrite lookup_delete_eq in Hx.
    + intros p bs Hp%Hsub. cbn [w1 set_files files] in Hp. by apply lookup_delete_Some in Hp as [_ ?].
  - unfold on_world, io_try, fs_remove_file. rewrite fs_call_ok by done. unfold mbind, sm_bind, sm_get, sm_modify.
    destruct (Hfiles id ltac:(left)) as [bs ->]. done.
Qed.

Lemma truncate_ok l w chunks : wal_state l w chunks → ∃ w', truncate_all_segments (w, l) =
    (Ok tt, (w', mkWal (wal_root_dir l) (wal_runtime l) 1 1)) ∧
  wal_state (mkWal (wal_root_dir l) (wal_runtime l) 1 1) w' [] ∧ same_elsewhere (wal_root_dir l) w w'.
Proof.
  intros [Hd Ha Hn]. destruct (remove_segments (wal_root_dir l) chunks.*1 w l) as (w' & Hrun & Helse & Hnone & Hsub);
    [apply Hd|apply sorted_ids_NoDup, Hd|apply Hd| |].
  { intros id ([i rs] & -> & Hin)%list_elem_of_fmap. cbn [fst]. rewrite (ds_files _ _ _ Hd i rs) by done. by eexists. }
  exists w'. pose proof Helse as (Hdirs & Hf & Hfw & _ & Hels). split; [|split; [|done]].
  - unfold truncate_all_segments. rewrite (run_bind _ _ _ (w, l) (w, l)) by done. cbn beta iota.
    rewrite (run_bind _ _ _ (segment_path (wal_root_dir l) <$> chunks.*1) (w, l)).
    + by rewrite (run_bind _ _ _ tt (w', l)).
    + unfold on_world. by rewrite (list_segment_paths_ok _ _ _ Hd).
  - split; [|done|done]. cbn [wal_root_dir]. split; rewrite ?Hf, ?Hfw, ?Hdirs; try apply Hd; try done.
    + unfold is_dir. rewrite Hdirs. apply Hd.
    + pose proof (ds_ancestors _ _ _ Hd) as Hanc. rewrite list.Forall_forall in *. intros p Hp.
      destruct (Hanc p Hp) as [Hin Hno]. split; [done|].
      destruct (files w' !! p) eqn:Hx; [|done]. apply Hsub in Hx. congruence.
    + constructor.
    + intros name Hext. split; [|intros (? & ?%elem_of_nil & _); done]. rewrite elem_of_entries, Hdirs. intros Hin.
      assert (Hin' : name ∈ entries_of w (wal_root_dir l)).
      { apply elem_of_entries. destruct Hin as [[bs Hbs]|]; [left; exists bs; by apply Hsub|by right]. }
      apply (ds_entries _ _ _ Hd name Hext) in Hin' as (id & Hid & ->). destruct Hin as [[bs Hbs]|Hin].
      * change (files w' !! segment_path (wal_root_dir l) id = Some bs) in Hbs. by rewrite Hnone in Hbs.
      * by destruct (ds_no_dir _ _ _ Hd id).
    + intros id rs Hin. by apply elem_of_nil in Hin.
Qed.

(** ** Appending the kept records again *)

Lemma rewrite_all_ok ops : ∀ l w chunks, wal_state l w chunks →
  Forall (λ '(_, payload), (N.of_nat (length payload) ≤ u32_max)%N) ops →
  (next_lsn l + N.of_nat (length ops) ≤ u64_max)%N → (active_segment_id l + N.of_nat (length ops) ≤ u64_max)%N →
  in_memory (frames_of (all_records chunks ++ new_records (next_lsn l) ops)) →
  ∃ l' w' chunks', sm_for (new_records (next_lsn l) ops) rewrite_record (w, l) = (Ok tt, (w', l')) ∧
    wal_state l' w' chunks' ∧ all_records chunks' = all_records chunks ++ new_records (next_lsn l) ops ∧
    wal_root_dir l' = wal_root_dir l ∧ wal_runtime l' = wal_runtime l ∧
    next_lsn l' = (next_lsn l + N.of_nat (length ops))%N ∧
    (active_segment_id l' ≤ active_segment_id l + N.of_nat (length ops))%N ∧ same_elsewhere (wal_root_dir l) w w'.
Proof.
  induction ops as [|[kind payload] ops IH]; intros l w chunks Hst Hlen Hnext Hact Hmem.
  - exists l, w, chunks. simpl. rewrite app_nil_r. repeat (split; [done|]). split; [lia|]. split; [lia|apply elsewhere_refl].
  - apply list.Forall_cons in Hlen as [Hlen1 Hlen]. cbn [new_records length] in *.
    destruct (append_ok l w chunks kind payload) as (l1 & w1 & c1 & Hrun & Hst1 & Hall & Hr & Hrt & Hn & Ha & Hels);
      [done|done|lia|lia| |].
    { eapply in_memory_app. rewrite <-app_assoc. exact Hmem. }
    destruct (IH l1 w1 c1) as (l2 & w2 & c2 & Hrun2 & Hst2 & Hall2 & Hr2 & Hrt2 & Hn2 & Ha2 & Hels2);
      [done|done|lia|lia| |].
    { rewrite Hall, Hn, <-app_assoc. exact Hmem. }
    exists l2, w2, c2. cbn [sm_for]. rewrite (run_bind _ _ _ tt (w1, l1)).
    + rewrite Hn in Hrun2. split; [exact Hrun2|]. split; [done|]. split; [by rewrite Hall2, Hall, Hn, <-app_assoc|].
      split; [congruence|]. split; [congruence|]. split; [lia|]. split; [lia|]. eapply elsewhere_trans; [exact Hels|].
      by rewrite <-Hr.
    + unfold rewrite_record. rewrite (run_bind _ _ _ (new_record (next_lsn l) kind payload) (w1, l1)) by exact Hrun.
      by rewrite decide_True.
Qed.

Lemma rewrite_dir_ok root config w chunks ops : dir_state root w chunks → (total_bytes chunks ≤ max_replay_bytes config)%N →
  (next_after (all_records chunks) ≤ u64_max)%N → Forall (λ '(_, payload), (N.of_nat (length payload) ≤ u32_max)%N) ops →
  (1 + N.of_nat (length ops) ≤ u64_max)%N → in_memory (frames_of (new_records 1 ops)) →
  ∃ l' w' chunks', rewrite_dir_from_records root config (new_records 1 ops) w = (Ok tt, w') ∧
    wal_state l' w' chunks' ∧ all_records chunks' = new_records 1 ops ∧
    l' = mkWal root (runtime_from_config config) (active_segment_id l') (1 + N.of_nat (length ops)) ∧
    (active_segment_id l' ≤ 1 + N.of_nat (length ops))%N ∧ same_elsewhere root w w'.
Proof.
  intros Hd Hmax Hnext Hlen Hops Hmem.
  set (l := mkWal root (runtime_from_config config) (default 1%N (list.last chunks.*1)) (next_after (all_records chunks))).
  destruct (truncate_ok l w chunks (wal_state_open root config w chunks Hd)) as (w1 & Hrun1 & Hst1 & Hels1).
  cbn [wal_root_dir wal_runtime l] in *.
  destruct (rewrite_all_ok ops _ w1 [] Hst1 Hlen Hops Hops Hmem)
    as (l2 & w2 & c2 & Hrun2 & Hst2 & Hall2 & Hr2 & Hrt2 & Hn2 & Ha2 & Hels2).
  cbn [wal_root_dir wal_runtime next_lsn active_segment_id] in *. exists l2, w2, c2. split; [|split; [done|split; [done|]]].
  - unfold rewrite_dir_from_records. rewrite (run_bind _ _ _ l w) by (by apply open_ok).
    unfold with_self. rewrite (run_bind _ _ _ tt _ Hrun1). by rewrite Hrun2.
  - split; [|split; [done|by eapply elsewhere_trans]]. destruct l2. simpl in *. congruence.
Qed.
End rewriting.

(** ** Prefixes of a log *)

Section prefixes.
Context `{WalCodecLaws, StorageCodecLaws}.

(** The log was never truncated: its LSNs count from one. *)
Definition unbroken (records : list WalRecord) : Prop := ∃ ops, records = new_records 1 ops.

Lemma new_records_app a x y : new_records a (x ++ y) = new_records a x ++ new_records (a + N.of_nat (length x)) y.
Proof.
  revert a. induction x as [|[kind payload] x IH]; intros a; simpl; [by rewrite N.add_0_r|].
  rewrite IH. do 2 f_equal. f_equal. lia.
Qed.
Lemma new_records_lsns ops : ∀ a r, r ∈ new_records a ops → (a ≤ lsn_of r < a + N.of_nat (length ops))%N.
Proof.
  induction ops as [|[kind payload] ops IH]; intros a r; simpl; [by intros ?%elem_of_nil|].
  intros [->|Hr%IH]%elem_of_cons; [unfold lsn_of; simpl; lia|lia].
Qed.
Lemma next_after_new ops : next_after (new_records 1 ops) = (1 + N.of_nat (length ops))%N.
Proof.
  destruct ops as [|[kind payload] ops _] using rev_ind; [done|].
  rewrite new_records_app. unfold next_after. simpl new_records at 2. rewrite last_snoc, length_app.
  unfold lsn_of. simpl. lia.
Qed.
Lemma last_new ops d : match list.last (new_records 1 ops) with Some r => lsn_of r | None => d end =
  match ops with [] => d | _ => N.of_nat (length ops) end.
Proof.
  pose proof (next_after_new ops) as Hn. unfold next_after in Hn.
  destruct (list.last (new_records 1 ops)) as [r|] eqn:Hl.
  - destruct ops; [done|lia].
  - destruct ops as [|[kind payload] ops]; [done|simpl in Hn; lia].
Qed.
Lemma new_records_payloads a ops : Forall checksummed (new_records a ops) →
  Forall (λ '(_, payload), (N.of_nat (length payload) ≤ u32_max)%N) ops.
Proof.
  revert a. induction ops as [|[kind payload] ops IH]; intros a Hall; [constructor|].
  apply list.Forall_cons in Hall as [[Hfit _] Hall]. constructor; [|by eapply IH].
  pose proof (rf_payload _ Hfit). unfold u32_max. simpl in *. lia.
Qed.

(** The records up to an LSN are a prefix. *)
Lemma kept_records t ops : (t ≤ N.of_nat (length ops))%N →
  filter (λ r, (lsn_of r <= t)%N) (new_records 1 ops) = new_records 1 (take (N.to_nat t) ops).
Proof.
  intros Ht. rewrite <-(take_drop (N.to_nat t) ops) at 1. rewrite new_records_app, list.filter_app.
  rewrite length_take, Nat.min_l by lia. rewrite filter_all, filter_none; [by rewrite app_nil_r| |].
  - intros r Hr%new_records_lsns. lia.
  - apply list.Forall_forall. intros r Hr%new_records_lsns. rewrite length_take in Hr. lia.
Qed.

(** What recovery makes of the prefix, and which pending entries it has. *)
Lemma recovered_prefix cov t ops base st : (t ≤ N.of_nat (length ops))%N →
  result_foldl recover_step (base, []) (tail_of cov (new_records 1 ops)) = Ok st →
  ∃ maps, result_foldl recover_step (base, []) (tail_of cov (new_records 1 (take (N.to_nat t) ops))) =
      Ok (maps, filter (λ entry, (delta_lsn entry <= t)%N) st.2) ∧
    apply_entries base (filter (λ entry, (delta_lsn entry <= t)%N) st.2) = Ok maps.
Proof.
  intros Ht. rewrite <-(take_drop (N.to_nat t) ops) at 1. rewrite new_records_app. unfold tail_of at 1.
  rewrite list.filter_app, result_foldl_app. intros ([maps q] & Hr1 & Hr2)%result_bind_Ok. destruct st as [maps2 pend].
  destruct (recover_entries _ _ _ _ _ Hr1) as (q1 & -> & Ha1 & Hl1). destruct (recover_entries _ _ _ _ _ Hr2) as (q2 & -> & _ & Hl2).
  rewrite list.Forall_forall in Hl1, Hl2. simpl in *. exists maps.
  assert (filter (λ entry, (delta_lsn entry <= t)%N) (q1 ++ q2) = q1) as ->; [|done].
  rewrite list.filter_app, filter_all, filter_none; [by rewrite app_nil_r| |].
  - intros entry (r & Hr & ->)%Hl2. apply list_elem_of_filter in Hr as [_ Hr%new_records_lsns].
    rewrite length_take in Hr. lia.
  - apply list.Forall_forall. intros entry (r & Hr & ->)%Hl1. apply list_elem_of_filter in Hr as [_ Hr%new_records_lsns].
    rewrite length_take in Hr. lia.
Qed.

(** ** Cutting the log of a store *)

Lemma holds_log g m chunks chunks' base w w' : holds g m chunks base w → same_elsewhere ("wal" :: g) w w' →
  dir_state ("wal" :: g) w' chunks' → (total_bytes chunks' ≤ u64_max)%N → holds g m chunks' base w'.
Proof.
  intros Hh Hels Hd Hb. pose proof (holds_working _ _ _ _ _ Hh) as Hw.
  assert (Hag : agree (Durability.published (mkLayout g)) w w') by (apply agree_elsewhere; [apply Hw|done]).
  pose proof Hels as (Hdirs & Hf & Hfw & Hfs & Hfiles).
  split; [done| | | | | |done].
  - eapply reads_moves; [apply reads_manifest|exact Hag|apply Hh].
  - eapply reads_moves; [apply reads_published_state|exact Hag|apply Hh].
  - eapply list.Forall_impl; [apply (ho_dirs _ _ _ _ _ Hh)|]. intros name [Hin Hnone]. rewrite Hdirs. split; [done|].
    rewrite Hfiles; [done|]. simpl. intros Heq. apply (f_equal length) in Heq. simpl in Heq. lia.
  - rewrite Hdirs. apply Hh.
  - rewrite Hfs. apply Hw.
Qed.

(** The log directory has no directories in it. *)
Definition flat_log (root : Path) (w : World) : Prop := ∀ name, name :: "wal" :: root ∉ dirs w.

Lemma tree_log g w w' : tree_at g w → flat_log g w → same_elsewhere ("wal" :: g) w w' → dir_ready w ("wal" :: g) → tree_at g w'.
Proof.
  intros Ht Hflat (Hdirs & _ & _ & _ & Hfiles) Hr. apply list.Forall_cons in Hr as [[Hwal _] _].
  split; rewrite ?Hdirs; [apply Ht|intros name pre|intros pre Hp].
  - unfold present. rewrite Hdirs. intros [Hin|Hin]; [|apply (ta_parent _ _ Ht name); by right].
    destruct (decide (pre ++ g = "wal" :: g)) as [->|Hne]; [done|]. apply (ta_parent _ _ Ht name). left.
    by rewrite Hfiles in Hin.
  - rewrite Hfiles; [by apply Ht|]. intros Heq. destruct (pre ++ g) as [|x q] eqn:Hq; [done|].
    simpl in Heq. subst q. by apply (Hflat x).
Qed.

Lemma trim_ok g m chunks base w ops t config : holds g m chunks base w → all_records chunks = new_records 1 ops →
  (total_bytes chunks ≤ max_replay_bytes config)%N → (1 + N.of_nat (length ops) < u64_max)%N →
  (covered_lsn m ≤ t ≤ N.of_nat (length ops))%N →
  ∃ w' l' chunks', trim_restored_wal_to_lsn g t config w = (Ok tt, w') ∧ holds g m chunks' base w' ∧ wal_state l' w' chunks' ∧
    all_records chunks' = new_records 1 (take (N.to_nat t) ops) ∧ (total_bytes chunks' ≤ total_bytes chunks)%N ∧
    l' = mkWal ("wal" :: g) (runtime_from_config config) (active_segment_id l') (1 + t) ∧
    (active_segment_id l' ≤ 1 + t)%N ∧ same_elsewhere ("wal" :: g) w w'.
Proof.
  intros Hh Hall Hmax Hlen Ht. pose proof (ho_wal _ _ _ _ _ Hh) as Hd. pose proof (ds_sums _ _ _ Hd) as Hsums.
  rewrite Hall in Hsums. apply new_records_payloads in Hsums.
  assert (Hsplit : new_records 1 ops = new_records 1 (take (N.to_nat t) ops) ++ new_records (1 + t) (drop (N.to_nat t) ops)).
  { rewrite <-(take_drop (N.to_nat t) ops) at 1. rewrite new_records_app, length_take. do 2 f_equal. lia. }
  assert (Hlt : N.of_nat (length (take (N.to_nat t) ops)) = t) by (rewrite length_take; lia).
  destruct (rewrite_dir_ok ("wal" :: g) config w chunks (take (N.to_nat t) ops) Hd Hmax)
    as (l' & w' & chunks' & Hrun & Hst & Hall' & Hl & Ha & Hels).
  { rewrite Hall, next_after_new. lia. }
  { by apply list.Forall_take. }
  { rewrite Hlt. lia. }
  { apply in_memory_app with (rs2 := new_records (1 + t) (drop (N.to_nat t) ops)). rewrite <-Hsplit, <-Hall. apply Hd. }
  rewrite Hlt in Hl, Ha. assert (Hbytes : (total_bytes chunks' ≤ total_bytes chunks)%N).
  { unfold total_bytes. rewrite Hall, Hall', Hsplit, frames_of_app, length_app. lia. }
  exists w', l', chunks'. split; [|split; [|done]].
  - unfold trim_restored_wal_to_lsn. cbn zeta. rewrite (run_bind _ _ _ (Ok m) w).
    2:{ unfold io_catch. change (StorageLayout_new g) with (mkLayout g). by rewrite (ho_manifest _ _ _ _ _ Hh). }
    cbn beta iota. fold (covered_lsn m). rewrite (proj2 (N.ltb_ge _ _)) by lia.
    rewrite (run_bind _ _ _ (all_records chunks) w) by (by apply replay_ok). cbn beta. rewrite Hall, last_new.
    rewrite (proj2 (N.ltb_ge _ _)) by (destruct ops; [simpl in Ht; lia|lia]). rewrite kept_records by lia. exact Hrun.
  - eapply holds_log; [exact Hh|done| |]; [by rewrite Hl in Hst; destruct Hst|]. pose proof (ho_bytes _ _ _ _ _ Hh). lia.
Qed.

(** The engine of a store cut at an LSN. *)
Definition cut_engine (c : AppConfig) (l : Wal) (maps : Maps) (pending : list DeltaSegmentEntry) (e : StorageEngine) : StorageEngine :=
  mkEngine (layout_of c) (e_manifest e) l maps (e_lineage e) (e_versions e) (e_commit_revision e)
    (e_latest_applied_lsn e) (e_checkpoint_dirty e) pending (e_next_transaction_ordinal e) (e_transactions e).

Lemma cut_durable c c' n w w' e chunks chunks' base ops t l' maps : durable_state c n w e chunks base →
  Config.wal c' = Config.wal c → all_records chunks = new_records 1 ops → (t ≤ N.of_nat (length ops))%N →
  (covered_lsn (e_manifest e) ≤ t)%N → holds (root_dir (layout_of c')) (e_manifest e) chunks' base w' →
  wal_state l' w' chunks' → all_records chunks' = new_records 1 (take (N.to_nat t) ops) →
  (total_bytes chunks' ≤ total_bytes chunks)%N →
  l' = mkWal ("wal" :: root_dir (layout_of c')) (runtime_from_config (Config.wal c')) (active_segment_id l') (1 + t) →
  (active_segment_id l' ≤ 1 + t)%N →
  let pending := filter (λ entry, (delta_lsn entry <= t)%N) (e_pending e) in
  result_foldl recover_step (base, []) (tail_of (covered_lsn (e_manifest e)) (all_records chunks')) = Ok (maps, pending) →
  durable_state c' n w' (cut_engine c' l' maps pending e) chunks' base.
Proof.
  intros Hd Hc Hall Ht Hcov Hh Hst Hall' Hbytes Hl Ha pending Htail.
  pose proof (ws_next _ _ _ (du_wal _ _ _ _ _ _ Hd)) as Hn. rewrite Hall, next_after_new in Hn.
  pose proof (du_next _ _ _ _ _ _ Hd) as Hmax. pose proof (du_replay _ _ _ _ _ _ Hd) as Hrep.
  pose proof (du_memory _ _ _ _ _ _ Hd) as Hmem.
  assert (Hln : next_lsn l' = (1 + t)%N) by (by rewrite Hl).
  split; cbn [cut_engine e_layout e_wal e_manifest e_pending]; rewrite ?Hc, ?Hln; try done; try lia; try apply Hd; try apply Hh.
  - by rewrite Hl.
  - by rewrite Hl, Hc.
  - apply list.Forall_forall. rewrite Hall'. intros r Hr%new_records_lsns. rewrite length_take in Hr. lia.
  - pose proof (ho_dirs _ _ _ _ _ Hh) as Hdirs. pose proof (holds_ready _ _ _ _ _ Hh) as Hr.
    unfold dir_ready in *. simpl in Hr. apply list.Forall_cons in Hr as [_ Hr].
    rewrite list.Forall_forall in Hdirs. rewrite list.Forall_forall in Hr.
    apply list.Forall_forall. intros name Hname. apply list.Forall_forall.
    simpl. intros q [->|Hq]%elem_of_cons; [by apply Hdirs|by apply Hr].
  - pose proof (du_pending _ _ _ _ _ _ Hd) as Hp. rewrite list.Forall_forall in *.
    intros entry [_ Hin]%list_elem_of_filter. by apply Hp.
Qed.

Lemma restore_to_ok d r m chunks base w bm ops t config : backup_at d m chunks base w bm → d ≠ [] → restore_places d r w →
  flat_log d w → all_records chunks = new_records 1 ops → (total_bytes chunks ≤ max_replay_bytes config)%N →
  (1 + N.of_nat (length ops) < u64_max)%N → (covered_lsn m ≤ t ≤ N.of_nat (length ops))%N →
  ∃ w' l' chunks', restore_directory_to_lsn d r t config w = (Ok tt, w') ∧ holds r m chunks' base w' ∧
    all_records chunks' = new_records 1 (take (N.to_nat t) ops) ∧ (total_bytes chunks' ≤ total_bytes chunks)%N ∧
    wal_state l' w' chunks' ∧
    l' = mkWal ("wal" :: r) (runtime_from_config config) (active_segment_id l') (1 + t) ∧ (active_segment_id l' ≤ 1 + t)%N.
Proof.
  intros Hb Hd Hrp Hflat Hall Hmax Hlen Ht.
  destruct (staged_ok d r m chunks base w bm (Some t) (Some config) Hb Hd Hrp)
    as (w2 & Hb2 & Htw2 & Hs2 & Hpl2 & Hgr & Htail & Hrun2). set (g := staging_of r) in *.
  destruct (trim_ok g m chunks base w2 ops t config (ba_holds _ _ _ _ _ _ Hb2) Hall Hmax Hlen Ht)
    as (w3 & l3 & chunks' & Hrun3 & Hh3 & Hst3 & Hall3 & Hbytes & Hl & Ha & Hels).
  assert (Hflat2 : flat_log g w2).
  { intros name Hin. apply (Hflat name). by apply (twin_at d g w w2 [name; "wal"] Htw2). }
  assert (Ht3 : tree_at g w3) by (eapply tree_log; [apply Hb2|done|done|eapply holds_ready, Hb2]).
  assert (Hpl3 : place r w3).
  { destruct Hpl2 as [Hne Hpar Hdir]. destruct Hels as (Hdirs & _ & _ & _ & Hfiles).
    assert (Hother : ∀ p, ¬ g `suffix_of` p → same_at w2 p w3 p).
    { intros p Hp. split; [|by rewrite Hdirs]. apply Hfiles. intros Heq. apply Hp. destruct p as [|x p]; [done|].
      simpl in Heq. subst p. by exists [x; "wal"]. }
    split; [done| |].
    - eapply ready_same; [|exact Hpar]. intros q Hq. apply Hother.
      destruct g as [|x g']; [by destruct (Hgr r []); rewrite app_nil_r|]. simpl in Htail. subst g'. by apply not_below_ancestor.
    - destruct Hdir as [Hin|Hv]; [left; by rewrite Hdirs|right]. intros pre Hpre. apply (Hv pre).
      apply (same_present w2 (pre ++ r) w3 (pre ++ r)); [|done]. apply Hother. apply apart_below. by apply apart_sym. }
  destruct (promote_ok g r w3 Ht3 (holds_working _ _ _ _ _ Hh3) Hgr Htail) as (w4 & Hrun4 & Htw4 & Hw4 & Hr4 & Hsame4);
    [apply Hrp|done|].
  assert (Hh4 : holds r m chunks' base w4).
  { eapply holds_moved; [exact Hh3|by apply twin_none|done|done|apply Hrp|apply Hrp]. }
  exists w4, (mkWal ("wal" :: r) (runtime_from_config config) (active_segment_id l3) (1 + t)), chunks'.
  split; [|split; [done|split; [done|split; [done|split; [|done]]]]].
  - unfold restore_directory_to_lsn. rewrite Hrun2. rewrite (run_bind _ _ _ tt w3); [exact Hrun4|].
    rewrite (run_bind _ _ _ config w2) by done. rewrite (run_bind _ _ _ tt w3) by exact Hrun3.
    rewrite (run_bind _ _ _ (sound_report base) w3) by (by eapply verify_holds). done.
  - split; [apply Hh4|apply Hst3|]. cbn [next_lsn]. rewrite <-(ws_next _ _ _ Hst3), Hl. done.
Qed.

(** C6: A point in time: a backup of a durable store whose log was never truncated can be restored
    to any LSN from the last checkpoint on to the last record.  The restore succeeds, and the
    store it leaves opens to the published graph with exactly the pending writes up to that LSN
    applied to it; the backup itself had all of them applied. *)
Theorem restore_to_lsn_replays_prefix c c' n w e d t records : backup_codec → durable c n w e →
  tree_at (root_dir (e_layout e)) w → no_leftover (root_dir (e_layout e)) w → flat_log (root_dir (e_layout e)) w →
  apart (root_dir (e_layout e)) d → place d w →
  replay (e_wal e) w = (Ok records, w) → unbroken records → (covered_lsn (e_manifest e) ≤ t < next_lsn (e_wal e))%N →
  Config.wal c' = Config.wal c → validate c' = Ok tt →
  ∃ w1, backup_to e d w = (Ok tt, w1) ∧ ∀ w2, working w2 → twin d d w1 w2 → dir_ready w2 d →
    restore_places d (root_dir (layout_of c')) w2 →
    ∃ w3 e' base, restore_directory_to_lsn d (root_dir (layout_of c')) t (Config.wal c') w2 = (Ok tt, w3) ∧
      open_engine c' w3 = (Ok e', w3) ∧ durable c' n w3 e' ∧ next_lsn (e_wal e') = (1 + t)%N ∧
      load_published_state (e_layout e) (e_manifest e) w = (Ok base, w) ∧ apply_entries base (e_pending e) = Ok (e_maps e) ∧
      apply_entries base (filter (λ entry, (delta_lsn entry <= t)%N) (e_pending e)) = Ok (e_maps e').
Proof.
  intros Hcodec (chunks & base & Hds) Ht Hno Hflat Ha Hpl Hreplay [ops ->] Hlsn Hwal Hval.
  pose proof (durable_holds _ _ _ _ _ _ Hds) as Hh. pose proof (du_layout _ _ _ _ _ _ Hds) as Hlay.
  pose proof (root_proper c) as Hne. pose proof (du_replay _ _ _ _ _ _ Hds) as Hmax.
  assert (Hall : all_records chunks = new_records 1 ops).
  { unfold replay in Hreplay. rewrite (replay_ok _ _ w chunks) in Hreplay; [by injection Hreplay|apply Hds|].
    rewrite (du_runtime _ _ _ _ _ _ Hds). simpl. lia. }
  pose proof (ws_next _ _ _ (du_wal _ _ _ _ _ _ Hds)) as Hn. rewrite Hall, next_after_new in Hn.
  pose proof (du_next _ _ _ _ _ _ Hds) as Hnext.
  rewrite Hlay in *.
  destruct (backup_ok _ d _ _ _ _ Hcodec Hh Ht Hne Hno Ha Hpl) as (w1 & bm & Hrun & Hb & Hs & Htwb).
  exists w1. split; [unfold backup_to; by rewrite Hlay|]. intros w2 Hw2 Htw Hr2 Hrp.
  assert (Hb2 : backup_at d (e_manifest e) chunks base w2 bm) by (by eapply backup_moved; [..|apply Hpl|apply Hpl]).
  destruct (restore_to_ok d (root_dir (layout_of c')) (e_manifest e) chunks base w2 bm ops t (Config.wal c') Hb2 (pl_proper _ _ Hpl) Hrp)
    as (w3 & l' & chunks' & Hrun3 & Hh3 & Hall3 & Hbytes & Hst3 & Hl & Ha3); [|done|rewrite Hwal; lia|lia|lia|].
  { intros name Hin. apply (Hflat name). apply (Htwb [name; "wal"]); [done|]. by apply (twin_at d d w1 w2 [name; "wal"] Htw). }
  destruct (recovered_prefix (covered_lsn (e_manifest e)) t ops base (state_of e)) as (maps & Hfold & Happly); [lia| |].
  { rewrite <-Hall. apply Hds. }
  assert (Hcut : durable_state c' n w3 (cut_engine c' l' maps (filter (λ entry, (delta_lsn entry <= t)%N) (e_pending e)) e) chunks' base).
  { eapply cut_durable; [exact Hds|done..|lia|lia|done|done|done|done|done|done|]. by rewrite Hall3. }
  destruct (reopen_durable c' n w3 _ (ex_intro _ chunks' (ex_intro _ base Hcut)) Hval) as (e' & Hopen & Hst & _ & _ & Hd').
  exists w3, e', base. injection Hst as Hmaps _. split; [done|]. split; [done|]. split; [done|]. split; [|split; [|split]].
  - pose proof (open_durable c' n w3 _ chunks' base Hcut Hval) as Ho. rewrite Hopen in Ho. injection Ho as ->.
    cbn [e_wal rebuild_lineage set_recovered set_state set_pending set_maps engine_of cut_engine]. by rewrite Hl.
  - apply (du_published _ _ _ _ _ _ Hds).
  - destruct (recover_entries _ _ _ _ _ (du_tail _ _ _ _ _ _ Hds)) as (q & Hq & Hq' & _). simpl in Hq. by subst.
  - by rewrite Hmaps.
Qed.
End prefixes.

(** ** A concrete restore

    A node is written and deleted; the store is backed up and restored to before the deletion. *)

Module Demo.
Import Wal.Demo Batch.Demo Store.Demo Durability.Demo.

Definition deleted : World * StorageEngine :=
  (apply_write_batch (mkBatch [] [] [mkNodeId "a"] []) Restore.Demo.written).2.
Definition records : list WalRecord := match (replay (e_wal deleted.2) deleted.1).1 with Ok l => l | Err _ => [] end.
Definition backed_up : World := (backup_to deleted.2 Restore.Demo.destination deleted.1).2.

Lemma step_durable c n b st : durable c (write_cost b + n) st.1 st.2 → storable b →
  durable c n (apply_write_batch b st).2.1 (apply_write_batch b st).2.2.
Proof. destruct st as [w e]. apply write_durable. Qed.
Lemma deleted_durable : durable config 0 deleted.1 deleted.2.
Proof.
  apply step_durable; [|apply always_storable]. apply step_durable; [|apply always_storable].
  apply fresh_durable. vm_compute. reflexivity.
Qed.

Definition flat_check (root : Path) (w : World) : bool :=
  forallb (λ p, negb (bool_decide (tail p = "wal" :: root ∧ p ≠ []))) (elements (dirs w)).
Lemma flat_decide root w : flat_check root w = true → flat_log root w.
Proof.
  unfold flat_check. rewrite forallb_forall. intros Hall name Hin. specialize (Hall (name :: "wal" :: root)).
  rewrite <-list_elem_of_In, elem_of_elements in Hall. specialize (Hall Hin).
  rewrite negb_true_iff, bool_decide_eq_false in Hall. by apply Hall.
Qed.

Lemma records_unbroken : unbroken records.
Proof. exists ((λ r, (h_kind (header r), payload r)) <$> records). vm_compute. reflexivity. Qed.
End Demo.

Lemma restore_to_lsn_replays_prefix_witness :
  let c := Durability.Demo.config in
  let e := Demo.deleted.2 in
  get_node e (mkNodeId "a") = None ∧
  ∃ w3 e', restore_directory_to_lsn Restore.Demo.destination (root_dir (layout_of c)) 1 (Config.wal c) Demo.backed_up = (Ok tt, w3) ∧
    open_engine c w3 = (Ok e', w3) ∧ get_node e' (mkNodeId "a") = Some (Batch.Demo.node "a" "person").
Proof.
  intros c e. split; [vm_compute; reflexivity|].
  destruct (restore_to_lsn_replays_prefix c c 0 Demo.deleted.1 e Restore.Demo.destination 1 Demo.records) as (w1 & Hrun & Hrestore).
  - exact Restore.Demo.codec_decodes.
  - exact Demo.deleted_durable.
  - apply tree_decide. vm_compute. reflexivity.
  - split; [|by vm_compute].
    assert (Hv : vacant_check Demo.deleted.1 ("backup-manifest.tmp" :: root_dir (e_layout e)) = true) by (vm_compute; reflexivity).
    apply (vacant_decide _ _ Hv []).
  - apply Demo.flat_decide. vm_compute. reflexivity.
  - apply apart_decide. vm_compute. reflexivity.
  - split; [done|apply Restore.Demo.ready_decide; vm_compute; reflexivity|right; apply vacant_decide; vm_compute; reflexivity].
  - vm_compute. reflexivity.
  - exact Demo.records_unbroken.
  - split; vm_compute; [done|reflexivity].
  - reflexivity.
  - apply default_config_ok.
  - assert (Hw1 : Demo.backed_up = w1) by (unfold Demo.backed_up; fold e; by rewrite Hrun). subst w1.
    destruct (Hrestore Demo.backed_up) as (w3 & e' & base & Hr & Ho & _ & _ & Hb & _ & Ha).
    + split; vm_compute; reflexivity.
    + apply twin_decide. vm_compute. reflexivity.
    + apply Restore.Demo.ready_decide. vm_compute. reflexivity.
    + apply Restore.Demo.places_decide; vm_compute; done.
    + exists w3, e'. split; [exact Hr|]. split; [exact Ho|].
      assert (Hbase : base = (∅, ∅)).
      { assert (Hl : (load_published_state (e_layout e) (e_manifest e) Demo.deleted.1).1 = Ok (∅, ∅)) by (vm_compute; reflexivity).
        rewrite Hb in Hl. by injection Hl. }
      subst base. assert (Hm : (m ← apply_entries (∅, ∅) (filter (λ entry, (delta_lsn entry <= 1)%N) (e_pending e));
        Ok ((m : Maps).1 !! mkNodeId "a") : Res (option NodeRecord)) = Ok (Some (Batch.Demo.node "a" "person"))) by (vm_compute; reflexivity).
      rewrite Ha in Hm. by injection Hm.
Defined.
