(* ===== verification/Survival.v ===== *)
(** * [crates/api]: what the service acknowledged survives a crash

    The service on a working disk: requests that change the graph append to the log, and
    besides that only the metadata directory is written (the audit log, the replication and
    cluster state).  So a run of requests keeps the store durable, and opening it after a
    crash gives the graph of the acknowledged writes. *)
From S2P Require Import Prelude RustStd RustFloat Common Core Config Auth Fs Wal Memory Batch Store Engine Recovery Durability Checkpoint Clients Backup Tree Restore Index Query Ranking Executor Database Publish Tracking Observability Metrics Service Handlers Admission Serving.

#[local] Open Scope string_scope.
#[local] Open Scope list_scope.

(** ** Writing in one directory *)

(** Only files in [dir] changed, on a disk that works. *)
Definition aside (dir : Path) (w w' : World) : Prop := working w → dir_ready w dir →
  working w' ∧ dirs w' = dirs w ∧ ∀ q, tail q ≠ dir → files w' !! q = files w !! q.

Lemma aside_ready dir w w' : dirs w' = dirs w → (∀ q, tail q ≠ dir → files w' !! q = files w !! q) →
  dir_ready w dir → dir_ready w' dir.
Proof.
  intros Hd Hf. apply ready_same. intros q Hq. split; [|by rewrite Hd]. apply Hf. intros <-.
  destruct q as [|x q]; [by apply elem_of_nil in Hq|]. apply ancestors_length_le in Hq. simpl in Hq. lia.
Qed.
#[global] Instance aside_pre dir : PreOrder (aside dir).
Proof.
  split; [by intros w Hw _|]. intros w1 w2 w3 H12 H23 Hw Hr. destruct (H12 Hw Hr) as (Hw2 & Hd2 & Hf2).
  destruct (H23 Hw2 (aside_ready dir w1 w2 Hd2 Hf2 Hr)) as (Hw3 & Hd3 & Hf3). split; [done|]. split; [congruence|].
  intros q Hq. rewrite Hf3 by done. by apply Hf2.
Qed.

Definition writes_in {A} (dir : Path) (m : io A) : Prop := ∀ w, aside dir w (m w).2.

Section writes.
Context (dir : Path).

Lemma writes_ret {A} (a : A) : writes_in dir (mret a).
Proof. by intros w. Qed.
Lemma writes_res {A} (r : Res A) : writes_in dir (io_res r).
Proof. by intros w. Qed.
Lemma writes_bind {A B} (m : io A) (f : A → io B) : writes_in dir m → (∀ a, writes_in dir (f a)) → writes_in dir (m ≫= f).
Proof.
  intros Hm Hf w. unfold mbind, sm_bind. specialize (Hm w). destruct (m w) as [[a|e] w1]; [|done].
  etrans; [exact Hm|apply Hf].
Qed.
Lemma aside_file name bs w : aside dir w (set_files (<[name :: dir := bs]> (files w)) w).
Proof.
  intros Hw _. split; [split; apply Hw|]. split; [done|]. intros q Hq. cbn [set_files files].
  rewrite lookup_insert_ne; [done|]. by intros <-.
Qed.
Lemma writes_err {A} what (m : fsm A) : (∀ w, aside dir w (m w).2) → writes_in dir (io_err what m).
Proof. intros Hm w. unfold io_err, io_try. specialize (Hm w). by destruct (m w). Qed.

Lemma aside_create w : aside dir w (fs_create_dir_all dir w).2.
Proof. intros Hw Hr. by rewrite create_dir_all_again by (apply Hw || exact Hr). Qed.
Lemma aside_write name bs w : aside dir w (fs_write (name :: dir) bs w).2.
Proof.
  intros Hw Hr. unfold fs_write, mbind, sm_bind, sm_get, sm_modify. rewrite next_fault_ok by apply Hw.
  destruct (is_dir w (name :: dir)); [done|]. destruct (negb _); [done|]. by apply aside_file.
Qed.
Lemma aside_append name bs w : aside dir w (fs_append (name :: dir) bs w).2.
Proof.
  intros Hw Hr. unfold fs_append, mbind, sm_bind, sm_get, sm_modify. rewrite next_fault_ok by apply Hw.
  by apply aside_file.
Qed.
Lemma aside_open name w : aside dir w (fs_open_append (name :: dir) w).2.
Proof.
  intros Hw Hr. unfold fs_open_append. rewrite fs_call_ok by apply Hw. unfold mbind, sm_bind, sm_get, sm_modify.
  destruct (is_dir w (name :: dir)); [done|]. destruct (negb _); [done|].
  destruct (files w !! (name :: dir)); [done|]. by apply aside_file.
Qed.
Lemma aside_read p w : aside dir w (fs_read_to_string p w).2.
Proof.
  intros Hw Hr. unfold fs_read_to_string, fs_read, mbind, sm_bind. rewrite fs_call_ok by apply Hw.
  unfold mbind, sm_bind, sm_get. unfold mret, sm_ret, sm_fail. destruct (files w !! p) as [bs|]; [by destruct (utf8_valid bs)|by split_and!].
Qed.
End writes.

Create HintDb aside.
#[export] Hint Resolve writes_ret writes_res writes_bind writes_err aside_create aside_write aside_append aside_open aside_read : aside.

Section audit.
Context `{AuditCodec}.

Lemma writes_audit_read dir p : writes_in dir (read_audit_log p).
Proof.
  intros w. unfold read_audit_log. pose proof (aside_read dir p w) as Hr.
  destruct (fs_read_to_string p w) as [[payload|error] w']; [done|]. by case_decide.
Qed.
Lemma writes_append dir name event : writes_in dir (append_audit_event (name :: dir) event).
Proof. unfold append_audit_event. auto 10 with aside. Qed.
Lemma writes_prune dir name n : writes_in dir (prune_audit_log (name :: dir) n).
Proof.
  apply writes_bind.
  - apply writes_bind; [apply writes_audit_read|]. auto with aside.
  - intros [[kept removed]|]; cbn [prune_rewrite]; auto 10 with aside.
Qed.
End audit.

(** ** A durable store beside it *)

Section store.
Context `{WalCodecLaws, StorageCodecLaws}.

Definition meta_dir (c : AppConfig) : Path := subdirectory (layout_of c) "meta".

Lemma published_not_meta l p : Durability.published l p → tail p ≠ subdirectory l "meta".
Proof.
  intros [->|([|x pre] & d & -> & Hd)] Heq; simpl in Heq.
  1,2: apply (f_equal length) in Heq; simpl in Heq; lia.
  unfold subdirectory in Heq. destruct pre as [|y pre]; simpl in Heq.
  - injection Heq as ->. by set_solver.
  - injection Heq as _ Heq. apply (f_equal length) in Heq. rewrite length_app in Heq. simpl in Heq. lia.
Qed.

Lemma holds_aside root m chunks base w w' : holds root m chunks base w → dir_ready w ("meta" :: root) →
  aside ("meta" :: root) w w' → holds root m chunks base w'.
Proof.
  intros Hh Hr Ha. destruct (Ha (holds_working _ _ _ _ _ Hh) Hr) as (Hw & Hdirs & Hfiles).
  pose proof (holds_working _ _ _ _ _ Hh) as Hw0. pose proof (ho_wal _ _ _ _ _ Hh) as Hd.
  assert (Hag : agree (Durability.published (mkLayout root)) w w').
  { split; [apply Hw0|apply Hw|]. intros p Hp. split; [apply Hfiles; by apply (published_not_meta (mkLayout root))|].
    unfold is_dir. by rewrite Hdirs. }
  split.
  - split; rewrite ?Hdirs; try apply Hd; try apply Hw.
    + unfold is_dir. rewrite Hdirs. apply Hd.
    + pose proof (ds_ancestors _ _ _ Hd) as Hanc. rewrite list.Forall_forall in *. intros p Hp.
      destruct (Hanc p Hp) as [Hin Hno]. split; [done|]. rewrite Hfiles; [done|]. intros Heq.
      apply ancestors_length_le in Hp. apply (f_equal length) in Heq. destruct p; simpl in *; lia.
    + intros name Hext. rewrite <-(ds_entries _ _ _ Hd name Hext). rewrite !elem_of_entries, Hdirs, Hfiles by done. done.
    + intros id rs Hin. rewrite Hfiles by done. by apply (ds_files _ _ _ Hd).
  - eapply reads_moves; [apply reads_manifest|exact Hag|apply Hh].
  - eapply reads_moves; [apply reads_published_state|exact Hag|apply Hh].
  - eapply list.Forall_impl; [apply (ho_dirs _ _ _ _ _ Hh)|]. intros name [Hin Hnone]. rewrite Hdirs. split; [done|].
    rewrite Hfiles; [done|]. simpl. intros Heq. apply (f_equal length) in Heq. simpl in Heq. lia.
  - rewrite Hdirs. apply Hh.
  - apply Hw.
  - apply Hh.
Qed.

Lemma durable_meta_ready c n w e : durable c n w e → dir_ready w (meta_dir c).
Proof.
  intros (chunks & base & Hd). pose proof (du_dirs _ _ _ _ _ _ Hd) as Hdirs. rewrite list.Forall_forall in Hdirs.
  apply Hdirs. unfold DATA_DIRECTORIES. set_solver.
Qed.
Lemma durable_working c n w e : durable c n w e → working w.
Proof. intros (chunks & base & Hd). eapply holds_working, durable_holds, Hd. Qed.
Lemma durable_layout c n w e : durable c n w e → e_layout e = layout_of c.
Proof. intros (chunks & base & Hd). apply Hd. Qed.

(** The engine of the same store. *)
Lemma durable_holding c n w w' e chunks base : durable_state c n w e chunks base →
  holds (root_dir (layout_of c)) (e_manifest e) chunks base w' → durable c n w' e.
Proof.
  intros Hds Hh. pose proof (holds_durable c c n w w' e chunks base Hds eq_refl Hh) as Hd'.
  eapply durable_with; [..|by exists chunks, base]; try done; [apply Hds| |apply Hds].
  unfold relocated. cbn [e_wal]. rewrite <-(du_wal_root _ _ _ _ _ _ Hds). by destruct (e_wal e).
Qed.
Lemma durable_aside c n w w' e : durable c n w e → aside (meta_dir c) w w' → durable c n w' e.
Proof.
  intros Hd Ha. pose proof (durable_meta_ready _ _ _ _ Hd) as Hr. destruct Hd as (chunks & base & Hds).
  eapply durable_holding; [exact Hds|]. eapply holds_aside; [by eapply durable_holds|exact Hr|exact Ha].
Qed.
End store.

(** ** The database *)

Section database.
Context `{WalCodecLaws, StorageCodecLaws, HnswLib, IndexCodec, DatabaseCodec} (c : AppConfig).

(** Only the metadata files are written, and the engine stays. *)
Definition calm {A} (m : db_m A) : Prop := ∀ w d h, e_layout (db_engine d) = layout_of c →
  let y := m (w, (d, h)) in aside (meta_dir c) w y.2.1 ∧ db_engine y.2.2.1 = db_engine d.

Lemma calm_ret {A} (a : A) : calm (mret a).
Proof. by intros w d h. Qed.
Lemma calm_bind {A B} (m : db_m A) (f : A → db_m B) : calm m → (∀ a, calm (f a)) → calm (m ≫= f).
Proof.
  intros Hm Hf w d h Hl. unfold mbind, sm_bind. destruct (Hm w d h Hl) as [Ha He].
  destruct (m (w, (d, h))) as [[a|e] [w1 [d1 h1]]]; [|done]. cbn [fst snd] in Ha, He.
  destruct (Hf a w1 d1 h1) as [Ha1 He1]; [congruence|]. split; [by etrans|congruence].
Qed.
Lemma calm_self : calm db_self.
Proof. by intros w d h. Qed.
Lemma calm_modify f : (∀ d, db_engine (f d) = db_engine d) → calm (db_modify f).
Proof. intros Hf w d h _. split; [done|apply Hf]. Qed.
Lemma calm_replication {A} (m : Replication.repl_op A) : calm (on_replication m).
Proof. intros w d h _. unfold on_replication. by destruct (m _). Qed.
Lemma calm_cluster {A} (m : Cluster.cluster_op A) : calm (on_cluster m).
Proof. intros w d h _. unfold on_cluster. by destruct (m _). Qed.
Lemma calm_gets {A} (f : Database → A) : calm (gets f).
Proof. by intros w d h. Qed.
Lemma writes_json name payload dir : writes_in dir (persist_json_file (name :: dir) payload).
Proof. unfold persist_json_file, write_with_parent. cbn [tail]. auto 10 with aside. Qed.
Lemma calm_json (f : Database → string) (payload : Database → Result string bytes) :
  calm (d ← db_self; on_disk (persist_json_file (metadata_path (db_engine d) (f d)) (payload d))).
Proof.
  intros w d h Hl. unfold mbind, sm_bind, db_self, on_disk, on_world.
  pose proof (writes_json (f d) (payload d) (meta_dir c) w) as Hw. unfold metadata_path. rewrite Hl. fold (meta_dir c).
  by destruct (persist_json_file _ _ w) as [r w'].
Qed.
Lemma calm_persist_replication : calm persist_replication_metadata.
Proof. apply (calm_json (λ _, REPLICATION_METADATA_FILE_NAME)). Qed.
Lemma calm_persist_cluster : calm persist_cluster_topology.
Proof. apply (calm_json (λ _, CLUSTER_METADATA_FILE_NAME)). Qed.
Lemma calm_both : calm persist_both.
Proof. apply calm_bind; [apply calm_persist_cluster|intros _; apply calm_persist_replication]. Qed.
Lemma calm_mutation mu : calm (apply_batch_mutation mu).
Proof.
  intros w d h _. unfold apply_batch_mutation, db_shared. destruct (indexes_with_mutation _ _) as [ix h1].
  by destruct (snapshot_with_mutation _ _) as [sn h2].
Qed.
End database.

Create HintDb calm.
#[export] Hint Resolve calm_ret calm_bind calm_self calm_replication calm_cluster calm_gets calm_persist_replication
  calm_persist_cluster calm_both calm_mutation : calm.
#[export] Hint Extern 1 (calm _ (db_modify _)) => (apply calm_modify; intros; repeat case_decide; reflexivity) : calm.

Section calls.
Context `{WalCodecLaws, StorageCodecLaws, HnswLib, IndexCodec, DatabaseCodec} (c : AppConfig).

(** The state of the replication can be encoded. *)
Definition metadata_total : Prop := ∀ m, is_ok (json_encode_replication m) = true.
Definition meta_free (w : World) : Prop := REPLICATION_METADATA_FILE_NAME :: meta_dir c ∉ dirs w.

Lemma calm_leader : calm c configure_as_leader.
Proof. unfold configure_as_leader. auto 10 with calm. Qed.
Lemma calm_follower id address : calm c (configure_as_follower id address).
Proof. unfold configure_as_follower. auto 10 with calm. Qed.
Lemma calm_register id address : calm c (register_replica id address).
Proof. unfold register_replica. auto 10 with calm. Qed.
Lemma calm_acknowledge id lsn : calm c (acknowledge_replica id lsn).
Proof. unfold acknowledge_replica. auto 10 with calm. Qed.
Lemma calm_health id healthy : calm c (mark_node_health id healthy).
Proof. unfold mark_node_health. auto 10 with calm. Qed.
Lemma calm_promote id : calm c (promote_node id).
Proof. unfold promote_node. auto 10 with calm. Qed.
Lemma calm_record lsn b : calm c (record_local_commit lsn b).
Proof.
  unfold record_local_commit. apply calm_bind; [auto with calm|intros []]. apply calm_bind; [auto with calm|intros d].
  apply calm_bind; [case_decide; auto with calm|auto with calm].
Qed.

Lemma aside_json name bs w : working w → dir_ready w (meta_dir c) → name :: meta_dir c ∉ dirs w →
  ∃ w', persist_json_file (name :: meta_dir c) (Ok bs) w = (Ok tt, w').
Proof.
  intros Hw Hr Hfree. unfold persist_json_file, write_with_parent. cbn [tail].
  rewrite (run_bind _ _ _ tt w) by (unfold io_err, io_try; by rewrite create_dir_all_again by (apply Hw || done)).
  unfold mbind, sm_bind, io_res, sm_lift, encode_err, io_err, io_try. cbn [map_err].
  unfold fs_write, mbind, sm_bind, sm_get, sm_modify. rewrite next_fault_ok by apply Hw.
  unfold is_dir. rewrite bool_decide_false by (by intros [|]). cbn [tail].
  rewrite bool_decide_true; [by eexists|]. right. unfold dir_ready in Hr. rewrite list.Forall_forall in Hr.
  apply Hr. unfold meta_dir, subdirectory. by left.
Qed.

(** The commit is recorded whenever the disk works. *)
Lemma record_ok lsn b w d h : metadata_total → working w → dir_ready w (meta_dir c) → meta_free w →
  e_layout (db_engine d) = layout_of c → is_ok (record_local_commit lsn b (w, (d, h))).1 = true.
Proof.
  intros Htot Hw Hr Hfree Hl. unfold record_local_commit.
  assert (Hpersist : ∀ d1, db_engine d1 = db_engine d → is_ok (persist_replication_metadata (w, (d1, h))).1 = true).
  { intros d1 He. unfold persist_replication_metadata, mbind, sm_bind, db_self, on_disk, on_world, replication_metadata_path, metadata_path.
    rewrite He, Hl. fold (meta_dir c). specialize (Htot (db_replication d1)).
    destruct (json_encode_replication (db_replication d1)) as [bs|err]; [|done].
    by destruct (aside_json REPLICATION_METADATA_FILE_NAME bs w Hw Hr Hfree) as (w' & ->). }
  unfold mbind, sm_bind, db_modify, db_self. case_decide as Hmode; [|by apply Hpersist].
  unfold on_replication, Replication.record_leader_commit, Replication.ensure_leader, mbind, sm_bind, sm_get, sm_lift, sm_modify.
  rewrite Hmode. by apply Hpersist.
Qed.
End calls.

Section progress.
Context `{WalCodecLaws, StorageCodecLaws, HnswLib, IndexCodec, DatabaseCodec} (c : AppConfig).
Abbreviation state := (World * (Database * list Runtime))%type.

(** The files hold what the engine holds, with room for [n] more bytes of log. *)
Definition safe (n : N) (w : World) (d : Database) : Prop := durable c n w (db_engine d) ∧ meta_free c w.
(** The store stays safe, and a failure leaves the graph as it was. *)
Definition progress {A} (n : N) (d : Database) (x : Result Failure A * state) : Prop :=
  safe n x.2.1 x.2.2.1 ∧ (is_ok x.1 = false → e_maps (db_engine x.2.2.1) = e_maps (db_engine d)).

Lemma safe_weaken n n' w d : (n' ≤ n)%N → safe n w d → safe n' w d.
Proof. intros Hn [Hd Hf]. split; [by eapply durable_weaken|done]. Qed.
Lemma safe_calm {A} (m : db_m A) n w d h : calm c m → safe n w d →
  let y := m (w, (d, h)) in safe n y.2.1 y.2.2.1 ∧ db_engine y.2.2.1 = db_engine d.
Proof.
  intros Hm [Hd Hfree]. destruct (Hm w d h (durable_layout _ _ _ _ Hd)) as [Ha He].
  destruct (Ha (durable_working _ _ _ _ Hd) (durable_meta_ready _ _ _ _ Hd)) as (_ & Hdirs & _).
  split; [split|done]; [rewrite He; by eapply durable_aside|]. unfold meta_free. by rewrite Hdirs.
Qed.
Lemma progress_calm {A} (m : db_m A) n w d h : calm c m → safe n w d → progress n d (m (w, (d, h))).
Proof. intros Hm Hs. destruct (safe_calm m n w d h Hm Hs) as [Hs' He]. split; [done|]. by rewrite He. Qed.
Lemma progress_ret {A B} n d (m : db_m A) (x : B) s : progress n d (m s) → progress n d ((m ;; mret x) s).
Proof. unfold progress, mbind, sm_bind. by destruct (m s) as [[a|f] y]. Qed.
Lemma progress_ensure {A} n (m : db_m A) w d h : safe n w d → progress n d (m (w, (d, h))) →
  progress n d ((ensure_client_write_allowed ;; m) (w, (d, h))).
Proof. intros Hs Hm. unfold mbind, sm_bind. rewrite ensure_cases. by case_decide. Qed.

(** What a step of the engine may do: only the log is written. *)
Definition engine_step {A} (n : N) (m : engine_m A) (w : World) (e : StorageEngine) : Prop :=
  let y := m (w, e) in durable c n y.2.1 y.2.2 ∧ same_elsewhere (subdirectory (layout_of c) "wal") w y.2.1 ∧
    (is_ok y.1 = false → e_maps y.2.2 = e_maps e).

Lemma step_engine {A} n (m : engine_m A) w d h : meta_free c w → engine_step n m w (db_engine d) →
  progress n d (on_engine m (w, (d, h))).
Proof.
  unfold engine_step, on_engine, progress, safe, meta_free. destruct (m _) as [r [w' e']]. cbn [fst snd set_engine db_engine].
  by intros Hfree (Hd & (-> & _) & Hm).
Qed.
Lemma step_here {A} n (m : engine_m A) w e : (m (w, e)).2.1 = w → durable c n w (m (w, e)).2.2 →
  e_maps (m (w, e)).2.2 = e_maps e → engine_step n m w e.
Proof. unfold engine_step. by intros -> Hd Hm. Qed.

Lemma step_write n b w e : durable c (write_cost b + n) w e → storable b → engine_step n (apply_write_batch b) w e.
Proof.
  intros Hd Hsto. unfold engine_step.
  change (apply_write_batch b (w, e)) with (apply_write_batch_with_snapshot_readers b (size (e_transactions e)) (w, e)).
  destruct (write_keeps_durable c n b (size (e_transactions e)) w e Hd Hsto) as [Hd' Hels].
  pose proof (write_maps b (size (e_transactions e)) (w, e)) as Hm.
  destruct (apply_write_batch_with_snapshot_readers _ _ _) as [r [w' e']]. split; [done|]. split; [done|].
  cbn [fst snd] in *. by intros Hno; rewrite Hno in Hm.
Qed.
Lemma step_commit n tx b w e : transaction_staged_batch e tx = Ok b → durable c (write_cost b + n) w e → storable b →
  engine_step n (Engine.commit_transaction tx) w e.
Proof.
  intros Hb Hd Hsto. assert (Hd0 : durable c n w e) by (eapply durable_weaken; [|exact Hd]; lia).
  unfold engine_step. cbn zeta. rewrite commit_run. unfold transaction_staged_batch in Hb.
  destruct (active_session e tx) as [s|err]; [|done]. injection Hb as <-.
  destruct (_ ;; _) as [[]|err]; [|done]. destruct (batch_is_empty _); [done|].
  destruct (write_keeps_durable c n _ (size (e_transactions e) - 1) w e Hd Hsto) as [Hd' Hels].
  pose proof (write_maps (ses_staged_batch s) (size (e_transactions e) - 1) (w, e)) as Hm.
  destruct (apply_write_batch_with_snapshot_readers _ _ _) as [[lsn|f] [w' e']]; [|done]. cbn [fst snd] in *.
  split; [by apply durable_clear, durable_transactions|done].
Qed.
Lemma step_stage n tx op w e : durable c n w e → engine_step n (Engine.stage_transaction_operation tx op) w e.
Proof.
  intros Hd. destruct (stage_state tx op w e) as [Hw [t He]]. apply step_here; rewrite ?He; [done| |done].
  by apply durable_transactions.
Qed.
Lemma step_rollback n tx w e : durable c n w e → engine_step n (Engine.rollback_transaction tx) w e.
Proof.
  intros Hd. unfold engine_step, Engine.rollback_transaction, mbind, sm_bind, self, io_res, sm_lift, ok_or.
  destruct (e_transactions e !! tx) as [s|]; [|done]. split; [by apply durable_clear, durable_transactions|done].
Qed.
End progress.

Section database_calls.
Context `{WalCodecLaws, StorageCodecLaws, HnswLib, IndexCodec, DatabaseCodec} (c : AppConfig).
Hypothesis total : metadata_total.

Lemma planned_progress {A} n (commit : engine_m A) lsn_of b mu w d h : meta_free c w → engine_step c n commit w (db_engine d) →
  progress c n d (commit_planned commit lsn_of b mu (w, (d, h))).
Proof.
  intros Hfree Hstep. pose proof (step_engine c n commit w d h Hfree Hstep) as Hp. unfold commit_planned, mbind at 1, sm_bind at 1.
  destruct (on_engine commit (w, (d, h))) as [[a|f] [w1 [d1 h1]]]; [|done]. destruct Hp as [Hs1 _]. cbn [fst snd] in Hs1.
  pose proof (safe_calm c (record_local_commit (lsn_of a) b) n w1 d1 h1 (calm_record c _ _) Hs1) as [Hs2 _].
  pose proof Hs1 as [Hd1 Hfree1].
  pose proof (record_ok c (lsn_of a) b w1 d1 h1 total (durable_working _ _ _ _ Hd1) (durable_meta_ready _ _ _ _ Hd1) Hfree1
    (durable_layout _ _ _ _ Hd1)) as Hok.
  unfold mbind at 1, sm_bind at 1. destruct (record_local_commit (lsn_of a) b (w1, (d1, h1))) as [[[]|f] [w2 [d2 h2]]]; [|done].
  pose proof (safe_calm c (apply_batch_mutation mu) n w2 d2 h2 (calm_mutation c _) Hs2) as [Hs3 _].
  revert Hs3. unfold mbind, sm_bind, apply_batch_mutation, db_shared. destruct (indexes_with_mutation _ _) as [ix h3].
  by destruct (snapshot_with_mutation _ _) as [sn h4].
Qed.

Lemma write_progress n b w d h : safe c (write_cost b + n) w d → storable b → progress c n d (write_batch b (w, (d, h))).
Proof.
  intros Hs Hsto. assert (Hs0 : safe c n w d) by (eapply safe_weaken; [|exact Hs]; lia).
  rewrite write_planned. destruct (plan_batch_mutation (db_engine d) b) as [mu|err]; [|done].
  apply progress_ret, planned_progress; [apply Hs|]. by apply step_write; [apply Hs|].
Qed.
Lemma commit_progress n tx b w d h : transaction_staged_batch (db_engine d) tx = Ok b → safe c (write_cost b + n) w d → storable b →
  progress c n d (commit_transaction tx (w, (d, h))).
Proof.
  intros Hb Hs Hsto. assert (Hs0 : safe c n w d) by (eapply safe_weaken; [|exact Hs]; lia).
  unfold commit_transaction. apply progress_ensure; [done|].
  unfold mbind at 1, sm_bind at 1, db_self, io_res at 1, sm_lift at 1. cbn [fst snd].
  unfold mbind at 1, sm_bind at 1. rewrite Hb. cbn [map_err]. unfold mbind at 1, sm_bind at 1, io_res, sm_lift.
  cbn [map_err]. destruct (plan_batch_mutation (db_engine d) b) as [mu|err]; [|done].
  apply (planned_progress n (Engine.commit_transaction tx) cr_committed_lsn b mu); [apply Hs|]. by eapply step_commit; [|apply Hs|].
Qed.

(** The calls other than those that rewrite the files of the store, or apply the batches of
    another node. *)
Definition routine_call (call : db_call) : bool :=
  match call with CallRebuildIndexes | CallCompact | CallShutdown | CallReplicate _ => false | _ => true end.

Lemma call_progress n call w d h : routine_call call = true → safe c (write_cost (call_batch call d) + n) w d →
  storable (call_batch call d) → progress c n d (run_call call (w, (d, h))).
Proof.
  intros Hr Hs Hsto. assert (Hs0 : safe c n w d) by (eapply safe_weaken; [|exact Hs]; lia). pose proof Hs0 as [Hd Hfree].
  destruct call; try done; cbn [run_call call_batch] in *; apply progress_ret.
  - apply progress_ensure; [done|]. by apply progress_ret, write_progress.
  - apply progress_ensure; [done|]. unfold mbind at 1, sm_bind at 1, db_self. destruct (get_node d id); [|done].
    by apply progress_ret, write_progress.
  - apply progress_ensure; [done|]. by apply progress_ret, write_progress.
  - apply progress_ensure; [done|]. unfold mbind at 1, sm_bind at 1, db_self. destruct (get_edge d id); [|done].
    by apply progress_ret, write_progress.
  - apply progress_ensure; [done|]. apply step_engine; [done|]. apply step_here; [done| |done].
    by eapply durable_same; [..|exact Hd].
  - apply progress_ensure; [done|]. by apply step_engine, step_stage.
  - destruct (transaction_staged_batch (db_engine d) tx) as [b|err] eqn:Hb; [by eapply commit_progress|].
    destruct (commit_unstaged tx err w d h Hb) as [Hno Hsame]. unfold progress. by rewrite Hsame.
  - apply progress_ensure; [done|]. by apply step_engine, step_rollback.
  - apply progress_calm; [apply calm_leader|done].
  - apply progress_calm; [apply calm_follower|done].
  - apply progress_calm; [apply calm_register|done].
  - apply progress_calm; [apply calm_acknowledge|done].
  - apply progress_calm; [apply calm_health|done].
  - apply progress_calm; [apply calm_promote|done].
Qed.

(** So the snapshot never lags, and a call that succeeds has written its batch durably. *)
Lemma call_safe n call w d h : routine_call call = true → safe c (write_cost (call_batch call d) + n) w d →
  storable (call_batch call d) → published d → call_settled call d →
  let y := run_call call (w, (d, h)) in
  safe c n y.2.1 y.2.2.1 ∧ published y.2.2.1 ∧ advanced (call_batch call d) y.1 d y.2.2.1.
Proof.
  intros Hr Hs Hsto Hp Hset. destruct (call_progress n call w d h Hr Hs Hsto) as [Hs' Hm]. split; [done|].
  pose proof (published_step call w d h Hp Hset) as Hx. assert (Hrep : replicates call = false) by (by destruct call). rewrite Hrep in Hx.
  destruct Hx as [Hx|(Hno & _ & _ & Htr)]; [done|]. specialize (Hm Hno). unfold published, advanced.
  rewrite Hno, Hm. split; [split; [apply Hp|exact Htr]|done].
Qed.
End database_calls.

(** ** The service *)

Section service.
Context `{WalCodecLaws, StorageCodecLaws, HnswLib, IndexCodec, DatabaseCodec, AuditCodec, FrameCodec} (c : AppConfig).
Abbreviation state := (World * (ApiState * list Runtime))%type.

(** Beside the call of the database, a request writes in the directory of the audit log only. *)
Definition logged (x y : state) : Prop :=
  api_database y.2.1 = api_database x.2.1 ∧ api_audit_log_path y.2.1 = api_audit_log_path x.2.1 ∧
  ∀ name dir, api_audit_log_path x.2.1 = name :: dir → aside dir x.1 y.1.

#[local] Instance logged_frame : Frame logged.
Proof.
  split; [split| | |].
  - by intros [w [s h]].
  - intros x y z (Hd & Hp & Ha) (Hd' & Hp' & Ha'). split; [congruence|]. split; [congruence|]. intros name dir Hx.
    etrans; [by eapply Ha|]. apply (Ha' name). by rewrite Hp.
  - intros x y (Hw & _ & Hd & _ & _ & _ & Hp). split; [done|]. split; [done|]. intros name dir _. by rewrite Hw.
  - by intros w s h m.
  - intros event [w [s h]]. unfold logged, record_audit, mbind, sm_bind, api_self, on_api_disk.
    assert (Happ : ∀ name dir, api_audit_log_path s = name :: dir → aside dir w (append_audit_event (api_audit_log_path s) event w).2).
    { intros name dir Hx. rewrite Hx. apply writes_append. }
    destruct (append_audit_event (api_audit_log_path s) event w) as [[[]|f] w1]; cbn [map_err fst snd] in *; [|split; [done|]; split; [done|]; exact Happ].
    set (k := audit_log_retention_entries _).
    assert (Hpr : ∀ name dir, api_audit_log_path s = name :: dir → aside dir w1 (prune_audit_log (api_audit_log_path s) k w1).2).
    { intros name dir Hx. rewrite Hx. apply writes_prune. }
    destruct (prune_audit_log (api_audit_log_path s) k w1) as [[m|f] w2]; cbn [fst snd] in *;
      (split; [done|]; split; [done|]; intros name dir Hx; etrans; [by eapply Happ|by eapply Hpr]).
Qed.

(** The service over a store that is safe on disk, and whose queries read its graph. *)
Record healthy (n : N) (x : state) : Prop := {
  he_safe : safe c n x.1 (api_database x.2.1);
  he_published : published (api_database x.2.1);
  he_audit : tail (api_audit_log_path x.2.1) = meta_dir c;
}.

Lemma healthy_logged n x y : healthy n x → logged x y → healthy n y.
Proof.
  intros [[Hd Hfree] Hp Ha] (Hdb & Hpath & Hdisk). unfold meta_dir, subdirectory in Ha.
  destruct (api_audit_log_path x.2.1) as [|name dir] eqn:Hx; [done|]. simpl in Ha. subst dir. specialize (Hdisk _ _ eq_refl).
  fold (meta_dir c) in Hdisk.
  destruct (Hdisk (durable_working _ _ _ _ Hd) (durable_meta_ready _ _ _ _ Hd)) as (_ & Hdirs & _).
  split; rewrite ?Hdb, ?Hpath; [split|done..]; [by eapply durable_aside|]. unfold meta_free. by rewrite Hdirs.
Qed.

(** The requests whose call of the database is a routine one, and that use the disk in no other
    way: not the maintenance ones, and not the replication stream. *)
Definition routine (r : ApiRequest) : bool :=
  negb (uses_disk r) && negb (replaces_engine r) &&
  match request_call r with Some call => routine_call call | None => true end.
(** The batch a request is to commit. *)
Definition request_batch (r : ApiRequest) (d : Database) : WriteBatch :=
  match request_call r with Some call => call_batch call d | None => batch_default end.
Definition request_settled (r : ApiRequest) (d : Database) : Prop :=
  ∀ call, request_call r = Some call → call_settled call d.

Lemma serve_logged clock key r x : logged (handle clock key r x).2 (serve clock key r x).2.
Proof. unfold serve. by destruct (handle clock key r x) as [[p|[e|msg|]] [w [s h]]]. Qed.

Lemma request_safe n clock key r x : metadata_total → routine r = true →
  let d := api_database x.2.1 in
  let b := request_batch r d in
  healthy (write_cost b + n) x → storable b → request_settled r d →
  let y := serve clock key r x in
  healthy n y.2 ∧ ∃ kept : bool, (is_ok y.1 = true → kept = true) ∧
    e_maps (db_engine (api_database y.2.2.1)) = if kept then apply_batch_to_maps_unchecked b (e_maps (db_engine d)) else e_maps (db_engine d).
Proof.
  intros total Hr d b Hh Hsto Hset. unfold routine in Hr. apply andb_true_iff in Hr as [[Hu Hrep]%andb_true_iff Hcall].
  apply negb_true_iff in Hu, Hrep. destruct x as [w [s h]].
  assert (Hh0 : healthy n (w, (s, h))) by (destruct Hh as [Hs ? ?]; split; [eapply safe_weaken; [|exact Hs]; lia|done..]).
  cbn zeta. rewrite serve_result, serve_database.
  assert (Hquiet : logged (handle clock key r (w, (s, h))).2 (serve clock key r (w, (s, h))).2) by apply serve_logged.
  pose proof (handle_effect logged clock key r Hrep) as Heff. rewrite Hu in Heff. specialize (Heff (λ H, match diff_false_true H with end) w s h).
  cbn zeta in Heff. destruct Heff as [[Hl Hok]|(call & s1 & Hreq & Hs1 & Hl & Hok)].
  - split; [by eapply healthy_logged; [by eapply healthy_logged|]|].
    destruct Hl as (-> & _). exists (is_ok (handle clock key r (w, (s, h))).1). split; [done|].
    destruct (is_ok _) eqn:Hd; [|done]. subst b. unfold request_batch. rewrite Hok by done. symmetry. by apply apply_default, Hh.
  - rewrite Hreq in Hcall. subst b d. unfold request_batch in *. rewrite Hreq in *. cbn [fst snd] in *.
    destruct (call_safe c total n call w (api_database s) h Hcall (he_safe _ _ Hh) Hsto (he_published _ _ Hh) (Hset call Hreq))
      as (Hsafe & Hpub & Hadv).
    assert (Hcalled : healthy n (called call w s s1 h)).
    { split; [exact Hsafe|exact Hpub|]. destruct Hs1 as (_ & Hpath & _). cbn. cbn [fst snd] in Hpath. rewrite Hpath. apply Hh. }
    split; [by eapply healthy_logged; [by eapply healthy_logged|]|]. destruct Hl as (-> & _).
    exists (is_ok (run_call call (w, (api_database s, h))).1). split; [done|]. exact Hadv.
Qed.

(** A run of the service: for each request, was it acknowledged, and the batch it was to commit;
    and the log they take, at most. *)
Inductive history : list (bool * WriteBatch) → N → state → state → Prop :=
| history_none x : history [] 0 x x
| history_request clock key r x trace cost y : routine r = true → request_settled r (api_database x.2.1) →
    let z := serve clock key r x in
    let b := request_batch r (api_database x.2.1) in
    history trace cost z.2 y →
    history ((is_ok z.1, b) :: trace) (write_cost b + cost) x y.

(** The batches that were applied: all that were acknowledged, in order, and of the others some. *)
Inductive kept : list (bool * WriteBatch) → list WriteBatch → Prop :=
| kept_none : kept [] []
| kept_applied ack b trace l : kept trace l → kept ((ack, b) :: trace) (b :: l)
| kept_refused b trace l : kept trace l → kept ((false, b) :: trace) l.

Lemma history_safe n trace cost x y : metadata_total → history trace cost x y → healthy (cost + n) x →
  Forall (λ p, storable p.2) trace →
  healthy n y ∧ ∃ l, kept trace l ∧ e_maps (db_engine (api_database y.2.1)) = apply_all l (e_maps (db_engine (api_database x.2.1))).
Proof.
  intros total. induction 1 as [x|clock key r x trace cost y Hr Hset z b Hrun IH]; intros Hh Hsto.
  { split; [done|]. exists []. split; [constructor|done]. }
  apply list.Forall_cons in Hsto as [Hb Hsto]. rewrite <-N.add_assoc in Hh.
  destruct (request_safe (cost + n) clock key r x total Hr Hh Hb Hset) as (Hz & applied & Hack & Hm).
  destruct (IH Hz Hsto) as (Hy & l & Hl & Hmaps). split; [done|]. fold z b in Hack, Hm. rewrite Hm in Hmaps.
  destruct applied.
  - exists (b :: l). by split; [constructor|].
  - exists l. split; [|done]. destruct (is_ok z.1); [by specialize (Hack eq_refl)|by constructor].
Qed.

End service.

(** ** A concrete run *)

(** A node is posted and an edge to a missing node refused; the store then opens with the node. *)
Module Demo.
Import Wal.Demo Batch.Demo Store.Demo Durability.Demo Index.Demo Tracking.Demo Admission.Demo.

Definition config : AppConfig := Durability.Demo.config.
Definition database : Database :=
  (refresh_indexes false (fresh, (mkDatabase engine index VectorIndexConfig_default Query.Demo.snapshot
    (Replication.manager_single_node "node-a") (Cluster.single_node "127.0.0.1:1") 0, []))).2.2.1.
Definition service : ApiState :=
  mkApi "undr9" config true database AtomicServiceCounters_default ("audit.log" :: meta_dir config)
    (maintenance_status_default config) ∅ ∅.
Definition start : World * (ApiState * list Runtime) := (fresh, (service, [])).
Definition post : ApiRequest := PostNode (Batch.Demo.node "a" "person").
Definition dangling : ApiRequest := PostEdge (Batch.Demo.edge "ab" "a" "b").
Definition writer : option string := Some (writer_api_key (auth config)).
Definition first : Result ApiFailure Payload * (World * (ApiState * list Runtime)) := serve clock writer post start.
Definition second : Result ApiFailure Payload * (World * (ApiState * list Runtime)) := serve clock writer dangling first.2.
Definition posted : WriteBatch := request_batch post (api_database start.2.1).
Definition refused : WriteBatch := request_batch dangling (api_database first.2.2.1).

Lemma both_served : history [(is_ok first.1, posted); (is_ok second.1, refused)]
  (write_cost posted + (write_cost refused + 0)) start second.2.
Proof.
  unfold second, refused, posted. refine (history_request clock writer post start _ _ _ _ _ _); [reflexivity| |].
  { intros call Hcall. injection Hcall as <-. exact I. }
  fold first. refine (history_request clock writer dangling first.2 _ _ _ _ _ _); [reflexivity| |].
  { intros call Hcall. injection Hcall as <-. exact I. }
  apply history_none.
Qed.
Lemma start_healthy n : (n < 2 ^ 20)%N → healthy config n start.
Proof.
  intros Hn. split.
  - split; [|apply not_child; vm_compute; reflexivity].
    assert (Hengine : db_engine (api_database start.2.1) = engine) by (vm_compute; reflexivity).
    rewrite Hengine. exact (fresh_durable n Hn).
  - apply refresh_published. apply maps_wf_empty.
  - reflexivity.
Qed.
End Demo.

