(* ===== verification/UnitTests.v ===== *)
(** * The unit tests of the small crates

    The tests of crates/common, core, auth, config, cluster, replication and memory, run on the
    model.  A test is a computation that may panic: [None] is a failed assertion or [expect].
    This file has that monad, which the tests of the other crates use too. *)
From S2P Require Import Prelude RustStd RustFloat Common Core Config Auth Cluster Replication Memory.

#[local] Open Scope string_scope.
#[local] Open Scope list_scope.

#[global] Instance VectorIndexBackendConfig_eq_dec : EqDecision VectorIndexBackendConfig.
Proof. solve_decision. Defined.

(** ** Tests *)

Abbreviation test := (option unit).
Definition passes (t : test) : Prop := t = Some tt.

Definition assert (b : bool) : test := if b then Some tt else None.
Definition assert_eq `{EqDecision A} (x y : A) : test := assert (bool_decide (x = y)).
Definition expect {E A} (r : Result E A) : option A := match r with Ok a => Some a | Err _ => None end.
Definition expect_err {E A} (r : Result E A) : option E := match r with Ok _ => None | Err e => Some e end.
(** A call of a method with [&mut self]. *)
Definition call {S E A} (m : sm S E A) (s : S) : option (A * S) :=
  match m s with (Ok a, s') => Some (a, s') | (Err _, _) => None end.
(** [error.to_string().contains(text)]. *)
Definition says (e : Undr9Error) (text : string) : bool := str_contains (error_to_string e) text.

Definition node_of (id ty : string) : option NodeRecord := id ← expect (NodeId_new id); expect (NodeRecord_new id ty).
Definition insert_property (key : string) (v : PropertyValue) (n : NodeRecord) : NodeRecord :=
  mkNode (node_id n) (node_type n) (<[key := v]> (node_properties n)) (node_vectors n).
Definition insert_vector (name : string) (v : list f32) (n : NodeRecord) : NodeRecord :=
  mkNode (node_id n) (node_type n) (node_properties n) (<[name := v]> (node_vectors n)).
Definition edge_of (id : string) (source target : NodeRecord) (ty : string) : option EdgeRecord :=
  id ← expect (EdgeId_new id); Some (mkEdge id (node_id source) (node_id target) ty ∅).

(** ** [crates/common] *)

Definition rejects_invalid_identifier_characters : test :=
  error ← expect_err (NodeId_new "bad id");
  assert (says error "may only contain").

Definition creates_strongly_typed_ids : test :=
  node_id ← expect (NodeId_new "node_1");
  edge_id ← expect (EdgeId_new "edge:1");
  transaction_id ← expect (TransactionId_new "tx_1");
  assert_eq (node_id_str node_id) "node_1" ;;
  assert_eq (edge_id_str edge_id) "edge:1" ;;
  assert_eq (transaction_id_str transaction_id) "tx_1".

(** ** [crates/core] *)

Definition builds_node_records_with_properties : test :=
  id ← expect (NodeId_new "node_1");
  node ← expect (NodeRecord_new id "memory");
  node ← expect (with_property node "title" (PString "UNDR9"));
  assert_eq (node_type node) "memory" ;;
  assert (bool_decide (is_Some (node_properties node !! "title"))).

Definition write_batch_reports_when_empty : test := assert (batch_is_empty batch_default).

Definition builds_edge_records : test :=
  id ← expect (EdgeId_new "edge_1");
  source ← expect (NodeId_new "source_1");
  target ← expect (NodeId_new "target_1");
  edge ← expect (EdgeRecord_new id source target "related_to");
  assert_eq (edge_type edge) "related_to".

Definition exposes_retrieval_properties_through_helpers : test :=
  id ← expect (NodeId_new "node_1");
  node ← expect (NodeRecord_new id "memory");
  node ← expect (with_vector node "default" [F32.lit 1 10; F32.lit 2 10]);
  node ← expect (with_property node "timestamp" (PInteger 123));
  node ← expect (with_property node "importance" (PFloat (F64.div (F64.of_Z 8) (F64.of_Z 10))));
  node ← expect (with_property node "confidence" (PInteger 1));
  assert_eq (embedding node) (Some [F32.lit 1 10; F32.lit 2 10]) ;;
  assert_eq (timestamp_ms node) (Some 123%Z) ;;
  assert_eq (importance node) (Some (F32.lit 8 10)) ;;
  assert_eq (confidence node) (Some (F32.of_Z 1)).

Definition rejects_legacy_embedding_property : test :=
  id ← expect (NodeId_new "tenant_a:node_1");
  node ← expect (NodeRecord_new id "memory");
  node ← expect (with_property node "embedding" (PFloatList [F32.lit 4 10; F32.lit 6 10]));
  error ← expect_err (normalize_memory_metadata node);
  assert (says error "no longer supported").

Definition supports_multiple_named_vectors : test :=
  id ← expect (NodeId_new "tenant_a:node_1");
  node ← expect (NodeRecord_new id "memory");
  node ← expect (with_vector node "default" [F32.lit 4 10; F32.lit 6 10]);
  node ← expect (with_vector node "unique_key" [F32.lit 9 10; F32.lit 1 10]);
  assert_eq (namespace node) (Some "tenant_a") ;;
  assert_eq (embedding node) (Some [F32.lit 4 10; F32.lit 6 10]) ;;
  assert_eq (vector node "unique_key") (Some [F32.lit 9 10; F32.lit 1 10]).

(** ** [crates/auth] *)

(** [AppConfig::default()], under a process id and three readings of the clock. *)
Definition default_config : AppConfig := AppConfig_default 7 1 2 3.

Definition admin_can_perform_maintenance : test := assert (is_allowed (mkPrincipal "admin" Admin) Maintain).
Definition readers_cannot_write : test := assert (negb (is_allowed (mkPrincipal "reader" Reader) Write)).

Definition authenticates_admin_api_key : test :=
  principal ← expect (authenticate (auth default_config) (admin_api_key (auth default_config)));
  assert_eq (principal_role principal) Admin ;;
  assert_eq (principal_name principal) "admin".

Definition rejects_similar_but_invalid_api_key : test :=
  let invalid := admin_api_key (auth default_config) +:+ "x" in
  error ← expect_err (authenticate (auth default_config) invalid);
  assert (says error "invalid API key").

(** ** [crates/config] *)

Definition with_wal (l : WalConfig) (c : AppConfig) : AppConfig :=
  mkAppConfig (server c) (storage c) l (auth c) (maintenance c) (vector_index c) (observability c).
Definition with_auth (a : AuthConfig) (c : AppConfig) : AppConfig :=
  mkAppConfig (server c) (storage c) (wal c) a (maintenance c) (vector_index c) (observability c).
Definition with_vector_index (v : VectorIndexConfig) (c : AppConfig) : AppConfig :=
  mkAppConfig (server c) (storage c) (wal c) (auth c) (maintenance c) v (observability c).
Definition with_keys (admin writer reader : string) (c : AppConfig) : AppConfig :=
  with_auth (mkAuthConfig (auth_enabled (auth c)) (bootstrap_admin_username (auth c)) admin writer reader) c.

Definition default_configuration_is_valid : test := assert (is_ok (validate default_config)).
Definition defaults_to_hnsw_vector_backend : test := assert_eq (backend (vector_index default_config)) BackendHnsw.

Definition rejects_invalid_wal_settings : test :=
  let l := wal default_config in
  error ← expect_err (validate (with_wal (mkWalConfig 1024 (fsync_on_write l) (max_replay_bytes l)) default_config));
  assert (says error "segment_size_bytes").

Definition rejects_legacy_development_keys : test :=
  let a := auth default_config in
  error ← expect_err (validate (with_keys "undr9-dev-admin-key" (writer_api_key a) (reader_api_key a) default_config));
  assert (says error "legacy development API keys").

Definition env_of (vars : list (string * string)) (name : string) : option string :=
  (list_to_map vars : gmap string string) !! name.

Definition applies_observability_env_overrides : test :=
  let config := apply_env_overrides (env_of [
    ("UNDR9_LOG_LEVEL", "debug"); ("UNDR9_TRACING_ENABLED", "false"); ("UNDR9_TRACING_JSON", "false");
    ("UNDR9_OTLP_ENABLED", "true"); ("UNDR9_OTLP_PROTOCOL", "http/protobuf");
    ("UNDR9_OTLP_ENDPOINT", "http://127.0.0.1:4318/v1/traces");
    ("UNDR9_OTLP_HEADERS", "authorization=Bearer token,x-scope-orgid=tenant");
    ("UNDR9_OTLP_TIMEOUT_MS", "2500")]) default_config in
  let o := observability config in
  assert_eq (log_level o) "debug" ;;
  assert (negb (tracing_enabled o)) ;;
  assert (negb (tracing_json o)) ;;
  assert (otlp_enabled o) ;;
  assert_eq (otlp_protocol o) "http/protobuf" ;;
  assert_eq (otlp_endpoint o) "http://127.0.0.1:4318/v1/traces" ;;
  assert_eq (otlp_headers o) "authorization=Bearer token,x-scope-orgid=tenant" ;;
  assert_eq (otlp_timeout_ms o) 2500%N.

Definition rejects_duplicate_or_short_api_keys : test :=
  let config := with_keys "short" "short" "distinct-reader-key" default_config in
  error ← expect_err (validate config);
  assert (says error "at least") ;;
  let config := with_keys "distinct-admin-key" "distinct-admin-key" "distinct-reader-key" config in
  error ← expect_err (validate config);
  assert (says error "must be distinct").

Definition applies_runtime_env_overrides : test :=
  let config := apply_env_overrides (env_of [
    ("UNDR9_BIND_ADDRESS", "0.0.0.0:9090"); ("UNDR9_REQUEST_TIMEOUT_MS", "9000");
    ("UNDR9_MAX_REQUEST_BODY_BYTES", "2048"); ("UNDR9_STORAGE_ROOT", "/tmp/undr9-data");
    ("UNDR9_STORAGE_CREATE_IF_MISSING", "false"); ("UNDR9_WAL_SEGMENT_SIZE_BYTES", "8192");
    ("UNDR9_WAL_MAX_REPLAY_BYTES", "16384"); ("UNDR9_WAL_FSYNC_ON_WRITE", "false");
    ("UNDR9_MAINTENANCE_MAX_NODES", "123"); ("UNDR9_MAINTENANCE_MAX_EDGES", "456");
    ("UNDR9_VECTOR_INDEX_BACKEND", "exact"); ("UNDR9_VECTOR_INDEX_EXACT_FALLBACK_THRESHOLD", "2048");
    ("UNDR9_VECTOR_INDEX_SEMANTIC_TOP_K", "77"); ("UNDR9_HNSW_M", "24");
    ("UNDR9_HNSW_EF_CONSTRUCTION", "300"); ("UNDR9_HNSW_EF_SEARCH", "90")]) default_config in
  assert_eq (bind_address (server config)) "0.0.0.0:9090" ;;
  assert_eq (request_timeout_ms (server config)) 9000%N ;;
  assert_eq (max_request_body_bytes (server config)) 2048%N ;;
  assert_eq (root_dir (storage config)) "/tmp/undr9-data" ;;
  assert (negb (create_if_missing (storage config))) ;;
  assert_eq (segment_size_bytes (wal config)) 8192%N ;;
  assert_eq (max_replay_bytes (wal config)) 16384%N ;;
  assert (negb (fsync_on_write (wal config))) ;;
  assert_eq (max_node_count (maintenance config)) 123%N ;;
  assert_eq (max_edge_count (maintenance config)) 456%N ;;
  assert_eq (backend (vector_index config)) BackendExact ;;
  assert_eq (exact_fallback_threshold (vector_index config)) 2048%N ;;
  assert_eq (semantic_top_k (vector_index config)) 77%N ;;
  assert_eq (hnsw_m (vector_index config)) 24%N ;;
  assert_eq (hnsw_ef_construction (vector_index config)) 300%N ;;
  assert_eq (hnsw_ef_search (vector_index config)) 90%N.

(** The fields that are changed one after the other: the threshold, the candidates, and the
    three parameters of HNSW. *)
Definition rejects_invalid_vector_index_settings : test :=
  let v := vector_index default_config in
  let config threshold top_k m construction search :=
    with_vector_index (mkVectorIndex (backend v) threshold top_k m construction search) default_config in
  error ← expect_err (validate (config 0%N (semantic_top_k v) (hnsw_m v) (hnsw_ef_construction v) (hnsw_ef_search v)));
  assert (says error "exact_fallback_threshold") ;;
  error ← expect_err (validate (config 1%N 0%N (hnsw_m v) (hnsw_ef_construction v) (hnsw_ef_search v)));
  assert (says error "semantic_top_k") ;;
  error ← expect_err (validate (config 1%N 1%N 1%N (hnsw_ef_construction v) (hnsw_ef_search v)));
  assert (says error "hnsw_m") ;;
  error ← expect_err (validate (config 1%N 1%N 16%N 0%N (hnsw_ef_search v)));
  assert (says error "hnsw_ef_construction") ;;
  error ← expect_err (validate (config 1%N 1%N 16%N 200%N 0%N));
  assert (says error "hnsw_ef_search").

(** ** [crates/cluster] *)

Definition single_node_topology_is_primary_only : test :=
  let topology := Cluster.single_node "127.0.0.1:7000" in
  assert_eq (length (Cluster.nodes topology)) 1%nat ;;
  first ← Cluster.nodes topology !! 0%nat;
  assert_eq (Cluster.cn_role first) Primary.

Definition promote_node_updates_leader_and_term : test :=
  let cluster := Cluster.single_node "127.0.0.1:7000" in
  '(_, cluster) ← call (Cluster.add_replica "node-2" "127.0.0.1:7001") cluster;
  '(plan, cluster) ← call (Cluster.promote_node "node-2") cluster;
  assert_eq (Cluster.new_leader_node_id plan) "node-2" ;;
  assert_eq (Cluster.leader_node_id cluster) (Some "node-2") ;;
  assert_eq (Cluster.term cluster) 2%N.

Definition ensure_leader_is_idempotent_for_same_node : test :=
  let cluster := Cluster.single_node "127.0.0.1:7000" in
  '(plan, cluster) ← call (Cluster.ensure_leader "node-1") cluster;
  assert_eq (Cluster.new_leader_node_id plan) "node-1" ;;
  assert_eq (Cluster.leader_node_id cluster) (Some "node-1") ;;
  assert_eq (Cluster.term cluster) 1%N.

Definition observe_leader_updates_topology_without_bumping_term : test :=
  let cluster := Cluster.single_node "127.0.0.1:7000" in
  '(_, cluster) ← call (Cluster.add_replica "node-2" "127.0.0.1:7001") cluster;
  '(_, cluster) ← call (Cluster.observe_leader "node-2") cluster;
  assert_eq (Cluster.leader_node_id cluster) (Some "node-2") ;;
  assert_eq (Cluster.term cluster) 1%N.

(** ** [crates/replication] *)

(** [single_node_default()]. *)
Definition single_node_default : ReplicationManager := manager_single_node "node-1".

Definition single_node_default_disables_replication : test :=
  assert_eq (mode (status_single_node "node-1")) Disabled.

Definition leader_records_commits_and_replica_ack_updates_lag : test :=
  let manager := Replication.configure_as_leader "leader-1" 2 single_node_default in
  '(_, manager) ← call (Replication.register_replica "replica-1") manager;
  node ← node_of "node_a" "memory";
  '(_, manager) ← call (Replication.record_leader_commit 7 (mkBatch [node] [] [] [])) manager;
  assert_eq (length (history_since 0 manager)) 1%nat ;;
  assert_eq (replica_lag_map manager !! "replica-1") (Some 7%N) ;;
  '(_, manager) ← call (Replication.acknowledge_replica "replica-1" 7) manager;
  assert_eq (replica_lag_map manager !! "replica-1") (Some 0%N).

Definition follower_tracks_last_applied_source_lsn_and_can_promote : test :=
  let manager := Replication.configure_as_follower "replica-1" "leader-1" 1 single_node_default in
  '(_, manager) ← call (Replication.apply_follower_records [mkRepRecord "leader-1" 1 8 batch_default]) manager;
  assert_eq (last_applied_source_lsn (status manager)) 8%N ;;
  let manager := Replication.promote_to_leader 2 manager in
  assert_eq (mode (status manager)) Leader ;;
  assert_eq (Replication.leader_node_id (status manager)) (Some "replica-1").

(** ** [crates/memory] *)

Definition ranker_combines_weighted_scores : test :=
  let total := rank (mkScore (F32.of_Z 1) (F32.lit 5 10) (F32.lit 25 100) (F32.lit 75 100) (F32.of_Z 1)) RankingWeights_default in
  assert (f_lt F32.zero total) ;;
  assert (SFleb total F32.one).

Definition computes_cosine_similarity : test :=
  similarity ← cosine_similarity [F32.of_Z 1; F32.zero] [F32.lit 5 10; F32.lit 5 10];
  assert (f_lt (F32.lit 5 10) similarity) ;;
  assert (SFleb similarity F32.one).

Definition recency_score_favors_recent_timestamps : test :=
  let recent := temporal_recency_score 1000 1100 in
  let stale := temporal_recency_score 1000 10000000 in
  assert (f_lt stale recent) ;;
  assert (SFleb recent F32.one).

Definition exposes_default_retrieval_profile : test :=
  assert_eq (profile_name v1_default) "v1-default" ;;
  assert_eq (w_semantic (profile_weights v1_default)) (F32.lit 30 100).

Definition consolidation_finds_duplicate_and_stale_memories : test :=
  node_a ← node_of "tenant_a:node_a" "Memory";
  let node_a := insert_property "timestamp" (PInteger 1000) (insert_property "unique_key" (PString "same") node_a) in
  node_b ← node_of "tenant_a:node_b" "Memory";
  let node_b := insert_property "timestamp" (PInteger 1100) (insert_property "unique_key" (PString "same") node_b) in
  edge ← edge_of "edge_ab" node_a node_b "RELATED_TO";
  let events := analyze [node_a; node_b] [edge] (40 * 24 * 60 * 60 * 1000) in
  assert (existsb (λ event, bool_decide (action event = Merge)) events) ;;
  assert (existsb (λ event, bool_decide (action event = Archive)) events).

(** All of them pass. *)
Theorem small_crates_pass_their_tests : Forall passes
  [rejects_invalid_identifier_characters; creates_strongly_typed_ids;
   builds_node_records_with_properties; write_batch_reports_when_empty; builds_edge_records;
   exposes_retrieval_properties_through_helpers; rejects_legacy_embedding_property; supports_multiple_named_vectors;
   admin_can_perform_maintenance; readers_cannot_write; authenticates_admin_api_key; rejects_similar_but_invalid_api_key;
   default_configuration_is_valid; defaults_to_hnsw_vector_backend; rejects_invalid_wal_settings;
   rejects_legacy_development_keys; applies_observability_env_overrides; rejects_duplicate_or_short_api_keys;
   applies_runtime_env_overrides; rejects_invalid_vector_index_settings;
   single_node_topology_is_primary_only; promote_node_updates_leader_and_term;
   ensure_leader_is_idempotent_for_same_node; observe_leader_updates_topology_without_bumping_term;
   single_node_default_disables_replication; leader_records_commits_and_replica_ack_updates_lag;
   follower_tracks_last_applied_source_lsn_and_can_promote; ranker_combines_weighted_scores;
   computes_cosine_similarity; recency_score_favors_recent_timestamps; exposes_default_retrieval_profile;
   consolidation_finds_duplicate_and_stale_memories].
Proof. repeat (constructor; [vm_compute; reflexivity|]). constructor. Qed.
