(* ===== verification/StoreTests.v ===== *)
(** * The unit tests of the log, of storage and of observability

    The tests of crates/wal, storage and observability, run on the model with a disk that
    works and the concrete encodings of [Wal.Demo] and [Store.Demo].  The tests that look into
    the JSON text of an event, and the one that builds gRPC metadata, are about serde_json and
    tonic and are left out. *)
From S2P Require Import Prelude RustStd Common Core Config Fs Observability Metrics Wal Batch Store Engine Recovery Backup UnitTests.
Import Wal.Demo Store.Demo.

#[local] Open Scope string_scope.
#[local] Open Scope list_scope.

(** A checksum that is quicker to evaluate than [Wal.Demo.checksum]: the sum of the bytes. *)
Definition sum_of_bytes (bs : bytes) : N := (foldl (λ sum b, sum + Byte.to_N b) 0 bs mod 2 ^ 32)%N.
#[global] Instance summing_codec : WalCodec := {|
  crc32 := sum_of_bytes;
  encode_wal_record := encode_wal_record;
  decode_wal_record := decode_wal_record;
  encode_marker := encode_marker;
  decode_marker := decode_marker;
|}.

Definition expect_error {S A} (m : sm S Failure A) (s : S) : option Undr9Error :=
  match (m s).1 with Err (Error e) => Some e | _ => None end.
(** [fs::write_all] on a file that was opened. *)
Definition fs_expect {A} (m : fsm A) (w : World) : option World :=
  match m w with (Ok _, w) => Some w | (Err _, _) => None end.

(** [tempdir()]: an empty directory. *)
Definition tempdir : Path := ["T"; "tmp"].
Definition disk : World := mkWorld ∅ {[ ["tmp"]; ["T"; "tmp"] ]} [] None None.

(** ** [crates/wal] *)

Definition wal_record_checksums_round_trip : test :=
  record ← expect (WalRecord_new 7 KWriteBatch (bytes_of_string (text ["{"; quote; "op"; quote; ":"; quote; "upsert"; quote; "}"])));
  assert_eq (h_payload_len (header record)) 15%N ;;
  assert (verify_checksum record).

Definition runtime_config_respects_durability_settings : test :=
  assert_eq (rt_durability_mode (runtime_from_config (wal default_config))) FsyncOnWrite.

Definition payload_one : bytes := bytes_of_string (text ["{"; quote; "node"; quote; ":"; quote; "1"; quote; "}"]).

Definition appends_and_replays_wal_records : test :=
  '(l, w) ← call (Wal_open tempdir (wal default_config)) disk;
  '(_, (w, l)) ← call (append KWriteBatch payload_one) (w, l);
  '(_, (w, l)) ← call (append KManifestSync (bytes_of_string "{}")) (w, l);
  '(replayed, w) ← call (replay l) w;
  assert_eq (length replayed) 2%nat ;;
  assert_eq (lsn_of <$> replayed !! 0%nat) (Some 1%N) ;;
  assert_eq (lsn_of <$> replayed !! 1%nat) (Some 2%N).

Definition ignores_trailing_partial_record_during_replay : test :=
  '(l, w) ← call (Wal_open tempdir (wal default_config)) disk;
  '(_, (w, l)) ← call (append KWriteBatch payload_one) (w, l);
  let path := active_segment_path l in
  w ← fs_expect (fs_open_append path ;; fs_append path [Byte.x01; Byte.x02; Byte.x03; Byte.x04]) w;
  '(replayed, w) ← call (replay l) w;
  assert_eq (length replayed) 1%nat.

Definition truncates_all_segments : test :=
  '(l, w) ← call (Wal_open tempdir (wal default_config)) disk;
  '(_, (w, l)) ← call (append KWriteBatch payload_one) (w, l);
  '(_, (w, l)) ← call truncate_all_segments (w, l);
  '(segments, w) ← call (list_segment_paths tempdir) w;
  assert (is_nil segments) ;;
  '(replayed, w) ← call (replay l) w;
  assert (is_nil replayed).

Definition rejects_record_with_checksum_mismatch : test :=
  let record := mkRecord (mkHeader 1 KWriteBatch 4 0 1) [Byte.x01; Byte.x02; Byte.x03; Byte.x04] in
  frame ← expect (encode_record record);
  w ← fs_expect (fs_write (segment_file_name 1 :: tempdir) frame) disk;
  error ← expect_error (replay_from_dir tempdir u64_max) w;
  assert (says error "checksum mismatch").

(** ** [crates/storage] *)

(** [AppConfig::default()] with the store in [tempdir.path().join("data")]. *)
Definition data_dir : Path := "data" :: tempdir.
Definition storage_config : AppConfig :=
  let c := default_config in
  mkAppConfig (server c) (mkStorageConfig "tmp/T/data" (create_if_missing (storage c)) (storage_version (storage c)))
    (wal c) (auth c) (maintenance c) (vector_index c) (observability c).

Definition bootstraps_storage_layout_and_manifest : test :=
  '((layout, manifest), w) ← call (bootstrap (storage storage_config)) disk;
  assert (path_exists w (manifest_path layout)) ;;
  assert_eq (m_storage_version manifest) "1" ;;
  assert (path_exists w (subdirectory layout "wal")) ;;
  assert (path_exists w (subdirectory layout "nodes")).

Definition persists_and_reads_manifest : test :=
  let path := MANIFEST_FILE_NAME :: tempdir in
  let manifest := mkManifest "1" ∅ (mkSettings true) true (Some 7%N) in
  '(_, w) ← call (persist_manifest path manifest) disk;
  '(loaded, w) ← call (load_manifest path) w;
  assert_eq loaded manifest ;;
  assert (is_ok (manifest_checksum loaded)).

Definition cascades_edges_when_deleting_a_node : test :=
  '(engine, w) ← call (open_engine storage_config) disk;
  node_a ← node_of "node_a" "memory";
  node_b ← node_of "node_b" "memory";
  id ← expect (EdgeId_new "edge_a");
  edge ← expect (EdgeRecord_new id (node_id node_a) (node_id node_b) "related_to");
  '(_, st) ← call (Engine.upsert_node node_a) (w, engine);
  '(_, st) ← call (Engine.upsert_node node_b) st;
  '(_, st) ← call (Engine.upsert_edge edge) st;
  '(removed, (w, engine)) ← call (Engine.delete_node (node_id node_a)) st;
  removed ← removed;
  assert_eq (node_id removed) (node_id node_a) ;;
  assert_eq (edge_count engine) 0%nat.

Definition verifies_backup_restore_and_integrity : test :=
  '(engine, w) ← call (open_engine storage_config) disk;
  node ← node_of "node_a" "memory";
  '(_, st) ← call (Engine.upsert_node node) (w, engine);
  '(_, (w, engine)) ← call Recovery.compact st;
  '(report, w) ← call (verify_integrity engine) w;
  assert (ir_node_snapshot_valid report) ;;
  assert (ir_wal_replay_valid report) ;;
  let backup_dir := "backup" :: tempdir in
  '(_, w) ← call (backup_to engine backup_dir) w;
  let restore_dir := "restore" :: tempdir in
  '(_, w) ← call (restore_directory backup_dir restore_dir) w;
  '(restored_report, w) ← call (verify_storage_layout (StorageLayout_new restore_dir)) w;
  assert_eq (ir_node_count restored_report) 1%nat.

(** The entry is only there in a store that was compacted, which this one was not. *)
Definition drifted (m : Manifest) : Manifest :=
  let key := "nodes/segment-0000000000000001.snapshot.rkyv" in
  match m_files m !! key with
  | Some file => mkManifest (m_storage_version m) (<[key := mkManifestFile (mf_relative_path file) 1]> (m_files m))
      (m_settings m) (m_last_clean_shutdown m) (m_last_applied_lsn m)
  | None => m
  end.

Definition repairs_manifest_checksum_drift : test :=
  '(engine, w) ← call (open_engine storage_config) disk;
  node ← node_of "node_a" "memory";
  '(_, (w, engine)) ← call (Engine.upsert_node node) (w, engine);
  '(manifest, w) ← call (load_manifest (manifest_path (e_layout engine))) w;
  '(_, w) ← call (persist_manifest (manifest_path (e_layout engine)) (drifted manifest)) w;
  '(report, w) ← call (repair_storage storage_config) w;
  assert (ir_node_snapshot_valid report) ;;
  assert (is_nil (ir_issues report)).

(** ** [crates/observability] *)

Definition renders_prometheus_metrics : test :=
  let one_sample sum := mkHistogram 1 sum 1 0 0 0 0 in
  let none := mkHistogram 0 0 0 0 0 0 0 in
  let snapshot := mkMetrics "undr9" true 2 1 3 12 11 true 4
    [mkEndpointSnapshot "GET" "/healthz" (mkEndpoint 3 3 0 0 18 2 1 0 0)]
    (mkServiceCounters 3 4 5 6 (mkHistogram 2 7 1 1 0 0 0) none (one_sample 8%N) (one_sample 9%N) none (one_sample 10%N)
      (mkHistogram 1 11 0 1 0 0 0) 2 11 1024 2048 1 2 3 4 [mkErrorCounter "unauthorized" 401 2]) in
  let rendered := render_prometheus snapshot in
  assert (str_contains rendered "undr9_service_ready") ;;
  assert (str_contains rendered "undr9_active_transactions") ;;
  assert (str_contains rendered "undr9_current_revision") ;;
  assert (str_contains rendered "undr9_pending_checkpoint_entries") ;;
  assert (str_contains rendered "undr9_query_requests_total") ;;
  assert (str_contains rendered "undr9_query_latency_ms_bucket") ;;
  assert (str_contains rendered "undr9_errors_total") ;;
  assert (str_contains rendered "undr9_http_requests_total") ;;
  assert (str_contains rendered "undr9_http_request_duration_ms_bucket") ;;
  assert (str_contains rendered (text ["service="; quote; "undr9"; quote])).

(** An event is its action in the log: the other fields are the same in this test. *)
#[local] Instance action_codec : AuditCodec := {|
  json_encode_audit e := Ok (ae_action e);
  json_decode_audit line := Ok (mkAudit 0 "admin" line "storage" "success" "detail");
  json_encode_log _ := Ok "{}";
|}.

Definition exports_and_prunes_audit_events : test :=
  let path := "audit.log" :: tempdir in
  let event index := AuditEvent_new 0 "admin" ("action_" +:+ pretty index) "storage" "success" "detail" in
  '(_, w) ← call (sm_for [0; 1; 2; 3]%N (λ index, append_audit_event path (event index))) disk;
  '(exported, w) ← call (export_audit_events path 2) w;
  assert_eq (ae_action <$> exported) ["action_2"; "action_3"] ;;
  '(removed, w) ← call (prune_audit_log path 2) w;
  assert_eq removed 2%N ;;
  '(remaining, w) ← call (export_audit_events path 10) w;
  assert_eq (ae_action <$> remaining) ["action_2"; "action_3"].

(** Without the metadata that is built from the headers at the end. *)
Definition parses_otlp_headers_and_protocol_variants : test :=
  headers ← expect (parse_otlp_headers "authorization=Bearer token,x-scope-orgid=tenant");
  assert_eq (headers !! "authorization") (Some "Bearer token") ;;
  assert_eq (headers !! "x-scope-orgid") (Some "tenant") ;;
  grpc ← expect (normalize_otlp_protocol "grpc");
  assert (match grpc with Grpc => true | _ => false end) ;;
  http ← expect (normalize_otlp_protocol "http/protobuf");
  assert (match http with HttpBinary => true | _ => false end).

(** All of them pass. *)
Theorem log_and_storage_pass_their_tests : Forall passes
  [wal_record_checksums_round_trip; runtime_config_respects_durability_settings; appends_and_replays_wal_records;
   ignores_trailing_partial_record_during_replay; truncates_all_segments; rejects_record_with_checksum_mismatch;
   bootstraps_storage_layout_and_manifest; persists_and_reads_manifest; cascades_edges_when_deleting_a_node;
   verifies_backup_restore_and_integrity; repairs_manifest_checksum_drift; renders_prometheus_metrics;
   exports_and_prunes_audit_events; parses_otlp_headers_and_protocol_variants].
Proof. repeat (constructor; [vm_compute; reflexivity|]). constructor. Qed.
