(* ===== verification/IndexTests.v ===== *)
(** * The unit tests of the index

    The tests of crates/index, run on the model.  The graph library is the exact search: it
    keeps every vector with its key and answers with the nearest ones by cosine similarity. *)
From S2P Require Import Prelude RustStd RustFloat Common Core Config Fs Memory Store Index UnitTests.
Import Store.Demo.

#[local] Open Scope string_scope.
#[local] Open Scope list_scope.

(** ** The library *)

(** By descending similarity, of those that are as near in the order of their insertion. *)
Definition nearer (query : list f32) : relation (NodeId * list f32) := λ a b,
  f_lt (default F32.zero (cosine_similarity query a.2)) (default F32.zero (cosine_similarity query b.2)) = false.
#[global] Instance nearer_dec query : RelDecision (nearer query).
Proof. intros a b. unfold nearer. apply _. Defined.
Definition keyed_vectors : Type := list (NodeId * list f32).
Definition without_key (id : NodeId) (g : keyed_vectors) : keyed_vectors := filter (λ entry, entry.1 ≠ id) g.

#[global] Instance exact_library : HnswLib := {|
  hnsw_graph := keyed_vectors;
  hnsw_vectors := N;
  hnsw_new _ _ _ _ _ := [];
  vectors_new dimension _ := dimension;
  hnsw_insert g id v := (true, (g.1 ++ [(id, v)], g.2));
  hnsw_set g id v := (true, (without_key id g.1 ++ [(id, v)], g.2));
  hnsw_delete g id := without_key id g;
  hnsw_search g query k keep := Some (take (N.to_nat k)
    (filter (λ id, from_option (λ f, f id) true keep = true) (merge_sort (nearer query) g.1).*1));
  hnsw_len := length;
  hnsw_save g := to_bytes g;
  hnsw_load bs := of_bytes bs;
  vectors_save v _ := to_bytes v;
  vectors_load bs := of_bytes bs;
|}.

#[global] Instance space_manifest_eq_dec : EqDecision PersistedVectorSpaceManifest.
Proof. solve_decision. Defined.
#[global] Program Instance space_manifest_countable : Countable PersistedVectorSpaceManifest :=
  inj_countable' (λ s, (vector_name s, vector_candidate_count s, vs_dimension s)) (λ '(a, b, c), mkSpaceManifest a b c) _.
Next Obligation. by intros []. Qed.
#[global] Instance vector_manifest_eq_dec : EqDecision PersistedVectorIndexManifest.
Proof. solve_decision. Defined.
#[global] Program Instance vector_manifest_countable : Countable PersistedVectorIndexManifest :=
  inj_countable' (λ m, (vm_format_version m, vm_backend m, vm_last_applied_lsn m, vm_max_nodes m, vm_semantic_top_k m,
      vm_exact_fallback_threshold m, vm_hnsw_m m, vm_hnsw_ef_construction m, vm_hnsw_ef_search m, vector_spaces m))
    (λ '(a, b, c, d, e, f, g, h, i, j), mkVectorManifest a b c d e f g h i j) _.
Next Obligation. by intros []. Qed.
#[global] Instance vector_codec : IndexCodec := {|
  json_encode_vector_manifest := to_bytes;
  json_decode_vector_manifest := of_bytes;
|}.

(** ** Equality *)

(** [PartialEq for HnswVectorSpace]: the graph does not matter. *)
Definition HnswVectorSpace_eq (a b : HnswVectorSpace) : bool :=
  bool_decide (sp_candidate_ids a = sp_candidate_ids b) && bool_decide (sp_dimension a = sp_dimension b).
Definition HnswVectorIndex_eq (a b : HnswVectorIndex) : bool :=
  btree_eqb HnswVectorSpace_eq (spaces a) (spaces b) && (max_nodes a =? max_nodes b)%N &&
  (hx_semantic_top_k a =? hx_semantic_top_k b)%N &&
  (hx_exact_fallback_threshold a =? hx_exact_fallback_threshold b)%N && (hx_m a =? hx_m b)%N &&
  (hx_ef_construction a =? hx_ef_construction b)%N && (hx_ef_search a =? hx_ef_search b)%N.
Definition VectorIndexState_eq (a b : VectorIndexState) : bool :=
  match a, b with
  | Exact a, Exact b => bool_decide (candidate_ids_by_name a = candidate_ids_by_name b)
  | Hnsw a, Hnsw b => HnswVectorIndex_eq a b
  | _, _ => false
  end.
(** The [PartialEq] that is derived for [GraphIndex]. *)
Definition GraphIndex_eq (a b : GraphIndex) : bool :=
  bool_decide (node_ids a = node_ids b) && bool_decide (unique_key_index a = unique_key_index b) &&
  bool_decide (adjacency_index a = adjacency_index b) &&
  bool_decide (reverse_adjacency_index a = reverse_adjacency_index b) &&
  bool_decide (label_type_index a = label_type_index b) && bool_decide (temporal_index a = temporal_index b) &&
  VectorIndexState_eq (ix_vector_index a) (ix_vector_index b).

(** ** Tests *)

#[global] Instance IndexName_eq_dec : EqDecision IndexName.
Proof. solve_decision. Defined.

Definition v1_catalog_contains_required_primary_indexes : test :=
  let has name := existsb (λ index, bool_decide (id_name index = name)) v1_defaults in
  assert (has IxNodeId) ;;
  assert (has IxAdjacency) ;;
  assert (has IxVector).

Definition tenth (n : Z) : f32 := F32.lit n 10.
Definition lookup_in (edges : list EdgeRecord) (id : EdgeId) : option EdgeRecord :=
  (list_to_map ((λ e, (edge_id e, e)) <$> edges) : gmap EdgeId EdgeRecord) !! id.
Definition ids_in_range (ix : GraphIndex) (from to : Z) : option (list NodeId) := expect (node_ids_in_time_range ix from to).

Definition rebuilds_graph_indexes_for_lookup_and_adjacency : test :=
  node_a ← node_of "node_a" "memory";
  let node_a := insert_vector "default" [tenth 1; tenth 2]
    (insert_property "timestamp" (PInteger 100) (insert_property "unique_key" (PString "alpha") node_a)) in
  node_b ← node_of "node_b" "memory";
  edge ← edge_of "edge_ab" node_a node_b "relates_to";
  let '(index, _) := rebuild [node_a; node_b] [edge] [] in
  assert (contains_node index (node_id node_a)) ;;
  assert_eq (lookup_unique_key index "alpha") (Some (node_id node_a)) ;;
  assert_eq (length (node_ids_by_type index "memory")) 2%nat ;;
  assert_eq (length (edge_ids_for index (node_id node_a) Outgoing (lookup_in [edge]) (Some "relates_to"))) 1%nat ;;
  in_range ← ids_in_range index 90 110;
  assert_eq (length in_range) 1%nat ;;
  assert_eq (length (vector_candidate_ids index "default")) 1%nat.

Definition incremental_updates_match_rebuild_for_mixed_changes : test :=
  node_a ← node_of "node_a" "memory";
  let node_a := insert_vector "default" [tenth 1; tenth 2]
    (insert_property "timestamp" (PInteger 100) (insert_property "unique_key" (PString "alpha") node_a)) in
  node_b ← node_of "node_b" "memory";
  edge_ab ← edge_of "edge_ab" node_a node_b "relates_to";
  let '(incremental, h) := rebuild [node_a; node_b] [edge_ab] [] in
  updated_node_a ← node_of "node_a" "memory_v2";
  let updated_node_a := insert_property "timestamp" (PInteger 250) (insert_property "unique_key" (PString "beta") updated_node_a) in
  node_c ← node_of "node_c" "memory";
  edge_ac ← edge_of "edge_ac" updated_node_a node_c "relates_to";
  let incremental := Index.delete_edge edge_ab incremental in
  let st := Index.delete_node node_a (incremental, h) in
  let st := Index.upsert_node updated_node_a st in
  let '(incremental, h) := Index.upsert_node node_c st in
  let incremental := Index.upsert_edge edge_ac incremental in
  let '(incremental, h) := Index.delete_node node_b (incremental, h) in
  let '(rebuilt, _) := rebuild [updated_node_a; node_c] [edge_ac] h in
  assert (GraphIndex_eq incremental rebuilt) ;;
  assert_eq (lookup_unique_key incremental "alpha") None ;;
  assert_eq (lookup_unique_key incremental "beta") (Some (node_id updated_node_a)) ;;
  assert_eq (length (node_ids_by_type incremental "memory_v2")) 1%nat ;;
  in_range ← ids_in_range incremental 200 300;
  assert_eq (length in_range) 1%nat ;;
  assert_eq (length (vector_candidate_ids incremental "default")) 0%nat.

Definition graph_index_defaults_to_exact_vector_backend : test :=
  assert (match ix_vector_index GraphIndex_default with Exact _ => true | Hnsw _ => false end).

(** HNSW from two vectors on. *)
Definition small_hnsw : VectorIndexConfig := mkVectorIndex BackendHnsw 1 2 16 200 64.
Definition unit_x : list f32 := [F32.one; F32.zero].

Definition hnsw_backend_returns_filtered_semantic_candidates : test :=
  node_a ← insert_vector "default" unit_x <$> node_of "node_a" "memory";
  node_b ← insert_vector "default" [tenth 8; tenth 2] <$> node_of "node_b" "memory";
  node_c ← insert_vector "default" unit_x <$> node_of "node_c" "profile";
  let '(index, h) := rebuild_with_config [node_a; node_b; node_c] [] small_hnsw [] in
  let hits := Index.semantic_candidate_ids h index unit_x "default" (Some "memory") 2 None in
  assert_eq (length hits) 2%nat ;;
  assert_eq (hits !! 0%nat) (Some (node_id node_a)) ;;
  assert (forallb (λ id, negb (bool_decide (id = node_id node_c))) hits) ;;
  let snapshot := index_snapshot index in
  assert_eq (is_vector_backend snapshot) "hnsw" ;;
  assert (is_vector_runtime_ready snapshot) ;;
  assert_eq (is_vector_dimensions snapshot !! "default") (Some 2%nat).

Definition hnsw_vector_index_persists_and_warm_loads : test :=
  node_a ← insert_vector "default" unit_x <$> node_of "node_a" "memory";
  node_b ← insert_vector "default" [F32.zero; F32.one] <$> node_of "node_b" "memory";
  let tempdir : Path := ["T"; "tmp"] in
  let w := mkWorld ∅ {[ ["tmp"]; ["T"; "tmp"] ]} [] None None in
  let manifest_path := "vector-index.manifest.json" :: tempdir in
  let graph_path := "vector-index.hnsw.bin" :: tempdir in
  let vectors_path := "vector-index.vectors.bin" :: tempdir in
  let '(index, h) := rebuild_with_config [node_a; node_b] [] small_hnsw [] in
  '(_, w) ← call (persist_vector_index h index manifest_path graph_path vectors_path (Some 42%N)) w;
  let '(loaded, h, w) := rebuild_with_config_and_vector_index_load [node_a; node_b] [] small_hnsw
    (Some (mkLoadConfig manifest_path graph_path vectors_path (Some 42%N))) h w in
  let snapshot := index_snapshot loaded in
  assert_eq (is_vector_backend snapshot) "hnsw" ;;
  assert (is_vector_runtime_ready snapshot) ;;
  let hits := Index.semantic_candidate_ids h loaded unit_x "default" None 1 None in
  assert (negb (is_nil hits)) ;;
  assert_eq (hits !! 0%nat) (Some (node_id node_a)) ;;
  assert (bool_decide (node_id node_b ∈ hits)).

(** All of them pass. *)
Theorem index_passes_its_tests : Forall passes
  [v1_catalog_contains_required_primary_indexes; rebuilds_graph_indexes_for_lookup_and_adjacency;
   incremental_updates_match_rebuild_for_mixed_changes; graph_index_defaults_to_exact_vector_backend;
   hnsw_backend_returns_filtered_semantic_candidates; hnsw_vector_index_persists_and_warm_loads].
Proof. repeat (constructor; [vm_compute; reflexivity|]). constructor. Qed.
