(* ===== verification/QueryTests.v ===== *)
(** * The unit tests of queries

    The tests of crates/query, run on the model, with the exact graph library of [IndexTests].
    The benchmark among them, which the crate ignores, is left out. *)
From S2P Require Import Prelude RustStd RustFloat Common Core Config Fs Memory Batch Index Query Traversal Paths Ranking Executor UnitTests IndexTests.

#[local] Open Scope string_scope.
#[local] Open Scope list_scope.

#[global] Instance PlanKind_eq_dec : EqDecision PlanKind.
Proof. solve_decision. Defined.

(** [GraphSnapshot { nodes, edges, indexes: GraphIndex::rebuild(..) }] and the view of it. *)
Definition snapshot_of (nodes : list NodeRecord) (edges : list EdgeRecord) : GraphSnapshot * list Runtime :=
  let '(index, h) := rebuild nodes edges [] in
  (mkSnapshot (list_to_map ((λ n, (node_id n, n)) <$> nodes), list_to_map ((λ e, (edge_id e, e)) <$> edges)) index, h).
Definition graph_of (nodes : list NodeRecord) (edges : list EdgeRecord) : GraphView :=
  let '(snapshot, h) := snapshot_of nodes edges in snapshot_view h snapshot.
(** No time passes. *)
Definition at_once (_ : nat) : N := 0.
Definition run (v : GraphView) (request : QueryRequest) : option QueryResponse :=
  r ← execute v at_once request; expect r.
Definition run_iter (v : GraphView) (request : QueryRequest) : option (list QueryExecutionItem) :=
  r ← execute_iter v at_once request; qe_items <$> expect r.

Definition has_filter (p : QueryPlan) (field : string) (value : PropertyValue) : bool :=
  existsb (λ filter, bool_decide (qf_field filter = field) && PropertyValue_eq (qf_value filter) value) (plan_filters p).
Definition first_id (l : list NodeRecord) : option NodeId := node_id <$> l !! 0%nat.

(** ** Planning *)

Definition planner_selects_exact_lookup_for_id_queries : test :=
  id ← expect (NodeId_new "node_1");
  p ← expect (plan (GetNodeById id));
  assert_eq (plan_kind p) ExactLookup.

Definition planner_rejects_invalid_traversal_bounds : test :=
  id ← expect (NodeId_new "node_1");
  error ← expect_err (plan (Traverse id None Outgoing (Some 0%N) None None None));
  assert (says error "max_depth").

Definition planner_rejects_invalid_ranked_retrieval_requests : test :=
  error ← expect_err (plan (RankedRetrieval None None None None None None 5 None 100 None));
  assert (says error "requires at least").

Definition planner_records_vector_search_top_k_override : test :=
  p ← expect (plan (VectorSearch unit_x (Some "memory") None 5 (Some 25%N)));
  assert (has_filter p "top_k" (PInteger 25)).

Definition plans_filter_nodes_query : test :=
  p ← expect (plan (FilterNodes (Some "memory") (FGt "score" (PInteger 90)) (Some 25%N)));
  assert_eq (plan_kind p) FilterScan ;;
  assert (has_filter p "label" (PString "memory")) ;;
  assert (has_filter p "predicate_count" (PInteger 1)) ;;
  assert (has_filter p "limit" (PInteger 25)).

Definition rejects_filter_nodes_with_non_numeric_range_value : test :=
  error ← expect_err (plan (FilterNodes (Some "user") (FGt "score" (PString "high")) (Some 10%N)));
  assert (match error with Validation message => str_contains message "must be numeric" | _ => false end).

(** ** Lookups and scans *)

Definition executes_neighbor_and_traversal_queries : test :=
  node_a ← node_of "node_a" "memory";
  node_b ← node_of "node_b" "memory";
  node_c ← node_of "node_c" "memory";
  edge_ab ← edge_of "edge_ab" node_a node_b "relates_to";
  edge_bc ← edge_of "edge_bc" node_b node_c "relates_to";
  let snapshot := graph_of [node_a; node_b; node_c] [edge_ab; edge_bc] in
  let constraints := Some (mkConstraints ["relates_to"] ["memory"]) in
  neighbors ← run snapshot (ListNeighbors (node_id node_a) (Some "relates_to") Outgoing None);
  assert_eq (length (qr_nodes neighbors)) 1%nat ;;
  assert_eq (length (qr_edges neighbors)) 1%nat ;;
  assert (match qr_path neighbors with None => true | Some _ => false end) ;;
  traversal ← run snapshot
    (Traverse (node_id node_a) (Some "relates_to") Outgoing (Some 2%N) (Some 10%N) (Some 5000%N) constraints);
  assert_eq (length (qr_nodes traversal)) 3%nat ;;
  assert_eq (length (qr_edges traversal)) 2%nat ;;
  assert (is_nil (qr_ranked_results traversal)) ;;
  assert (match qr_path traversal with None => true | Some _ => false end) ;;
  shortest_path ← run snapshot
    (ShortestPath (node_id node_a) (node_id node_c) Outgoing (Some 3%N) (Some 10%N) (Some 5000%N) constraints);
  path ← qr_path shortest_path;
  assert_eq (hop_count path) 2%nat.

Definition executes_unique_key_lookup : test :=
  node ← insert_property "unique_key" (PString "alpha") <$> node_of "node_1" "memory";
  result ← run (graph_of [node] []) (GetNodeByUniqueKey "alpha");
  assert_eq (length (qr_nodes result)) 1%nat ;;
  assert_eq (first_id (qr_nodes result)) (Some (node_id node)).

Definition executes_filter_nodes_with_label_and_numeric_predicates : test :=
  alice ← node_of "node_a" "user";
  let alice := insert_property "unique_key" (PString "alice") (insert_property "score" (PInteger 95) alice) in
  bob ← node_of "node_b" "user";
  let bob := insert_property "unique_key" (PString "bob") (insert_property "score" (PInteger 80) bob) in
  service ← insert_property "score" (PInteger 99) <$> node_of "node_c" "service";
  result ← run (graph_of [alice; bob; service] [])
    (FilterNodes (Some "user") (FGt "score" (PInteger 90)) (Some 10%N));
  assert_eq (qr_plan_kind result) FilterScan ;;
  assert_eq (length (qr_nodes result)) 1%nat ;;
  assert_eq (first_id (qr_nodes result)) (Some (node_id alice)).

Definition executes_filter_nodes_with_or_predicates : test :=
  alice ← node_of "node_a" "user";
  let alice := insert_property "unique_key" (PString "alice") (insert_property "score" (PInteger 50) alice) in
  bob ← node_of "node_b" "user";
  let bob := insert_property "unique_key" (PString "bob") (insert_property "score" (PInteger 91) bob) in
  carol ← node_of "node_c" "user";
  let carol := insert_property "unique_key" (PString "carol") (insert_property "score" (PInteger 70) carol) in
  result ← run (graph_of [alice; bob; carol] [])
    (FilterNodes (Some "user") (FOr [FGt "score" (PInteger 90); FEq "unique_key" (PString "alice")]) (Some 10%N));
  assert_eq (node_id_str ∘ node_id <$> qr_nodes result) ["node_a"; "node_b"].

Definition label_scan_respects_result_limit : test :=
  node_a ← node_of "node_a" "memory";
  node_b ← node_of "node_b" "memory";
  result ← run (graph_of [node_a; node_b] []) (SearchByLabel "memory" (Some 1%N));
  assert_eq (length (qr_nodes result)) 1%nat.

Definition execute_iter_streams_label_and_time_range_nodes : test :=
  node_a ← insert_property "timestamp" (PInteger 1000) <$> node_of "node_a" "memory";
  node_b ← insert_property "timestamp" (PInteger 1100) <$> node_of "node_b" "memory";
  node_c ← insert_property "custom_time" (PInteger 1050) <$> node_of "node_c" "profile";
  let snapshot := graph_of [node_a; node_b; node_c] [] in
  label_items ← run_iter snapshot (SearchByLabel "memory" (Some 1%N));
  assert_eq (length label_items) 1%nat ;;
  assert (match label_items with INode node :: _ => bool_decide (node_type node = "memory") | _ => false end) ;;
  time_range_items ← run_iter snapshot (TimeRange "custom_time" 1000 1100 10);
  assert_eq (length time_range_items) 1%nat ;;
  assert (match time_range_items with INode node :: _ => bool_decide (node_id node = node_id node_c) | _ => false end).

Definition execute_iter_streams_traversal_items_incrementally : test :=
  node_a ← node_of "node_a" "memory";
  node_b ← node_of "node_b" "memory";
  edge_ab ← edge_of "edge_ab" node_a node_b "relates_to";
  items ← run_iter (graph_of [node_a; node_b] [edge_ab])
    (Traverse (node_id node_a) (Some "relates_to") Outgoing (Some 2%N) (Some 10%N) (Some 5000%N) None);
  assert_eq (length items) 3%nat ;;
  assert (match items with INode node :: _ => bool_decide (node_id node = node_id node_a) | _ => false end) ;;
  assert (existsb (λ item, match item with IEdge edge => bool_decide (edge_id edge = edge_id edge_ab) | _ => false end) items) ;;
  assert (existsb (λ item, match item with INode node => bool_decide (node_id node = node_id node_b) | _ => false end) items).

(** ** Ranking *)

Definition real (n d : Z) : PropertyValue := PFloat (F64.div (F64.of_Z n) (F64.of_Z d)).
(** A memory with a vector, a time, an importance and a confidence, in tenths. *)
Definition memory_of (id : string) (v : list f32) (timestamp importance confidence : Z) : option NodeRecord :=
  node ← node_of id "memory";
  Some (insert_property "confidence" (real confidence 10) (insert_property "importance" (real importance 10)
    (insert_property "timestamp" (PInteger timestamp) (insert_vector "default" v node)))).
Definition ranked_ids (l : list RankedNodeResult) : list NodeId := node_id ∘ rr_node <$> l.

Definition executes_temporal_vector_and_ranked_retrieval_queries : test :=
  node_a ← memory_of "node_a" unit_x 1000 9 8;
  node_b ← memory_of "node_b" [tenth 8; tenth 2] 1100 6 7;
  node_c ← memory_of "node_c" [F32.zero; F32.one] 4000000 2 4;
  edge_ab ← edge_of "edge_ab" node_a node_b "relates_to";
  edge_bc ← edge_of "edge_bc" node_b node_c "relates_to";
  let snapshot := graph_of [node_a; node_b; node_c] [edge_ab; edge_bc] in
  time_range ← run snapshot (TimeRange "timestamp" 900 2000 10);
  assert_eq (length (qr_nodes time_range)) 2%nat ;;
  vector ← run snapshot (VectorSearch unit_x (Some "memory") None 2 None);
  assert_eq (length (qr_ranked_results vector)) 2%nat ;;
  assert_eq (ranked_ids (qr_ranked_results vector) !! 0%nat) (Some (node_id node_a)) ;;
  ranked ← run snapshot (RankedRetrieval (Some unit_x) (Some (node_id node_a)) (Some "relates_to") (Some 900%Z)
    (Some 10000%Z) None 3 None 1200 (Some "v1-default"));
  assert_eq (qr_plan_kind ranked) RankedHybrid ;;
  assert_eq (length (qr_ranked_results ranked)) 2%nat ;;
  first ← qr_ranked_results ranked !! 0%nat;
  second ← qr_ranked_results ranked !! 1%nat;
  assert (SFleb (rr_score second) (rr_score first)) ;;
  assert_eq (node_id (rr_node first)) (node_id node_a) ;;
  assert_eq (qr_retrieval_profile ranked) (Some "v1-default").

(** A view that answers a semantic search with fixed candidates. *)
Definition SemanticCandidateGraphView (base : GraphView) (semantic_candidate_ids : list NodeId) : GraphView := {|
  gv_get_node := gv_get_node base;
  gv_get_edge := gv_get_edge base;
  gv_contains_node := gv_contains_node base;
  gv_lookup_unique_key := gv_lookup_unique_key base;
  gv_node_ids_by_type := gv_node_ids_by_type base;
  gv_edge_ids_for := gv_edge_ids_for base;
  gv_node_ids_in_time_range := gv_node_ids_in_time_range base;
  gv_vector_candidate_ids := gv_vector_candidate_ids base;
  gv_semantic_candidate_ids _ := semantic_candidate_ids;
  gv_all_nodes := gv_all_nodes base;
|}.

Definition ranked_retrieval_unions_semantic_and_structural_candidates : test :=
  node_a ← memory_of "node_a" unit_x 1000 9 9;
  node_b ← memory_of "node_b" [F32.zero; F32.one] 1050 4 4;
  edge_ab ← edge_of "edge_ab" node_a node_b "relates_to";
  let graph_view := SemanticCandidateGraphView (graph_of [node_a; node_b] [edge_ab]) [node_id node_a] in
  ranked ← expect (ranked_retrieval graph_view (mkParams (Some unit_x) "default" (Some (node_id node_a))
    (Some "relates_to") (Some 900%Z) (Some 1100%Z) 5 None 1200 v1_default));
  assert_eq (length ranked) 2%nat ;;
  assert_eq (ranked_ids ranked !! 0%nat) (Some (node_id node_a)) ;;
  assert (bool_decide (node_id node_b ∈ ranked_ids ranked)) ;;
  let found id := snd <$> list_find (λ result, node_id (rr_node result) = id) ranked in
  node_a_result ← found (node_id node_a);
  node_b_result ← found (node_id node_b);
  assert (f_lt F32.zero (s_structural (rr_breakdown node_b_result))) ;;
  assert (SFleb (s_semantic (rr_breakdown node_b_result)) (tenth 5)) ;;
  assert (f_lt (s_semantic (rr_breakdown node_b_result)) (s_semantic (rr_breakdown node_a_result))).

Definition top_k_heap_keeps_highest_scores_with_stable_tie_breaking : test :=
  let ranked id score := node ← node_of id "memory";
    Some (mkRanked node score (mkScore F32.zero F32.zero F32.zero F32.zero F32.zero)) in
  node_d ← ranked "node_d" (F32.lit 40 100);
  node_c ← ranked "node_c" (F32.lit 80 100);
  node_b ← ranked "node_b" (F32.lit 95 100);
  node_a ← ranked "node_a" (F32.lit 80 100);
  let heap := foldl (push_top_ranked_result 3) [] [node_d; node_c; node_b; node_a] in
  let ranked_results := finalize_top_ranked_results heap in
  assert_eq (node_id_str <$> ranked_ids ranked_results) ["node_b"; "node_a"; "node_c"] ;;
  assert_eq (rr_score <$> ranked_results) [F32.lit 95 100; F32.lit 80 100; F32.lit 80 100].

(** All of them pass. *)
Theorem queries_pass_their_tests : Forall passes
  [planner_selects_exact_lookup_for_id_queries; planner_rejects_invalid_traversal_bounds;
   planner_rejects_invalid_ranked_retrieval_requests; planner_records_vector_search_top_k_override;
   plans_filter_nodes_query; rejects_filter_nodes_with_non_numeric_range_value; executes_neighbor_and_traversal_queries;
   executes_unique_key_lookup; executes_filter_nodes_with_label_and_numeric_predicates;
   executes_filter_nodes_with_or_predicates; label_scan_respects_result_limit;
   execute_iter_streams_label_and_time_range_nodes; execute_iter_streams_traversal_items_incrementally;
   executes_temporal_vector_and_ranked_retrieval_queries; ranked_retrieval_unions_semantic_and_structural_candidates;
   top_k_heap_keeps_highest_scores_with_stable_tie_breaking].
Proof. repeat (constructor; [vm_compute; reflexivity|]). constructor. Qed.
