(* ===== verification/ApiTests.v ===== *)
(** * The unit tests of the service

    The tests of crates/api, run on the model of the router.  A request is sent to a service on
    a disk and answered with a status and a payload; the JSON of requests and answers, and their
    headers, are not part of it.  No time passes, and the codecs are concrete.  A test of more
    than 150 lines has its end in a definition of its own.  The test of the response budget,
    which fills a service with 600 nodes, takes the kernel minutes and is left out. *)
From S2P Require Import Prelude RustStd RustFloat Common Core Config Auth Cluster Replication Fs Observability Metrics Wal Memory Batch Store Engine Recovery Backup Index Query Ranking Executor Database Service Handlers UnitTests StoreTests IndexTests.
Import Wal.Demo Store.Demo.

#[local] Open Scope string_scope.
#[local] Open Scope list_scope.

(** ** Encodings *)

#[global] Instance ReplicationMode_countable : Countable ReplicationMode.
Proof.
  apply (inj_countable' (λ m, match m with Disabled => None | Leader => Some true | Follower => Some false end)
    (λ x, match x with None => Disabled | Some true => Leader | Some false => Follower end)).
  by intros [].
Defined.
#[global] Instance NodeRole_countable : Countable NodeRole.
Proof.
  apply (inj_countable' (λ r, match r with Primary => None | Replica => Some true | Candidate => Some false end)
    (λ x, match x with None => Primary | Some true => Replica | Some false => Candidate end)).
  by intros [].
Defined.
#[global] Instance ReplicaProgress_eq_dec : EqDecision ReplicaProgress.
Proof. solve_decision. Defined.
#[global] Instance ReplicationRecord_eq_dec : EqDecision ReplicationRecord.
Proof. solve_decision. Defined.
#[global] Instance ReplicationManager_eq_dec : EqDecision ReplicationManager.
Proof.
  assert (EqDecision ReplicationStatus) by solve_decision. solve_decision.
Defined.
#[global] Instance ClusterNode_eq_dec : EqDecision ClusterNode.
Proof. solve_decision. Defined.
#[global] Instance ClusterTopology_eq_dec : EqDecision ClusterTopology.
Proof. solve_decision. Defined.
#[global] Program Instance ReplicaProgress_countable : Countable ReplicaProgress :=
  inj_countable' (λ p, (replica_node_id p, last_acked_source_lsn p, rp_last_applied_source_lsn p))
    (λ '(a, b, c), mkProgress a b c) _.
Next Obligation. by intros []. Qed.
#[global] Program Instance ReplicationRecord_countable : Countable ReplicationRecord :=
  inj_countable' (λ r, (source_node_id r, source_term r, source_lsn r, rr_batch r)) (λ '(a, b, c, d), mkRepRecord a b c d) _.
Next Obligation. by intros []. Qed.
#[global] Program Instance ReplicationManager_countable : Countable ReplicationManager :=
  inj_countable' (λ m, let s := status m in
      (mode s, Replication.local_node_id s, Replication.leader_node_id s, current_term s, last_applied_lsn s,
       last_committed_source_lsn s, last_pulled_source_lsn s, last_applied_source_lsn s, replicas s, history m))
    (λ '(a, b, c, d, e, f, g, h, i, j), mkManager (mkStatus a b c d e f g h i) j) _.
Next Obligation. by intros [[]]. Qed.
#[global] Program Instance ClusterNode_countable : Countable ClusterNode :=
  inj_countable' (λ n, (Cluster.cn_node_id n, Cluster.cn_address n, Cluster.cn_role n, Cluster.cn_healthy n))
    (λ '(a, b, c, d), Cluster.mkClusterNode a b c d) _.
Next Obligation. by intros []. Qed.
#[global] Program Instance ClusterTopology_countable : Countable ClusterTopology :=
  inj_countable' (λ t, (Cluster.term t, Cluster.leader_node_id t, Cluster.nodes t)) (λ '(a, b, c), Cluster.mkTopology a b c) _.
Next Obligation. by intros []. Qed.

(** The snapshot of the index is written and never read. *)
#[local] Instance metadata_codec : DatabaseCodec := {|
  json_encode_replication := to_bytes;
  json_decode_replication := of_bytes;
  json_encode_cluster := to_bytes;
  json_decode_cluster := of_bytes;
  json_encode_index_snapshot s := to_bytes (is_node_count s);
|}.

(** The text of one member of an object. *)
Definition member (name value : string) : string := text [quote; name; quote; ":"; quote; value; quote].
(** The part of a frame's line that the tests look at: its type, and the id of a node. *)
#[local] Instance frame_codec : FrameCodec := {|
  json_encode_frame frame := Ok (match frame with
    | FrameMeta _ _ => "{" +:+ member "type" "meta" +:+ "}"
    | FrameNode n => "{" +:+ member "type" "node" +:+ ",{" +:+ member "id" (node_id_str (node_id n)) +:+ "}}"
    | FrameEdge _ => "{" +:+ member "type" "edge" +:+ "}"
    | FrameRankedResult _ => "{" +:+ member "type" "ranked_result" +:+ "}"
    | FramePath _ => "{" +:+ member "type" "path" +:+ "}"
    | FrameEnd _ => "{" +:+ member "type" "end" +:+ "}"
    end);
|}.
#[local] Instance audit_codec : AuditCodec := {|
  json_encode_audit e := Ok (pretty (ae_timestamp_ms e) +:+ "|" +:+ ae_actor e +:+ "|" +:+ ae_action e +:+ "|" +:+
    ae_resource e +:+ "|" +:+ ae_outcome e +:+ "|" +:+ ae_detail e);
  json_decode_audit line :=
    match split_on "|"%char line with
    | [time; actor; action; resource; outcome; detail] =>
      time ← ok_or (parse_u64 time) "expected value";
      Ok (mkAudit time actor action resource outcome detail)
    | _ => Err "expected value"
    end;
  json_encode_log _ := Ok "{}";
|}.

(** ** Services *)

(** A service with its disk and its vector graphs. *)
Definition App : Type := World * (ApiState * list Runtime).
(** The configuration of a service that stores under the temporary directory. *)
Definition api_config_in (name : string) : AppConfig :=
  let c := default_config in
  mkAppConfig (server c) (mkStorageConfig ("tmp/T/" +:+ name) (create_if_missing (storage c)) (storage_version (storage c)))
    (wal c) (auth c) (maintenance c) (vector_index c) (observability c).
Definition start (config : AppConfig) : option App :=
  '((state, h), w) ← call (try_new config 0 []) disk; Some (w, (state, h)).
Definition test_state : option App := start (api_config_in "undr9-api-test").
(** The same on a disk that other services use too. *)
Definition test_state_with_identity (node_id bind : string) (w : World) : option App :=
  let c := api_config_in ("undr9-api-test-" +:+ node_id) in
  let config := mkAppConfig (mkServer bind (request_timeout_ms (server c)) (max_request_body_bytes (server c)))
    (storage c) (wal c) (auth c) (maintenance c) (vector_index c) (observability c) in
  '((state, h), w) ← call (try_new_with_identity config node_id bind 0 []) w; Some (w, (state, h)).
Definition admin_key (app : App) : option string := Some (admin_api_key (auth (api_config app.2.1))).

(** ** Requests *)

Definition instant : RequestClock := mkClock 1000 1000 1000 1000 0 (λ _, 0%N).
Definition status_of (response : Result ApiError Payload) : N :=
  match response with Ok payload => payload_status payload | Err e => ae_status e end.
Definition oneshot (key : option string) (request : ApiRequest) (app : App) : option (Result ApiError Payload * App) :=
  match serve instant key request app with
  | (Ok payload, app) => Some (Ok payload, app)
  | (Err (Refused e), app) => Some (Err e, app)
  | (Err _, _) => None
  end.
(** A request that has to be answered with this status: what is answered, and the service then. *)
Definition ask (key : option string) (request : ApiRequest) (status : N) (app : App) : option (Result ApiError Payload * App) :=
  '(response, app) ← oneshot key request app;
  assert_eq (status_of response) status ;;
  Some (response, app).
Definition send (key : option string) (request : ApiRequest) (status : N) (app : App) : option App :=
  snd <$> ask key request status app.
Definition query_of (response : Result ApiError Payload) : option QueryResponse :=
  match response with Ok (QueryPayload r) => Some r | _ => None end.
Definition lines_in (response : Result ApiError Payload) : option (list string) :=
  match response with Ok (StreamPayload lines) => Some lines | _ => None end.
Definition typed (ty line : string) : bool := str_contains line (member "type" ty).
Definition frame_is (lines : list string) (index : nat) (ty : string) : test :=
  line ← lines !! index; assert (typed ty line).
Definition node_with (id ty : string) (properties : list (string * PropertyValue)) : option NodeRecord :=
  node ← node_of id ty;
  Some (mkNode (node_id node) (node_type node) (list_to_map properties) ∅).

(** ** Health, metrics and admission *)

Definition health_endpoint_reports_ok : test :=
  app ← test_state;
  '(response, app) ← ask None GetHealth 200 app;
  match response with Ok (HealthPayload _ status) => assert_eq status "ok" | _ => None end.

Definition readiness_endpoint_reflects_startup_state : test :=
  '(w, (state, h)) ← test_state;
  _ ← ask None GetReadiness 503 (w, (set_readiness false state, h));
  Some tt.

Definition metrics_text (app : App) : option string :=
  '(response, _) ← ask None GetMetrics 200 app;
  match response with Ok (MetricsPayload text) => Some text | _ => None end.

Definition metrics_endpoint_includes_per_route_request_series : test :=
  app ← test_state;
  app ← send None GetHealth 200 app;
  payload ← metrics_text app;
  assert (str_contains payload "undr9_http_requests_total") ;;
  assert (str_contains payload (text ["route="; quote; "/healthz"; quote])) ;;
  assert (str_contains payload (text ["method="; quote; "GET"; quote])) ;;
  assert (str_contains payload (text ["status_class="; quote; "2xx"; quote])) ;;
  assert (str_contains payload "undr9_http_request_duration_ms_bucket").

Definition unauthorized_errors_emit_stable_header_and_metrics_series : test :=
  app ← test_state;
  let traceparent := "00-0123456789abcdef0123456789abcdef-0123456789abcdef-01" in
  node ← node_with "node_1" "memory" [];
  '(response, app) ← ask None (PostNode node) 401 app;
  error ← expect_err response;
  assert_eq (er_code (ae_body error)) "unauthorized" ;;
  assert_eq (request_trace_id (Some traceparent) 1000 1) "0123456789abcdef0123456789abcdef" ;;
  payload ← metrics_text app;
  assert (str_contains payload "undr9_errors_total") ;;
  assert (str_contains payload (text ["code="; quote; "unauthorized"; quote])) ;;
  assert (str_contains payload (text ["status="; quote; "401"; quote])) ;;
  assert (str_contains payload "undr9_query_latency_ms_bucket").

Definition rejects_missing_api_key : test :=
  app ← test_state;
  node ← node_with "node_1" "memory" [];
  _ ← send None (PostNode node) 401 app;
  Some tt.

Definition auth_disabled_deployment_fails_closed : test :=
  '(w, (state, h)) ← test_state;
  let c := api_config state in
  let a := auth c in
  let disabled := with_auth (mkAuthConfig false (bootstrap_admin_username a) (admin_api_key a) (writer_api_key a) (reader_api_key a)) c in
  let state := mkApi (api_service_name state) disabled (readiness state) (api_database state) (counters state)
    (api_audit_log_path state) (maintenance_status state) (endpoint_metrics state) (rate_limits state) in
  _ ← send None (PostQuery (SearchByLabel "memory" None)) 503 (w, (state, h));
  Some tt.

(** ** Queries *)

(** A call of a method of the database, with its lock. *)
Definition on_state {A} (c : sm (World * (Database * list Runtime)) Failure A) (app : App) : option (A * App) :=
  call (on_database c) app.
Definition insert_all (nodes : list NodeRecord) (app : App) : option App :=
  '(_, app) ← on_state (sm_for nodes (λ node, upsert_node node ;; mret tt)) app; Some app.

Definition traversal_stream_endpoint_emits_incremental_ndjson_frames : test :=
  app ← test_state;
  let admin_key := admin_key app in
  node_a ← node_of "stream_a" "memory";
  node_b ← node_of "stream_b" "memory";
  edge ← edge_of "stream_edge_ab" node_a node_b "relates_to";
  app ← insert_all [node_a; node_b] app;
  '(_, app) ← on_state (upsert_edge edge) app;
  '(response, app) ← ask admin_key
    (PostQueryStream (Traverse (node_id node_a) None Outgoing (Some 1%N) (Some 10%N) None None)) 200 app;
  frames ← lines_in response;
  frame_is frames 0 "meta" ;;
  frame_is frames 1 "node" ;;
  frame_is frames 2 "edge" ;;
  frame_is frames 3 "node" ;;
  end_frame ← list.last frames;
  assert (typed "end" end_frame).

Definition with_default_vector (vector : list f32) (node : NodeRecord) : NodeRecord := insert_vector "default" vector node.
(** The literals of this test have one digit. *)
Definition tenths (n : Z) : f64 := F64.div (F64.of_Z n) (F64.of_Z 10).

(** The second half of [performs_crud_and_query_round_trip]: what is found by time, vector and
    rank. *)
Definition finds_by_time_vector_and_rank (admin_key : option string) (app : App) : test :=
  app ← send admin_key (PostQuery (TimeRange "timestamp" 900 2000 10)) 200 app;
  '(vector_response, app) ← ask admin_key
    (PostQuery (VectorSearch [F32.one; F32.zero] (Some "memory") None 2 None)) 200 app;
  vector_json ← query_of vector_response;
  assert_eq (length (qr_ranked_results vector_json)) 2%nat ;;
  node_id ← expect (NodeId_new "node_a");
  _ ← send admin_key (PostQuery (RankedRetrieval (Some [F32.one; F32.zero]) (Some node_id) (Some "relates_to")
    (Some 900%Z) (Some 10000%Z) None 2 None 1200 (Some "v1-default"))) 200 app;
  Some tt.

Definition performs_crud_and_query_round_trip : test :=
  app ← test_state;
  let admin_key := admin_key app in
  node_a ← node_with "node_a" "memory" [("unique_key", PString "alpha"); ("timestamp", PInteger 1000);
    ("importance", PFloat (tenths 9)); ("confidence", PFloat (tenths 8))];
  let node_a := with_default_vector [F32.one; F32.zero] node_a in
  node_b ← node_with "node_b" "memory" [("timestamp", PInteger 1100);
    ("importance", PFloat (tenths 6)); ("confidence", PFloat (tenths 7))];
  let node_b := with_default_vector [F32.lit 7 10; F32.lit 3 10] node_b in
  edge ← edge_of "edge_ab" node_a node_b "relates_to";
  app ← send admin_key (PostNode node_a) 200 app;
  app ← send admin_key (PostNode node_b) 200 app;
  app ← send admin_key (PostEdge edge) 200 app;
  app ← send admin_key (GetNode "node_a") 200 app;
  '(neighbor_response, app) ← ask admin_key
    (PostQuery (ListNeighbors (node_id node_a) (Some "relates_to") Outgoing None)) 200 app;
  neighbor_json ← query_of neighbor_response;
  assert_eq (length (qr_nodes neighbor_json)) 1%nat ;;
  app ← send admin_key (PostQuery (Traverse (node_id node_a) (Some "relates_to") Outgoing (Some 1%N) (Some 100%N)
    (Some 5000%N) None)) 200 app;
  app ← send admin_key (PostQuery (GetNodeByUniqueKey "alpha")) 200 app;
  finds_by_time_vector_and_rank admin_key app.

(** The one node of the answer. *)
Definition only_node (response : Result ApiError Payload) : option NodeRecord :=
  r ← query_of response;
  match qr_nodes r with [node] => Some node | _ => None end.
Definition finds_only (admin_key : option string) (request : QueryRequest) (id : string) (app : App) : option App :=
  '(response, app) ← ask admin_key (PostQuery request) 200 app;
  node ← only_node response;
  assert_eq (node_id_str (node_id node)) id ;;
  Some app.

(** The stream at the end of [filter_nodes_query_and_stream_support_multiple_examples]. *)
Definition streams_either_condition (admin_key : option string) (app : App) : test :=
  '(response, app) ← ask admin_key (PostQueryStream (FilterNodes (Some "user")
    (FOr [FGt "score" (PInteger 90); FEq "unique_key" (PString "bob")]) (Some 10%N))) 200 app;
  frames ← lines_in response;
  frame_is frames 0 "meta" ;;
  let streamed_ids := filter (λ line, typed "node" line = true) frames in
  assert_eq (zip_with str_contains streamed_ids [member "id" "user_alice"; member "id" "user_bob"]) [true; true] ;;
  assert_eq (length streamed_ids) 2%nat ;;
  end_frame ← list.last frames;
  assert (typed "end" end_frame).

Definition filter_nodes_query_and_stream_support_multiple_examples : test :=
  app ← test_state;
  let admin_key := admin_key app in
  alice ← node_with "user_alice" "user" [("unique_key", PString "alice"); ("score", PInteger 95)];
  bob ← node_with "user_bob" "user" [("unique_key", PString "bob"); ("score", PInteger 88)];
  runner ← node_with "service_runner" "service" [("unique_key", PString "svc-runner"); ("score", PInteger 99)];
  app ← send admin_key (PostNode alice) 200 app;
  app ← send admin_key (PostNode bob) 200 app;
  app ← send admin_key (PostNode runner) 200 app;
  app ← finds_only admin_key (FilterNodes (Some "user") (FGt "score" (PInteger 90)) (Some 10%N)) "user_alice" app;
  app ← finds_only admin_key (FilterNodes None (FEq "id" (PString "user_bob")) (Some 5%N)) "user_bob" app;
  app ← finds_only admin_key (FilterNodes None (FEq "label" (PString "service")) (Some 5%N)) "service_runner" app;
  streams_either_condition admin_key app.

(** ** Records *)

Definition node_in (response : Result ApiError Payload) : option NodeRecord :=
  match response with Ok (NodePayload n) => Some n | _ => None end.
Definition edge_in (response : Result ApiError Payload) : option EdgeRecord :=
  match response with Ok (EdgePayload e) => Some e | _ => None end.
Definition edge_with (id : string) (source target : NodeRecord) (properties : list (string * PropertyValue)) : option EdgeRecord :=
  edge ← edge_of id source target "relates_to";
  Some (mkEdge (edge_id edge) (edge_source edge) (edge_target edge) (edge_type edge) (list_to_map properties)).

(** The edge of [node_and_edge_endpoints_cover_read_update_and_delete_flows], and the deletions. *)
Definition updates_and_deletes_edge (admin_key : option string) (node_a node_b : NodeRecord) (app : App) : test :=
  edge ← edge_with "crud_edge_ab" node_a node_b [("strength", PInteger 1)];
  app ← send admin_key (PostEdge edge) 200 app;
  app ← send admin_key (GetEdge "crud_edge_ab") 200 app;
  updated ← edge_with "crud_edge_ab" node_a node_b [("strength", PInteger 5); ("status", PString "verified")];
  '(response, app) ← ask admin_key (PutEdge "crud_edge_ab" updated) 200 app;
  update_edge_json ← edge_in response;
  assert_eq (edge_properties update_edge_json !! "strength") (Some (PInteger 5)) ;;
  assert_eq (edge_properties update_edge_json !! "status") (Some (PString "verified")) ;;
  app ← send admin_key (DeleteEdgeById "crud_edge_ab") 204 app;
  app ← send admin_key (GetEdge "crud_edge_ab") 404 app;
  app ← send admin_key (DeleteNodeById "crud_node_b") 204 app;
  _ ← send admin_key (GetNode "crud_node_b") 404 app;
  Some tt.

Definition node_and_edge_endpoints_cover_read_update_and_delete_flows : test :=
  app ← test_state;
  let admin_key := admin_key app in
  node_a ← node_with "crud_node_a" "memory" [("value", PInteger 1)];
  node_b ← node_with "crud_node_b" "memory" [("value", PInteger 2)];
  app ← send admin_key (PostNode node_a) 200 app;
  app ← send admin_key (PostNode node_b) 200 app;
  updated ← node_with "crud_node_a" "memory" [("value", PInteger 10); ("status", PString "updated")];
  app ← send admin_key (PutNode "crud_node_a" updated) 200 app;
  '(response, app) ← ask admin_key (GetNode "crud_node_a") 200 app;
  get_node_json ← node_in response;
  assert_eq (node_properties get_node_json !! "status") (Some (PString "updated")) ;;
  updates_and_deletes_edge admin_key node_a node_b app.

Definition rejects_path_id_body_id_mismatch : test :=
  app ← test_state;
  node ← node_with "node_b" "memory" [("flag", PBoolean true)];
  _ ← send (admin_key app) (PutNode "node_a" node) 400 app;
  Some tt.

(** ** Transactions *)

Definition summary_of (response : Result ApiError Payload) : option TransactionSummary :=
  match response with Ok (SummaryPayload s) => Some s | _ => None end.
Definition summaries_of (response : Result ApiError Payload) : option (list TransactionSummary) :=
  match response with Ok (SummariesPayload l) => Some l | _ => None end.
(** The identifier of a transaction that is begun. *)
Definition begin (admin_key : option string) (app : App) : option (string * App) :=
  '(response, app) ← ask admin_key (PostBegin (Some Snapshot)) 200 app;
  summary ← summary_of response;
  Some (transaction_id_str (ts_transaction_id summary), app).

(** A write outside of the second transaction of
    [transaction_endpoints_support_snapshot_reads_and_commit] makes its commit fail. *)
Definition conflicting_commit_fails (admin_key : option string) (app : App) : test :=
  '(conflict_transaction_id, app) ← begin admin_key app;
  original_update ← node_with "node_tx" "memory" [("value", PInteger 2)];
  conflicting_update ← node_with "node_tx" "memory" [("value", PInteger 3)];
  '(_, app) ← oneshot admin_key (PostOperation conflict_transaction_id (UpsertNode original_update)) app;
  app ← send admin_key (PutNode "node_tx" conflicting_update) 200 app;
  _ ← send admin_key (PostCommit conflict_transaction_id) 409 app;
  Some tt.

Definition transaction_endpoints_support_snapshot_reads_and_commit : test :=
  app ← test_state;
  let admin_key := admin_key app in
  '(transaction_id, app) ← begin admin_key app;
  node_a ← node_with "node_tx" "memory" [("value", PInteger 1)];
  app ← send admin_key (PostOperation transaction_id (UpsertNode node_a)) 200 app;
  '(response, app) ← ask admin_key (PostTransactionQuery transaction_id (GetNodeById (node_id node_a))) 200 app;
  tx_query_json ← query_of response;
  assert_eq (length (qr_nodes tx_query_json)) 1%nat ;;
  app ← send admin_key (GetNode "node_tx") 404 app;
  app ← send admin_key (PostCommit transaction_id) 200 app;
  app ← send admin_key (GetNode "node_tx") 200 app;
  conflicting_commit_fails admin_key app.

Definition transaction_query_preserves_stale_unique_key_view : test :=
  app ← test_state;
  let admin_key := admin_key app in
  original ← node_with "node_lookup" "memory" [("unique_key", PString "goal-alpha"); ("value", PInteger 1)];
  app ← send admin_key (PostNode original) 200 app;
  '(transaction_id, app) ← begin admin_key app;
  updated ← node_with "node_lookup" "memory_updated" [("unique_key", PString "goal-beta"); ("value", PInteger 2)];
  app ← send admin_key (PutNode "node_lookup" updated) 200 app;
  '(response, app) ← ask admin_key (PostTransactionQuery transaction_id (GetNodeByUniqueKey "goal-alpha")) 200 app;
  tx_query_json ← query_of response;
  first ← qr_nodes tx_query_json !! 0%nat;
  assert_eq (node_properties first !! "unique_key") (Some (PString "goal-alpha")) ;;
  _ ← send admin_key (PostQuery (GetNodeByUniqueKey "goal-beta")) 200 app;
  Some tt.

Definition transaction_query_includes_staged_node_overlay : test :=
  app ← test_state;
  let admin_key := admin_key app in
  '(transaction_id, app) ← begin admin_key app;
  staged ← node_with "node_staged" "memory" [("unique_key", PString "goal-staged")];
  app ← send admin_key (PostOperation transaction_id (UpsertNode staged)) 200 app;
  '(response, app) ← ask admin_key (PostTransactionQuery transaction_id (GetNodeByUniqueKey "goal-staged")) 200 app;
  tx_query_json ← query_of response;
  first ← qr_nodes tx_query_json !! 0%nat;
  assert_eq (node_id first) (node_id staged) ;;
  '(response, app) ← ask admin_key (PostQuery (GetNodeByUniqueKey "goal-staged")) 200 app;
  committed_query_json ← query_of response;
  assert (is_nil (qr_nodes committed_query_json)).

(** The stream and the rollback of
    [transaction_listing_summary_stream_and_rollback_endpoints_work]. *)
Definition streams_and_rolls_back (admin_key : option string) (transaction_id : string) (app : App) : test :=
  staged_node ← node_with "tx_stream_node" "memory" [("unique_key", PString "tx-stream")];
  app ← send admin_key (PostOperation transaction_id (UpsertNode staged_node)) 200 app;
  '(response, app) ← ask admin_key (PostTransactionQueryStream transaction_id (GetNodeById (node_id staged_node))) 200 app;
  lines ← lines_in response;
  let stream_payload := text lines in
  assert (typed "meta" stream_payload) ;;
  assert (typed "node" stream_payload) ;;
  assert (str_contains stream_payload (member "id" "tx_stream_node")) ;;
  assert (typed "end" stream_payload) ;;
  '(response, app) ← ask admin_key (PostRollback transaction_id) 200 app;
  rollback_json ← summary_of response;
  assert_eq (transaction_id_str (ts_transaction_id rollback_json)) transaction_id ;;
  assert_eq (ts_state rollback_json) RolledBack ;;
  '(response, app) ← ask admin_key GetTransactions 200 app;
  post_rollback_list_json ← summaries_of response;
  assert (is_nil post_rollback_list_json).

Definition transaction_listing_summary_stream_and_rollback_endpoints_work : test :=
  app ← test_state;
  let admin_key := admin_key app in
  '(transaction_id, app) ← begin admin_key app;
  '(response, app) ← ask admin_key GetTransactions 200 app;
  list_json ← summaries_of response;
  assert_eq (transaction_id_str ∘ ts_transaction_id <$> list_json) [transaction_id] ;;
  '(response, app) ← ask admin_key (GetTransaction transaction_id) 200 app;
  summary_json ← summary_of response;
  assert_eq (transaction_id_str (ts_transaction_id summary_json)) transaction_id ;;
  assert_eq (ts_state summary_json) Active ;;
  streams_and_rolls_back admin_key transaction_id app.

(** An integer property of a node in a snapshot of the database. *)
Definition value_in (snapshot : GraphSnapshot) (id : NodeId) : option Z :=
  node ← fst (gs_maps snapshot) !! id;
  value ← property node "value";
  as_i64 value.
Definition published_snapshot_is_immutable_after_commit : test :=
  app ← test_state;
  initial ← node_with "node_a" "memory" [("value", PInteger 1)];
  '(_, app) ← on_state (upsert_node initial) app;
  let committed_snapshot := db_published_snapshot (api_database app.2.1) in
  updated ← node_with "node_a" "memory" [("value", PInteger 2)];
  '(_, app) ← on_state (upsert_node updated) app;
  let node_id := node_id initial in
  assert_eq (value_in committed_snapshot node_id) (Some 1%Z) ;;
  let refreshed_snapshot := db_published_snapshot (api_database app.2.1) in
  assert_eq (value_in refreshed_snapshot node_id) (Some 2%Z).

(** ** Maintenance *)

Definition status_in (response : Result ApiError Payload) : option MaintenanceStatusResponse :=
  match response with Ok (MaintenanceStatusPayload s) => Some s | _ => None end.
Definition with_observability (o : ObservabilityConfig) (c : AppConfig) : AppConfig :=
  mkAppConfig (server c) (storage c) (wal c) (auth c) (maintenance c) (vector_index c) o.
Definition with_maintenance (m : MaintenanceConfig) (c : AppConfig) : AppConfig :=
  mkAppConfig (server c) (storage c) (wal c) (auth c) m (vector_index c) (observability c).

(** The restore at the end of [admin_endpoints_manage_storage], and the store it leaves. *)
Definition restores_the_backup (admin_key : option string) (backup_root : string) (app : App) : test :=
  let config := api_config app.2.1 in
  newer ← node_with "node_after_backup" "memory" [("timestamp", PInteger 2000)];
  app ← send admin_key (PostNode newer) 200 app;
  '(w, _) ← send admin_key (PostRestore backup_root None) 200 app;
  '(restored_engine, w) ← call (open_engine config) w;
  node_admin ← expect (NodeId_new "node_admin");
  node_after_backup ← expect (NodeId_new "node_after_backup");
  assert (bool_decide (is_Some (Engine.get_node restored_engine node_admin))) ;;
  assert (bool_decide (Engine.get_node restored_engine node_after_backup = None)).

Definition admin_endpoints_manage_storage : test :=
  app ← test_state;
  let admin_key := admin_key app in
  let storage_root := path_of_string (Config.root_dir (storage (api_config app.2.1))) in
  let backup_root := "tmp/T/undr9-api-backup" in
  node ← node_with "node_admin" "memory" [("timestamp", PInteger 1000)];
  app ← send admin_key (PostNode node) 200 app;
  app ← send admin_key PostRebuildIndexes 200 app;
  app ← send admin_key GetIntegrity 200 app;
  app ← send admin_key PostCompact 200 app;
  app ← send admin_key (PostBackup backup_root) 200 app;
  assert (path_exists app.1 storage_root) ;;
  assert (path_exists app.1 (path_of_string backup_root)) ;;
  assert (path_exists app.1 (BACKUP_MANIFEST_FILE_NAME :: path_of_string backup_root)) ;;
  restores_the_backup admin_key backup_root app.

Definition admin_audit_endpoint_enforces_export_limit_and_retention : test :=
  let config := api_config_in "undr9-api-audit-test" in
  let o := observability config in
  app ← start (with_observability (mkObservability (log_level o) (metrics_enabled o) (tracing_enabled o)
    (tracing_json o) (otlp_enabled o) (otlp_protocol o) (otlp_endpoint o) (otlp_headers o) (otlp_timeout_ms o) 2 2) config);
  let admin_key := admin_key app in
  app ← send admin_key PostRebuildIndexes 200 app;
  app ← send admin_key PostRebuildIndexes 200 app;
  app ← send admin_key PostRebuildIndexes 200 app;
  '(response, app) ← ask admin_key (GetAudit (Some 2%N)) 200 app;
  events ← match response with Ok (AuditPayload events) => Some events | _ => None end;
  assert_eq (length events) 2%nat ;;
  assert (forallb (λ event, bool_decide (ae_action event = "rebuild_indexes")) events) ;;
  _ ← send admin_key (GetAudit (Some 3%N)) 422 app;
  Some tt.

Definition maintenance_status_endpoint_reports_last_successful_operation : test :=
  app ← test_state;
  let admin_key := admin_key app in
  app ← send admin_key PostRebuildIndexes 200 app;
  '(response, app) ← ask admin_key GetMaintenanceStatus 200 app;
  status ← status_in response;
  assert (negb (in_progress status)) ;;
  assert_eq (last_operation status) (Some "rebuild_indexes") ;;
  assert_eq (last_outcome status) (Some "success").

Definition maintenance_budget_rejects_oversized_operation : test :=
  let config := api_config_in "undr9-api-maint-budget-test" in
  app ← start (with_maintenance (mkMaintenance 1 10) config);
  let admin_key := admin_key app in
  node_a ← node_with "node_a" "memory" [];
  node_b ← node_with "node_b" "memory" [];
  app ← send admin_key (PostNode node_a) 200 app;
  app ← send admin_key (PostNode node_b) 200 app;
  app ← send admin_key PostCompact 422 app;
  '(response, app) ← oneshot admin_key GetMaintenanceStatus app;
  status ← status_in response;
  assert_eq (last_operation status) (Some "compact") ;;
  assert_eq (last_outcome status) (Some "rejected").

(** ** Replication and cluster *)

(** A service without its disk: the services of a test share the disk. *)
Definition Process : Type := ApiState * list Runtime.
Definition process_key (p : Process) : option string := Some (admin_api_key (auth (api_config p.1))).
Definition replication_in (response : Result ApiError Payload) : option ReplicationStatusResponse :=
  match response with Ok (ReplicationPayload r) => Some r | _ => None end.
Definition topology_in (response : Result ApiError Payload) : option ClusterTopology :=
  match response with Ok (TopologyPayload t) => Some t | _ => None end.

(** What the leader of [replication_endpoints_support_log_shipping_and_acknowledgement] has
    written is shipped to the follower and acknowledged. *)
Definition ships_and_acknowledges (w : World) (leader follower : Process) : test :=
  let leader_key := process_key leader in
  let follower_key := process_key follower in
  '(response, (w, leader)) ← ask leader_key (GetReplicationHistory (Some 0%N)) 200 (w, leader);
  history_records ← match response with Ok (HistoryPayload records) => Some records | _ => None end;
  assert_eq (source_lsn <$> history_records) [1%N] ;;
  '(w, follower) ← send follower_key (PostApply history_records) 200 (w, follower);
  '(w, follower) ← send follower_key (GetNode "replicated_node") 200 (w, follower);
  '(response, (w, leader)) ← oneshot leader_key GetReplicationStatus (w, leader);
  status_before_ack ← replication_in response;
  assert_eq (sr_replica_lag status_before_ack !! "replica-1") (Some 1%N) ;;
  '(response, (w, leader)) ← ask leader_key (PostAck "replica-1" 1) 200 (w, leader);
  ack_json ← replication_in response;
  assert_eq (sr_replica_lag ack_json !! "replica-1") (Some 0%N).

Definition replication_endpoints_support_log_shipping_and_acknowledgement : test :=
  '(w, leader) ← test_state_with_identity "leader-1" "127.0.0.1:9001" disk;
  '(w, follower) ← test_state_with_identity "replica-1" "127.0.0.1:9002" w;
  let leader_key := process_key leader in
  let follower_key := process_key follower in
  '(w, leader) ← send leader_key PostLeader 200 (w, leader);
  '(w, leader) ← send leader_key (PostClusterNode "replica-1" "127.0.0.1:9101") 200 (w, leader);
  '(w, follower) ← send follower_key (PostFollower "leader-1" "127.0.0.1:9100") 200 (w, follower);
  '(w, follower) ← send follower_key (PostFollower "leader-1" "127.0.0.1:9100") 200 (w, follower);
  local ← node_with "replica_local_write" "memory" [];
  '(w, follower) ← send follower_key (PostNode local) 409 (w, follower);
  replicated ← node_with "replicated_node" "memory" [("unique_key", PString "replicated")];
  '(w, leader) ← send leader_key (PostNode replicated) 200 (w, leader);
  ships_and_acknowledges w leader follower.

Definition replication_apply_rejects_invalid_batch_before_persisting_any_writes : test :=
  '(w, leader) ← test_state_with_identity "leader-1" "127.0.0.1:9003" disk;
  '(w, follower) ← test_state_with_identity "replica-1" "127.0.0.1:9004" w;
  let follower_key := process_key follower in
  '(w, leader) ← send (process_key leader) PostLeader 200 (w, leader);
  '(w, follower) ← send follower_key (PostFollower "leader-1" "127.0.0.1:9100") 200 (w, follower);
  partial_node ← node_of "partial_node" "memory";
  unexpected_node ← node_of "unexpected_node" "memory";
  let valid_record := mkRepRecord "leader-1" 2 1 (mkBatch [partial_node] [] [] []) in
  let invalid_record := mkRepRecord "leader-1" 1 2 (mkBatch [unexpected_node] [] [] []) in
  '(w, follower) ← send follower_key (PostApply [valid_record; invalid_record]) 409 (w, follower);
  '(w, follower) ← send follower_key (GetNode "partial_node") 404 (w, follower);
  '(response, _) ← ask follower_key GetReplicationStatus 200 (w, follower);
  status_json ← replication_in response;
  assert_eq (last_applied_source_lsn (sr_status status_json)) 0%N.

Definition cluster_promotion_updates_local_replication_mode : test :=
  app ← test_state_with_identity "leader-1" "127.0.0.1:9005" disk;
  let admin_key := admin_key app in
  app ← send admin_key PostLeader 200 app;
  app ← send admin_key (PostClusterNode "replica-2" "127.0.0.1:9202") 200 app;
  app ← send admin_key (PostPromote "replica-2") 200 app;
  '(response, app) ← ask admin_key GetTopology 200 app;
  topology_json ← topology_in response;
  assert_eq (Cluster.leader_node_id topology_json) (Some "replica-2") ;;
  '(response, app) ← ask admin_key GetReplicationStatus 200 app;
  status_json ← replication_in response;
  assert_eq (mode (sr_status status_json)) Follower ;;
  assert_eq (Replication.leader_node_id (sr_status status_json)) (Some "replica-2").

Definition repair_and_cluster_health_endpoints_report_updated_state : test :=
  app ← test_state_with_identity "leader-health" "127.0.0.1:9006" disk;
  let admin_key := admin_key app in
  app ← send admin_key PostLeader 200 app;
  app ← send admin_key (PostClusterNode "replica-health" "127.0.0.1:9301") 200 app;
  '(response, app) ← ask admin_key (PostNodeHealth "replica-health" false) 200 app;
  mark_unhealthy_json ← topology_in response;
  '(_, unhealthy_replica) ← list_find (λ node, Cluster.cn_node_id node = "replica-health") (Cluster.nodes mark_unhealthy_json);
  assert (negb (Cluster.cn_healthy unhealthy_replica)) ;;
  '(response, app) ← ask admin_key PostRepair 200 app;
  repair_json ← match response with Ok (IntegrityPayload r) => Some r | _ => None end;
  assert (ir_manifest_present repair_json) ;;
  assert_eq (length (ir_issues repair_json)) 0%nat ;;
  '(response, app) ← ask admin_key GetMaintenanceStatus 200 app;
  status_json ← status_in response;
  assert_eq (last_operation status_json) (Some "repair") ;;
  assert_eq (last_outcome status_json) (Some "success").

(** All of them pass. *)
Theorem service_passes_its_tests : Forall passes
  [health_endpoint_reports_ok; readiness_endpoint_reflects_startup_state;
   metrics_endpoint_includes_per_route_request_series; unauthorized_errors_emit_stable_header_and_metrics_series;
   rejects_missing_api_key; auth_disabled_deployment_fails_closed;
   traversal_stream_endpoint_emits_incremental_ndjson_frames; performs_crud_and_query_round_trip;
   filter_nodes_query_and_stream_support_multiple_examples;
   node_and_edge_endpoints_cover_read_update_and_delete_flows; rejects_path_id_body_id_mismatch;
   transaction_endpoints_support_snapshot_reads_and_commit; transaction_query_preserves_stale_unique_key_view;
   transaction_query_includes_staged_node_overlay; transaction_listing_summary_stream_and_rollback_endpoints_work;
   published_snapshot_is_immutable_after_commit; admin_endpoints_manage_storage;
   admin_audit_endpoint_enforces_export_limit_and_retention;
   maintenance_status_endpoint_reports_last_successful_operation; maintenance_budget_rejects_oversized_operation;
   replication_endpoints_support_log_shipping_and_acknowledgement;
   replication_apply_rejects_invalid_batch_before_persisting_any_writes;
   cluster_promotion_updates_local_replication_mode; repair_and_cluster_health_endpoints_report_updated_state].
Proof. repeat (constructor; [vm_compute; reflexivity|]). constructor. Qed.
